(* ===== verification/_CoqProject ===== *)
-Q . S2P
Prelude.v
MpMessages.v
Partition.v
MpUtil.v
MpAcceptor.v
MpProxyLeader.v
MpLeader.v
MpReplica.v
MpBatcher.v
MpParticipant.v
MpSystem.v
MpInv.v
MpFrame.v
MpSteps.v
MpQuiet.v
MpLeaderSteps.v
MpSafety.v
MpBoot.v
MpTheorems.v
MpValidity.v
MpRuns.v
MpSteady.v
MpProgress.v
Election.v
Ble.v
VrLe.v
MpLe.v
Wire.v
MpWire.v
PaxosWire.v
MsgWire.v
WireTyped.v
PaxosStorage.v
Communicator.v
PaxosReplica.v
KvTrace.v
PaxosComp.v
MpNode.v
PartitioningActor.v
PaxosTransfer.v
PaxosRouting.v
RaftDisk.v
RaftCore.v
RaftReplica.v
RaftComp.v
RaftThm.v
Client.v
ClientThm.v
ReconfigClient.v
ReconfigClientThm.v
ExpText.v
ExpResults.v
Suite.v
SuiteThm.v
Experiment.v
ExperimentThm.v
AtomicBroadcast.v
Launch.v
Helpers.v
