(* ===== verification/Prelude.v ===== *)
(** * Replicated-log protocols of the Omni-Paxos artifact

    This library models the protocol code of the benchmark in
    [src/kompact/src/bench/atomic_broadcast/] (paths below are relative to it),
    with the harness that runs it and the suite in [src/shared_rust/src], and
    proves what they guarantee.  The protocols are a set of Kompact actors: every component owns its state and reacts to network messages,
    local messages, port events and timers.  A handler is translated to a
    function from the component's state and the input to the new state and the
    list of effects it performs (messages sent, events triggered, timers
    scheduled and cancelled), in the order of the code; [None] is a panic.  The
    code under [#[cfg(feature = "simulate_partition")]] (a default feature) is
    modelled; of [measure_io] (off) only the counters are, logging is not.  Builds are
    [--release], so additions wrap around; they are written with the operators
    of [Prelude].

    ** Parts and files

    - [Prelude]: machine integers, list and option lemmas, maxima, tactics.
    - [MpMessages]: [multi_paxos/messages.rs], [Proposal], [ProposalResp] and
      [Ping] of [messages.rs], the actor paths of [multi_paxos/multipaxos.rs],
      effects and broadcasts.  [Partition]: the simulated partitions, which
      every component repeats.
    - Multi-Paxos components, a file each with a Module of the same name as the
      Rust type: [MpUtil] ([multi_paxos/util.rs]: [ClassicRoundRobin],
      [BufferMap]), [MpAcceptor] ([acceptor.rs]), [MpProxyLeader]
      ([proxy_leader.rs]), [MpLeader] ([leader.rs]), [MpReplica]
      ([replica.rs]), [MpBatcher] ([batcher.rs]), [MpParticipant]
      ([participant.rs]).  Definitions keep the names of the methods; a timer
      closure is the definition with the suffix [_timeout]; the constructor
      [with] is [with_].
    - [MpSystem]: [multi_paxos/multipaxos.rs] (paths, options, creation, start
      and routing of the six components of a node), and the cluster: nodes, the
      list of all packets ever sent and the scheduled timers, with one
      executable [step] per event.  A packet stays in the list when it is
      delivered, so every loss, reordering and duplication is a run.  The class
      [IterationId] is the iteration to which the cluster belongs.
    - [MpNode]: the rest of [multi_paxos/multipaxos.rs], the node as an actor
      that is initialised, run, stopped and killed once in every iteration, and
      the refinement of [MpSystem] by a cluster of such nodes.
    - Safety of Multi-Paxos: [MpInv] (invariants of the components against the
      sent messages), [MpFrame] (the cluster invariant [inv] and its frame
      rules), [MpSteps] (acceptors, proxy leaders, replicas), [MpQuiet] (steps
      that send nothing of the protocol), [MpLeaderSteps] (the leader),
      [MpSafety] (every safe step preserves [inv]; at most one value is
      chosen), [MpBoot] ([inv] holds after start), [MpTheorems] (the claims and
      the counterexample runs).  [MpValidity]: an invariant of every run, safe or
      not, by which values come from the clients.
    - Progress of Multi-Paxos: [MpRuns] (runs in which only given components
      take steps, and what they leave alone; the step lemmas, from a description
      of the cluster by one predicate per component), [MpSteady] (the components
      in such a run; phase 1, the votes and the chosen values as rounds over the
      live nodes; the recovery of chosen slots), [MpProgress] (the started
      cluster, the election of a leader, [mp_progress] and [mp_failover]).
    - Leader elections of Omni-Paxos and Raft: [Election] ([Ballot] of
      [ble.rs], the messages, and the class [Election], the contract of the
      [BallotLeaderElection] port with the theorem that lifts it to runs),
      [Ble] ([ble.rs]), [VrLe] ([vr_le.rs]), [MpLe] ([mp_le.rs]).  [Ble] and
      [VrLe] are instances of the class; [MpLe] is not, which
      [mple_announces_older_leader] shows.
    - Wire formats: [Wire] (the class [BufOps] of buffer operations, that is
      what the code relies on of the external crate [bytes]; a deserialiser
      monad with errors and panics apart; the tactic [wire]; a big-endian
      instance for examples), [WireTyped] (the converse of the round trips:
      what a deserialiser returns is well typed), [MpWire] ([multi_paxos/serializers.rs] and
      [Ping]), [PaxosWire] (Omni-Paxos and reconfiguration messages of
      [messages.rs]; the Omni-Paxos data types are external and appear as
      records with the constructor functions of the class [Constructors]),
      [MsgWire] (elections, clients, stop and partitioning messages of
      [messages.rs], and [get_new_configuration]).
    - Omni-Paxos: [PaxosStorage] ([storage.rs], module [paxos]: the class
      [Sequence], which is the contract of a stored sequence, and
      [MemorySequence], an instance), [Communicator] ([communicator.rs], with
      the actor paths of a node), [PaxosReplica] ([PaxosReplica] of [paxos.rs],
      one configuration; the Omni-Paxos core of the external crate is the class
      [PaxosCore], a parameter), [PaxosComp] ([PaxosComp] of [paxos.rs], the
      node, whose state holds the states of its children).  [PaxosComp.step] is
      one event of the node: a message of a replica, a network message with its
      sender, or the retry timer; what it asks of its children and of the
      network are its effects.  [PaxosTransfer] and [PaxosRouting] prove its
      theorems.
    - Raft storage: [RaftDisk] ([storage.rs], module [raft]: [DiskStorageCore]
      and what [DiskStorage] delegates to it).  A mapped file is a finite map
      from positions to bytes; the invariant [shape] relates the three files to
      the list of entries they hold, and [spec_step] is the abstract log.  The
      encoding of an entry is the class [RaftEntry].
    - Raft: [RaftCore] (the node of the raft crate, its entries and membership
      changes as the classes [RawNode] and [RaftContents], the trait
      [RaftStorage] of [storage.rs] with its contract [RaftStorageSpec], which
      [DiskStorage] meets), [RaftReplica] and [RaftComp] (the replica and the
      node of [raft.rs]), [RaftThm] (their theorems; the node there is the
      supervisor, its replica and the mailboxes between them).
    - The client: [Client] ([client.rs]: proposals, timeouts, experiment states,
      the simulated partitions and the stop protocol), [ClientThm] (its window
      of proposals and the topology of its partitions), and the client of the
      reconfiguration experiment, [ReconfigClient] ([reconfig_client.rs]) with
      [ReconfigClientThm] (its window, and that it comes to its end).

    - The harness of an experiment: [KvTrace] (the linearizability check of
      [src/shared_rust/src/lib.rs]), [PartitioningActor]
      ([src/kompact/src/partitioning_actor.rs]: the handshake between the master
      and the nodes, and its wire format), [ExpText] (strings: splitting,
      numbers), [ExpResults] (what [util.rs] writes of the results, as outputs
      and files), [Experiment] (the master of [benchmark_master.rs] with what of
      [util.rs] computes, and the parameter string that [benchmark_client.rs]
      reads), [ExperimentThm].
    - The benchmark suite: [Suite] ([benchmark.rs], [benchmark_runner.rs],
      [benchmark_client.rs] and [benchmark_master.rs] of [src/shared_rust/src]:
      interfaces of a benchmark as records, the processes of the clients, remote
      calls whose fate is an input, and the master with its state machine),
      [SuiteThm] (the order in which the suite uses a benchmark as the classes
      [MasterProtocol] and [ClientProtocol], and theorems against them),
      [AtomicBroadcast] ([benchmark.rs] and [benchmark_client.rs]: the instances
      of the two classes for this benchmark).
    - Start of a process: [Launch] ([main.rs], [run_with] of [lib.rs],
      [kompact_system_provider.rs] and [kompact/src/benchmark_runner.rs]: the
      modes of a process, its interface, runner and benchmarks, and systems of
      actors as the calls on their configuration; reading a socket address is
      a parameter), with what the three command lines of an experiment start
      ([deployment_launches]) and what is refused ([launch_refused]).
    - [Helpers]: [src/shared_rust/src/helpers] (chameneos, and the
      Floyd-Warshall algorithm on matrices and on blocks).

    ** Theorems

    - Agreement of Multi-Paxos: [mp_agreement] and [mp_replica_logs] hold on
      every [safe_run], that is while (a) no no-op timer fires at a leader
      outside phase 2, (b) no leader completes phase 1 without reported slots
      below its chosen watermark, and (c) rounds, slots and batch counts stay
      below 2^62 so no addition wraps.  (a) and (b) are tests on the state and
      the event, [flush_hazard] and [restart_hazard]; they are needed:
      [noop_flush_breaks_agreement] and [restart_breaks_agreement] give runs
      in which one such event lets two values be chosen in one slot.
      [mp_state_machine]: on such a run the replicas execute prefixes of one
      sequence, without holes, of proposed commands.
      [mp_validity]: on every run, chosen and logged commands were proposed, and
      clients are answered for chosen commands only.
      [iteration_refines_system]: the nodes that the harness initialises and
      runs, whatever the earlier iterations left of them, are such a cluster.
      [mp_progress]: with any minority of the nodes down and any live node as
      the one that serves the clients, commands can still be chosen, logged and
      answered: there is a schedule of the live nodes, for every cluster size,
      which is a [safe_run].  [mp_failover]: when the initial leader fails after
      it served commands, any other node can take over with any majority, and
      keeps what was chosen; that the recovered commands are the chosen ones
      follows from agreement, along the run itself.  No fairness is assumed of
      the network and the timers, so that every schedule answers is not claimed
      (the elections may compete forever).
    - Components: [acceptor_promises], [execute_log_spec],
      [buffer_map_refines], [next_classic_round_least], [batcher_conserves],
      [watermark_announcer], [recover_timer_never_cancelled],
      [election_monotone].
    - Elections: [ble_leaders_increasing], [vr_leaders_increasing] (leaders are
      announced in increasing order of ballots, an instance of the port
      contract), [vr_majority_votes], [vr_no_panic], [ble_timeout_spec],
      [ble_converges], [mple_step_leader].
    - Wire formats: a message that fits the wire is read back exactly, with
      what follows it untouched ([multi_paxos_roundtrip], [paxos_roundtrip],
      [reconfiguration_roundtrip], [messages_roundtrip]); unknown ids
      ([multi_paxos_unknown_ids]); what is received is well typed, whatever the
      bytes ([received_messages_fit]).  [new_configuration]: the membership
      computed for a reconfiguration.
    - Reconfiguration of Omni-Paxos: the replica that decides a stop sign
      reports it ([get_decided_spec]), the node hands the configuration over
      ([reconfig_handover]), a joining node transfers the final sequence and
      starts ([joining_node_starts]) from honest answers
      ([segment_request_answered]); what it stores is the part of the sequence
      that equal segments cover, without the remainder of the division
      ([transfer_prefix]).  The hypothesis of the second half, [first_init], is
      what [reconfig_handover] concludes of the messages sent; the hypothesis
      [honest_transfer] is what [segment_request_answered] concludes of the
      answers.  [reconfig_majority]: the quorum of the election afterwards.
    - The Omni-Paxos node and its replicas: [requests_conserved] (no client
      request is lost or duplicated), [replica_reports_leader],
      [replica_stop_protocol], [communicator_link], [memory_sequence_prefix].
    - Raft storage: [disk_storage_refines], the refinement of the abstract log
      by the files, for every sequence of calls within the contract [allowed].
    - Raft: [raft_requests_conserved] (no client request is lost or duplicated
      at a node, under any interleaving), [raft_reconfigures_once],
      [raft_log_refines] (what is persisted; its hypotheses are the contract of
      the crate on what it makes ready, and [RawNodeLaws], that the crate does
      not write to the storage).
    - The client: [client_window], its accounting of proposals (the inputs are
      those of an experiment up to its stop, [inputs_ok]), and
      [partition_topology], which links of the replicas each scenario cuts.
      [reconfig_client_finishes]: on the inputs of an experiment
      ([allowed]) the client of the reconfiguration experiment does not panic,
      is never idle, and finishes once, when everything was answered.
    - The harness: [all_linearizable_correct] (the check of a recorded run
      decides linearizability), [iteration_handshake] (the nodes are started
      once all are initialised), [partitioning_actor_roundtrip],
      [client_params_agree] (the nodes run the experiment that the master
      validated), [validated_reconfiguration_applies] (an accepted
      reconfiguration can be carried out), [prepare_configured],
      [run_configured] and [cleanup_configured] (an iteration does not panic),
      [windowed_file_roundtrip], [timeouts_summary] and [windows_add_up] (the
      files of the results).
    - The suite: [suite_answers_requests] (whatever calls are lost, every request
      is answered or cancelled and the master is ready again),
      [suite_completes_benchmark] and, for this benchmark, [experiment_runs] (an
      accepted experiment on deployed nodes is run to its end), [suite_ready].
    - [blocked_floyd_warshall_equiv] and [floyd_warshall_shortest].

    ** Fuel and bounds

    [Replica.execute_log_loop] takes fuel, one more than the length of the log
    buffer; each iteration reads a filled slot, so it is enough, which
    [execute_log_spec] proves.  The loops of the suite over the runs of a
    benchmark take fuel [S MAX_RUNS], and every iteration is a run, of which
    there are at most [MAX_RUNS]; [suite_answers_requests] and
    [suite_completes_benchmark] prove that it is enough.  The client's check-ins
    take fuel [MAX_ATTEMPTS] ([checkin_loop_spec]).  All other recursion is
    structural.  Clusters
    have fewer than 2^61 nodes in the agreement theorems.  Randomly drawn
    periods and indices are arguments of the handlers.

    ** Not modelled

    The external crates (Kompact, omnipaxos, raft, bytes, protobuf, grpc, memmap,
    hdrhistogram, hocon), the generated code of
    [src/shared_rust/src/kompics_benchmarks] apart from its data types,
    [MemStorage], whose methods are those of the raft crate, and the code that
    is only I/O: reading configuration files, opening files, the logger and the
    servers.  Statistics on [f64] (the relative
    error of the runs, the summaries of latencies) are parameters or left out.
    Of the nodes and of the harness the futures of the middleware are left out:
    registrations succeed, and waiting for a component has no effect.  That the
    client is answered is a theorem for Multi-Paxos ([mp_progress]); Omni-Paxos
    and Raft make progress only with their external cores. *)

From stdpp Require Export base numbers option list gmap sorting.
From Stdlib Require Export ZArith Lia.
From Stdlib Require Import Strings.Byte.

#[global] Open Scope Z_scope.

(** ** Machine integers

    A Rust [u8], [u32], [u64] or [usize] (64-bit targets) is a [Z] in the range
    of its width.  The programs are built with [cargo build --release], where
    [+] wraps around, so every addition of the sources that can leave the range
    is written with one of the wrapping operators below. *)

Declare Scope mach_scope.
Delimit Scope mach_scope with mach.

Definition in_u32 (z : Z) : Prop := 0 <= z < 2 ^ 32.
Definition in_u64 (z : Z) : Prop := 0 <= z < 2 ^ 64.

Definition u32_add (a b : Z) : Z := (a + b) mod 2 ^ 32.
Definition u64_add (a b : Z) : Z := (a + b) mod 2 ^ 64.

Definition u64_mul (a b : Z) : Z := (a * b) mod 2 ^ 64.
Definition u64_sub (a b : Z) : Z := (a - b) mod 2 ^ 64.
Definition u32_sub (a b : Z) : Z := (a - b) mod 2 ^ 32.

(** Integer division of unsigned integers; [None] is the panic of a division by
    zero. *)
Definition u64_div (a b : Z) : option Z := if b =? 0 then None else Some (a / b).

Notation "a +u32 b" := (u32_add a b) (at level 50, left associativity) : mach_scope.
Notation "a +u64 b" := (u64_add a b) (at level 50, left associativity) : mach_scope.
Notation "a *u64 b" := (u64_mul a b) (at level 40, left associativity) : mach_scope.
Notation "a -u32 b" := (u32_sub a b) (at level 50, left associativity) : mach_scope.
Notation "a -u64 b" := (u64_sub a b) (at level 50, left associativity) : mach_scope.
#[global] Open Scope mach_scope.

Lemma u64_add_small a b : 0 <= a + b < 2 ^ 64 -> a +u64 b = a + b.
Proof. intros. apply Z.mod_small. lia. Qed.

Lemma u32_add_small a b : 0 <= a + b < 2 ^ 32 -> a +u32 b = a + b.
Proof. intros. apply Z.mod_small. lia. Qed.

Lemma u64_sub_small a b : 0 <= a - b < 2 ^ 64 -> a -u64 b = a - b.
Proof. intros. apply Z.mod_small. lia. Qed.

Lemma u32_sub_small a b : 0 <= a - b < 2 ^ 32 -> a -u32 b = a - b.
Proof. intros. apply Z.mod_small. lia. Qed.

Lemma u64_add_range a b : in_u64 (a +u64 b).
Proof. apply Z.mod_pos_bound. lia. Qed.

Lemma u32_add_range a b : in_u32 (a +u32 b).
Proof. apply Z.mod_pos_bound. lia. Qed.

#[global] Instance in_u32_dec z : Decision (in_u32 z).
Proof. unfold in_u32. apply _. Defined.
#[global] Instance in_u64_dec z : Decision (in_u64 z).
Proof. unfold in_u64. apply _. Defined.

(** ** Bytes *)

Abbreviation bytes := (list byte).

#[global] Instance byte_eq_decision : EqDecision byte := Byte.byte_eq_dec.

(** ** Automation *)

(** The hint database of the development: monotonicity of the sent-message
    predicates, preservation lemmas of the component invariants. *)
Create HintDb omni discriminated.

(** Turn boolean tests of the translated guards into propositions. *)
Ltac bool_to_prop :=
  repeat match goal with
  | H : (_ =? _) = true |- _ => apply Z.eqb_eq in H
  | H : (_ =? _) = false |- _ => apply Z.eqb_neq in H
  | H : (_ <? _) = true |- _ => apply Z.ltb_lt in H
  | H : (_ <? _) = false |- _ => apply Z.ltb_ge in H
  | H : (_ <=? _) = true |- _ => apply Z.leb_le in H
  | H : (_ <=? _) = false |- _ => apply Z.leb_gt in H
  | H : (_ && _)%bool = true |- _ => apply andb_true_iff in H as [? ?]
  | H : (_ || _)%bool = false |- _ => apply orb_false_iff in H as [? ?]
  | H : negb _ = true |- _ => apply negb_true_iff in H
  | H : negb _ = false |- _ => apply negb_false_iff in H
  | H : bool_decide _ = true |- _ => apply bool_decide_eq_true_1 in H
  | H : bool_decide _ = false |- _ => apply bool_decide_eq_false_1 in H
  end.

(** Open every [option] bind and every match of a hypothesis that equates a
    translated handler with [Some _]. *)
Ltac handler_inv H :=
  repeat (cbn beta iota zeta in H;
    lazymatch type of H with
    | None = Some _ => discriminate H
    | mbind _ _ = Some _ =>
        let x := fresh "x" in let Hx := fresh "Hx" in
        apply bind_Some in H; destruct H as (x & Hx & H)
    | match ?x with _ => _ end = Some _ => destruct x eqn:?
    end);
  simplify_eq; bool_to_prop.

(** ** Lists *)

(** [Vec::get] with a machine integer as the index. *)
Definition vec_get {A} (l : list A) (i : Z) : option A :=
  if (0 <=? i) && (i <? Z.of_nat (length l)) then l !! Z.to_nat i else None.

Lemma vec_get_Some {A} (l : list A) i x :
  vec_get l i = Some x <-> 0 <= i /\ l !! Z.to_nat i = Some x.
Proof.
  unfold vec_get. split.
  - destruct (Z.leb_spec 0 i), (Z.ltb_spec i (Z.of_nat (length l))); by simpl.
  - intros [Hi Hl]. pose proof (lookup_lt_Some _ _ _ Hl).
    by rewrite (proj2 (Z.leb_le _ _)), (proj2 (Z.ltb_lt _ _)) by lia.
Qed.

Lemma vec_get_is_Some {A} (l : list A) i :
  is_Some (vec_get l i) <-> 0 <= i < Z.of_nat (length l).
Proof.
  unfold vec_get. destruct (Z.leb_spec 0 i), (Z.ltb_spec i (Z.of_nat (length l))); simpl;
    rewrite ?lookup_lt_is_Some; (split; [by intros ?%is_Some_None || lia|lia]).
Qed.

Section maxima.
(** [Iterator::max_by_key] keeps the last of several maximal elements. *)
Context {A : Type} (key : A -> Z).

Definition max_by_key_step (acc : option A) (x : A) : option A :=
  match acc with
  | None => Some x
  | Some y => if key x <? key y then Some y else Some x
  end.

Definition max_by_key (l : list A) : option A := foldl max_by_key_step None l.

Lemma max_by_key_fold l acc :
  match foldl max_by_key_step acc l with
  | None => acc = None /\ l = []
  | Some m => (Some m = acc \/ m ∈ l) /\
      (forall x, x ∈ l -> key x <= key m) /\
      (forall y, acc = Some y -> key y <= key m)
  end.
Proof.
  revert acc. induction l as [|x l IH]; intros acc; simpl.
  - destruct acc; [|done]. split; [by left|]. split; [set_solver|].
    intros y [= ->]. lia.
  - specialize (IH (max_by_key_step acc x)).
    destruct (foldl _ _ l) as [m|].
    + destruct IH as (Hin & Hmax & Hacc). split; [|split].
      * destruct Hin as [Hin|Hin]; [|right; set_solver].
        unfold max_by_key_step in Hin. destruct acc as [y|].
        -- destruct (key x <? key y); [by left|]. right; set_solver.
        -- right; set_solver.
      * intros z [->|Hz]%elem_of_cons; [|by apply Hmax].
        unfold max_by_key_step in Hacc. destruct acc as [y|]; [|by apply Hacc].
        destruct (key x <? key y) eqn:E; [|by apply Hacc].
        specialize (Hacc y eq_refl). bool_to_prop. lia.
      * intros y ->. unfold max_by_key_step in Hacc.
        destruct (key x <? key y) eqn:E; [by apply Hacc|].
        specialize (Hacc x eq_refl). bool_to_prop. lia.
    + destruct IH as [IH _]. unfold max_by_key_step in IH.
      destruct acc; [|done]. destruct (key x <? key a); done.
Qed.

Lemma max_by_key_Some l m :
  max_by_key l = Some m -> m ∈ l /\ forall x, x ∈ l -> key x <= key m.
Proof.
  intros H. pose proof (max_by_key_fold l None) as Hf.
  unfold max_by_key in H. rewrite H in Hf.
  destruct Hf as ([?|?] & ? & _); [discriminate|done].
Qed.

Lemma max_by_key_None l : max_by_key l = None <-> l = [].
Proof.
  pose proof (max_by_key_fold l None) as Hf. unfold max_by_key.
  split; [|by intros ->]. intros H. rewrite H in Hf. tauto.
Qed.
End maxima.

(** ** Majorities

    Two sets of processes drawn from the same [n] processes that each hold at
    least [n / 2 + 1] of them share a process. *)
Lemma majority_intersect (U Q1 Q2 : gset Z) (m : nat) :
  Q1 ⊆ U -> Q2 ⊆ U ->
  (m <= size Q1)%nat -> (m <= size Q2)%nat -> (size U < m + m)%nat ->
  exists a, a ∈ Q1 /\ a ∈ Q2.
Proof.
  intros H1 H2 Hm1 Hm2 HU.
  destruct (decide (Q1 ∩ Q2 = ∅)) as [He|Hne].
  - exfalso. assert (size (Q1 ∪ Q2) <= size U)%nat as Hle
      by (apply subseteq_size; set_solver).
    rewrite size_union in Hle; [lia|set_solver].
  - apply set_choose_L in Hne as [a Ha]. exists a. set_solver.
Qed.
