(* ===== verification/MpMessages.v ===== *)
(** Messages, actor paths and effects of the Multi-Paxos components.

    Translates [multi_paxos/messages.rs], the [Ping] message of
    [messages.rs] and the naming scheme of [multipaxos.rs] ([create_alias],
    [derive_component_actorpath]).  Every component of [multi_paxos/] is a
    Kompact actor; its handlers are translated to functions that return the new
    component state together with the list of effects the handler performed, in
    the order in which the code performs them. *)

From S2P Require Import Prelude.

(** ** Data exchanged between the components *)

Abbreviation Round := Z (only parsing).
Abbreviation Slot := Z (only parsing).
Abbreviation ProposalType := bytes (only parsing).

Record Phase1a := mkPhase1a {
  p1a_src : Z;
  p1a_round : Round;
  p1a_chosen_watermark : Slot }.

Inductive CommandBatchOrNoop :=
| CommandBatch (batch : list ProposalType)
| Noop.

Record Phase1bSlotInfo := mkPhase1bSlotInfo {
  info_slot : Slot;
  info_vote_round : Round;
  info_vote_value : CommandBatchOrNoop }.

Record Phase1b := mkPhase1b {
  p1b_acceptor_index : Z;
  p1b_round : Round;
  p1b_info : list Phase1bSlotInfo }.

Record Phase2a := mkPhase2a {
  p2a_src : Z;
  p2a_slot : Slot;
  p2a_round : Round;
  p2a_value : CommandBatchOrNoop }.

Record Phase2b := mkPhase2b {
  p2b_acceptor_index : Z;
  p2b_slot : Slot;
  p2b_round : Round }.

Record ChosenMsg := mkChosen {
  chosen_slot : Slot;
  chosen_value : CommandBatchOrNoop }.

Record Proposal := mkProposal { proposal_data : ProposalType }.

Record ProposalResp := mkProposalResp {
  resp_data : ProposalType;
  resp_latest_leader : Z;
  resp_leader_round : Z }.

Record Ping := mkPing { ping_round : Z; ping_leader_index : Z }.

Inductive ProxyLeaderInbound :=
| PI_Phase2a (p : Phase2a)
| PI_Phase2b (p : Phase2b).

Inductive LeaderInbound :=
| LI_Phase1b (p : Phase1b)
| LI_Nack (round : Round)
| LI_ChosenWatermark (slot : Slot)
| LI_Recover (slot : Slot)
| LI_ClientRequestBatch (batch : list Proposal)
| LI_LeaderInfoRequestBatcher (src : Z).

Inductive AcceptorInbound :=
| AI_Phase1a (p : Phase1a)
| AI_Phase2a (p : Phase2a).

Inductive ReplicaInbound :=
| RI_Chosen (c : ChosenMsg).

Inductive BatcherInbound :=
| BI_NotLeaderBatcher (batch : list Proposal)
| BI_LeaderInfoReplyBatcher (round : Round).

#[global] Instance CommandBatchOrNoop_eq_dec : EqDecision CommandBatchOrNoop.
Proof. solve_decision. Defined.
#[global] Instance Phase1a_eq_dec : EqDecision Phase1a.
Proof. solve_decision. Defined.
#[global] Instance Phase1bSlotInfo_eq_dec : EqDecision Phase1bSlotInfo.
Proof. solve_decision. Defined.
#[global] Instance Phase2a_eq_dec : EqDecision Phase2a.
Proof. solve_decision. Defined.
#[global] Instance Phase2b_eq_dec : EqDecision Phase2b.
Proof. solve_decision. Defined.

(** ** Actor paths

    The path of a component is named by the alias
    ["<component_name><pid>-<iteration_id>"] on the address of node [pid]. *)

Inductive component_name :=
| BATCHER | PARTICIPANT | LEADER | ACCEPTOR | REPLICA | PROXY_LEADER | CLIENT.

Record ActorPath := mkPath {
  ap_component : component_name;
  ap_pid : Z;
  ap_iteration : Z }.

#[global] Instance component_name_eq_dec : EqDecision component_name.
Proof. solve_decision. Defined.
#[global] Instance ActorPath_eq_dec : EqDecision ActorPath.
Proof. solve_decision. Defined.

(** ** Network messages and effects *)

(** [MProxyLocal] is a local [tell] on the proxy leader's actor reference, which
    is handled by [receive_local]; [MElection] is an indication on the
    [LeaderElectionPort]; all the others are serialised network messages. *)
Inductive NetMsg :=
| MLeader (m : LeaderInbound)
| MAcceptor (m : AcceptorInbound)
| MProxy (m : ProxyLeaderInbound)
| MProxyLocal (m : ProxyLeaderInbound)
| MReplica (m : ReplicaInbound)
| MBatcher (m : BatcherInbound)
| MPing (m : Ping)
| MElection (leader_index : Z)
| MPeerStop (pid : Z)
| MProposalResp (r : ProposalResp)
| MLeaderNotice (pid round : Z).

(** A scheduled timer is identified by the closure that runs when it fires. *)
Inductive Timer :=
| TResendPhase1as (p : Phase1a)
| TNoopFlush
| TBatch
| TRecover
| TPing
| TNoPing
| TLagExtend (peers : list Z)
| TLagSet (peers : list Z).

#[global] Instance Timer_eq_dec : EqDecision Timer.
Proof. solve_decision. Defined.

Inductive Effect :=
| Tell (dst : ActorPath) (m : NetMsg)
| Trigger (leader_index : Z)
| Schedule (t : Timer)
| Cancel (t : Timer)
| ReplyStop.

(** Broadcasts walk the values of a [HashMap]; under [simulate_partition] the
    disconnected pids are skipped. *)
Definition broadcast (peers : gmap Z ActorPath) (disconnected : list Z)
    (m : NetMsg) : list Effect :=
  omap (fun '(pid, path) =>
          if bool_decide (pid ∈ disconnected) then None else Some (Tell path m))
       (map_to_list peers).

Lemma elem_of_broadcast e peers disc m :
  e ∈ broadcast peers disc m <->
  exists pid path, peers !! pid = Some path /\ pid ∉ disc /\ e = Tell path m.
Proof.
  unfold broadcast. rewrite list_elem_of_omap. split.
  - intros ([pid path] & Hin & He).
    apply elem_of_map_to_list in Hin.
    case_bool_decide; simplify_eq. eauto.
  - intros (pid & path & Hl & Hd & ->). exists (pid, path).
    rewrite elem_of_map_to_list. split; [done|]. by case_bool_decide.
Qed.
