(* ===== verification/Partition.v ===== *)
(** Simulated network partitions.

    With the default feature [simulate_partition] every component carries a
    vector [disconnected_peers] and an optional [lagging_delay], and implements
    the same three operations on them.  The code repeats them in every
    component; they are translated once here, and each component file applies
    them to its own state. *)

From S2P Require Import Prelude MpMessages.

Record Links := mkLinks {
  disconnected_peers : list Z;
  lagging_delay : option Z }.

Definition links_init : Links := mkLinks [] None.

Definition links_set_lagging_delay (d : Z) (l : Links) : Links :=
  mkLinks (disconnected_peers l) (Some d).

(** [None] is the panic of [lagging_delay.unwrap()] / [.expect(..)]. *)
Definition links_disconnect (peers : list Z) (delay : bool) (lagging_peer : option Z)
    (l : Links) : option (Links * list Effect) :=
  match lagging_peer with
  | Some lp =>
      _ ← lagging_delay l;
      Some (mkLinks (disconnected_peers l ++ [lp]) (lagging_delay l),
            [Schedule (TLagExtend peers)])
  | None =>
      if delay then
        _ ← lagging_delay l;
        Some (l, [Schedule (TLagSet peers)])
      else Some (mkLinks peers (lagging_delay l), [])
  end.

(** The closures scheduled by [links_disconnect]. *)
Definition links_timeout (t : Timer) (l : Links) : option Links :=
  match t with
  | TLagExtend peers => Some (mkLinks (disconnected_peers l ++ peers) (lagging_delay l))
  | TLagSet peers => Some (mkLinks peers (lagging_delay l))
  | _ => None
  end.

Definition links_recover (l : Links) : Links := mkLinks [] (lagging_delay l).

(** A delayed disconnection ends with exactly the requested links cut. *)
Lemma links_disconnect_delayed peers l l' effs t l'' :
  links_disconnect peers true None l = Some (l', effs) ->
  effs = [Schedule t] -> links_timeout t l' = Some l'' ->
  disconnected_peers l'' = peers.
Proof.
  unfold links_disconnect. intros H -> Ht. by simplify_option_eq.
Qed.
