(* ===== verification/MpUtil.v ===== *)
(** The round system and the replica log of Multi-Paxos.

    Translates [ClassicRoundRobin] and [BufferMap] of [multi_paxos/util.rs].
    Rounds are dealt to the [n] leaders in round-robin order (leader [n] owns
    the multiples of [n]); the replica's log is a vector of optional commands
    that grows in steps of [grow_size]. *)

From S2P Require Import Prelude MpMessages.

(** ** [ClassicRoundRobin] *)

Module ClassicRoundRobin.

Record t := mk { n : Z }.

(** [None] is the panic of [round % 0]. *)
Definition leader (rs : t) (round : Round) : option Z :=
  if n rs =? 0 then None
  else let rest := round mod n rs in
       Some (if rest <? 1 then n rs else rest).

Definition next_classic_round (rs : t) (leader_index : Z) (round : Round)
    : option Round :=
  if n rs =? 0 then None
  else
    let smallest_multiple_of_n := n rs * (round / n rs) in
    let offset := leader_index mod n rs in
    Some (if round <? smallest_multiple_of_n +u64 offset
          then smallest_multiple_of_n +u64 offset
          else smallest_multiple_of_n +u64 n rs +u64 offset).

(** The unique leader a round belongs to, as a total function. *)
Definition owner (num : Z) (round : Round) : Z :=
  if round mod num <? 1 then num else round mod num.

Section round_robin.
Context (num : Z) (Hnum : 0 < num).

Lemma leader_owner round : leader (mk num) round = Some (owner num round).
Proof. unfold leader, owner; simpl. destruct (Z.eqb_spec num 0); [lia|done]. Qed.

Lemma owner_range round : 1 <= owner num round <= num.
Proof.
  unfold owner. pose proof (Z.mod_pos_bound round num Hnum).
  destruct (Z.ltb_spec (round mod num) 1); lia.
Qed.

Lemma owner_mod p round : 1 <= p <= num -> owner num round = p <-> round mod num = p mod num.
Proof.
  intros Hp. unfold owner. pose proof (Z.mod_pos_bound round num Hnum).
  destruct (decide (p = num)) as [->|Hne].
  - rewrite Z.mod_same by lia. destruct (Z.ltb_spec (round mod num) 1); lia.
  - rewrite (Z.mod_small p num) by lia.
    destruct (Z.ltb_spec (round mod num) 1); lia.
Qed.

Lemma next_classic_round_value p round :
  1 <= p <= num -> 0 <= round -> round + 2 * num < 2 ^ 64 ->
  exists r, next_classic_round (mk num) p round = Some r /\
    round < r <= round + num /\ r mod num = p mod num.
Proof.
  intros Hp Hr Hb. unfold next_classic_round; simpl.
  destruct (Z.eqb_spec num 0); [lia|].
  pose proof (Z.mod_pos_bound round num Hnum).
  pose proof (Z.mod_pos_bound p num Hnum).
  pose proof (Z.div_mod round num ltac:(lia)).
  pose proof (Z.div_pos round num Hr Hnum).
  assert (0 <= num * (round / num)) by nia.
  rewrite (u64_add_small (num * (round / num)) num) by lia.
  rewrite (u64_add_small (num * (round / num)) (p mod num)) by lia.
  rewrite u64_add_small by lia.
  destruct (Z.ltb_spec round (num * (round / num) + p mod num)); eexists;
    (split; [done|]); (split; [lia|]).
  - by rewrite Z.add_comm, Z.mul_comm, Z.mod_add, Z.mod_mod by lia.
  - replace (num * (round / num) + num + p mod num)
      with (p mod num + (round / num + 1) * num) by ring.
    by rewrite Z.mod_add, Z.mod_mod by lia.
Qed.
End round_robin.

(** [next_classic_round] returns the smallest round above [round] that belongs
    to [leader_index], so two leaders never share a round. *)
Theorem next_classic_round_least (num p : Z) (round : Round) :
  1 <= p <= num -> 0 <= round -> round + 2 * num < 2 ^ 64 ->
  exists r, next_classic_round (mk num) p round = Some r /\
    leader (mk num) r = Some p /\ round < r /\
    forall r', round < r' -> leader (mk num) r' = Some p -> r <= r'.
Proof.
  intros Hp Hr Hb.
  destruct (next_classic_round_value num ltac:(lia) p round) as (r & Hn & Hlt & Hm);
    [lia..|].
  exists r. split; [done|]. rewrite leader_owner by lia.
  rewrite (proj2 (owner_mod num ltac:(lia) p r Hp) Hm).
  split; [done|]. split; [lia|].
  intros r' Hr' Hl. rewrite leader_owner in Hl by lia. injection Hl as Hl.
  apply owner_mod in Hl; [|lia..].
  destruct (decide (r' < r)); [|lia].
  exfalso. assert ((r - r') mod num = 0) as Hz.
  { rewrite Zminus_mod, Hm, Hl, Z.sub_diag. by apply Z.mod_0_l; lia. }
  rewrite Z.mod_small in Hz; lia.
Qed.

Lemma next_classic_round_least_witness :
  next_classic_round (mk 3) 2 7 = Some 8 /\ leader (mk 3) 8 = Some 2.
Proof.
  destruct (next_classic_round_least 3 2 7) as (r & Hn & Hl & _); [lia..|].
  injection Hn as <-. split; [reflexivity|exact Hl].
Defined.

End ClassicRoundRobin.

(** ** [BufferMap] *)

Module BufferMap.

Record t := mk {
  grow_size : nat;
  buffer : list (option CommandBatchOrNoop);
  watermark : Z;
  largest_key : option Z }.

Definition with_ (grow : nat) : t := mk grow [] 0 None.

Definition normalize (m : t) (key : Z) : option Z :=
  if watermark m <=? key then Some (key - watermark m) else None.

(** The [while] loop of [pad] pushes [None] until the vector is long enough. *)
Definition pad (m : t) (len : nat) : t :=
  mk (grow_size m)
     (buffer m ++ replicate (len - length (buffer m)) None)
     (watermark m) (largest_key m).

Definition get (m : t) (key : Z) : option CommandBatchOrNoop :=
  match normalize m key with
  | None => None
  | Some k => if Z.of_nat (length (buffer m)) <=? k then None
              else default None (buffer m !! Z.to_nat k)
  end.

Definition put (m : t) (key : Z) (value : CommandBatchOrNoop) : t :=
  let m := mk (grow_size m) (buffer m) (watermark m)
              (Some (Z.max (default 0 (largest_key m)) key)) in
  match normalize m key with
  | Some k =>
      let m := if k <? Z.of_nat (length (buffer m)) then m
               else pad m (Z.to_nat k + 1 + grow_size m) in
      mk (grow_size m) (<[Z.to_nat k := Some value]> (buffer m))
         (watermark m) (largest_key m)
  | None => m
  end.

Lemma get_lookup m key :
  get m key = if decide (watermark m <= key)
              then default None (buffer m !! Z.to_nat (key - watermark m)) else None.
Proof.
  unfold get, normalize. case_decide; destruct (Z.leb_spec (watermark m) key); try lia; [|done].
  destruct (Z.leb_spec (Z.of_nat (length (buffer m))) (key - watermark m)); [|done].
  rewrite lookup_ge_None_2; [done|lia].
Qed.

Lemma lookup_pad_default (b : list (option CommandBatchOrNoop)) n i :
  default None ((b ++ replicate n None) !! i) = default None (b !! i).
Proof.
  destruct (decide (i < length b)%nat).
  - by rewrite lookup_app_l.
  - rewrite lookup_app_r by lia. rewrite (lookup_ge_None_2 b i) by lia. simpl.
    destruct (replicate n None !! (i - length b)%nat) as [x|] eqn:E; [|done].
    apply lookup_replicate in E as [-> _]. done.
Qed.

(** [put] then [get]: the written key holds the value, and every other key is
    unchanged, however the vector had to grow. *)
Lemma get_put m key value k :
  watermark m <= key ->
  get (put m key value) k = if decide (k = key) then Some value else get m k.
Proof.
  intros Hk. rewrite !get_lookup. unfold put, normalize; simpl.
  destruct (Z.leb_spec (watermark m) key); [|lia].
  set (i := Z.to_nat (key - watermark m)).
  destruct (Z.ltb_spec (key - watermark m) (Z.of_nat (length (buffer m)))); simpl.
  - case_decide as Hw; [|by case_decide; [lia|]].
    case_decide as He.
    + subst k. by rewrite list_lookup_insert_eq by lia.
    + by rewrite list_lookup_insert_ne by lia.
  - case_decide as Hw; [|by case_decide; [lia|]].
    case_decide as He.
    + subst k. rewrite list_lookup_insert_eq; [done|].
      rewrite length_app, length_replicate. lia.
    + rewrite list_lookup_insert_ne by lia. apply lookup_pad_default.
Qed.

Lemma put_watermark m key value : watermark (put m key value) = watermark m.
Proof.
  unfold put, normalize; simpl. by destruct (_ <=? _); [destruct (_ <? _)|].
Qed.

(** Below the watermark the map stays as it was, but [largest_key] moves. *)
Lemma get_put_below m key value k :
  key < watermark m -> get (put m key value) k = get m k.
Proof.
  intros. rewrite !get_lookup, put_watermark. unfold put, normalize; simpl.
  by destruct (Z.leb_spec (watermark m) key); [lia|].
Qed.

(** The map as a finite map over the keys that fit. *)
Definition puts (m : t) (kvs : list (Z * CommandBatchOrNoop)) : t :=
  foldl (fun m kv => put m kv.1 kv.2) m kvs.

Lemma puts_snoc m kvs key v : puts m (kvs ++ [(key, v)]) = put (puts m kvs) key v.
Proof. unfold puts. by rewrite foldl_snoc. Qed.

Lemma puts_watermark m kvs : watermark (puts m kvs) = watermark m.
Proof.
  revert m. induction kvs as [|kv kvs IH]; intros m; [done|].
  simpl. by rewrite IH, put_watermark.
Qed.

Lemma get_puts m kvs k :
  watermark m = 0 -> Forall (fun kv => 0 <= kv.1) kvs ->
  get (puts m kvs) k =
    match (list_to_map (reverse kvs) : gmap Z CommandBatchOrNoop) !! k with
    | Some v => Some v
    | None => get m k
    end.
Proof.
  revert m. induction kvs as [|[key v] kvs IH] using rev_ind; intros m Hw Hall; [done|].
  apply Forall_app in Hall as [Hall Hkey]. rewrite Forall_singleton in Hkey. cbn [fst] in Hkey.
  rewrite puts_snoc, reverse_snoc, get_put by (rewrite puts_watermark; lia). simpl.
  case_decide as Hk.
  - subst. by rewrite lookup_insert_eq.
  - rewrite lookup_insert_ne by done. by apply IH.
Qed.

(** The growing vector of [BufferMap] implements a finite map: after any
    sequence of [put]s with keys that are not negative, [get] returns the last
    value put under a key and nothing for every other key, whatever [grow_size]. *)
Theorem buffer_map_refines (grow : nat) (kvs : list (Z * CommandBatchOrNoop)) (k : Z) :
  Forall (fun kv => 0 <= kv.1) kvs ->
  get (puts (with_ grow) kvs) k =
    (list_to_map (reverse kvs) : gmap Z CommandBatchOrNoop) !! k.
Proof.
  intros Hall. rewrite get_puts by done. destruct (_ !! k); [done|].
  rewrite get_lookup. by case_decide.
Qed.

Lemma buffer_map_refines_witness :
  get (puts (with_ 1) [(5, Noop); (0, CommandBatch []); (5, CommandBatch [[]])]) 5
    = Some (CommandBatch [[]]).
Proof.
  rewrite (buffer_map_refines 1 [(5, Noop); (0, CommandBatch []); (5, CommandBatch [[]])] 5).
  - reflexivity.
  - repeat (constructor; [simpl; lia|]). constructor.
Defined.

Lemma get_bound m key v :
  get m key = Some v ->
  watermark m <= key < watermark m + Z.of_nat (length (buffer m)).
Proof.
  rewrite get_lookup. case_decide; [|done]. intros Hd.
  destruct (decide (Z.to_nat (key - watermark m) < length (buffer m))%nat); [lia|].
  rewrite lookup_ge_None_2 in Hd by lia. done.
Qed.

End BufferMap.
