(* ===== verification/MpAcceptor.v ===== *)
(** The Multi-Paxos acceptor ([multi_paxos/acceptor.rs]).

    State: the highest round seen and, per slot, the last vote.  The acceptor
    answers [Phase1a] with its votes from the watermark upwards and [Phase2a]
    with a vote, or sends a [Nack] when the message belongs to an older round. *)

From S2P Require Import Prelude MpMessages Partition.

Module Acceptor.

Record State := mkState {
  vote_round : Round;
  vote_value : CommandBatchOrNoop }.

Record t := mk {
  index : Z;
  round : Round;
  states : gmap Slot State;   (* BTreeMap *)
  max_voted_slot : Slot;
  leaders : gmap Z ActorPath;
  proxy_leaders : gmap Z ActorPath;
  links : Links }.

Definition with_ (pid : Z) (leaders proxy_leaders : gmap Z ActorPath) : t :=
  mk pid 0 ∅ 0 leaders proxy_leaders links_init.

Definition set_links (a : t) (l : Links) : t :=
  mk (index a) (round a) (states a) (max_voted_slot a) (leaders a) (proxy_leaders a) l.

Definition set_lagging_delay (a : t) (d : Z) : t :=
  set_links a (links_set_lagging_delay d (links a)).

(** The entries of a [BTreeMap] come in increasing key order. *)
Definition slot_le (x y : Slot * State) : Prop := x.1 <= y.1.
#[global] Instance slot_le_dec : RelDecision slot_le.
Proof. intros x y. unfold slot_le. apply _. Defined.

Definition btree_range (m : gmap Slot State) (from : Slot) : list (Slot * State) :=
  filter (fun kv => from <= kv.1) (merge_sort slot_le (map_to_list m)).

Definition slot_info (kv : Slot * State) : Phase1bSlotInfo :=
  mkPhase1bSlotInfo kv.1 (vote_round kv.2) (vote_value kv.2).

(** [None] is a panic of one of the [expect] calls. *)
Definition handle_phase1a (a : t) (phase1a : Phase1a) : option (t * list Effect) :=
  let src := p1a_src phase1a in
  leader ← leaders a !! src;
  if bool_decide (src ∈ disconnected_peers (links a)) then Some (a, [])
  else if p1a_round phase1a <? round a then
    Some (a, [Tell leader (MLeader (LI_Nack (round a)))])
  else
    let a := mk (index a) (p1a_round phase1a) (states a) (max_voted_slot a)
                (leaders a) (proxy_leaders a) (links a) in
    let info := map slot_info (btree_range (states a) (p1a_chosen_watermark phase1a)) in
    let phase1b := mkPhase1b (index a) (round a) info in
    leader ← leaders a !! src;
    Some (a, [Tell leader (MLeader (LI_Phase1b phase1b))]).

Definition handle_phase2a (a : t) (phase2a : Phase2a) : option (t * list Effect) :=
  let src := p2a_src phase2a in
  if bool_decide (src ∈ disconnected_peers (links a)) then Some (a, [])
  else if p2a_round phase2a <? round a then
    leader ← leaders a !! src;
    Some (a, [Tell leader (MLeader (LI_Nack (round a)))])
  else
    let r := p2a_round phase2a in
    let a := mk (index a) r
                (<[p2a_slot phase2a := mkState r (p2a_value phase2a)]> (states a))
                (Z.max (max_voted_slot a) (p2a_slot phase2a))
                (leaders a) (proxy_leaders a) (links a) in
    let phase2b := mkPhase2b (index a) (p2a_slot phase2a) (round a) in
    proxy_leader ← proxy_leaders a !! src;
    Some (a, [Tell proxy_leader (MProxy (PI_Phase2b phase2b))]).

Definition disconnect_peers (a : t) (peers : list Z) (delay : bool)
    (lagging_peer : option Z) : option (t * list Effect) :=
  '(l, effs) ← links_disconnect peers delay lagging_peer (links a);
  Some (set_links a l, effs).

Definition recover_peers (a : t) : t := set_links a (links_recover (links a)).

Definition receive_network (a : t) (m : AcceptorInbound) : option (t * list Effect) :=
  match m with
  | AI_Phase1a p1a => handle_phase1a a p1a
  | AI_Phase2a p2a => handle_phase2a a p2a
  end.

(** ** Properties *)

Lemma elem_of_btree_range m from s st :
  (s, st) ∈ btree_range m from <-> m !! s = Some st /\ from <= s.
Proof.
  unfold btree_range. rewrite list_elem_of_filter, merge_sort_Permutation, elem_of_map_to_list.
  simpl. tauto.
Qed.

Lemma elem_of_slot_infos m from e :
  e ∈ map slot_info (btree_range m from) <->
  exists st, m !! info_slot e = Some st /\ from <= info_slot e /\
    info_vote_round e = vote_round st /\ info_vote_value e = vote_value st.
Proof.
  rewrite list_elem_of_fmap. split.
  - intros ([s st] & -> & [? ?]%elem_of_btree_range). exists st. done.
  - destruct e as [s vr vv]; simpl. intros ([r v] & Hl & Hf & -> & ->).
    exists (s, mkState r v). rewrite elem_of_btree_range. done.
Qed.

(** Votes are reported in increasing slot order, as a [BTreeMap] range yields them. *)
Lemma btree_range_sorted m from : Sorted slot_le (btree_range m from).
Proof.
  unfold btree_range. apply StronglySorted_Sorted.
  assert (StronglySorted slot_le (merge_sort slot_le (map_to_list m))) as Hs.
  { apply Sorted_StronglySorted; [intros ???; unfold slot_le; lia|].
    apply Sorted_merge_sort. intros x y. unfold slot_le. lia. }
  induction Hs as [|x l Hs IH Hall]; [constructor|].
  rewrite filter_cons. case_decide; [|done]. constructor; [done|].
  rewrite Forall_forall in Hall |- *. intros y [_ Hy]%list_elem_of_filter. by apply Hall.
Qed.

(** ** The promise *)

(** The acceptor over a sequence of messages. *)
Fixpoint receive_all (a : t) (msgs : list AcceptorInbound) : option (t * list Effect) :=
  match msgs with
  | [] => Some (a, [])
  | m :: msgs =>
      '(a, effs) ← receive_network a m;
      '(a, effs') ← receive_all a msgs;
      Some (a, effs ++ effs')
  end.

(** The round of a promise or of a vote. *)
Definition answer_round (e : Effect) : option Round :=
  match e with
  | Tell _ (MLeader (LI_Phase1b p)) => Some (p1b_round p)
  | Tell _ (MProxy (PI_Phase2b p)) => Some (p2b_round p)
  | _ => None
  end.

Definition answers (effs : list Effect) : list Round := omap answer_round effs.

(** No vote is of a later round than the promised one. *)
Definition votes_promised (a : t) : Prop :=
  forall slot st, states a !! slot = Some st -> vote_round st <= round a.

(** The acceptor reports a vote of round [rd] or later for the slot. *)
Definition votes_at_least (a : t) (slot : Slot) (rd : Round) : Prop :=
  exists st, states a !! slot = Some st /\ rd <= vote_round st.

Lemma receive_network_answers a m a' effs :
  receive_network a m = Some (a', effs) -> votes_promised a ->
  round a <= round a' /\ votes_promised a' /\
  (answers effs = [] \/ answers effs = [round a']) /\
  (forall slot rd, votes_at_least a slot rd -> votes_at_least a' slot rd) /\
  (forall dst p, Tell dst (MProxy (PI_Phase2b p)) ∈ effs ->
     votes_at_least a' (p2b_slot p) (p2b_round p)).
Proof.
  unfold receive_network, handle_phase1a, handle_phase2a, votes_promised, votes_at_least.
  intros H Hv. handler_inv H; simpl; try (split_and!; [lia|done|by auto|done|set_solver]).
  - split_and!; [lia| |by auto|done|set_solver]. intros slot st Hst. apply Hv in Hst. lia.
  - split_and!; [lia| |by auto| |].
    + intros slot st. rewrite lookup_insert_Some. intros [[<- <-]|[_ Hst%Hv]]; simpl; lia.
    + intros slot rd (st & Hst & Hrd). destruct (decide (p2a_slot p = slot)) as [<-|Hne].
      * eexists. rewrite lookup_insert_eq. split; [done|]. simpl. apply Hv in Hst. lia.
      * exists st. by rewrite lookup_insert_ne.
    + intros dst q [= -> ->]%list_elem_of_singleton. simpl. eexists.
      rewrite lookup_insert_eq. split; [done|]. simpl. lia.
Qed.

Lemma receive_all_answers a msgs a' effs :
  receive_all a msgs = Some (a', effs) -> votes_promised a ->
  StronglySorted Z.le (round a :: answers effs ++ [round a']) /\ votes_promised a' /\
  (forall slot rd, votes_at_least a slot rd -> votes_at_least a' slot rd) /\
  (forall dst p, Tell dst (MProxy (PI_Phase2b p)) ∈ effs ->
     votes_at_least a' (p2b_slot p) (p2b_round p)).
Proof.
  revert a effs. induction msgs as [|m msgs IH]; intros a effs H Hv; simpl in H.
  - simplify_eq. split_and!; [|done|done|set_solver]. repeat constructor. lia.
  - apply bind_Some in H as ([a1 e1] & H1 & H). apply bind_Some in H as ([a2 e2] & H2 & [= <- <-]).
    destruct (receive_network_answers _ _ _ _ H1 Hv) as (Hr & Hv1 & Ha & Hk & Hs1).
    destruct (IH _ _ H2 Hv1) as (Hsort & Hv2 & Hk2 & Hs2).
    split_and!; [|done|by auto|].
    + apply StronglySorted_inv in Hsort as Hs'. destruct Hs' as [Hs' Hall].
      unfold answers in *. rewrite omap_app, <- app_assoc.
      assert (Forall (Z.le (round a)) (omap answer_round e2 ++ [round a2])) as Hlow
        by (eapply Forall_impl; [exact Hall|simpl; lia]).
      destruct Ha as [->| ->]; simpl; [by constructor|].
      constructor; [done|]. by constructor.
    + intros dst p [Hp|Hp]%elem_of_app; [|by eapply Hs2]. by eapply Hk2, Hs1.
Qed.

(** C31: what an acceptor promises over any sequence of messages: the rounds of its
    promises and votes never decrease, so after a [Phase1b] of a round it casts no
    vote of an older one, and a vote it cast is still on record, under the same or
    a later round, for every later [Phase1b]. *)
Theorem acceptor_promises (a a' : t) (msgs : list AcceptorInbound) (effs : list Effect) :
  votes_promised a -> receive_all a msgs = Some (a', effs) ->
  StronglySorted Z.le (round a :: answers effs ++ [round a']) /\ votes_promised a' /\
  (forall dst p, Tell dst (MProxy (PI_Phase2b p)) ∈ effs ->
     votes_at_least a' (p2b_slot p) (p2b_round p)).
Proof.
  intros Hv Hr. destruct (receive_all_answers _ _ _ _ Hr Hv) as (Hs & Hv' & _ & H).
  done.
Qed.

Lemma acceptor_promises_witness :
  let a := with_ 1 {[2 := mkPath LEADER 2 1]} {[2 := mkPath PROXY_LEADER 2 1]} in
  let msgs := [AI_Phase1a (mkPhase1a 2 4 0); AI_Phase2a (mkPhase2a 2 0 1 Noop);
               AI_Phase2a (mkPhase2a 2 0 4 Noop)] in
  option_map (fun x => answers x.2) (receive_all a msgs) = Some [4; 4] /\
  exists a' effs, receive_all a msgs = Some (a', effs) /\ votes_at_least a' 0 4.
Proof.
  intros a msgs. split; [vm_compute; reflexivity|].
  destruct (receive_all a msgs) as [[a' effs]|] eqn:H; [|vm_compute in H; discriminate H].
  exists a', effs. split; [reflexivity|].
  destruct (acceptor_promises a a' msgs effs) as (_ & _ & Hvotes);
    [intros slot st Hst; vm_compute in Hst; discriminate Hst|exact H|].
  apply (Hvotes (mkPath PROXY_LEADER 2 1) (mkPhase2b 1 0 4)).
  vm_compute in H. injection H as _ <-. vm_compute. set_solver.
Defined.

End Acceptor.
