(* ===== verification/MpProxyLeader.v ===== *)
(** The Multi-Paxos proxy leader ([multi_paxos/proxy_leader.rs]).

    A leader hands its [Phase2a] messages to the proxy leader of its own node,
    which relays them to the acceptors, counts the [Phase2b] answers per slot
    and round, and announces the value to the replicas once a majority voted. *)

From S2P Require Import Prelude MpMessages Partition.

Module ProxyLeader.

(** [SlotRound] is the key [(slot, round)]. *)
Inductive State :=
| Pending (phase2a : Phase2a) (phase2bs : gmap Z Phase2b)
| Done.

Record t := mk {
  acceptors : gmap Z ActorPath;
  replicas : gmap Z ActorPath;
  states : gmap (Slot * Round) State;
  majority : nat;
  links : Links }.

Definition with_ (acceptors replicas : gmap Z ActorPath) : t :=
  mk acceptors replicas ∅ (size acceptors / 2 + 1)%nat links_init.

Definition set_states (p : t) (s : gmap (Slot * Round) State) : t :=
  mk (acceptors p) (replicas p) s (majority p) (links p).

Definition set_links (p : t) (l : Links) : t :=
  mk (acceptors p) (replicas p) (states p) (majority p) l.

Definition set_lagging_delay (p : t) (d : Z) : t :=
  set_links p (links_set_lagging_delay d (links p)).

Definition handle_phase2a (p : t) (phase2a : Phase2a) : t * list Effect :=
  let slotround := (p2a_slot phase2a, p2a_round phase2a) in
  match states p !! slotround with
  | Some _ => (p, [])
  | None =>
      (set_states p (<[slotround := Pending phase2a ∅]> (states p)),
       broadcast (acceptors p) (disconnected_peers (links p))
         (MAcceptor (AI_Phase2a phase2a)))
  end.

Definition handle_phase2b (p : t) (phase2b : Phase2b) : t * list Effect :=
  let slotround := (p2b_slot phase2b, p2b_round phase2b) in
  match states p !! slotround with
  | None => (p, [])
  | Some Done => (p, [])
  | Some (Pending phase2a phase2bs) =>
      let phase2bs := <[p2b_acceptor_index phase2b := phase2b]> phase2bs in
      if (size phase2bs <? majority p)%nat then
        (set_states p (<[slotround := Pending phase2a phase2bs]> (states p)), [])
      else
        let chosen := mkChosen (p2b_slot phase2b) (p2a_value phase2a) in
        (set_states p (<[slotround := Done]> (states p)),
         broadcast (replicas p) (disconnected_peers (links p))
           (MReplica (RI_Chosen chosen)))
  end.

Definition disconnect_peers (p : t) (peers : list Z) (delay : bool)
    (lagging_peer : option Z) : option (t * list Effect) :=
  '(l, effs) ← links_disconnect peers delay lagging_peer (links p);
  Some (set_links p l, effs).

Definition recover_peers (p : t) : t := set_links p (links_recover (links p)).

(** [None] is the [unimplemented!] of an unexpected message. *)
Definition receive_local (p : t) (m : ProxyLeaderInbound) : option (t * list Effect) :=
  match m with
  | PI_Phase2a p2a => Some (handle_phase2a p p2a)
  | PI_Phase2b _ => None
  end.

Definition receive_network (p : t) (m : ProxyLeaderInbound) : option (t * list Effect) :=
  match m with
  | PI_Phase2b p2b => Some (handle_phase2b p p2b)
  | PI_Phase2a _ => None
  end.

(** ** Properties *)

(** Once a slot and round is recorded it stays recorded, so a second [Phase2a]
    for it is never relayed. *)
Lemma proxy_states_mono p m p' effs k :
  receive_local p m = Some (p', effs) \/ receive_network p m = Some (p', effs) ->
  is_Some (states p !! k) -> is_Some (states p' !! k).
Proof.
  unfold receive_local, receive_network, handle_phase2a, handle_phase2b.
  intros [H|H] Hk; repeat (case_match; simplify_eq; simpl; try done);
    rewrite lookup_insert_is_Some'; by right.
Qed.

End ProxyLeader.
