(* ===== verification/MpLeader.v ===== *)
(** The Multi-Paxos leader ([multi_paxos/leader.rs]).

    A leader is [Inactive], in [Phase1] (collecting [Phase1b] answers of its
    round) or in [Phase2] (proposing).  [leader_change] is driven by the
    election, by a [Nack] and by a [Recover]; the end of phase 1 re-proposes the
    safe value of every slot from the chosen watermark to the largest reported
    slot and then the client batches that were held back. *)

From S2P Require Import Prelude MpMessages Partition MpUtil.

Module Leader.

(** Periods in milliseconds. *)
Record LeaderOptions := mkLeaderOptions {
  resend_phase1as_period : Z;
  noop_flush_period : Z }.

Inductive State := Inactive | Phase1 | Phase2.

#[global] Instance State_eq_dec : EqDecision State.
Proof. solve_decision. Defined.

(** [resend_phase1as] and [noop_flush_timer] hold the handle of a scheduled
    timer, which names the closure that was scheduled. *)
Record t := mk {
  options : LeaderOptions;
  state : State;
  index : Z;
  round_system : ClassicRoundRobin.t;
  round : Round;
  next_slot : Slot;
  chosen_watermark : Slot;
  majority : nat;
  acceptors : gmap Z ActorPath;
  phase1bs : gmap Z Phase1b;
  pending_client_request_batches : list (list Proposal);
  resend_phase1as : option Timer;
  noop_flush_timer : option Timer;
  proxy_leader : ActorPath;
  cached_client : ActorPath;
  links : Links;
  local_batcher : option ActorPath }.

Definition set_state (l : t) (x : State) : t :=
  mk (options l) x (index l) (round_system l) (round l) (next_slot l)
     (chosen_watermark l) (majority l) (acceptors l) (phase1bs l)
     (pending_client_request_batches l) (resend_phase1as l) (noop_flush_timer l)
     (proxy_leader l) (cached_client l) (links l) (local_batcher l).

Definition set_round (l : t) (x : Round) : t :=
  mk (options l) (state l) (index l) (round_system l) x (next_slot l)
     (chosen_watermark l) (majority l) (acceptors l) (phase1bs l)
     (pending_client_request_batches l) (resend_phase1as l) (noop_flush_timer l)
     (proxy_leader l) (cached_client l) (links l) (local_batcher l).

Definition set_next_slot (l : t) (x : Slot) : t :=
  mk (options l) (state l) (index l) (round_system l) (round l) x
     (chosen_watermark l) (majority l) (acceptors l) (phase1bs l)
     (pending_client_request_batches l) (resend_phase1as l) (noop_flush_timer l)
     (proxy_leader l) (cached_client l) (links l) (local_batcher l).

Definition set_chosen_watermark (l : t) (x : Slot) : t :=
  mk (options l) (state l) (index l) (round_system l) (round l) (next_slot l) x
     (majority l) (acceptors l) (phase1bs l) (pending_client_request_batches l)
     (resend_phase1as l) (noop_flush_timer l) (proxy_leader l) (cached_client l)
     (links l) (local_batcher l).

Definition set_phase1bs (l : t) (x : gmap Z Phase1b) : t :=
  mk (options l) (state l) (index l) (round_system l) (round l) (next_slot l)
     (chosen_watermark l) (majority l) (acceptors l) x
     (pending_client_request_batches l) (resend_phase1as l) (noop_flush_timer l)
     (proxy_leader l) (cached_client l) (links l) (local_batcher l).

Definition set_pending_client_request_batches (l : t) (x : list (list Proposal)) : t :=
  mk (options l) (state l) (index l) (round_system l) (round l) (next_slot l)
     (chosen_watermark l) (majority l) (acceptors l) (phase1bs l) x (resend_phase1as l)
     (noop_flush_timer l) (proxy_leader l) (cached_client l) (links l)
     (local_batcher l).

Definition set_resend_phase1as (l : t) (x : option Timer) : t :=
  mk (options l) (state l) (index l) (round_system l) (round l) (next_slot l)
     (chosen_watermark l) (majority l) (acceptors l) (phase1bs l)
     (pending_client_request_batches l) x (noop_flush_timer l) (proxy_leader l)
     (cached_client l) (links l) (local_batcher l).

Definition set_noop_flush_timer (l : t) (x : option Timer) : t :=
  mk (options l) (state l) (index l) (round_system l) (round l) (next_slot l)
     (chosen_watermark l) (majority l) (acceptors l) (phase1bs l)
     (pending_client_request_batches l) (resend_phase1as l) x (proxy_leader l)
     (cached_client l) (links l) (local_batcher l).

Definition set_links (l : t) (x : Links) : t :=
  mk (options l) (state l) (index l) (round_system l) (round l) (next_slot l)
     (chosen_watermark l) (majority l) (acceptors l) (phase1bs l)
     (pending_client_request_batches l) (resend_phase1as l) (noop_flush_timer l)
     (proxy_leader l) (cached_client l) x (local_batcher l).

Definition set_local_batcher (l : t) (x : option ActorPath) : t :=
  mk (options l) (state l) (index l) (round_system l) (round l) (next_slot l)
     (chosen_watermark l) (majority l) (acceptors l) (phase1bs l)
     (pending_client_request_batches l) (resend_phase1as l) (noop_flush_timer l)
     (proxy_leader l) (cached_client l) (links l) x.

Definition with_ (pid : Z) (options : LeaderOptions) (acceptors : gmap Z ActorPath)
    (proxy_leader cached_client : ActorPath) : option t :=
  let num_leaders := Z.of_nat (size acceptors) in
  let state := if pid =? num_leaders then Phase1 else Phase2 in
  let round_system := ClassicRoundRobin.mk num_leaders in
  round ← ClassicRoundRobin.next_classic_round round_system num_leaders 0;
  Some (mk options state pid round_system round 0 0
           (Z.to_nat (num_leaders / 2 + 1)) acceptors ∅ [] None None
           proxy_leader cached_client links_init None).

Definition set_lagging_delay (l : t) (d : Z) : t :=
  set_links l (links_set_lagging_delay d (links l)).

Definition make_resend_phase1as_timer (p : Phase1a) : Timer * list Effect :=
  (TResendPhase1as p, [Schedule (TResendPhase1as p)]).

(** The closure of [make_resend_phase1as_timer]. *)
Definition resend_phase1as_timeout (l : t) (p : Phase1a) : t * list Effect :=
  (l, broadcast (acceptors l) (disconnected_peers (links l)) (MAcceptor (AI_Phase1a p))).

Definition stop_resend_phase1as (l : t) : t * list Effect :=
  match resend_phase1as l with
  | Some timer => (set_resend_phase1as l None, [Cancel timer])
  | None => (l, [])
  end.

Definition make_noop_flush_timer : Timer * list Effect :=
  (TNoopFlush, [Schedule TNoopFlush]).

(** The closure of [make_noop_flush_timer]: the test of the state only logs. *)
Definition noop_flush_timeout (l : t) : t * list Effect :=
  let phase2a := mkPhase2a (index l) (next_slot l) (round l) Noop in
  (set_next_slot l (next_slot l +u64 1),
   [Tell (proxy_leader l) (MProxyLocal (PI_Phase2a phase2a))]).

Definition stop_noop_flush_timer (l : t) : t * list Effect :=
  match noop_flush_timer l with
  | Some timer => (set_noop_flush_timer l None, [Cancel timer])
  | None => (l, [])
  end.

(** [Option<u64>] is ordered with [None] below every [Some]. *)
Definition option_max (x y : option Z) : option Z :=
  match x, y with
  | Some a, Some b => Some (Z.max a b)
  | None, o | o, None => o
  end.

Definition max_phase1b_slot (p : Phase1b) : option Slot :=
  foldr option_max None (map (fun i => Some (info_slot i)) (p1b_info p)).

Definition safe_value (phase1bs : list Phase1b) (slot : Slot) : CommandBatchOrNoop :=
  let slot_infos :=
    filter (fun i => info_slot i = slot) (phase1bs ≫= p1b_info) in
  match max_by_key info_vote_round slot_infos with
  | None => Noop
  | Some i => info_vote_value i
  end.

(** The test of the state only logs. *)
Definition process_client_request_batch (l : t) (batch : list Proposal)
    : t * list Effect :=
  let phase2a := mkPhase2a (index l) (next_slot l) (round l)
                   (CommandBatch (map proposal_data batch)) in
  (set_next_slot l (next_slot l +u64 1),
   [Tell (proxy_leader l) (MProxyLocal (PI_Phase2a phase2a))]).

(** Returns the new leader state; the caller assigns [State::Phase1]. *)
Definition start_phase1 (l : t) (round : Round) (chosen_watermark : Slot)
    : t * list Effect :=
  let phase1a := mkPhase1a (index l) round chosen_watermark in
  let sent := broadcast (acceptors l) (disconnected_peers (links l))
                (MAcceptor (AI_Phase1a phase1a)) in
  let l := set_pending_client_request_batches l [] in
  let '(timer, effs) := make_resend_phase1as_timer phase1a in
  let l := set_resend_phase1as l (Some timer) in
  let l := set_phase1bs l ∅ in
  (l, sent ++ effs).

(** The three [(_, true)] branches after their timer was stopped. *)
Definition new_round (l : t) : option (t * list Effect) :=
  r ← ClassicRoundRobin.next_classic_round (round_system l) (index l) (round l);
  let l := set_round l r in
  let '(l, effs) := start_phase1 l (round l) (chosen_watermark l) in
  Some (set_state l Phase1, effs).

Definition leader_change (l : t) (is_new_leader : bool) : option (t * list Effect) :=
  match state l, is_new_leader with
  | Inactive, false => Some (l, [])
  | Phase1, false =>
      let '(l, effs) := stop_resend_phase1as l in
      Some (set_state l Inactive, effs)
  | Phase2, false =>
      let '(l, effs) := stop_noop_flush_timer l in
      Some (set_state l Inactive, effs)
  | Inactive, true => new_round l
  | Phase1, true =>
      let '(l, effs) := stop_resend_phase1as l in
      '(l, effs') ← new_round l;
      Some (l, effs ++ effs')
  | Phase2, true =>
      let '(l, effs) := stop_noop_flush_timer l in
      '(l, effs') ← new_round l;
      Some (l, effs ++ effs')
  end.

(** The [for] loop over the held-back batches. *)
Fixpoint process_client_request_batches (l : t) (batches : list (list Proposal))
    : t * list Effect :=
  match batches with
  | [] => (l, [])
  | b :: batches =>
      let '(l, effs) := process_client_request_batch l b in
      let '(l, effs') := process_client_request_batches l batches in
      (l, effs ++ effs')
  end.

(** [self.phase1bs.values().map(max_phase1b_slot).max()]; the map is not empty
    when this is evaluated. *)
Definition max_phase1b_slots (l : t) : option Slot :=
  foldr option_max None (map (fun kv => max_phase1b_slot kv.2) (map_to_list (phase1bs l))).

Definition phase1b_values (l : t) : list Phase1b :=
  map snd (map_to_list (phase1bs l)).

(** [for slot in self.chosen_watermark..=max_slot]. *)
Definition repropose (l : t) (max_slot : Slot) : list Effect :=
  map (fun slot =>
         Tell (proxy_leader l)
           (MProxyLocal (PI_Phase2a
              (mkPhase2a (index l) slot (round l) (safe_value (phase1b_values l) slot)))))
      (seqZ (chosen_watermark l) (max_slot - chosen_watermark l + 1)).

(** The end of phase 1, once a majority answered. *)
Definition handle_phase1b_done (l : t) (batcher : ActorPath) : t * list Effect :=
  let notify :=
    [Tell batcher (MBatcher (BI_LeaderInfoReplyBatcher (round l)));
     Tell (cached_client l) (MLeaderNotice (index l) (round l))] in
  let '(l, proposals) :=
    match max_phase1b_slots l with
    | Some max_slot => (set_next_slot l (max_slot +u64 1), repropose l max_slot)
    | None => (l, [])
    end in
  let '(l, cancelled) := stop_resend_phase1as l in
  let l := set_state l Phase2 in
  let '(_, scheduled) := make_noop_flush_timer in
  let batches := pending_client_request_batches l in
  let l := set_pending_client_request_batches l [] in
  let '(l, processed) := process_client_request_batches l batches in
  (l, notify ++ proposals ++ cancelled ++ scheduled ++ processed).

Definition handle_phase1b (l : t) (p : Phase1b) : option (t * list Effect) :=
  match state l with
  | Inactive | Phase2 => Some (l, [])
  | Phase1 =>
      if negb (p1b_round p =? round l) then Some (l, [])
      else
        let l := set_phase1bs l (<[p1b_acceptor_index p := p]> (phase1bs l)) in
        if (size (phase1bs l) <? majority l)%nat then Some (l, [])
        else
          batcher ← local_batcher l;
          Some (handle_phase1b_done l batcher)
  end.

Definition handle_client_request_batch (l : t) (batcher : ActorPath)
    (batch : list Proposal) : t * list Effect :=
  match state l with
  | Inactive => (l, [Tell batcher (MBatcher (BI_NotLeaderBatcher batch))])
  | Phase1 =>
      (set_pending_client_request_batches l (pending_client_request_batches l ++ [batch]), [])
  | Phase2 => process_client_request_batch l batch
  end.

Definition handle_leader_info_request_batcher (l : t) (src : Z) (batcher : ActorPath)
    : t * list Effect :=
  if bool_decide (src ∈ disconnected_peers (links l)) then (l, [])
  else match state l with
       | Inactive => (l, [])
       | _ => (l, [Tell batcher (MBatcher (BI_LeaderInfoReplyBatcher (round l)))])
       end.

Definition handle_nack (l : t) (nack_round : Round) : option (t * list Effect) :=
  if nack_round <=? round l then Some (l, [])
  else match state l with
       | Inactive => Some (set_round l nack_round, [])
       | Phase1 | Phase2 =>
           r ← ClassicRoundRobin.next_classic_round (round_system l) (index l) nack_round;
           leader_change (set_round l r) true
       end.

Definition handle_chosen_watermark (l : t) (slot : Slot) : t * list Effect :=
  (set_chosen_watermark l (Z.max (chosen_watermark l) slot), []).

Definition handle_recover (l : t) : option (t * list Effect) :=
  match state l with
  | Inactive => Some (l, [])
  | Phase1 | Phase2 => leader_change l true
  end.

Definition disconnect_peers (l : t) (peers : list Z) (delay : bool)
    (lagging_peer : option Z) : option (t * list Effect) :=
  '(k, effs) ← links_disconnect peers delay lagging_peer (links l);
  Some (set_links l k, effs).

Definition recover_peers (l : t) : t := set_links l (links_recover (links l)).

Definition on_start (l : t) : t * list Effect :=
  match state l with
  | Phase1 => start_phase1 l (round l) (chosen_watermark l)
  | _ => (l, [])
  end.

(** [LeaderElectionPort] indication. *)
Definition handle (l : t) (leader_index : Z) : option (t * list Effect) :=
  leader_change l (leader_index =? index l).

Definition receive_network (l : t) (sender : ActorPath) (m : LeaderInbound)
    : option (t * list Effect) :=
  match m with
  | LI_Phase1b p1b => handle_phase1b l p1b
  | LI_Nack round => handle_nack l round
  | LI_ChosenWatermark slot => Some (handle_chosen_watermark l slot)
  | LI_Recover _ => handle_recover l
  | LI_ClientRequestBatch batch => Some (handle_client_request_batch l sender batch)
  | LI_LeaderInfoRequestBatcher src => Some (handle_leader_info_request_batcher l src sender)
  end.

(** ** What the helpers compute *)

Lemma option_max_spec (l : list (option Z)) :
  match foldr option_max None l with
  | None => forall x, Some x ∉ l
  | Some m => Some m ∈ l /\ forall x, Some x ∈ l -> x <= m
  end.
Proof.
  induction l as [|o l IH]; simpl; [set_solver|].
  destruct o as [z|], (foldr option_max None l) as [m|]; simpl.
  - destruct IH as [Hin Hmax]. split.
    + destruct (Z.max_spec z m) as [[_ ->]|[_ ->]]; set_solver.
    + intros x [[= ->]|Hx]%elem_of_cons; [lia|]. specialize (Hmax x Hx). lia.
  - split; [set_solver|]. intros x [[= ->]|Hx]%elem_of_cons; [lia|]. by destruct (IH x).
  - destruct IH. set_solver.
  - set_solver.
Qed.

Lemma max_phase1b_slot_spec p :
  match max_phase1b_slot p with
  | None => forall e, e ∉ p1b_info p
  | Some m => (exists e, e ∈ p1b_info p /\ info_slot e = m) /\
      forall e, e ∈ p1b_info p -> info_slot e <= m
  end.
Proof.
  unfold max_phase1b_slot.
  pose proof (option_max_spec (map (fun i => Some (info_slot i)) (p1b_info p))) as H.
  destruct (foldr _ _ _) as [m|].
  - destruct H as [(e & [= ->] & He)%list_elem_of_fmap Hmax]. split; [eauto|].
    intros e' He'. apply Hmax, list_elem_of_fmap. eauto.
  - intros e He. apply (H (info_slot e)), list_elem_of_fmap. eauto.
Qed.

(** The largest slot reported by any of the collected answers. *)
Lemma max_phase1b_slots_spec l :
  match max_phase1b_slots l with
  | None => forall a p e, phase1bs l !! a = Some p -> e ∉ p1b_info p
  | Some m =>
      (exists a p e, phase1bs l !! a = Some p /\ e ∈ p1b_info p /\ info_slot e = m) /\
      forall a p e, phase1bs l !! a = Some p -> e ∈ p1b_info p -> info_slot e <= m
  end.
Proof.
  unfold max_phase1b_slots.
  pose proof (option_max_spec
    (map (fun kv => max_phase1b_slot kv.2) (map_to_list (phase1bs l)))) as H.
  assert (forall a p, phase1bs l !! a = Some p ->
    max_phase1b_slot p ∈ map (fun kv => max_phase1b_slot kv.2) (map_to_list (phase1bs l)))
    as Hin.
  { intros a p Hp. apply list_elem_of_fmap. exists (a, p). split; [done|].
    by apply elem_of_map_to_list. }
  destruct (foldr _ _ _) as [m|].
  - destruct H as [([a p] & Hm & Hp)%list_elem_of_fmap Hmax]. simpl in Hm.
    apply elem_of_map_to_list in Hp. pose proof (max_phase1b_slot_spec p) as Hs.
    rewrite <- Hm in Hs. destruct Hs as [(e & ? & ?) _]. split; [eauto 6|].
    intros a' p' e' Hp' He'. pose proof (max_phase1b_slot_spec p') as Hs'.
    specialize (Hin a' p' Hp'). destruct (max_phase1b_slot p') as [m'|]; [|by destruct (Hs' e')].
    destruct Hs' as [_ Hs']. specialize (Hs' e' He'). specialize (Hmax m' Hin). lia.
  - intros a p e Hp He. pose proof (max_phase1b_slot_spec p) as Hs. specialize (Hin a p Hp).
    destruct (max_phase1b_slot p) as [m|]; [by destruct (H m)|by destruct (Hs e)].
Qed.

Lemma elem_of_phase1b_infos l e :
  e ∈ phase1b_values l ≫= p1b_info <->
  exists a p, phase1bs l !! a = Some p /\ e ∈ p1b_info p.
Proof.
  rewrite list_elem_of_bind. unfold phase1b_values. split.
  - intros (p & He & ([a p'] & -> & Hp)%list_elem_of_fmap).
    apply elem_of_map_to_list in Hp. eauto.
  - intros (a & p & Hp & He). exists p. split; [done|]. apply list_elem_of_fmap.
    exists (a, p). split; [done|]. by apply elem_of_map_to_list.
Qed.

(** The safe value is the value of the most recent vote reported for the slot. *)
Lemma safe_value_spec l slot :
  (safe_value (phase1b_values l) slot = Noop /\
   forall a p e, phase1bs l !! a = Some p -> e ∈ p1b_info p -> info_slot e <> slot) \/
  (exists a p e, phase1bs l !! a = Some p /\ e ∈ p1b_info p /\ info_slot e = slot /\
     safe_value (phase1b_values l) slot = info_vote_value e /\
     forall a' p' e', phase1bs l !! a' = Some p' -> e' ∈ p1b_info p' ->
       info_slot e' = slot -> info_vote_round e' <= info_vote_round e).
Proof.
  unfold safe_value. destruct (max_by_key _ _) as [e|] eqn:Hm.
  - right. apply max_by_key_Some in Hm as [[Hs He]%list_elem_of_filter Hmax].
    apply elem_of_phase1b_infos in He as (a & p & Hp & He).
    exists a, p, e. split_and!; try done. intros a' p' e' Hp' He' Hs'.
    apply Hmax, list_elem_of_filter. rewrite elem_of_phase1b_infos. eauto.
  - left. split; [done|]. apply max_by_key_None in Hm. intros a p e Hp He Hs.
    assert (e ∈ filter (fun i => info_slot i = slot) (phase1b_values l ≫= p1b_info)) as Hin.
    { apply list_elem_of_filter. rewrite elem_of_phase1b_infos. eauto. }
    rewrite Hm in Hin. set_solver.
Qed.

Definition batch_proposal (l : t) (i : nat) (batch : list Proposal) : Effect :=
  Tell (proxy_leader l) (MProxyLocal (PI_Phase2a
    (mkPhase2a (index l) (next_slot l + Z.of_nat i) (round l)
       (CommandBatch (map proposal_data batch))))).

(** The held-back batches get consecutive slots, in order. *)
Lemma process_client_request_batches_spec l batches :
  0 <= next_slot l -> next_slot l + Z.of_nat (length batches) < 2 ^ 64 ->
  process_client_request_batches l batches =
    (set_next_slot l (next_slot l + Z.of_nat (length batches)),
     imap (batch_proposal l) batches).
Proof.
  revert l. induction batches as [|b batches IH]; intros l H0 Hb; simpl in *.
  - rewrite Z.add_0_r. by destruct l.
  - rewrite u64_add_small by lia. rewrite IH; simpl; [|lia..].
    f_equal; [unfold set_next_slot; simpl; f_equal; lia|].
    unfold batch_proposal; simpl. f_equal; [do 4 f_equal; lia|].
    apply imap_ext. intros i x _. simpl. do 4 f_equal. lia.
Qed.

End Leader.
