(* ===== verification/MpReplica.v ===== *)
(** The Multi-Paxos replica ([multi_paxos/replica.rs]).

    A replica stores the chosen commands in its log, executes them in slot
    order, and answers the client when its own node is the leader.  It tells the
    leaders the executed prefix every few entries, and asks for recovery while
    its log has a gap. *)

From S2P Require Import Prelude MpMessages Partition MpUtil.

Module Replica.

(** Periods in milliseconds. *)
Record ReplicaOptions := mkReplicaOptions {
  log_grow_size : nat;
  send_chosen_watermark_every_n_entries : Z;
  recover_log_entry_min_period : Z;
  recover_log_entry_max_period : Z }.

(** [gen_range(min, max)] panics on an empty range; the drawn period is [rnd]. *)
Definition get_random_timeout_period (o : ReplicaOptions) (rnd : Z) : option Z :=
  if recover_log_entry_min_period o <? recover_log_entry_max_period o
  then Some rnd else None.

Record t := mk {
  index : Z;
  log : BufferMap.t;
  executed_watermark : Z;
  num_chosen : Z;
  recover_timer : option Timer;
  options : ReplicaOptions;
  num_replicas : Z;
  leaders : gmap Z ActorPath;
  cached_client : ActorPath;
  current_leader : Z;
  current_round : Z;
  links : Links }.

Definition set_log (r : t) (x : BufferMap.t) : t :=
  mk (index r) x (executed_watermark r) (num_chosen r) (recover_timer r) (options r)
     (num_replicas r) (leaders r) (cached_client r) (current_leader r)
     (current_round r) (links r).

Definition set_executed_watermark (r : t) (x : Z) : t :=
  mk (index r) (log r) x (num_chosen r) (recover_timer r) (options r)
     (num_replicas r) (leaders r) (cached_client r) (current_leader r)
     (current_round r) (links r).

Definition set_num_chosen (r : t) (x : Z) : t :=
  mk (index r) (log r) (executed_watermark r) x (recover_timer r) (options r)
     (num_replicas r) (leaders r) (cached_client r) (current_leader r)
     (current_round r) (links r).

Definition set_recover_timer (r : t) (x : option Timer) : t :=
  mk (index r) (log r) (executed_watermark r) (num_chosen r) x (options r)
     (num_replicas r) (leaders r) (cached_client r) (current_leader r)
     (current_round r) (links r).

Definition set_current_leader (r : t) (x : Z) : t :=
  mk (index r) (log r) (executed_watermark r) (num_chosen r) (recover_timer r)
     (options r) (num_replicas r) (leaders r) (cached_client r) x (current_round r)
     (links r).

Definition set_links (r : t) (x : Links) : t :=
  mk (index r) (log r) (executed_watermark r) (num_chosen r) (recover_timer r)
     (options r) (num_replicas r) (leaders r) (cached_client r) (current_leader r)
     (current_round r) x.

Definition with_ (pid : Z) (options : ReplicaOptions) (num_replicas : Z)
    (leaders : gmap Z ActorPath) (cached_client : ActorPath) : t :=
  let initial_leader := Z.of_nat (size leaders) in
  mk pid (BufferMap.with_ (log_grow_size options)) 0 0 None options num_replicas
     leaders cached_client initial_leader 0 links_init.

Definition set_lagging_delay (r : t) (d : Z) : t :=
  set_links r (links_set_lagging_delay d (links r)).

(** The client replies for one executed command. *)
Definition replies_of (r : t) (c : CommandBatchOrNoop) : list ProposalResp :=
  if index r =? current_leader r then
    match c with
    | CommandBatch batch =>
        map (fun data => mkProposalResp data (current_leader r) (current_round r)) batch
    | Noop => []
    end
  else [].

(** The [ChosenWatermark] announcement after [executed_watermark] was advanced;
    [None] is a division by zero. *)
Definition announce_watermark (r : t) : option (list Effect) :=
  let every := send_chosen_watermark_every_n_entries (options r) in
  if every =? 0 then None
  else
    let modulo := executed_watermark r mod every in
    let div := executed_watermark r / every in
    if modulo =? 0 then
      if num_replicas r =? 0 then None
      else if div mod num_replicas r =? index r then
        Some (broadcast (leaders r) (disconnected_peers (links r))
                (MLeader (LI_ChosenWatermark (executed_watermark r))))
      else Some []
    else Some [].

(** The [loop] of [execute_log]: it stops at the first empty slot.  [fuel]
    bounds the iterations. *)
Fixpoint execute_log_loop (fuel : nat) (r : t) (client_replies : list ProposalResp)
    (effs : list Effect) : option (t * list ProposalResp * list Effect) :=
  match fuel with
  | O => None
  | S fuel =>
      match BufferMap.get (log r) (executed_watermark r) with
      | None => Some (r, client_replies, effs)
      | Some c =>
          let client_replies := client_replies ++ replies_of r c in
          let r := set_executed_watermark r (executed_watermark r +u64 1) in
          sent ← announce_watermark r;
          execute_log_loop fuel r client_replies (effs ++ sent)
      end
  end.

(** Every iteration reads a slot that is in the buffer, so the length of the
    buffer plus one is enough fuel. *)
Definition execute_log (r : t) : option (t * list ProposalResp * list Effect) :=
  execute_log_loop (S (length (BufferMap.buffer (log r)))) r [] [].

(** The periodic timer is not stored in [recover_timer]. *)
Definition start_recover_timer (r : t) (rnd : Z) : option (t * list Effect) :=
  _ ← get_random_timeout_period (options r) rnd;
  Some (r, [Schedule TRecover]).

(** The closure of [start_recover_timer]. *)
Definition recover_timeout (r : t) : t * list Effect :=
  (r, broadcast (leaders r) (disconnected_peers (links r))
        (MLeader (LI_Recover (executed_watermark r)))).

Definition stop_recover_timer (r : t) : t * list Effect :=
  match recover_timer r with
  | Some timer => (set_recover_timer r None, [Cancel timer])
  | None => (r, [])
  end.

Definition reset_recover_timer (r : t) (rnd : Z) : option (t * list Effect) :=
  let '(r, effs) := stop_recover_timer r in
  '(r, effs') ← start_recover_timer r rnd;
  Some (r, effs ++ effs').

Definition handle_chosen (r : t) (c : ChosenMsg) (rnd : Z) : option (t * list Effect) :=
  let is_recover_timer_running := negb (num_chosen r =? executed_watermark r) in
  let old_executed_watermark := executed_watermark r in
  match BufferMap.get (log r) (chosen_slot c) with
  | Some _ => Some (r, [])
  | None =>
      let r := set_log r (BufferMap.put (log r) (chosen_slot c) (chosen_value c)) in
      let r := set_num_chosen r (num_chosen r +u64 1) in
      '(r, client_reply_batch, effs) ← execute_log r;
      let replies := map (fun reply => Tell (cached_client r) (MProposalResp reply))
                         client_reply_batch in
      let should_recover_timer_be_running := negb (num_chosen r =? executed_watermark r) in
      let should_recover_timer_be_reset :=
        negb (old_executed_watermark =? executed_watermark r) in
      '(r, timers) ←
        (if is_recover_timer_running then
           match should_recover_timer_be_running, should_recover_timer_be_reset with
           | true, true => reset_recover_timer r rnd
           | true, false => Some (r, [])
           | false, _ => Some (stop_recover_timer r)
           end
         else if should_recover_timer_be_running then start_recover_timer r rnd
         else Some (r, []));
      Some (r, effs ++ replies ++ timers)
  end.

Definition disconnect_peers (r : t) (peers : list Z) (delay : bool)
    (lagging_peer : option Z) : option (t * list Effect) :=
  '(l, effs) ← links_disconnect peers delay lagging_peer (links r);
  Some (set_links r l, effs).

Definition recover_peers (r : t) : t := set_links r (links_recover (links r)).

Definition receive_network (r : t) (m : ReplicaInbound) (rnd : Z) : option (t * list Effect) :=
  match m with
  | RI_Chosen c => handle_chosen r c rnd
  end.

(** [LeaderElectionPort] indication. *)
Definition handle (r : t) (leader : Z) : t := set_current_leader r leader.

(** ** Execution of the log *)

(** The commands logged in the slots [from .. to - 1]. *)
Definition executed (r : t) (from to : Z) : list CommandBatchOrNoop :=
  omap (BufferMap.get (log r)) (seqZ from (to - from)).

(** The announcements made while the watermark moves from [from] to [to]. *)
Definition announced_between (r : t) (from to : Z) : list Effect :=
  seqZ (from + 1) (to - from) ≫=
    (fun w => default [] (announce_watermark (set_executed_watermark r w))).

Lemma announce_total r :
  send_chosen_watermark_every_n_entries (options r) <> 0 -> num_replicas r <> 0 ->
  is_Some (announce_watermark r).
Proof.
  intros H1 H2. unfold announce_watermark.
  destruct (Z.eqb_spec (send_chosen_watermark_every_n_entries (options r)) 0); [done|].
  destruct (Z.eqb_spec (num_replicas r) 0); [done|]. by repeat case_match.
Qed.

Section execute.
Context (r0 : t).
Context (Hevery : send_chosen_watermark_every_n_entries (options r0) <> 0).
Context (Hreplicas : num_replicas r0 <> 0).
Context (Hbuffer : BufferMap.watermark (log r0) +
                   Z.of_nat (length (BufferMap.buffer (log r0))) < 2 ^ 64).
Context (Hwatermark : 0 <= executed_watermark r0).

Lemma set_executed_watermark_twice r x y :
  set_executed_watermark (set_executed_watermark r x) y = set_executed_watermark r y.
Proof. done. Qed.

(** One iteration at slot [w] for every full slot; the loop ends at the first
    empty slot [w'], before the fuel does. *)
Lemma execute_log_loop_spec fuel w replies effs :
  0 <= w ->
  (Z.to_nat (BufferMap.watermark (log r0) + Z.of_nat (length (BufferMap.buffer (log r0))) - w)
    < fuel)%nat ->
  exists w', w <= w' /\
    execute_log_loop fuel (set_executed_watermark r0 w) replies effs =
      Some (set_executed_watermark r0 w',
            replies ++ (executed r0 w w' ≫= replies_of r0),
            effs ++ announced_between r0 w w') /\
    BufferMap.get (log r0) w' = None /\
    forall s, w <= s < w' -> is_Some (BufferMap.get (log r0) s).
Proof.
  revert w replies effs. induction fuel as [|fuel IH]; intros w replies effs Hw Hf; [lia|].
  simpl. destruct (BufferMap.get (log r0) w) as [c|] eqn:Hg.
  - pose proof (BufferMap.get_bound _ _ _ Hg) as Hb. rewrite u64_add_small by lia.
    destruct (announce_total (set_executed_watermark r0 (w + 1)) Hevery Hreplicas)
      as [sent Hs].
    rewrite set_executed_watermark_twice, Hs. simpl.
    destruct (IH (w + 1) (replies ++ replies_of (set_executed_watermark r0 w) c)
      (effs ++ sent)) as (w' & Hle & Hl & Hn & Hall); [lia..|].
    exists w'. split; [lia|]. split; [|split; [done|]].
    + rewrite Hl. unfold executed, announced_between.
      rewrite (seqZ_cons w (w' - w)), (seqZ_cons (w + 1) (w' - w)) by lia.
      replace (Z.succ w) with (w + 1) by lia. replace (Z.succ (w + 1)) with (w + 1 + 1) by lia.
      replace (Z.pred (w' - w)) with (w' - (w + 1)) by lia. simpl. rewrite Hg. simpl.
      rewrite Hs. simpl. by rewrite <- !app_assoc.
    + intros s Hs'. destruct (decide (s = w)) as [->|]; [by rewrite Hg|apply Hall; lia].
  - exists w. split; [lia|]. split; [|split; [done|lia]].
    unfold executed, announced_between. rewrite Z.sub_diag. simpl. by rewrite !app_nil_r.
Qed.
End execute.

(** C30: [execute_log] terminates without panicking and executes exactly the
    contiguous filled slots from the watermark on, up to the first gap: the
    replies are those of the executed commands in slot order, and the
    announcements those of the watermarks passed. *)
Theorem execute_log_spec (r : t) :
  send_chosen_watermark_every_n_entries (options r) <> 0 -> num_replicas r <> 0 ->
  BufferMap.watermark (log r) + Z.of_nat (length (BufferMap.buffer (log r))) < 2 ^ 64 ->
  BufferMap.watermark (log r) <= executed_watermark r -> 0 <= executed_watermark r ->
  exists w, executed_watermark r <= w /\
    execute_log r =
      Some (set_executed_watermark r w,
            executed r (executed_watermark r) w ≫= replies_of r,
            announced_between r (executed_watermark r) w) /\
    BufferMap.get (log r) w = None /\
    forall s, executed_watermark r <= s < w -> is_Some (BufferMap.get (log r) s).
Proof.
  intros H1 H2 H3 H4 H5. unfold execute_log.
  destruct (execute_log_loop_spec r H1 H2 H3 (S (length (BufferMap.buffer (log r))))
    (executed_watermark r) [] []) as (w & ? & Hl & ? & ?); [lia..|].
  exists w. split; [done|]. split; [|done].
  assert (set_executed_watermark r (executed_watermark r) = r) as Hid by by destruct r.
  rewrite Hid in Hl. exact Hl.
Qed.

(** A replica whose log has the slots 0 and 2. *)
Definition gap_replica : t :=
  let r := with_ 1 (mkReplicaOptions 4 1 10 20) 3 ∅ (mkPath CLIENT 0 1) in
  set_log r (BufferMap.put (BufferMap.put (log r) 2 Noop) 0 Noop).

Lemma execute_log_spec_witness :
  exists w, 0 <= w /\
    option_map (fun x => executed_watermark x.1.1) (execute_log gap_replica) = Some w /\
    BufferMap.get (log gap_replica) w = None.
Proof.
  destruct (execute_log_spec gap_replica) as (w & Hw & He & Hn & _);
    [vm_compute; congruence..|].
  exists w. split_and!; [exact Hw| |exact Hn]. rewrite He. reflexivity.
Defined.

(** ** Announcements of the executed prefix *)

(** With the node indices [1 .. num_replicas] the watermark that completes the
    [k]-th group of entries is announced by the replica with index
    [k mod num_replicas]; when [num_replicas] divides [k] no replica announces it,
    and the replica with index [num_replicas] never announces anything. *)
Theorem watermark_announcer (r : t) (effs : list Effect) :
  0 < send_chosen_watermark_every_n_entries (options r) ->
  0 < num_replicas r -> 1 <= index r <= num_replicas r ->
  announce_watermark r = Some effs -> effs <> [] ->
  index r = (executed_watermark r / send_chosen_watermark_every_n_entries (options r))
              mod num_replicas r /\
  (executed_watermark r / send_chosen_watermark_every_n_entries (options r))
    mod num_replicas r <> 0 /\
  index r <> num_replicas r.
Proof.
  intros He Hn Hi H Hne. unfold announce_watermark in H.
  set (div := executed_watermark r / _) in *.
  pose proof (Z.mod_pos_bound div (num_replicas r) Hn).
  handler_inv H; [|done..]. lia.
Qed.

Lemma watermark_announcer_witness :
  let r := set_executed_watermark
    (with_ 1 (mkReplicaOptions 4 1 10 20) 3 {[1 := mkPath LEADER 1 1]} (mkPath CLIENT 0 1)) 4 in
  index r = (executed_watermark r / 1) mod 3 /\ index r <> num_replicas r.
Proof.
  intros r. destruct (watermark_announcer r [Tell (mkPath LEADER 1 1)
    (MLeader (LI_ChosenWatermark 4))]) as (H1 & _ & H2);
    [reflexivity|reflexivity|vm_compute; split; congruence|reflexivity|discriminate|].
  split; [exact H1|exact H2].
Defined.

(** ** The recover timer *)

Lemma announce_no_cancel r effs timer :
  announce_watermark r = Some effs -> Cancel timer ∉ effs.
Proof.
  unfold announce_watermark. intros H. handler_inv H; try set_solver.
  by intros (? & ? & _ & _ & ?)%elem_of_broadcast.
Qed.

Lemma execute_log_loop_quiet fuel r replies effs r' replies' effs' :
  execute_log_loop fuel r replies effs = Some (r', replies', effs') ->
  recover_timer r' = recover_timer r /\
  ((forall timer, Cancel timer ∉ effs) -> forall timer, Cancel timer ∉ effs').
Proof.
  revert r replies effs. induction fuel as [|fuel IH]; intros r replies effs; simpl; [done|].
  intros H. handler_inv H; [|done]. apply IH in H as [-> Hc]. split; [done|].
  intros He. apply Hc. intros timer [?|?]%elem_of_app; [by eapply He|].
  by eapply announce_no_cancel.
Qed.

(** A replica never records the handle of its recover timer, so it never
    cancels one: whatever it handles, no [Cancel] is among its effects. *)
Theorem recover_timer_never_cancelled (r r' : t) (m : ReplicaInbound) (rnd : Z)
    (effs : list Effect) :
  recover_timer r = None -> receive_network r m rnd = Some (r', effs) ->
  recover_timer r' = None /\ forall timer, Cancel timer ∉ effs.
Proof.
  intros Hnone H. destruct m as [c]. simpl in H. unfold handle_chosen in H.
  destruct (BufferMap.get _ _); [simplify_eq; set_solver|].
  apply bind_Some in H as ([[r1 replies] e1] & Hex & H).
  apply execute_log_loop_quiet in Hex as [Hrt Hc]. simpl in Hrt. rewrite Hnone in Hrt.
  apply bind_Some in H as ([r2 timers] & Ht & [= <- <-]).
  assert (recover_timer r2 = None /\ forall timer, Cancel timer ∉ timers) as [-> Hct].
  { unfold reset_recover_timer, start_recover_timer, stop_recover_timer in Ht.
    rewrite Hrt in Ht.
    repeat case_match; simplify_option_eq; (split; [done|]); intros timer He;
      first [by apply not_elem_of_nil in He
            |by apply list_elem_of_singleton in He]. }
  split; [done|]. intros timer. rewrite !elem_of_app. intros [H|[H|H]].
  - eapply Hc; [|exact H]. intros ?. apply not_elem_of_nil.
  - by apply list_elem_of_fmap in H as (? & ? & _).
  - by eapply Hct.
Qed.

Lemma recover_timer_never_cancelled_witness :
  exists r' effs,
    receive_network (set_log gap_replica (BufferMap.with_ 4)) (RI_Chosen (mkChosen 1 Noop)) 15
      = Some (r', effs) /\
    Schedule TRecover ∈ effs /\ recover_timer r' = None.
Proof.
  destruct (receive_network (set_log gap_replica (BufferMap.with_ 4))
    (RI_Chosen (mkChosen 1 Noop)) 15) as [[r' effs]|] eqn:H; [|vm_compute in H; discriminate H].
  exists r', effs. split; [reflexivity|]. split.
  - vm_compute in H. injection H as _ <-. apply list_elem_of_here.
  - destruct (recover_timer_never_cancelled (set_log gap_replica (BufferMap.with_ 4)) r'
      (RI_Chosen (mkChosen 1 Noop)) 15 effs eq_refl H) as [Hr _]. exact Hr.
Defined.

End Replica.
