(* ===== verification/MpBatcher.v ===== *)
(** The Multi-Paxos batcher ([multi_paxos/batcher.rs]).

    Client proposals are collected and sent once per tick to the leader of the
    batcher's round; batches refused by an inactive leader are kept until the
    batcher learns of a round with another leader. *)

From S2P Require Import Prelude MpMessages Partition MpUtil.

Module Batcher.

Record t := mk {
  growing_batch : list Proposal;
  pending_resend_batches : list (list Proposal);
  leaders : gmap Z ActorPath;
  round : Round;
  round_system : ClassicRoundRobin.t;
  batch_timer : option Timer;
  index : Z;
  links : Links }.

Definition set_growing_batch (b : t) (x : list Proposal) : t :=
  mk x (pending_resend_batches b) (leaders b) (round b) (round_system b)
     (batch_timer b) (index b) (links b).

Definition set_pending_resend_batches (b : t) (x : list (list Proposal)) : t :=
  mk (growing_batch b) x (leaders b) (round b) (round_system b) (batch_timer b)
     (index b) (links b).

Definition set_round (b : t) (x : Round) : t :=
  mk (growing_batch b) (pending_resend_batches b) (leaders b) x (round_system b)
     (batch_timer b) (index b) (links b).

Definition set_batch_timer (b : t) (x : option Timer) : t :=
  mk (growing_batch b) (pending_resend_batches b) (leaders b) (round b)
     (round_system b) x (index b) (links b).

Definition set_links (b : t) (x : Links) : t :=
  mk (growing_batch b) (pending_resend_batches b) (leaders b) (round b)
     (round_system b) (batch_timer b) (index b) x.

Definition with_ (index : Z) (leaders : gmap Z ActorPath) : t :=
  mk [] [] leaders 0 (ClassicRoundRobin.mk (Z.of_nat (size leaders))) None index links_init.

Definition set_lagging_delay (b : t) (d : Z) : t :=
  set_links b (links_set_lagging_delay d (links b)).

Definition handle_not_leader_batcher (b : t) (batch : list Proposal) : t * list Effect :=
  let b := set_pending_resend_batches b (pending_resend_batches b ++ [batch]) in
  (b, broadcast (leaders b) (disconnected_peers (links b))
        (MLeader (LI_LeaderInfoRequestBatcher (index b)))).

(** [None] is a panic: no leaders, or no path for the leader of the new round. *)
Definition handle_leader_info (b : t) (leader_info_round : Round) : option (t * list Effect) :=
  if leader_info_round <=? round b then Some (b, [])
  else
    let old_round := round b in
    let new_round := leader_info_round in
    let b := set_round b leader_info_round in
    old_leader ← ClassicRoundRobin.leader (round_system b) old_round;
    new_leader ← ClassicRoundRobin.leader (round_system b) new_round;
    if old_leader =? new_leader then Some (b, [])
    else if bool_decide (new_leader ∈ disconnected_peers (links b)) then
      Some (set_pending_resend_batches b [], [])
    else
      leader ← leaders b !! new_leader;
      let batches := pending_resend_batches b in
      Some (set_pending_resend_batches b [],
            map (fun batch => Tell leader (MLeader (LI_ClientRequestBatch batch))) batches).

Definition start_batch_timer (b : t) : t * list Effect :=
  (set_batch_timer b (Some TBatch), [Schedule TBatch]).

(** The closure of [start_batch_timer]. *)
Definition batch_timeout (b : t) : option (t * list Effect) :=
  match growing_batch b with
  | [] => Some (b, [])
  | batch =>
      leader_index ← ClassicRoundRobin.leader (round_system b) (round b);
      if bool_decide (leader_index ∈ disconnected_peers (links b)) then
        Some (set_growing_batch b [], [])
      else
        leader ← leaders b !! leader_index;
        Some (set_growing_batch b [],
              [Tell leader (MLeader (LI_ClientRequestBatch batch))])
  end.

Definition stop_batch_timer (b : t) : t * list Effect :=
  match batch_timer b with
  | Some timer => (set_batch_timer b None, [Cancel timer])
  | None => (b, [])
  end.

Definition disconnect_peers (b : t) (peers : list Z) (delay : bool)
    (lagging_peer : option Z) : option (t * list Effect) :=
  '(l, effs) ← links_disconnect peers delay lagging_peer (links b);
  Some (set_links b l, effs).

Definition recover_peers (b : t) : t := set_links b (links_recover (links b)).

Definition receive_local (b : t) (p : Proposal) : t :=
  set_growing_batch b (growing_batch b ++ [p]).

Definition receive_network (b : t) (m : BatcherInbound) : option (t * list Effect) :=
  match m with
  | BI_NotLeaderBatcher batch => Some (handle_not_leader_batcher b batch)
  | BI_LeaderInfoReplyBatcher l => handle_leader_info b l
  end.

Definition on_start (b : t) : t * list Effect := start_batch_timer b.

Definition on_kill (b : t) : t * list Effect := stop_batch_timer b.

(** ** No proposal is lost or duplicated *)

(** The proposals a batcher holds, and those it sends to a leader. *)
Definition held (b : t) : list Proposal := growing_batch b ++ concat (pending_resend_batches b).

Definition sent_proposals (effs : list Effect) : list Proposal :=
  effs ≫= (fun e => match e with
                    | Tell _ (MLeader (LI_ClientRequestBatch batch)) => batch
                    | _ => []
                    end).

Definition returned (m : BatcherInbound) : list Proposal :=
  match m with BI_NotLeaderBatcher batch => batch | _ => [] end.

Lemma sent_broadcast peers disc m :
  (forall batch, m <> MLeader (LI_ClientRequestBatch batch)) ->
  sent_proposals (broadcast peers disc m) = [].
Proof.
  intros Hm. unfold sent_proposals, broadcast. generalize (map_to_list peers).
  intros l. induction l as [|[q path] l IH]; csimpl; [done|].
  case_bool_decide; [done|]. csimpl. rewrite IH.
  destruct m as [[| | | |batch|]|?|?|?|?|?|?|?|?|?|?]; try done. by destruct (Hm batch).
Qed.

Lemma sent_batches leader batches :
  sent_proposals (map (fun batch => Tell leader (MLeader (LI_ClientRequestBatch batch))) batches)
    = concat batches.
Proof.
  unfold sent_proposals. induction batches as [|b batches IH]; csimpl; [done|].
  by rewrite IH.
Qed.

(** While no link is cut, a batcher loses and duplicates no proposal: what it
    held before a message, with the batch the message returned, is what it holds
    afterwards with what it sent to the leaders, in some order. *)
Theorem batcher_conserves (b b' : t) (m : BatcherInbound) (effs : list Effect) :
  disconnected_peers (links b) = [] -> receive_network b m = Some (b', effs) ->
  held b ++ returned m ≡ₚ held b' ++ sent_proposals effs.
Proof.
  intros Hd H. unfold receive_network, handle_not_leader_batcher, handle_leader_info in H.
  destruct m as [batch|r]; simpl in H.
  - simplify_eq. rewrite sent_broadcast by done. unfold held; simpl.
    rewrite concat_app. simpl. by rewrite !app_nil_r, app_assoc.
  - simpl. rewrite app_nil_r. rewrite Hd in H.
    handler_inv H; unfold held; simpl; rewrite ?app_nil_r; try done.
    by rewrite sent_batches.
Qed.

Lemma batcher_conserves_witness :
  let b := set_growing_batch (with_ 1 {[2 := mkPath LEADER 2 1]}) [mkProposal []] in
  exists b' effs,
    receive_network b (BI_NotLeaderBatcher [mkProposal []]) = Some (b', effs) /\
    length (held b' ++ sent_proposals effs) = 2%nat.
Proof.
  intros b. eexists _, _. split; [reflexivity|].
  erewrite <- Permutation_length; [|eapply (batcher_conserves b _
    (BI_NotLeaderBatcher [mkProposal []])); [reflexivity|reflexivity]].
  reflexivity.
Defined.

End Batcher.
