(* ===== verification/MpParticipant.v ===== *)
(** The Multi-Paxos leader election ([multi_paxos/participant.rs]).

    The leader pings the other participants; a follower that hears no ping for a
    random period makes itself leader of the next round.  Rounds with their
    leader index are compared lexicographically. *)

From S2P Require Import Prelude MpMessages Partition.

Module Participant.

(** Periods in milliseconds. *)
Record ElectionOptions := mkElectionOptions {
  ping_period : Z;
  timeout_min : Z;
  timeout_max : Z }.

(** [gen_range(min, max)] panics on an empty range; the drawn period is [rnd]. *)
Definition get_random_timeout_period (o : ElectionOptions) (rnd : Z) : option Z :=
  if timeout_min o <? timeout_max o then Some rnd else None.

Inductive State := Leader | Follower.

#[global] Instance State_eq_dec : EqDecision State.
Proof. solve_decision. Defined.

Record t := mk {
  index : Z;
  other_participants : list ActorPath;
  round : Z;
  leader_index : Z;
  ping_timer : option Timer;
  no_ping_timer : option Timer;
  state : State;
  election_options : ElectionOptions;
  stopped : bool;
  stopped_peers : gset Z;
  stop_ask : option Z;
  links : Links }.

Definition set_round (p : t) (x : Z) : t :=
  mk (index p) (other_participants p) x (leader_index p) (ping_timer p)
     (no_ping_timer p) (state p) (election_options p) (stopped p) (stopped_peers p)
     (stop_ask p) (links p).

Definition set_leader_index (p : t) (x : Z) : t :=
  mk (index p) (other_participants p) (round p) x (ping_timer p) (no_ping_timer p)
     (state p) (election_options p) (stopped p) (stopped_peers p) (stop_ask p)
     (links p).

Definition set_ping_timer (p : t) (x : option Timer) : t :=
  mk (index p) (other_participants p) (round p) (leader_index p) x (no_ping_timer p)
     (state p) (election_options p) (stopped p) (stopped_peers p) (stop_ask p)
     (links p).

Definition set_no_ping_timer (p : t) (x : option Timer) : t :=
  mk (index p) (other_participants p) (round p) (leader_index p) (ping_timer p) x
     (state p) (election_options p) (stopped p) (stopped_peers p) (stop_ask p)
     (links p).

Definition set_state (p : t) (x : State) : t :=
  mk (index p) (other_participants p) (round p) (leader_index p) (ping_timer p)
     (no_ping_timer p) x (election_options p) (stopped p) (stopped_peers p)
     (stop_ask p) (links p).

Definition set_stopped (p : t) (x : bool) : t :=
  mk (index p) (other_participants p) (round p) (leader_index p) (ping_timer p)
     (no_ping_timer p) (state p) (election_options p) x (stopped_peers p) (stop_ask p)
     (links p).

Definition set_stopped_peers (p : t) (x : gset Z) : t :=
  mk (index p) (other_participants p) (round p) (leader_index p) (ping_timer p)
     (no_ping_timer p) (state p) (election_options p) (stopped p) x (stop_ask p)
     (links p).

Definition set_stop_ask (p : t) (x : option Z) : t :=
  mk (index p) (other_participants p) (round p) (leader_index p) (ping_timer p)
     (no_ping_timer p) (state p) (election_options p) (stopped p) (stopped_peers p) x
     (links p).

Definition set_links (p : t) (x : Links) : t :=
  mk (index p) (other_participants p) (round p) (leader_index p) (ping_timer p)
     (no_ping_timer p) (state p) (election_options p) (stopped p) (stopped_peers p)
     (stop_ask p) x.

Definition with_ (peers : list ActorPath) (pid initial_leader_index : Z)
    (election_options : ElectionOptions) : t :=
  let index := pid in
  let state := if index =? initial_leader_index then Leader else Follower in
  mk index peers 0 initial_leader_index None None state election_options
     false ∅ None links_init.

Definition set_lagging_delay (p : t) (d : Z) : t :=
  set_links p (links_set_lagging_delay d (links p)).

Definition ping (p : t) (round leader_index : Z) : list Effect :=
  map (fun peer => Tell peer (MPing (mkPing round leader_index))) (other_participants p).

Definition start_ping_timer (p : t) : t * list Effect :=
  (set_ping_timer p (Some TPing), [Schedule TPing]).

(** The closure of [start_ping_timer]. *)
Definition ping_timeout (p : t) : t * list Effect := (p, ping p (round p) (index p)).

Definition stop_ping_timer (p : t) : t * list Effect :=
  match ping_timer p with
  | Some timer => (set_ping_timer p None, [Cancel timer])
  | None => (p, [])
  end.

Definition start_no_ping_timer (p : t) (rnd : Z) : option (t * list Effect) :=
  _ ← get_random_timeout_period (election_options p) rnd;
  Some (set_no_ping_timer p (Some TNoPing), [Schedule TNoPing]).

Definition stop_no_ping_timer (p : t) : t * list Effect :=
  match no_ping_timer p with
  | Some timer => (set_no_ping_timer p None, [Cancel timer])
  | None => (p, [])
  end.

Definition reset_no_ping_timer (p : t) (rnd : Z) : option (t * list Effect) :=
  let '(p, effs) := stop_no_ping_timer p in
  '(p, effs') ← start_no_ping_timer p rnd;
  Some (p, effs ++ effs').

Definition change_state (p : t) (new_state : State) (rnd : Z) : option (t * list Effect) :=
  match state p, new_state with
  | Leader, Leader => Some (p, [])
  | Follower, Follower => Some (p, [])
  | Follower, Leader =>
      let '(p, e1) := stop_no_ping_timer p in
      let '(p, e2) := start_ping_timer p in
      let p := set_state p Leader in
      Some (p, e1 ++ e2 ++ ping p (round p) (leader_index p) ++ [Trigger (leader_index p)])
  | Leader, Follower =>
      let '(p, e1) := stop_ping_timer p in
      '(p, e2) ← start_no_ping_timer p rnd;
      let p := set_state p Follower in
      Some (p, e1 ++ e2 ++ [Trigger (leader_index p)])
  end.

(** The closure of [start_no_ping_timer]. *)
Definition no_ping_timeout (p : t) (rnd : Z) : option (t * list Effect) :=
  let p := set_round p (round p +u64 1) in
  let p := set_leader_index p (index p) in
  change_state p Leader rnd.

(** Lexicographic order on the pairs [(round, leader_index)]. *)
Definition ballot_lt (x y : Z * Z) : bool :=
  (x.1 <? y.1) || ((x.1 =? y.1) && (x.2 <? y.2)).

Definition ballot (p : t) : Z * Z := (round p, leader_index p).

Definition handle_ping (p : t) (m : Ping) (rnd : Z) : option (t * list Effect) :=
  let ping_ballot := (ping_round m, ping_leader_index m) in
  match state p with
  | Follower =>
      if ballot_lt ping_ballot (ballot p) then Some (p, [])
      else if bool_decide (ping_ballot = ballot p) then reset_no_ping_timer p rnd
      else
        let p := set_round p (ping_round m) in
        let p := set_leader_index p (ping_leader_index m) in
        reset_no_ping_timer p rnd
  | Leader =>
      if ballot_lt ping_ballot (ballot p) || bool_decide (ping_ballot = ballot p)
      then Some (p, [])
      else
        let p := set_round p (ping_round m) in
        let p := set_leader_index p (ping_leader_index m) in
        change_state p Follower rnd
  end.

Definition disconnect_peers (p : t) (peers : list Z) (delay : bool)
    (lagging_peer : option Z) : option (t * list Effect) :=
  '(l, effs) ← links_disconnect peers delay lagging_peer (links p);
  Some (set_links p l, effs).

Definition recover_peers (p : t) : t := set_links p (links_recover (links p)).

Definition on_start (p : t) (rnd : Z) : option (t * list Effect) :=
  match state p with
  | Leader => Some (start_ping_timer p)
  | Follower => start_no_ping_timer p rnd
  end.

Definition on_kill (p : t) : t * list Effect :=
  let '(p, e1) := stop_ping_timer p in
  let '(p, e2) := stop_no_ping_timer p in
  (p, e1 ++ e2).

(** The [Stop] request carries the pid that is told to the peers. *)
Definition receive_local (p : t) (pid : Z) : t * list Effect :=
  let p := set_links p (links_recover (links p)) in
  let '(p, e1) := stop_ping_timer p in
  let '(p, e2) := stop_no_ping_timer p in
  let e3 := map (fun peer => Tell peer (MPeerStop pid)) (other_participants p) in
  let p := set_stopped p true in
  if bool_decide (size (stopped_peers p) = length (other_participants p)) then
    (p, e1 ++ e2 ++ e3 ++ [ReplyStop])
  else (set_stop_ask p (Some pid), e1 ++ e2 ++ e3).

(** [None] is the failed [assert!] on a duplicate stop or a missing ask. *)
Definition handle_peer_stop (p : t) (pid : Z) : option (t * list Effect) :=
  if bool_decide (pid ∈ stopped_peers p) then None
  else
    let p := set_stopped_peers p ({[pid]} ∪ stopped_peers p) in
    if stopped p && bool_decide (size (stopped_peers p) = length (other_participants p)) then
      _ ← stop_ask p;
      Some (set_stop_ask p None, [ReplyStop])
    else Some (p, []).

(** Network messages of a participant; pings of a disconnected leader are dropped. *)
Definition receive_network_ping (p : t) (m : Ping) (rnd : Z) : option (t * list Effect) :=
  if bool_decide (ping_leader_index m ∈ disconnected_peers (links p)) then Some (p, [])
  else handle_ping p m rnd.

(** ** Elections *)

Definition ballot_le (x y : Z * Z) : Prop := ballot_lt x y = true \/ x = y.

Lemma ballot_lt_spec x y : ballot_lt x y = true <-> x.1 < y.1 \/ (x.1 = y.1 /\ x.2 < y.2).
Proof.
  unfold ballot_lt. rewrite orb_true_iff, andb_true_iff, !Z.ltb_lt, Z.eqb_eq. done.
Qed.

Lemma ballot_trichotomy x y : ballot_lt x y = false -> x <> y -> ballot_lt y x = true.
Proof.
  destruct x as [a b], y as [c d]. intros Hn Hne. apply ballot_lt_spec. simpl.
  assert (~ (a < c \/ (a = c /\ b < d))) as Hn'.
  { intros H. change (a < c) with ((a, b).1 < (c, d).1) in H.
    apply (ballot_lt_spec (a, b) (c, d)) in H. congruence. }
  destruct (decide (a = c)) as [->|]; [|lia].
  destruct (decide (b = d)) as [->|]; [done|lia].
Qed.

(** The inputs of the election: a ping or the expiry of the no-ping timer. *)
Inductive election_input := InPing (m : Ping) | InNoPing.

Definition election_step (p : t) (i : election_input) (rnd : Z) : option (t * list Effect) :=
  match i with
  | InPing m => receive_network_ping p m rnd
  | InNoPing => no_ping_timeout p rnd
  end.

Lemma change_state_ballot p st rnd p' effs :
  change_state p st rnd = Some (p', effs) ->
  ballot p' = ballot p /\ forall idx, Trigger idx ∈ effs -> idx = leader_index p'.
Proof.
  unfold change_state, start_no_ping_timer, stop_ping_timer, stop_no_ping_timer,
    start_ping_timer, ping. intros H.
  repeat case_match; simplify_option_eq; (split; [done|]); intros idx; simpl;
    rewrite ?elem_of_cons, ?elem_of_app, ?elem_of_cons, ?not_elem_of_nil_iff;
    intros Hin; set_solver.
Qed.
Lemma reset_no_ping_ballot p rnd p' effs :
  reset_no_ping_timer p rnd = Some (p', effs) ->
  ballot p' = ballot p /\ forall idx, Trigger idx ∉ effs.
Proof.
  unfold reset_no_ping_timer, stop_no_ping_timer, start_no_ping_timer. intros H.
  repeat case_match; simplify_option_eq; (split; [done|]); set_solver.
Qed.

(** The ballot (round, leader index) of a participant never decreases, and
    whenever it announces a leader on the election port, it announces the leader
    of a strictly larger ballot than before. *)
Theorem election_monotone (p p' : t) (i : election_input) (rnd : Z) (effs : list Effect) :
  0 <= round p -> round p + 1 < 2 ^ 64 ->
  election_step p i rnd = Some (p', effs) ->
  ballot_le (ballot p) (ballot p') /\
  forall idx, Trigger idx ∈ effs ->
    idx = leader_index p' /\ ballot_lt (ballot p) (ballot p') = true.
Proof.
  intros H0 Hb H. destruct i as [m|]; simpl in H.
  - unfold receive_network_ping in H.
    case_bool_decide; [simplify_eq; split; [by right|set_solver]|].
    unfold handle_ping in H. set (b := (ping_round m, ping_leader_index m)) in *.
    destruct (state p), (ballot_lt b (ballot p)) eqn:Hlt; simpl in H;
      try (simplify_eq; split; [by right|set_solver]);
      case_bool_decide as Heq; try (simplify_eq; split; [by right|set_solver]).
    + apply change_state_ballot in H as [-> Ht]. pose proof (ballot_trichotomy _ _ Hlt Heq).
      split; [by left|]. auto.
    + apply reset_no_ping_ballot in H as [-> Ht]. split; [by right|]. by intros idx ?%Ht.
    + apply reset_no_ping_ballot in H as [-> Ht]. pose proof (ballot_trichotomy _ _ Hlt Heq).
      split; [by left|]. by intros idx ?%Ht.
  - unfold no_ping_timeout in H. apply change_state_ballot in H as [-> Ht].
    assert (ballot_lt (ballot p) (round p +u64 1, index p) = true) as Hlt.
    { apply ballot_lt_spec. simpl. rewrite u64_add_small by lia. lia. }
    split; [by left|]. auto.
Qed.

Lemma election_monotone_witness :
  let p := with_ [mkPath PARTICIPANT 2 1] 1 3 (mkElectionOptions 5 90 110) in
  exists p' effs, election_step p InNoPing 100 = Some (p', effs) /\
    Trigger 1 ∈ effs /\ ballot_lt (ballot p) (ballot p') = true.
Proof.
  intros p. destruct (election_step p InNoPing 100) as [[p' effs]|] eqn:H;
    [|vm_compute in H; discriminate H].
  assert (Trigger 1 ∈ effs) as Hin.
  { vm_compute in H. injection H as _ <-. apply list_elem_of_further, list_elem_of_further,
      list_elem_of_here. }
  exists p', effs. split; [reflexivity|]. split; [exact Hin|].
  destruct (election_monotone p p' InNoPing 100 effs) as [_ Ht];
    [vm_compute; congruence|reflexivity|exact H|].
  apply (Ht 1 Hin).
Defined.

End Participant.
