(* ===== verification/MpSystem.v ===== *)
(** The Multi-Paxos node and the cluster.

    Translates the parts of [multi_paxos/multipaxos.rs] that build and connect
    the six components of a node ([derive_actorpaths], [create_options],
    [create_components], [start_components], the reaction of the components to
    proposals and partition commands), and composes [n] nodes with a network and timers into
    an executable transition system.

    The network is the list of all packets ever sent.  Delivering a packet
    leaves it in the list, so packets may be lost, reordered and duplicated.  A
    timer fires at any moment after it was scheduled and before it was
    cancelled.  A handler that panics has no transition. *)

From S2P Require Import Prelude MpMessages Partition MpUtil.
From S2P Require Import MpAcceptor MpProxyLeader MpLeader MpReplica MpBatcher MpParticipant.

(** ** Building a node *)

Record AllActorPaths := mkAllActorPaths {
  all_participant_peers : list ActorPath;
  all_leaders : gmap Z ActorPath;
  all_acceptors : gmap Z ActorPath;
  all_replicas : gmap Z ActorPath;
  all_proxy_leaders : gmap Z ActorPath }.

(** [derive_component_actorpath] names the component [create_alias(name, pid,
    iteration_id)] on the node of [pid]. *)
Definition derive_component_actorpath (iteration_id : Z) (name : component_name) (pid : Z)
    : ActorPath :=
  mkPath name pid iteration_id.

(** [nodes.get(pid as usize - 1)] panics unless [1 <= pid <= num_nodes]. *)
Definition get_node_actorpath (num_nodes : nat) (pid : Z) : option unit :=
  if (1 <=? pid) && (pid <=? Z.of_nat num_nodes) then Some tt else None.

(** [named pid]: the path of node [pid] is an [ActorPath::Named]; the components of another
    node are left out, with an error in the log. *)
Fixpoint derive_actorpaths_loop (named : Z -> bool) (iteration_id self_pid : Z) (num_nodes : nat)
    (nodes : list Z) (acc : AllActorPaths) : option AllActorPaths :=
  match nodes with
  | [] => Some acc
  | pid :: nodes =>
      _ ← get_node_actorpath num_nodes pid;
      let path name := derive_component_actorpath iteration_id name pid in
      derive_actorpaths_loop named iteration_id self_pid num_nodes nodes
        (if named pid then
           mkAllActorPaths
             (if negb (pid =? self_pid)
              then all_participant_peers acc ++ [path PARTICIPANT]
              else all_participant_peers acc)
             (<[pid := path LEADER]> (all_leaders acc))
             (<[pid := path ACCEPTOR]> (all_acceptors acc))
             (<[pid := path REPLICA]> (all_replicas acc))
             (<[pid := path PROXY_LEADER]> (all_proxy_leaders acc))
         else acc)
  end.

Definition derive_actorpaths (named : Z -> bool) (iteration_id self_pid : Z) (num_nodes : nat)
    (nodes : list Z) : option AllActorPaths :=
  derive_actorpaths_loop named iteration_id self_pid num_nodes nodes
    (mkAllActorPaths [] ∅ ∅ ∅ ∅).

(** The [multipaxos] section of the configuration file and the experiment's
    election timeout, in milliseconds. *)
Record MpConfig := mkMpConfig {
  election_timeout_ms : Z;
  timeout_delta_factor : Z;
  ping_period_factor : Z;
  cfg_resend_phase1as_period : Z;
  cfg_noop_flush_period : Z;
  cfg_log_grow_size : nat;
  cfg_send_chosen_watermark_every_n_entries : Z;
  recover_log_entry_factor : Z }.

Definition LAGGING_DELAY_FACTOR : Z := 2.

(** [None] is the panic of a division by a zero factor. *)
Definition create_options (c : MpConfig)
    : option (Participant.ElectionOptions * Leader.LeaderOptions * Replica.ReplicaOptions) :=
  timeout_delta ← u64_div (election_timeout_ms c) (timeout_delta_factor c);
  let min_period := election_timeout_ms c *u64 recover_log_entry_factor c in
  let max_period := min_period *u64 2 in
  ping_period_ms ← u64_div (election_timeout_ms c) (ping_period_factor c);
  Some
  (Participant.mkElectionOptions ping_period_ms
     (election_timeout_ms c -u64 timeout_delta)
     (election_timeout_ms c +u64 timeout_delta),
   Leader.mkLeaderOptions (cfg_resend_phase1as_period c) (cfg_noop_flush_period c),
   Replica.mkReplicaOptions (cfg_log_grow_size c)
     (cfg_send_chosen_watermark_every_n_entries c) min_period max_period).

Record Node := mkNode {
  participant_comp : Participant.t;
  batcher_comp : Batcher.t;
  leader_comp : Leader.t;
  proxy_leader_comp : ProxyLeader.t;
  acceptor_comp : Acceptor.t;
  replica_comp : Replica.t }.

Definition client_path (iteration_id : Z) : ActorPath := mkPath CLIENT 0 iteration_id.

Definition create_components (c : MpConfig) (named : Z -> bool) (iteration_id pid : Z)
    (num_nodes : nat) (initial_nodes : list Z) : option Node :=
  paths ← derive_actorpaths named iteration_id pid num_nodes initial_nodes;
  let client := client_path iteration_id in
  '(election_opts, leader_opts, replica_opts) ← create_options c;
  let initial_leader := Z.of_nat num_nodes in
  let participant :=
    Participant.with_ (all_participant_peers paths) pid initial_leader election_opts in
  let proxy_leader := ProxyLeader.with_ (all_acceptors paths) (all_replicas paths) in
  leader ← Leader.with_ pid leader_opts (all_acceptors paths)
             (derive_component_actorpath iteration_id PROXY_LEADER pid) client;
  let acceptor := Acceptor.with_ pid (all_leaders paths) (all_proxy_leaders paths) in
  let replica :=
    Replica.with_ pid replica_opts (Z.of_nat num_nodes) (all_leaders paths) client in
  let batcher := Batcher.with_ pid (all_leaders paths) in
  let lagging_delay := election_timeout_ms c / LAGGING_DELAY_FACTOR in
  let leader := Leader.set_lagging_delay leader lagging_delay in
  Some (mkNode
    (Participant.set_lagging_delay participant lagging_delay)
    (Batcher.set_lagging_delay batcher lagging_delay)
    (Leader.set_local_batcher leader
       (Some (derive_component_actorpath iteration_id BATCHER pid)))
    (ProxyLeader.set_lagging_delay proxy_leader lagging_delay)
    (Acceptor.set_lagging_delay acceptor lagging_delay)
    (Replica.set_lagging_delay replica lagging_delay)).

(** ** One node's reaction to an input *)

Definition set_participant (nd : Node) (x : Participant.t) : Node :=
  mkNode x (batcher_comp nd) (leader_comp nd) (proxy_leader_comp nd) (acceptor_comp nd)
    (replica_comp nd).
Definition set_batcher (nd : Node) (x : Batcher.t) : Node :=
  mkNode (participant_comp nd) x (leader_comp nd) (proxy_leader_comp nd) (acceptor_comp nd)
    (replica_comp nd).
Definition set_leader (nd : Node) (x : Leader.t) : Node :=
  mkNode (participant_comp nd) (batcher_comp nd) x (proxy_leader_comp nd) (acceptor_comp nd)
    (replica_comp nd).
Definition set_proxy_leader (nd : Node) (x : ProxyLeader.t) : Node :=
  mkNode (participant_comp nd) (batcher_comp nd) (leader_comp nd) x (acceptor_comp nd)
    (replica_comp nd).
Definition set_acceptor (nd : Node) (x : Acceptor.t) : Node :=
  mkNode (participant_comp nd) (batcher_comp nd) (leader_comp nd) (proxy_leader_comp nd) x
    (replica_comp nd).
Definition set_replica (nd : Node) (x : Replica.t) : Node :=
  mkNode (participant_comp nd) (batcher_comp nd) (leader_comp nd) (proxy_leader_comp nd)
    (acceptor_comp nd) x.

(** Dispatch of a message to the component it is addressed to. *)
Definition node_receive (nd : Node) (comp : component_name) (sender : ActorPath)
    (m : NetMsg) (rnd : Z) : option (Node * list Effect) :=
  match comp, m with
  | LEADER, MLeader m =>
      '(x, effs) ← Leader.receive_network (leader_comp nd) sender m;
      Some (set_leader nd x, effs)
  | LEADER, MElection idx =>
      '(x, effs) ← Leader.handle (leader_comp nd) idx;
      Some (set_leader nd x, effs)
  | REPLICA, MElection idx =>
      Some (set_replica nd (Replica.handle (replica_comp nd) idx), [])
  | REPLICA, MReplica m =>
      '(x, effs) ← Replica.receive_network (replica_comp nd) m rnd;
      Some (set_replica nd x, effs)
  | ACCEPTOR, MAcceptor m =>
      '(x, effs) ← Acceptor.receive_network (acceptor_comp nd) m;
      Some (set_acceptor nd x, effs)
  | PROXY_LEADER, MProxy m =>
      '(x, effs) ← ProxyLeader.receive_network (proxy_leader_comp nd) m;
      Some (set_proxy_leader nd x, effs)
  | PROXY_LEADER, MProxyLocal m =>
      '(x, effs) ← ProxyLeader.receive_local (proxy_leader_comp nd) m;
      Some (set_proxy_leader nd x, effs)
  | BATCHER, MBatcher m =>
      '(x, effs) ← Batcher.receive_network (batcher_comp nd) m;
      Some (set_batcher nd x, effs)
  | PARTICIPANT, MPing m =>
      '(x, effs) ← Participant.receive_network_ping (participant_comp nd) m rnd;
      Some (set_participant nd x, effs)
  | PARTICIPANT, MPeerStop pid =>
      '(x, effs) ← Participant.handle_peer_stop (participant_comp nd) pid;
      Some (set_participant nd x, effs)
  | _, _ => None
  end.

(** The closure of a fired timer runs on the component that scheduled it. *)
Definition node_timeout (nd : Node) (comp : component_name) (t : Timer) (rnd : Z)
    : option (Node * list Effect) :=
  match comp, t with
  | LEADER, TResendPhase1as p =>
      let '(x, effs) := Leader.resend_phase1as_timeout (leader_comp nd) p in
      Some (set_leader nd x, effs)
  | LEADER, TNoopFlush =>
      let '(x, effs) := Leader.noop_flush_timeout (leader_comp nd) in
      Some (set_leader nd x, effs)
  | BATCHER, TBatch =>
      '(x, effs) ← Batcher.batch_timeout (batcher_comp nd);
      Some (set_batcher nd x, effs)
  | REPLICA, TRecover =>
      let '(x, effs) := Replica.recover_timeout (replica_comp nd) in
      Some (set_replica nd x, effs)
  | PARTICIPANT, TPing =>
      let '(x, effs) := Participant.ping_timeout (participant_comp nd) in
      Some (set_participant nd x, effs)
  | PARTICIPANT, TNoPing =>
      '(x, effs) ← Participant.no_ping_timeout (participant_comp nd) rnd;
      Some (set_participant nd x, effs)
  | LEADER, _ =>
      l ← links_timeout t (Leader.links (leader_comp nd));
      Some (set_leader nd (Leader.set_links (leader_comp nd) l), [])
  | BATCHER, _ =>
      l ← links_timeout t (Batcher.links (batcher_comp nd));
      Some (set_batcher nd (Batcher.set_links (batcher_comp nd) l), [])
  | REPLICA, _ =>
      l ← links_timeout t (Replica.links (replica_comp nd));
      Some (set_replica nd (Replica.set_links (replica_comp nd) l), [])
  | PARTICIPANT, _ =>
      l ← links_timeout t (Participant.links (participant_comp nd));
      Some (set_participant nd (Participant.set_links (participant_comp nd) l), [])
  | PROXY_LEADER, _ =>
      l ← links_timeout t (ProxyLeader.links (proxy_leader_comp nd));
      Some (set_proxy_leader nd (ProxyLeader.set_links (proxy_leader_comp nd) l), [])
  | ACCEPTOR, _ =>
      l ← links_timeout t (Acceptor.links (acceptor_comp nd));
      Some (set_acceptor nd (Acceptor.set_links (acceptor_comp nd) l), [])
  | CLIENT, _ => None
  end.

(** [PartitioningExpMsg::DisconnectPeers], with the effects of every component
    under its own name. *)
Definition node_disconnect (nd : Node) (peers : list Z) (delay : bool)
    (lagging_peer : option Z) : option (Node * list (component_name * list Effect)) :=
  '(pa, e1) ← Participant.disconnect_peers (participant_comp nd) peers delay lagging_peer;
  '(ba, e2) ← Batcher.disconnect_peers (batcher_comp nd) peers delay lagging_peer;
  '(pr, e3) ← ProxyLeader.disconnect_peers (proxy_leader_comp nd) peers delay lagging_peer;
  '(le, e4) ← Leader.disconnect_peers (leader_comp nd) peers delay lagging_peer;
  '(ac, e5) ← Acceptor.disconnect_peers (acceptor_comp nd) peers delay lagging_peer;
  '(re, e6) ← Replica.disconnect_peers (replica_comp nd) peers delay lagging_peer;
  Some (mkNode pa ba le pr ac re,
        [(PARTICIPANT, e1); (BATCHER, e2); (PROXY_LEADER, e3);
         (LEADER, e4); (ACCEPTOR, e5); (REPLICA, e6)]).

(** [PartitioningExpMsg::RecoverPeers]. *)
Definition node_recover (nd : Node) : Node :=
  mkNode (Participant.recover_peers (participant_comp nd))
         (Batcher.recover_peers (batcher_comp nd))
         (Leader.recover_peers (leader_comp nd))
         (ProxyLeader.recover_peers (proxy_leader_comp nd))
         (Acceptor.recover_peers (acceptor_comp nd))
         (Replica.recover_peers (replica_comp nd)).

(** [AtomicBroadcastMsg::Proposal] is handed to the batcher. *)
Definition node_propose (nd : Node) (p : Proposal) : Node :=
  set_batcher nd (Batcher.receive_local (batcher_comp nd) p).

(** [start_components]. *)
Definition start_components (nd : Node) (rnd : Z)
    : option (Node * list (component_name * list Effect)) :=
  '(pa, e1) ← Participant.on_start (participant_comp nd) rnd;
  let '(ba, e2) := Batcher.on_start (batcher_comp nd) in
  let '(le, e3) := Leader.on_start (leader_comp nd) in
  Some (mkNode pa ba le (proxy_leader_comp nd) (acceptor_comp nd) (replica_comp nd),
        [(PARTICIPANT, e1); (BATCHER, e2); (LEADER, e3)]).

(** ** The cluster *)

Record Packet := mkPacket {
  pkt_src : ActorPath;
  pkt_dst : ActorPath;
  pkt_msg : NetMsg }.

Record Sys := mkSys {
  nodes : gmap Z Node;
  net : list Packet;
  timers : list (ActorPath * Timer) }.

(** A [Trigger] reaches the leader and the replica connected to the port. *)
Definition effect_packets (self : ActorPath) (e : Effect) : list Packet :=
  match e with
  | Tell dst m => [mkPacket self dst m]
  | Trigger idx =>
      [mkPacket self (mkPath LEADER (ap_pid self) (ap_iteration self)) (MElection idx);
       mkPacket self (mkPath REPLICA (ap_pid self) (ap_iteration self)) (MElection idx)]
  | _ => []
  end.

Fixpoint remove_first {A} `{EqDecision A} (x : A) (l : list A) : list A :=
  match l with
  | [] => []
  | y :: l => if decide (x = y) then l else y :: remove_first x l
  end.

Definition effect_timers (self : ActorPath) (ts : list (ActorPath * Timer)) (e : Effect)
    : list (ActorPath * Timer) :=
  match e with
  | Schedule t => ts ++ [(self, t)]
  | Cancel t => remove_first (self, t) ts
  | _ => ts
  end.

Definition apply_effects (s : Sys) (self : ActorPath) (effs : list Effect) : Sys :=
  mkSys (nodes s)
        (net s ++ (effs ≫= effect_packets self))
        (foldl (effect_timers self) (timers s) effs).

Definition update_node (s : Sys) (pid : Z) (nd : Node) : Sys :=
  mkSys (<[pid := nd]> (nodes s)) (net s) (timers s).

Definition apply_component_effects (iteration_id pid : Z) (s : Sys)
    (effs : list (component_name * list Effect)) : Sys :=
  foldl (fun s '(c, e) => apply_effects s (mkPath c pid iteration_id) e) s effs.

(** Periodic timers stay scheduled when they fire. *)
Definition is_periodic (t : Timer) : bool :=
  match t with TBatch | TRecover | TPing => true | _ => false end.

Inductive event :=
| EvDeliver (i : nat) (rnd : Z)
| EvTimer (i : nat) (rnd : Z)
| EvPropose (pid : Z) (p : Proposal)
| EvDisconnect (pid : Z) (peers : list Z) (delay : bool) (lagging_peer : option Z)
| EvRecoverPeers (pid : Z).

(** The iteration id of the experiment run. *)
Class IterationId := ITERATION : Z.

Section cluster.
Context {iter : IterationId}.

Definition step (s : Sys) (e : event) : option Sys :=
  match e with
  | EvDeliver i rnd =>
      p ← net s !! i;
      let dst := pkt_dst p in
      nd ← nodes s !! ap_pid dst;
      '(nd', effs) ← node_receive nd (ap_component dst) (pkt_src p) (pkt_msg p) rnd;
      Some (apply_effects (update_node s (ap_pid dst) nd') dst effs)
  | EvTimer i rnd =>
      '(path, t) ← timers s !! i;
      nd ← nodes s !! ap_pid path;
      '(nd', effs) ← node_timeout nd (ap_component path) t rnd;
      let s := if is_periodic t then s
               else mkSys (nodes s) (net s) (delete i (timers s)) in
      Some (apply_effects (update_node s (ap_pid path) nd') path effs)
  | EvPropose pid p =>
      nd ← nodes s !! pid;
      Some (update_node s pid (node_propose nd p))
  | EvDisconnect pid peers delay lagging_peer =>
      nd ← nodes s !! pid;
      '(nd', effs) ← node_disconnect nd peers delay lagging_peer;
      Some (apply_component_effects ITERATION pid (update_node s pid nd') effs)
  | EvRecoverPeers pid =>
      nd ← nodes s !! pid;
      Some (update_node s pid (node_recover nd))
  end.

(** All nodes created and started; the pids are [1..n], and all paths are named. *)
Fixpoint boot_nodes (c : MpConfig) (num_nodes : nat) (pids all : list Z) (s : Sys) : option Sys :=
  match pids with
  | [] => Some s
  | pid :: pids =>
      nd ← create_components c (fun _ => true) ITERATION pid num_nodes all;
      '(nd', effs) ← start_components nd 0;
      boot_nodes c num_nodes pids all
        (apply_component_effects ITERATION pid (update_node s pid nd') effs)
  end.

Definition boot (c : MpConfig) (num_nodes : nat) : option Sys :=
  let pids := seqZ 1 (Z.of_nat num_nodes) in
  boot_nodes c num_nodes pids pids (mkSys ∅ [] []).

Fixpoint run (s : Sys) (evs : list event) : option Sys :=
  match evs with
  | [] => Some s
  | e :: evs => s' ← step s e; run s' evs
  end.
End cluster.
