(* ===== verification/MpInv.v ===== *)
(** The invariant of the Multi-Paxos cluster.

    All statements speak about the set of messages ever sent.  Every component
    has an invariant that relates its state to the messages it owns (an acceptor
    its votes and promises, a proxy leader the proposals it relayed, a leader
    the rounds it opened and the values it proposed); the invariants of the
    other components are monotone in the messages they do not own. *)

From S2P Require Import Prelude MpMessages Partition MpUtil.
From S2P Require Import MpAcceptor MpProxyLeader MpLeader MpReplica MpBatcher MpParticipant.
From S2P Require Import MpSystem.

Abbreviation P1A src r w := (MAcceptor (AI_Phase1a (mkPhase1a src r w))).
Abbreviation P1B a r info := (MLeader (LI_Phase1b (mkPhase1b a r info))).
Abbreviation P2A src s r v := (MProxyLocal (PI_Phase2a (mkPhase2a src s r v))).
Abbreviation A2A src s r v := (MAcceptor (AI_Phase2a (mkPhase2a src s r v))).
Abbreviation VOTE a s r := (MProxy (PI_Phase2b (mkPhase2b a s r))).
Abbreviation CHOSEN s v := (MReplica (RI_Chosen (mkChosen s v))).
Abbreviation owner := ClassicRoundRobin.owner.

(** ** Sent messages *)

Definition sent (net : list Packet) (m : NetMsg) : Prop :=
  exists p, p ∈ net /\ pkt_msg p = m.

(** [ext net net' ok]: [net'] adds to [net] only messages allowed by [ok]. *)
Definition ext (net net' : list Packet) (ok : NetMsg -> Prop) : Prop :=
  (forall m, sent net m -> sent net' m) /\
  (forall m, sent net' m -> sent net m \/ ok m).

Lemma ext_sent net net' ok m : ext net net' ok -> sent net m -> sent net' m.
Proof. intros [H _]. apply H. Qed.

Lemma ext_inv net net' (ok : NetMsg -> Prop) m :
  ext net net' ok -> ~ ok m -> sent net' m -> sent net m.
Proof. intros [_ H] Hn Hs. destruct (H m Hs); tauto. Qed.

Lemma ext_app net new (ok : NetMsg -> Prop) :
  (forall p, p ∈ new -> ok (pkt_msg p)) -> ext net (net ++ new) ok.
Proof.
  intros Hok. split.
  - intros m (p & Hp & <-). exists p. set_solver.
  - intros m (p & [Hp|Hp]%elem_of_app & <-); [left; exists p; done|right; auto].
Qed.

#[export] Hint Resolve ext_sent : omni.

(** A round number is opened by the leader [src] with watermark [w]: a [Phase1a]
    was sent or is held by a resend timer. *)
Definition announced (net : list Packet) (ts : list (ActorPath * Timer)) (src r w : Z) : Prop :=
  sent net (P1A src r w) \/
  exists path, (path, TResendPhase1as (mkPhase1a src r w)) ∈ ts /\ ap_component path = LEADER.

Section invariant.
(** The number of nodes. *)
Context {iter : IterationId} (n : nat).
Local Abbreviation N := (Z.of_nat n).

Definition pids : gset Z := list_to_set (seqZ 1 N).
Definition quorum_size : nat := (n / 2 + 1)%nat.

Definition is_quorum (Q : gset Z) : Prop := Q ⊆ pids /\ (quorum_size <= size Q)%nat.

Lemma elem_of_pids p : p ∈ pids <-> 1 <= p <= N.
Proof. unfold pids. rewrite elem_of_list_to_set, elem_of_seqZ. lia. Qed.

Lemma size_pids : size pids = n.
Proof.
  unfold pids. rewrite size_list_to_set by apply NoDup_seqZ.
  rewrite length_seqZ. lia.
Qed.

Lemma quorum_intersect Q1 Q2 :
  is_quorum Q1 -> is_quorum Q2 -> exists a, a ∈ Q1 /\ a ∈ Q2.
Proof.
  intros [? ?] [? ?]. eapply (majority_intersect pids); try eassumption.
  rewrite size_pids. unfold quorum_size.
  pose proof (Nat.div_mod_eq n 2). pose proof (Nat.mod_upper_bound n 2 ltac:(lia)). lia.
Qed.

(** ** Acceptors *)

(** A promise for round [r] lists, for every slot from the watermark of that
    round, a vote at least as recent as every vote cast below [r]. *)
Definition promise_ok (net : list Packet) (a r : Z) (info : list Phase1bSlotInfo) : Prop :=
  exists src w, sent net (P1A src r w) /\
    (forall s r', w <= s -> r' < r -> sent net (VOTE a s r') ->
       exists e, e ∈ info /\ info_slot e = s /\ r' <= info_vote_round e) /\
    (forall e, e ∈ info -> w <= info_slot e /\ info_vote_round e <= r /\
       exists src', sent net (A2A src' (info_slot e) (info_vote_round e) (info_vote_value e))).

Record acceptor_inv (net : list Packet) (pid : Z) (a : Acceptor.t) : Prop := {
  ai_index : Acceptor.index a = pid;
  ai_state : forall s st, Acceptor.states a !! s = Some st ->
    sent net (VOTE pid s (Acceptor.vote_round st)) /\
    Acceptor.vote_round st <= Acceptor.round a /\
    exists src, sent net (A2A src s (Acceptor.vote_round st) (Acceptor.vote_value st));
  ai_vote : forall s r, sent net (VOTE pid s r) ->
    (exists st, Acceptor.states a !! s = Some st /\ r <= Acceptor.vote_round st) /\
    exists src v, sent net (A2A src s r v);
  ai_promise : forall r info, sent net (P1B pid r info) ->
    r <= Acceptor.round a /\ promise_ok net pid r info }.

Lemma acceptor_inv_ext net net' ok pid a :
  ext net net' ok ->
  (forall s r, ~ ok (VOTE pid s r)) -> (forall r info, ~ ok (P1B pid r info)) ->
  acceptor_inv net pid a -> acceptor_inv net' pid a.
Proof.
  intros He Hv Hp [Hi Hs Hvo Hpr]. split; [done|..].
  - intros s st Hst. destruct (Hs s st Hst) as (? & ? & src & ?). eauto 6 with omni.
  - intros s r Hsent. eapply ext_inv in Hsent; [|done..].
    destruct (Hvo s r Hsent) as (? & src & v & ?). eauto with omni.
  - intros r info Hsent. eapply ext_inv in Hsent; [|done..].
    destruct (Hpr r info Hsent) as (? & src & w & H1 & H2 & H3).
    split; [done|]. exists src, w. split; [eauto with omni|]. split.
    + intros s r' Hw Hr Hsv. eapply ext_inv in Hsv; [|done..]. eauto.
    + intros e He'. destruct (H3 e He') as (? & ? & src' & ?). eauto 6 with omni.
Qed.

(** ** Proxy leaders *)

Record proxy_inv (net : list Packet) (pid : Z) (p : ProxyLeader.t) : Prop := {
  pi_majority : ProxyLeader.majority p = quorum_size;
  pi_relayed : forall s r v, sent net (A2A pid s r v) ->
    is_Some (ProxyLeader.states p !! (s, r));
  pi_pending : forall s r m bs,
    ProxyLeader.states p !! (s, r) = Some (ProxyLeader.Pending m bs) ->
    (exists v, m = mkPhase2a pid s r v /\ sent net (P2A pid s r v) /\
      forall v', sent net (A2A pid s r v') -> v' = v) /\
    forall a b, bs !! a = Some b -> a ∈ pids /\ sent net (VOTE a s r) }.

Lemma proxy_inv_ext net net' ok pid p :
  ext net net' ok -> (forall s r v, ~ ok (A2A pid s r v)) ->
  proxy_inv net pid p -> proxy_inv net' pid p.
Proof.
  intros He Ha [Hm Hr Hp]. split; [done|..].
  - intros s r v Hs. eapply ext_inv in Hs; [|done..]. eauto.
  - intros s r m bs Hst. destruct (Hp s r m bs Hst) as [(v & -> & ? & Huniq) Hbs]. split.
    + exists v. split; [done|]. split; [eauto with omni|]. intros v' Hs.
      eapply ext_inv in Hs; [|done..]. eauto.
    + intros a b Hab. destruct (Hbs a b Hab). eauto with omni.
Qed.

(** ** Leaders *)

(** The value [v] may be proposed in slot [s] and round [r]: a quorum of
    promises for [r] covers the slot and either reports no vote for it or [v]
    is the value of its most recent reported vote. *)
Definition safe_at (net : list Packet) (s r : Z) (v : CommandBatchOrNoop) : Prop :=
  exists Q (f : Z -> list Phase1bSlotInfo) src w,
    is_quorum Q /\ sent net (P1A src r w) /\ w <= s /\
    (forall a, a ∈ Q -> sent net (P1B a r (f a)) /\
       forall e, e ∈ f a -> info_slot e = s -> info_vote_round e < r) /\
    ((forall a e, a ∈ Q -> e ∈ f a -> info_slot e <> s) \/
     (exists a e, a ∈ Q /\ e ∈ f a /\ info_slot e = s /\ info_vote_value e = v /\
        forall a' e', a' ∈ Q -> e' ∈ f a' -> info_slot e' = s ->
          info_vote_round e' <= info_vote_round e)).

Lemma safe_at_ext net net' ok s r v :
  ext net net' ok -> safe_at net s r v -> safe_at net' s r v.
Proof.
  intros He (Q & f & src & w & HQ & H1 & Hw & Hp & Hv).
  exists Q, f, src, w. split_and!; eauto with omni.
  intros a Ha. destruct (Hp a Ha). eauto with omni.
Qed.

(** No promise of the leader's quorum reports a slot from [from] upwards. *)
Definition free_from (net : list Packet) (r from : Z) : Prop :=
  exists Q (f : Z -> list Phase1bSlotInfo) src w,
    is_quorum Q /\ sent net (P1A src r w) /\ w <= from /\
    forall a, a ∈ Q -> sent net (P1B a r (f a)) /\
       forall e, e ∈ f a -> info_slot e < from.

Lemma free_from_ext net net' ok r from :
  ext net net' ok -> free_from net r from -> free_from net' r from.
Proof.
  intros He (Q & f & src & w & HQ & H1 & Hw & Hp).
  exists Q, f, src, w. split_and!; eauto with omni.
  intros a Ha. destruct (Hp a Ha). eauto with omni.
Qed.

Lemma free_from_mono net r from from' :
  from <= from' -> free_from net r from -> free_from net r from'.
Proof.
  intros Hle (Q & f & src & w & HQ & H1 & Hw & Hp).
  exists Q, f, src, w. split_and!; [done|done|lia|].
  intros a Ha. destruct (Hp a Ha) as [? He]. split; [done|].
  intros e Hin. specialize (He e Hin). lia.
Qed.

Lemma free_from_safe net r from s v :
  free_from net r from -> from <= s -> safe_at net s r v.
Proof.
  intros (Q & f & src & w & HQ & H1 & Hw & Hp) Hs.
  exists Q, f, src, w. split_and!; [done|done|lia|..].
  - intros a Ha. destruct (Hp a Ha) as [? He]. split; [done|].
    intros e Hin ?. specialize (He e Hin). lia.
  - left. intros a e Ha Hin. destruct (Hp a Ha) as [_ He]. specialize (He e Hin). lia.
Qed.

(** The leader is not in the [Phase2] state it was created in. *)
Definition left_initial (pid : Z) (l : Leader.t) : Prop :=
  Leader.state l = Leader.Phase2 -> owner N (Leader.round l) = pid.

Record leader_inv (net : list Packet) (ts : list (ActorPath * Timer)) (pid : Z)
    (l : Leader.t) : Prop := {
  li_index : Leader.index l = pid;
  li_round_system : Leader.round_system l = ClassicRoundRobin.mk N;
  li_majority : Leader.majority l = quorum_size;
  li_proxy : Leader.proxy_leader l = mkPath PROXY_LEADER pid ITERATION;
  li_announced : forall r w, announced net ts pid r w ->
    r <= Leader.round l /\ owner N r = pid;
  li_announced_unique : forall r w w',
    announced net ts pid r w -> announced net ts pid r w' -> w = w';
  li_proposed : forall s r v, sent net (P2A pid s r v) ->
    r <= Leader.round l /\ owner N r = pid /\
    (Leader.state l = Leader.Phase1 -> r < Leader.round l);
  li_phase1 : Leader.state l = Leader.Phase1 ->
    owner N (Leader.round l) = pid /\
    (forall w, announced net ts pid (Leader.round l) w -> w <= Leader.chosen_watermark l) /\
    (forall a p, Leader.phase1bs l !! a = Some p ->
       exists info, p = mkPhase1b a (Leader.round l) info /\ a ∈ pids /\
         sent net (P1B a (Leader.round l) info));
  li_phase2 : Leader.state l = Leader.Phase2 -> left_initial pid l ->
    free_from net (Leader.round l) (Leader.next_slot l) }.

(** [ts'] keeps no resend timer of [pid] that was not announced before. *)
Definition no_new_announcement (net net' : list Packet)
    (ts ts' : list (ActorPath * Timer)) (pid : Z) : Prop :=
  forall r w, announced net' ts' pid r w -> announced net ts pid r w.

Lemma leader_inv_ext net net' ts ts' ok pid l :
  ext net net' ok -> no_new_announcement net net' ts ts' pid ->
  (forall s r v, ~ ok (P2A pid s r v)) ->
  leader_inv net ts pid l -> leader_inv net' ts' pid l.
Proof.
  intros He Ha Hp [? ? ? ? H1 H2 H3 H4 H5]. split; try done.
  - intros r w Hr. eauto.
  - intros r w w' Hr Hr'. eauto.
  - intros s r v Hs. eapply ext_inv in Hs; [|done..]. eauto.
  - intros Hst. destruct (H4 Hst) as (? & Hw & Hb). split; [done|]. split; [eauto|].
    intros a p Hap. destruct (Hb a p Hap) as (info & -> & ? & ?). eauto with omni.
  - intros Hst Hl. eapply free_from_ext; eauto.
Qed.
End invariant.
