(* ===== verification/MpFrame.v ===== *)
(** The cluster invariant and its frame rule.

    [inv] collects the component invariants of all nodes with the facts about
    proposals, votes and announcements that span nodes.  [inv_frame] reduces its
    preservation, for a step in which one node reacts, to obligations about that
    node and the messages it just sent. *)

From S2P Require Import Prelude MpMessages Partition MpUtil.
From S2P Require Import MpAcceptor MpProxyLeader MpLeader MpReplica MpBatcher MpParticipant.
From S2P Require Import MpSystem MpInv.

(** ** Effects and packets *)

Lemma elem_of_effect_packets self effs p :
  p ∈ effs ≫= effect_packets self <->
  (exists dst m, Tell dst m ∈ effs /\ p = mkPacket self dst m) \/
  (exists idx c, Trigger idx ∈ effs /\ (c = LEADER \/ c = REPLICA) /\
     p = mkPacket self (mkPath c (ap_pid self) (ap_iteration self)) (MElection idx)).
Proof.
  rewrite list_elem_of_bind. split.
  - intros (e & Hp & He). destruct e; simpl in Hp; set_solver.
  - intros [(dst & m & He & ->)|(idx & c & He & Hc & ->)].
    + exists (Tell dst m). simpl. set_solver.
    + exists (Trigger idx). simpl. destruct Hc as [->| ->]; set_solver.
Qed.

Lemma sent_effects self effs m :
  sent (effs ≫= effect_packets self) m <->
  (exists dst, Tell dst m ∈ effs) \/ (exists idx, Trigger idx ∈ effs /\ m = MElection idx).
Proof.
  split.
  - intros (p & Hp & <-). apply elem_of_effect_packets in Hp
      as [(dst & m & ? & ->)|(idx & c & ? & _ & ->)]; simpl; eauto.
  - intros [(dst & He)|(idx & He & ->)].
    + exists (mkPacket self dst m). rewrite elem_of_effect_packets. split; [left; eauto|done].
    + eexists. rewrite elem_of_effect_packets. split; [right; eauto 6|done].
Qed.

Lemma remove_first_subset {A} `{EqDecision A} (x y : A) l : y ∈ remove_first x l -> y ∈ l.
Proof. induction l as [|z l IH]; simpl; [done|]. case_decide; set_solver. Qed.

Lemma elem_of_effect_timers self effs ts x :
  x ∈ foldl (effect_timers self) ts effs ->
  x ∈ ts \/ exists t, Schedule t ∈ effs /\ x = (self, t).
Proof.
  revert ts. induction effs as [|e effs IH]; intros ts; simpl; [by left|].
  intros [Hx|(t & Ht & ->)]%IH; [|right; set_solver].
  destruct e; simpl in Hx; try (by left).
  - apply elem_of_app in Hx as [?|Hx]; [by left|]. right.
    apply list_elem_of_singleton in Hx as ->. set_solver.
  - left. by eapply remove_first_subset.
Qed.

(** A node's effects, as far as the invariant is concerned. *)
Definition tells (effs : list Effect) (m : NetMsg) : Prop := exists dst, Tell dst m ∈ effs.

Section frame.
Context {iter : IterationId} (n : nat).
Local Abbreviation N := (Z.of_nat n).

(** ** The invariant *)

Definition sys_left (ns : gmap Z Node) (q : Z) : Prop :=
  forall nd, ns !! q = Some nd -> left_initial n q (leader_comp nd).

Definition packet_ok (ns : gmap Z Node) (p : Packet) : Prop :=
  match pkt_msg p with
  | MProxyLocal (PI_Phase2a m) => pkt_dst p = mkPath PROXY_LEADER (p2a_src m) ITERATION
  | MLeader (LI_ClientRequestBatch _) => sys_left ns (ap_pid (pkt_dst p))
  | MBatcher (BI_LeaderInfoReplyBatcher r) => sys_left ns (owner N r)
  | _ => True
  end.

Record batcher_inv (ns : gmap Z Node) (b : Batcher.t) : Prop := {
  bi_round_system : Batcher.round_system b = ClassicRoundRobin.mk N;
  bi_leaders : forall q path, Batcher.leaders b !! q = Some path -> ap_pid path = q;
  bi_round : sys_left ns (owner N (Batcher.round b)) }.

Definition replica_inv (net : list Packet) (r : Replica.t) : Prop :=
  forall s v, BufferMap.get (Replica.log r) s = Some v -> sent net (CHOSEN s v).

(** A value is chosen in slot [s] by the votes of a quorum in some round. *)
Definition chosen_by (net : list Packet) (s r : Z) (v : CommandBatchOrNoop) : Prop :=
  exists src Q, is_quorum n Q /\ sent net (A2A src s r v) /\
    forall a, a ∈ Q -> sent net (VOTE a s r).

Record inv (s : Sys) : Prop := {
  iv_dom : forall q, is_Some (nodes s !! q) <-> q ∈ pids n;
  iv_acceptor : forall q nd, nodes s !! q = Some nd ->
    acceptor_inv (net s) q (acceptor_comp nd);
  iv_proxy : forall q nd, nodes s !! q = Some nd ->
    proxy_inv n (net s) q (proxy_leader_comp nd);
  iv_leader : forall q nd, nodes s !! q = Some nd ->
    leader_inv n (net s) (timers s) q (leader_comp nd);
  iv_initial : forall q nd, nodes s !! q = Some nd ->
    left_initial n q (leader_comp nd) \/ Leader.round (leader_comp nd) = N;
  iv_batcher : forall q nd, nodes s !! q = Some nd ->
    batcher_inv (nodes s) (batcher_comp nd);
  iv_replica : forall q nd, nodes s !! q = Some nd ->
    replica_inv (net s) (replica_comp nd);
  iv_packet : forall p, p ∈ net s -> packet_ok (nodes s) p;
  iv_noop : forall path, (path, TNoopFlush) ∈ timers s ->
    sys_left (nodes s) (ap_pid path);
  iv_announced : forall src r w, announced (net s) (timers s) src r w -> src ∈ pids n;
  iv_proposed : forall src sl r v, sent (net s) (P2A src sl r v) ->
    src ∈ pids n /\ safe_at n (net s) sl r v;
  iv_relayed : forall src sl r v, sent (net s) (A2A src sl r v) ->
    sent (net s) (P2A src sl r v);
  iv_relayed_unique : forall src sl r v v',
    sent (net s) (A2A src sl r v) -> sent (net s) (A2A src sl r v') -> v = v';
  iv_vote : forall a sl r, sent (net s) (VOTE a sl r) -> a ∈ pids n;
  iv_promise : forall a r info, sent (net s) (P1B a r info) -> a ∈ pids n;
  iv_chosen : forall sl v, sent (net s) (CHOSEN sl v) ->
    exists r, chosen_by (net s) sl r v }.

Lemma chosen_by_ext net net' ok s r v :
  ext net net' ok -> chosen_by net s r v -> chosen_by net' s r v.
Proof. intros He (src & Q & HQ & Ha & Hv). exists src, Q. split_and!; eauto with omni. Qed.

(** ** The frame rule *)

Section one_node.
Context (s : Sys) (Hinv : inv s).
Context (pid : Z) (nd nd' : Node) (self : ActorPath) (effs : list Effect).
Context (ts0 : list (ActorPath * Timer)).
Context (Hnd : nodes s !! pid = Some nd).
Context (Hself : ap_pid self = pid).
Context (Hts0 : forall x, x ∈ ts0 -> x ∈ timers s).

Let net' := net s ++ (effs ≫= effect_packets self).
Let ts' := foldl (effect_timers self) ts0 effs.
Let ns' := <[pid := nd']> (nodes s).

Lemma frame_ext : ext (net s) net' (fun m => tells effs m \/ exists i, m = MElection i).
Proof.
  apply ext_app. intros p Hp. apply elem_of_effect_packets in Hp
    as [(dst & m & ? & ->)|(idx & c & ? & _ & ->)]; simpl; [left; eexists; eauto|right; eauto].
Qed.

Lemma frame_pid : pid ∈ pids n.
Proof. apply (iv_dom s Hinv). eauto. Qed.

(** What a step has to provide about its own messages. *)
Record step_ok : Prop := {
  so_left : left_initial n pid (leader_comp nd) -> left_initial n pid (leader_comp nd');
  so_initial : left_initial n pid (leader_comp nd') \/ Leader.round (leader_comp nd') = N;
  so_acceptor : acceptor_inv net' pid (acceptor_comp nd');
  so_proxy : proxy_inv n net' pid (proxy_leader_comp nd');
  so_leader : leader_inv n net' ts' pid (leader_comp nd');
  so_batcher : batcher_inv (nodes s) (batcher_comp nd');
  so_replica : replica_inv net' (replica_comp nd');
  so_packet : forall dst m, Tell dst m ∈ effs -> packet_ok (nodes s) (mkPacket self dst m);
  so_noop : Schedule TNoopFlush ∈ effs -> left_initial n pid (leader_comp nd');
  so_1a : forall q r w, tells effs (P1A q r w) ->
    q = pid \/ announced (net s) (timers s) q r w;
  so_resend : forall p, Schedule (TResendPhase1as p) ∈ effs -> p1a_src p = pid;
  so_2a : forall q sl r v, tells effs (P2A q sl r v) ->
    q = pid /\ safe_at n net' sl r v;
  so_relay : forall q sl r v, tells effs (A2A q sl r v) ->
    q = pid /\ sent (net s) (P2A q sl r v) /\
    (forall v', ~ sent (net s) (A2A q sl r v')) /\
    (forall v', tells effs (A2A q sl r v') -> v' = v);
  so_vote : forall q sl r, tells effs (VOTE q sl r) -> q = pid;
  so_promise : forall q r info, tells effs (P1B q r info) -> q = pid;
  so_chosen : forall sl v, tells effs (CHOSEN sl v) -> exists r, chosen_by net' sl r v }.

Context (Hok : step_ok).

Lemma frame_sys_left q : sys_left (nodes s) q -> sys_left ns' q.
Proof.
  unfold sys_left, ns'. intros Hl nd0. rewrite lookup_insert. case_decide as Hq.
  - intros [= <-]. subst q. apply (so_left Hok), Hl, Hnd.
  - apply Hl.
Qed.

Lemma frame_packet_ok p : packet_ok (nodes s) p -> packet_ok ns' p.
Proof.
  unfold packet_ok. destruct p as [src dst m]; simpl.
  destruct m as [m|m|m|m|m|m|?|?|?|?|?]; try done; destruct m; auto using frame_sys_left.
Qed.

Lemma frame_announced q r w : announced net' ts' q r w ->
  q = pid \/ announced (net s) (timers s) q r w.
Proof.
  intros [Hs|(path & Hp & Hc)].
  - destruct frame_ext as [_ Hx].
    apply Hx in Hs as [Hs|[Ht|[? ?]]]; [right; by left|by apply (so_1a Hok) in Ht|done].
  - apply elem_of_effect_timers in Hp as [Hp|(t & Ht & [= -> <-])].
    + right. right. exists path. auto.
    + left. apply (so_resend Hok) in Ht. done.
Qed.

Lemma frame_sent_inv m : sent net' m -> (forall i, m <> MElection i) ->
  sent (net s) m \/ tells effs m.
Proof.
  intros Hs Hm. destruct frame_ext as [_ Hx].
  apply Hx in Hs as [?|[?|[i ?]]]; [by left|by right|]. by destruct (Hm i).
Qed.

(** The invariants of the other nodes. *)
Lemma frame_others q nd0 : q <> pid -> nodes s !! q = Some nd0 ->
  acceptor_inv net' q (acceptor_comp nd0) /\
  proxy_inv n net' q (proxy_leader_comp nd0) /\
  leader_inv n net' ts' q (leader_comp nd0).
Proof.
  intros Hne Hq. split_and!.
  - eapply acceptor_inv_ext; [apply frame_ext|..|by eapply iv_acceptor].
    + intros ??[H|[? ?]]; [|done]. by apply (so_vote Hok) in H.
    + intros ??[H|[? ?]]; [|done]. by apply (so_promise Hok) in H.
  - eapply proxy_inv_ext; [apply frame_ext|..|by eapply iv_proxy].
    intros ???[H|[? ?]]; [|done]. by apply (so_relay Hok) in H as [? _].
  - eapply leader_inv_ext; [apply frame_ext|..|by eapply iv_leader].
    + intros r w Ha. apply frame_announced in Ha as [?|?]; done.
    + intros ???[H|[? ?]]; [|done]. by apply (so_2a Hok) in H as [? _].
Qed.

Lemma frame_relayed src sl r v v' :
  sent net' (A2A src sl r v) -> sent net' (A2A src sl r v') -> v = v'.
Proof.
  intros [H1|H1]%frame_sent_inv [H2|H2]%frame_sent_inv; try done.
  - by eapply iv_relayed_unique.
  - apply (so_relay Hok) in H2 as (_ & _ & Hn & _). by destruct (Hn v).
  - apply (so_relay Hok) in H1 as (_ & _ & Hn & _). by destruct (Hn v').
  - apply (so_relay Hok) in H1 as (_ & _ & _ & Hu). by rewrite (Hu v').
Qed.

Lemma inv_frame : inv (mkSys ns' net' ts').
Proof.
  pose proof frame_ext as He. pose proof frame_pid as Hpid.
  assert (forall m, sent (net s) m -> sent net' m) as Hsub by apply He.
  split; simpl.
  - intros q. unfold ns'. rewrite lookup_insert_is_Some'.
    rewrite (iv_dom s Hinv). split; [by intros [<-|?]|by right].
  - intros q nd0. unfold ns'. rewrite lookup_insert. case_decide as Hq.
    + intros [= <-]. subst q. apply Hok.
    + intros. by eapply frame_others.
  - intros q nd0. unfold ns'. rewrite lookup_insert. case_decide as Hq.
    + intros [= <-]. subst q. apply Hok.
    + intros. by eapply frame_others.
  - intros q nd0. unfold ns'. rewrite lookup_insert. case_decide as Hq.
    + intros [= <-]. subst q. apply Hok.
    + intros. by eapply frame_others.
  - intros q nd0. unfold ns'. rewrite lookup_insert. case_decide as Hq.
    + intros [= <-]. subst q. apply Hok.
    + intros. by eapply iv_initial.
  - intros q nd0 Hq. assert (batcher_inv (nodes s) (batcher_comp nd0)) as [? ? ?].
    { unfold ns' in Hq. rewrite lookup_insert in Hq. case_decide; simplify_eq;
        [apply Hok|by eapply iv_batcher]. }
    split; auto using frame_sys_left.
  - intros q nd0 Hq. unfold ns' in Hq. rewrite lookup_insert in Hq.
    case_decide; simplify_eq; [apply Hok|].
    intros sl v Hg. apply Hsub. by eapply iv_replica.
  - intros p Hp. apply elem_of_app in Hp as [Hp|Hp].
    + apply frame_packet_ok. by apply iv_packet.
    + apply elem_of_effect_packets in Hp as [(dst & m & Ht & ->)|(idx & c & _ & _ & ->)];
        [|done]. by apply frame_packet_ok, (so_packet Hok).
  - intros path Hp. apply elem_of_effect_timers in Hp as [Hp|(t & Ht & [= -> <-])].
    + apply frame_sys_left, (iv_noop s Hinv). auto.
    + intros nd0. rewrite Hself. unfold ns'. rewrite lookup_insert_eq. intros [= <-].
      by apply (so_noop Hok).
  - intros src r w Ha. apply frame_announced in Ha as [->|Ha]; [done|].
    by eapply iv_announced.
  - intros src sl r v Hs. apply frame_sent_inv in Hs as [Hs|Hs]; [| |done].
    + apply iv_proposed in Hs as [? Hsafe]; [|done]. split; [done|].
      by eapply safe_at_ext.
    + apply (so_2a Hok) in Hs as [-> ?]. done.
  - intros src sl r v Hs. apply frame_sent_inv in Hs as [Hs|Hs]; [| |done].
    + apply Hsub. by apply iv_relayed.
    + apply Hsub. by apply (so_relay Hok) in Hs as (_ & ? & _).
  - intros src sl r v v'. apply frame_relayed.
  - intros a sl r Hs. apply frame_sent_inv in Hs as [Hs|Hs]; [by eapply iv_vote| |done].
    by apply (so_vote Hok) in Hs as ->.
  - intros a r info Hs. apply frame_sent_inv in Hs as [Hs|Hs]; [by eapply iv_promise| |done].
    by apply (so_promise Hok) in Hs as ->.
  - intros sl v Hs. apply frame_sent_inv in Hs as [Hs|Hs]; [| |done].
    + apply iv_chosen in Hs as [r Hc]; [|done]. exists r. by eapply chosen_by_ext.
    + by apply (so_chosen Hok).
Qed.
End one_node.
End frame.
