(* ===== verification/MpSteps.v ===== *)
(** Every reaction of an acceptor, a proxy leader or a batcher preserves the cluster invariant. *)

From S2P Require Import Prelude MpMessages Partition MpUtil.
From S2P Require Import MpAcceptor MpProxyLeader MpLeader MpReplica MpBatcher MpParticipant.
From S2P Require Import MpSystem MpInv MpFrame.

(** Effects that carry no protocol obligation. *)
Definition neutral_msg (m : NetMsg) : Prop :=
  match m with
  | MLeader (LI_Phase1b _) | MLeader (LI_ClientRequestBatch _)
  | MAcceptor _ | MProxy _ | MProxyLocal _ | MReplica _
  | MBatcher (BI_LeaderInfoReplyBatcher _) => False
  | _ => True
  end.

Definition neutral_timer (t : Timer) : Prop :=
  match t with TNoopFlush | TResendPhase1as _ => False | _ => True end.

Definition neutral (effs : list Effect) : Prop :=
  forall e, e ∈ effs ->
    match e with
    | Tell _ m => neutral_msg m
    | Schedule t => neutral_timer t
    | _ => True
    end.

Lemma neutral_nil : neutral [].
Proof. intros e He. by apply not_elem_of_nil in He. Qed.

Lemma neutral_app e1 e2 : neutral e1 -> neutral e2 -> neutral (e1 ++ e2).
Proof. intros H1 H2 e [?|?]%elem_of_app; [by apply H1|by apply H2]. Qed.

Lemma neutral_cons e effs : neutral [e] -> neutral effs -> neutral (e :: effs).
Proof. intros H1 H2. by apply (neutral_app [e]). Qed.

Lemma neutral_tell dst m : neutral_msg m -> neutral [Tell dst m].
Proof. intros Hm e ->%list_elem_of_singleton. done. Qed.

Lemma neutral_broadcast peers disc m : neutral_msg m -> neutral (broadcast peers disc m).
Proof. intros Hm e (? & ? & _ & _ & ->)%elem_of_broadcast. done. Qed.

Lemma neutral_single e :
  match e with Tell _ m => neutral_msg m | Schedule t => neutral_timer t | _ => True end ->
  neutral [e].
Proof. intros He e' ->%list_elem_of_singleton. done. Qed.

#[export] Hint Resolve neutral_nil neutral_app neutral_tell neutral_broadcast : omni.
#[export] Hint Extern 3 (neutral [_]) => apply neutral_single; exact I : omni.
#[export] Hint Extern 2 (neutral_msg _) => exact I : omni.
#[export] Hint Extern 4 (neutral (_ :: _)) => apply neutral_cons : omni.

Lemma neutral_links peers delay lagging l l' effs :
  links_disconnect peers delay lagging l = Some (l', effs) -> neutral effs.
Proof. unfold links_disconnect. intros H. handler_inv H; auto with omni. Qed.

Section steps.
Context {iter : IterationId} (n : nat).
Local Abbreviation N := (Z.of_nat n).

Lemma neutral_packet_ok ns self dst m : neutral_msg m -> packet_ok n ns (mkPacket self dst m).
Proof. unfold packet_ok. destruct m as [[]|[]|[]|[]|[]|[]|?|?|?|?|?]; done. Qed.

Section one_node.
Context (s : Sys) (Hinv : inv n s).
Context (pid : Z) (nd : Node) (Hnd : nodes s !! pid = Some nd).
Context (self : ActorPath) (Hself : ap_pid self = pid).
Context (ts0 : list (ActorPath * Timer)).
Context (Hts0 : forall x, x ∈ ts0 -> x ∈ timers s).

(** The state after the node becomes [nd'] and performs [effs]. *)
Definition after (nd' : Node) (effs : list Effect) : Sys :=
  mkSys (<[pid := nd']> (nodes s)) (net s ++ (effs ≫= effect_packets self))
        (foldl (effect_timers self) ts0 effs).

Section unchanged.
Context (effs : list Effect).
Let net' := net s ++ (effs ≫= effect_packets self).
Let ts' := foldl (effect_timers self) ts0 effs.

Lemma same_acceptor a :
  (forall sl r, ~ tells effs (VOTE pid sl r)) ->
  (forall r info, ~ tells effs (P1B pid r info)) ->
  acceptor_inv (net s) pid a -> acceptor_inv net' pid a.
Proof.
  intros H1 H2. eapply acceptor_inv_ext; [apply frame_ext|..]; intros ??[H|[? ?]];
    try done; [by eapply H1|by eapply H2].
Qed.

Lemma same_proxy p :
  (forall sl r v, ~ tells effs (A2A pid sl r v)) ->
  proxy_inv n (net s) pid p -> proxy_inv n net' pid p.
Proof.
  intros H1. eapply proxy_inv_ext; [apply frame_ext|]. intros ???[H|[? ?]]; [|done].
  by eapply H1.
Qed.

Lemma same_leader l :
  (forall r w, ~ tells effs (P1A pid r w)) ->
  (forall sl r v, ~ tells effs (P2A pid sl r v)) ->
  (forall p, Schedule (TResendPhase1as p) ∉ effs) ->
  leader_inv n (net s) (timers s) pid l -> leader_inv n net' ts' pid l.
Proof.
  intros H1 H2 H3. eapply leader_inv_ext; [apply frame_ext|..].
  - intros r w [Hs|(path & Hp & Hc)].
    + destruct (frame_ext s self effs) as [_ Hx].
      apply Hx in Hs as [Hs|[Ht|[? ?]]]; [by left|by destruct (H1 r w)|done].
    + apply elem_of_effect_timers in Hp as [Hp|(t & Ht & [= -> <-])].
      * right. exists path. auto.
      * by destruct (H3 _ Ht).
  - intros ???[H|[? ?]]; [|done]. by eapply H2.
Qed.

Lemma same_replica r : replica_inv (net s) r -> replica_inv net' r.
Proof. intros H sl v Hg. apply (frame_ext s self effs). by apply H. Qed.

Lemma new_sent m : tells effs m -> sent net' m.
Proof.
  intros [dst Hd]. exists (mkPacket self dst m). split; [|done].
  apply elem_of_app. right. apply elem_of_effect_packets. eauto.
Qed.

Lemma old_sent m : sent (net s) m -> sent net' m.
Proof. apply (frame_ext s self effs). Qed.

Lemma sent_inv m : (forall i, m <> MElection i) -> sent net' m ->
  sent (net s) m \/ tells effs m.
Proof. intros Hm Hs. by eapply frame_sent_inv in Hs. Qed.
End unchanged.

(** A step that only performs neutral effects. *)
Lemma inv_neutral nd' effs :
  neutral effs ->
  (forall net, acceptor_inv net pid (acceptor_comp nd) ->
               acceptor_inv net pid (acceptor_comp nd')) ->
  (forall net, proxy_inv n net pid (proxy_leader_comp nd) ->
               proxy_inv n net pid (proxy_leader_comp nd')) ->
  (leader_inv n (net s) (timers s) pid (leader_comp nd) ->
   leader_inv n (net s) (timers s) pid (leader_comp nd')) ->
  (left_initial n pid (leader_comp nd) -> left_initial n pid (leader_comp nd')) ->
  (left_initial n pid (leader_comp nd') \/ Leader.round (leader_comp nd') = N) ->
  batcher_inv n (nodes s) (batcher_comp nd') ->
  replica_inv (net s) (replica_comp nd') ->
  inv n (after nd' effs).
Proof.
  intros Hneu Ha Hp Hl Hleft Hini Hb Hr.
  assert (forall m, tells effs m -> neutral_msg m) as Htell.
  { intros m [dst Hd]. by specialize (Hneu _ Hd). }
  assert (forall t, Schedule t ∈ effs -> neutral_timer t) as Hsch.
  { intros t Ht. by specialize (Hneu _ Ht). }
  apply (inv_frame n s Hinv pid nd nd' self effs ts0); try done.
  split; try done.
  - apply same_acceptor; [by intros ??[]%Htell..|]. eapply Ha, iv_acceptor; eauto.
  - apply same_proxy; [by intros ???[]%Htell|]. eapply Hp, iv_proxy; eauto.
  - apply same_leader; [by intros ??[]%Htell|by intros ???[]%Htell|by intros ?[]%Hsch|].
    eapply Hl, iv_leader; eauto.
  - by apply same_replica.
  - intros dst m Hd. apply neutral_packet_ok. by specialize (Hneu _ Hd).
  - by intros []%Hsch.
  - by intros ???[]%Htell.
  - by intros ?[]%Hsch.
  - by intros ????[]%Htell.
  - by intros ????[]%Htell.
  - by intros ???[]%Htell.
  - by intros ???[]%Htell.
  - by intros ??[]%Htell.
Qed.

(** ** Acceptor *)

Lemma acceptor_round_up a r :
  Acceptor.round a <= r -> forall net,
  acceptor_inv net pid a ->
  acceptor_inv net pid (Acceptor.mk (Acceptor.index a) r (Acceptor.states a)
    (Acceptor.max_voted_slot a) (Acceptor.leaders a) (Acceptor.proxy_leaders a)
    (Acceptor.links a)).
Proof.
  intros Hr net [? Hs Hv Hp]. split; simpl; auto.
  - intros sl st Hst. destruct (Hs sl st Hst) as (? & ? & ?). split_and!; [done|lia|done].
  - intros r0 info Hi. destruct (Hp r0 info Hi). split; [lia|done].
Qed.

Lemma acceptor_phase1a src r w a leader :
  acceptor_inv (net s) pid a -> sent (net s) (P1A src r w) -> Acceptor.round a <= r ->
  let info := map Acceptor.slot_info (Acceptor.btree_range (Acceptor.states a) w) in
  let effs := [Tell leader (P1B (Acceptor.index a) r info)] in
  acceptor_inv (net s ++ (effs ≫= effect_packets self)) pid
    (Acceptor.mk (Acceptor.index a) r (Acceptor.states a)
    (Acceptor.max_voted_slot a) (Acceptor.leaders a) (Acceptor.proxy_leaders a)
    (Acceptor.links a)).
Proof.
  intros Ha H1a Hr info effs. pose proof (acceptor_round_up a r Hr _ Ha) as [Hi Hs Hv Hp].
  destruct Ha as [Hidx Hs0 Hv0 _].
  assert (forall m, sent (net s ++ (effs ≫= effect_packets self)) m ->
    (forall i, m <> MElection i) -> sent (net s) m \/ m = P1B pid r info) as Hinv'.
  { intros m Hm He. apply sent_inv in Hm as [?|[dst Hd]]; [by left| |done].
    apply list_elem_of_singleton in Hd. injection Hd as -> ->. rewrite Hidx. by right. }
  clearbody effs. simpl in Hi, Hs, Hv, Hp. split; simpl; auto.
  - intros sl st Hst. destruct (Hs sl st Hst) as (? & ? & src' & ?).
    split_and!; [by apply old_sent|done|]. exists src'. by apply old_sent.
  - intros sl r0 Hv'. apply Hinv' in Hv' as [Hv'|?]; [|done..].
    destruct (Hv sl r0 Hv') as (? & src' & v & ?). split; [done|].
    exists src', v. by apply old_sent.
  - intros r0 info0 Hb. apply Hinv' in Hb as [Hb|[= -> ->]]; [| |done].
    + destruct (Hp r0 info0 Hb) as (? & src' & w' & ? & Hcov & Hent).
      split; [done|]. exists src', w'. split; [by apply old_sent|]. split.
      * intros sl r' Hw Hr' Hv'. apply Hinv' in Hv' as [Hv'|?]; [eauto|done..].
      * intros e He. destruct (Hent e He) as (? & ? & src'' & ?).
        split_and!; [done..|]. exists src''. by apply old_sent.
    + split; [done|]. exists src, w. split; [by apply old_sent|]. split.
      * intros sl r' Hw Hr' Hv'. apply Hinv' in Hv' as [Hv'|?]; [|done..].
        destruct (Hv0 sl r' Hv') as ((st & Hst & Hle) & _).
        exists (Acceptor.slot_info (sl, st)). split; [|done].
        apply Acceptor.elem_of_slot_infos. simpl. eauto.
      * intros e He. apply Acceptor.elem_of_slot_infos in He
          as (st & Hst & Hw & Hvr & Hvv).
        destruct (Hs0 _ st Hst) as (_ & ? & src' & ?).
        split_and!; [done|lia|]. exists src'. rewrite Hvr, Hvv. by apply old_sent.
Qed.

Lemma acceptor_phase2a src sl r v a proxy :
  acceptor_inv (net s) pid a -> sent (net s) (A2A src sl r v) -> Acceptor.round a <= r ->
  let effs := [Tell proxy (VOTE (Acceptor.index a) sl r)] in
  acceptor_inv (net s ++ (effs ≫= effect_packets self)) pid
    (Acceptor.mk (Acceptor.index a) r
      (<[sl := Acceptor.mkState r v]> (Acceptor.states a))
      (Z.max (Acceptor.max_voted_slot a) sl) (Acceptor.leaders a)
      (Acceptor.proxy_leaders a) (Acceptor.links a)).
Proof.
  intros [Hidx Hs Hv Hp] H2a Hr effs.
  assert (forall m, sent (net s ++ (effs ≫= effect_packets self)) m ->
    (forall i, m <> MElection i) -> sent (net s) m \/ m = VOTE pid sl r) as Hinv'.
  { intros m Hm He. apply sent_inv in Hm as [?|[dst Hd]]; [by left| |done].
    apply list_elem_of_singleton in Hd. injection Hd as -> ->. rewrite Hidx. by right. }
  assert (sent (net s ++ (effs ≫= effect_packets self)) (VOTE pid sl r)) as Hnew.
  { apply new_sent. exists proxy. subst effs. rewrite Hidx. set_solver. }
  clearbody effs. split; simpl; auto.
  - intros sl0 st. rewrite lookup_insert. case_decide.
    + intros [= <-]. subst sl0. simpl. split_and!; [done|lia|].
      exists src. by apply old_sent.
    + intros Hst. destruct (Hs sl0 st Hst) as (? & ? & src' & ?).
      split_and!; [by apply old_sent|lia|]. exists src'. by apply old_sent.
  - intros sl0 r0 Hv0. apply Hinv' in Hv0 as [Hv0|[= -> ->]]; [| |done].
    + destruct (Hv sl0 r0 Hv0) as ((st & Hst & Hle) & src' & v' & ?).
      split; [|exists src', v'; by apply old_sent].
      rewrite lookup_insert. case_decide; [|by eauto].
      eexists. split; [done|]. simpl. subst. destruct (Hs _ _ Hst). lia.
    + split; [|exists src, v; by apply old_sent].
      rewrite lookup_insert_eq. eexists. split; [done|]. simpl. lia.
  - intros r0 info0 Hb. apply Hinv' in Hb as [Hb|?]; [|done..].
    destruct (Hp r0 info0 Hb) as (? & src' & w' & ? & Hcov & Hent).
    split; [lia|]. exists src', w'. split; [by apply old_sent|]. split.
    * intros sl0 r' Hw Hr' Hv'. apply Hinv' in Hv' as [Hv'|[= -> ->]]; [eauto| |done]. lia.
    * intros e He. destruct (Hent e He) as (? & ? & src'' & ?).
      split_and!; [done..|]. exists src''. by apply old_sent.
Qed.

Lemma inv_acceptor_only a' effs :
  acceptor_inv (net s ++ (effs ≫= effect_packets self)) pid a' ->
  (forall e, e ∈ effs -> exists dst m, e = Tell dst m /\
     ((exists sl r, m = VOTE pid sl r) \/ (exists r info, m = P1B pid r info) \/
      neutral_msg m)) ->
  inv n (after (set_acceptor nd a') effs).
Proof.
  intros Ha Heffs.
  assert (forall m, tells effs m -> (exists sl r, m = VOTE pid sl r) \/
    (exists r info, m = P1B pid r info) \/ neutral_msg m) as Htell.
  { intros m [dst Hd]. destruct (Heffs _ Hd) as (? & ? & ? & ?). by simplify_eq. }
  assert (forall t, Schedule t ∉ effs) as Hsch.
  { intros t Ht. destruct (Heffs _ Ht) as (? & ? & ? & _). done. }
  apply (inv_frame n s Hinv pid nd _ self effs ts0); try done.
  split; simpl; try done.
  - by eapply iv_initial.
  - apply same_proxy; [|by eapply iv_proxy]. intros ? ? ? H%Htell. naive_solver.
  - apply same_leader; [| | |by eapply iv_leader].
    + intros ? ? H%Htell. naive_solver.
    + intros ? ? ? H%Htell. naive_solver.
    + intros p. apply Hsch.
  - by eapply iv_batcher.
  - apply same_replica. by eapply iv_replica.
  - intros dst m Hd. assert (tells effs m) as Ht%Htell by by exists dst.
    destruct Ht as [(? & ? & ->)|[(? & ? & ->)|Hm]]; [done..|]. by apply neutral_packet_ok.
  - by intros []%Hsch.
  - intros ? ? ? H%Htell. naive_solver.
  - by intros ?[]%Hsch.
  - intros ? ? ? ? H%Htell. naive_solver.
  - intros ? ? ? ? H%Htell. naive_solver.
  - intros ? ? ? H%Htell. naive_solver.
  - intros ? ? ? H%Htell. naive_solver.
  - intros ? ? H%Htell. naive_solver.
Qed.

Lemma inv_acceptor m a' effs :
  sent (net s) (MAcceptor m) ->
  Acceptor.receive_network (acceptor_comp nd) m = Some (a', effs) ->
  inv n (after (set_acceptor nd a') effs).
Proof.
  intros Hs H. pose proof (iv_acceptor n s Hinv pid nd Hnd) as Ha.
  pose proof (ai_index _ _ _ Ha) as Hidx.
  unfold Acceptor.receive_network, Acceptor.handle_phase1a, Acceptor.handle_phase2a in H.
  destruct m as [[src r w]|[src sl r v]]; simpl in H; handler_inv H; simpl in *;
    apply inv_acceptor_only.
  all: try (intros e He%list_elem_of_singleton; subst e; do 2 eexists; split;
            [reflexivity|]; rewrite ?Hidx; simpl; eauto 6; fail).
  all: try (intros e He; by apply not_elem_of_nil in He).
  all: try (apply same_acceptor; [| |exact Ha];
            [intros ?? [? Hd]|intros ?? [? Hd]];
            first [by apply not_elem_of_nil in Hd
                  |apply list_elem_of_singleton in Hd; simplify_eq]; fail).
  - eapply acceptor_phase1a; eauto.
  - eapply acceptor_phase2a; eauto.
Qed.

(** ** Proxy leader *)

Lemma tells_broadcast peers disc m m' : tells (broadcast peers disc m) m' -> m' = m.
Proof. intros (dst & (? & ? & _ & _ & [= _ <-])%elem_of_broadcast). done. Qed.

Lemma broadcast_no_schedule peers disc m t : Schedule t ∉ broadcast peers disc m.
Proof. intros (? & ? & _ & _ & ?)%elem_of_broadcast. done. Qed.

Lemma inv_proxy_only p' effs :
  proxy_inv n (net s ++ (effs ≫= effect_packets self)) pid p' ->
  (forall t, Schedule t ∉ effs) ->
  (forall m, tells effs m ->
     (exists sl r v, m = A2A pid sl r v /\ sent (net s) (P2A pid sl r v) /\
        (forall v', ~ sent (net s) (A2A pid sl r v')) /\
        (forall m', tells effs m' -> m' = m)) \/
     (exists sl v r, m = CHOSEN sl v /\ chosen_by n (net s) sl r v)) ->
  inv n (after (set_proxy_leader nd p') effs).
Proof.
  intros Hp Hsch Htell.
  apply (inv_frame n s Hinv pid nd _ self effs ts0); try done.
  split; simpl; try done.
  - by eapply iv_initial.
  - apply same_acceptor; [..|by eapply iv_acceptor]; intros ? ? H%Htell; naive_solver.
  - apply same_leader; [| | |by eapply iv_leader].
    + intros ? ? H%Htell. naive_solver.
    + intros ? ? ? H%Htell. naive_solver.
    + intros p. apply Hsch.
  - by eapply iv_batcher.
  - apply same_replica. by eapply iv_replica.
  - intros dst m Hd. assert (tells effs m) as Ht%Htell by by exists dst.
    by destruct Ht as [(? & ? & ? & -> & _)|(? & ? & ? & -> & _)].
  - by intros []%Hsch.
  - intros ? ? ? H%Htell. naive_solver.
  - by intros ?[]%Hsch.
  - intros ? ? ? ? H%Htell. naive_solver.
  - intros q sl r v H. apply Htell in H
      as [(? & ? & ? & [= -> -> -> ->] & ? & ? & Hu)|(? & ? & ? & ? & _)]; [|done].
    split_and!; [done..|]. intros v' Hv'. apply Hu in Hv'. by injection Hv'.
  - intros ? ? ? H%Htell. naive_solver.
  - intros ? ? ? H%Htell. naive_solver.
  - intros sl v H. apply Htell in H as [(? & ? & ? & ? & _)|(? & ? & r & [= -> ->] & Hc)];
      [done|]. exists r. eapply chosen_by_ext; [apply frame_ext|done].
Qed.

Lemma inv_proxy_local sl r v p' effs :
  sent (net s) (P2A pid sl r v) ->
  ProxyLeader.handle_phase2a (proxy_leader_comp nd) (mkPhase2a pid sl r v) = (p', effs) ->
  inv n (after (set_proxy_leader nd p') effs).
Proof.
  intros Hs H. pose proof (iv_proxy n s Hinv pid nd Hnd) as Hp.
  unfold ProxyLeader.handle_phase2a in H; simpl in H. case_match eqn:Hst; simplify_eq.
  { apply inv_proxy_only; [|set_solver|intros m [? ?]; set_solver].
    apply same_proxy; [intros ? ? ? [? ?]; set_solver|done]. }
  assert (forall v', ~ sent (net s) (A2A pid sl r v')) as Hfresh.
  { intros v' Hv'. apply (pi_relayed _ _ _ _ Hp) in Hv' as [? ?]. congruence. }
  apply inv_proxy_only.
  - destruct Hp as [Hm Hr Hpe]. set (effs := broadcast _ _ _).
    assert (forall sl0 r0 v0, sent (net s ++ (effs ≫= effect_packets self))
      (A2A pid sl0 r0 v0) -> sent (net s) (A2A pid sl0 r0 v0) \/
      (sl0 = sl /\ r0 = r /\ v0 = v)) as Hinv'.
    { intros sl0 r0 v0 [?|Ht]%sent_inv; [by left| |done]. right.
      apply tells_broadcast in Ht. naive_solver. }
    clearbody effs. split; [done|..]; simpl.
    + intros sl0 r0 v0 [Hx|(-> & -> & ->)]%Hinv'; rewrite lookup_insert_is_Some'; eauto.
    + intros sl0 r0 m bs. rewrite lookup_insert. case_decide as Heq.
      * intros [= <- <-]. injection Heq as -> ->. split.
        -- exists v. split; [done|]. split; [by apply old_sent|].
           intros v' [Hx|(_ & _ & ->)]%Hinv'; [by destruct (Hfresh v')|done].
        -- intros a b. by rewrite lookup_empty.
      * intros Hl. destruct (Hpe sl0 r0 m bs Hl) as [(v0 & -> & ? & Hu) Hbs]. split.
        -- exists v0. split; [done|]. split; [by apply old_sent|].
           intros v' [Hx|(-> & -> & ->)]%Hinv'; [by apply Hu|done].
        -- intros a b Hab. destruct (Hbs a b Hab). split; [done|]. by apply old_sent.
  - intros t. apply broadcast_no_schedule.
  - intros m ->%tells_broadcast. left. exists sl, r, v. split_and!; [done..|].
    by intros m' ->%tells_broadcast.
Qed.

(** The pending proposal is the value every vote of its round was cast for. *)
Lemma pending_chosen sl r v (bs : gmap Z Phase2b) :
  sent (net s) (P2A pid sl r v) ->
  (forall v', sent (net s) (A2A pid sl r v') -> v' = v) ->
  (forall a b, bs !! a = Some b -> a ∈ pids n /\ sent (net s) (VOTE a sl r)) ->
  (quorum_size n <= size bs)%nat -> (0 < size bs)%nat ->
  chosen_by n (net s) sl r v.
Proof.
  intros H2a Huniq Hbs Hsize Hpos.
  assert (exists a b, bs !! a = Some b) as (a & b & Hab).
  { destruct (map_choose bs) as (a & b & ?); [|eauto].
    intros ->. rewrite map_size_empty in Hpos. lia. }
  destruct (Hbs a b Hab) as [Ha Hvote].
  apply (iv_dom n s Hinv) in Ha as [nda Hnda].
  destruct (ai_vote _ _ _ (iv_acceptor n s Hinv a nda Hnda) sl r Hvote)
    as (_ & src & v' & H2a').
  assert (src = pid) as ->.
  { destruct (iv_proposed n s Hinv _ _ _ _ (iv_relayed n s Hinv _ _ _ _ H2a')) as [Hsrc _].
    apply (iv_dom n s Hinv) in Hsrc as [nds Hnds].
    destruct (li_proposed _ _ _ _ _ (iv_leader n s Hinv src nds Hnds) _ _ _
      (iv_relayed n s Hinv _ _ _ _ H2a')) as (_ & <- & _).
    by destruct (li_proposed _ _ _ _ _ (iv_leader n s Hinv pid nd Hnd) _ _ _ H2a)
      as (_ & ? & _). }
  rewrite (Huniq _ H2a') in H2a'.
  exists pid, (dom bs). split; [split|split; [done|]].
  - intros x [y Hy]%elem_of_dom. by eapply Hbs.
  - by rewrite size_dom.
  - intros x [y Hy]%elem_of_dom. by eapply Hbs.
Qed.

Lemma inv_proxy_vote a sl r p' effs :
  sent (net s) (VOTE a sl r) ->
  ProxyLeader.handle_phase2b (proxy_leader_comp nd) (mkPhase2b a sl r) = (p', effs) ->
  inv n (after (set_proxy_leader nd p') effs).
Proof.
  intros Hs H. pose proof (iv_proxy n s Hinv pid nd Hnd) as Hp.
  pose proof (iv_vote n s Hinv a sl r Hs) as Ha.
  assert (inv n (after (set_proxy_leader nd (proxy_leader_comp nd)) [])) as Hsame.
  { apply inv_proxy_only; [|set_solver|intros m [? ?]; set_solver].
    apply same_proxy; [intros ? ? ? [? ?]; set_solver|done]. }
  unfold ProxyLeader.handle_phase2b in H; simpl in H.
  destruct (ProxyLeader.states _ !! _) as [[m bs|]|] eqn:Hst; simplify_eq; [|done..].
  destruct (pi_pending _ _ _ _ Hp sl r m bs Hst) as [(v & -> & H2a & Huniq) Hbs].
  set (bs' := <[a := mkPhase2b a sl r]> bs) in *.
  assert (forall a0 (b : Phase2b), bs' !! a0 = Some b ->
    a0 ∈ pids n /\ sent (net s) (VOTE a0 sl r)) as Hbs'.
  { intros a0 b. unfold bs'. rewrite lookup_insert. case_decide; [by subst|]. apply Hbs. }
  assert (forall st, (match st with ProxyLeader.Pending m0 b0 =>
      m0 = mkPhase2a pid sl r v /\ b0 = bs' | ProxyLeader.Done => True end) ->
    proxy_inv n (net s) pid (ProxyLeader.set_states (proxy_leader_comp nd)
      (<[(sl, r) := st]> (ProxyLeader.states (proxy_leader_comp nd))))) as Hupd.
  { intros st Hst'. destruct Hp as [Hm Hr Hpe]. split; [done|..]; simpl.
    - intros sl0 r0 v0 Hx. rewrite lookup_insert_is_Some'. eauto.
    - intros sl0 r0 m bs0. rewrite lookup_insert. case_decide as Heq.
      + intros [= ->]. destruct Hst' as [-> ->]. injection Heq as -> ->. eauto.
      + apply Hpe. }
  case_match eqn:Hsz; simplify_eq.
  - apply inv_proxy_only; [|set_solver|intros m [? ?]; set_solver].
    apply same_proxy; [intros ? ? ? [? ?]; set_solver|]. by apply Hupd.
  - apply Nat.ltb_ge in Hsz. rewrite (pi_majority _ _ _ _ Hp) in Hsz.
    apply inv_proxy_only.
    + apply same_proxy; [intros ? ? ? ?%tells_broadcast; done|]. by apply Hupd.
    + intros t. apply broadcast_no_schedule.
    + intros m ->%tells_broadcast. right. exists sl, v, r. split; [done|].
      apply pending_chosen with (bs := bs'); auto. unfold quorum_size in Hsz. lia.
Qed.

(** ** Batcher *)

Lemma inv_batcher_only b' effs :
  batcher_inv n (nodes s) b' ->
  (forall t, Schedule t ∈ effs -> neutral_timer t) ->
  (forall dst m, Tell dst m ∈ effs -> neutral_msg m \/
     exists batch, m = MLeader (LI_ClientRequestBatch batch) /\
       sys_left n (nodes s) (ap_pid dst)) ->
  inv n (after (set_batcher nd b') effs).
Proof.
  intros Hb Hsch Heff.
  assert (forall m, tells effs m -> neutral_msg m \/
    exists batch, m = MLeader (LI_ClientRequestBatch batch)) as Htell.
  { intros m [dst Hd]. destruct (Heff _ _ Hd); naive_solver. }
  apply (inv_frame n s Hinv pid nd _ self effs ts0); try done.
  split; simpl; try done.
  - by eapply iv_initial.
  - apply same_acceptor; [..|by eapply iv_acceptor]; intros ? ? H%Htell; naive_solver.
  - apply same_proxy; [|by eapply iv_proxy]. intros ? ? ? H%Htell. naive_solver.
  - apply same_leader; [| | |by eapply iv_leader].
    + intros ? ? H%Htell. naive_solver.
    + intros ? ? ? H%Htell. naive_solver.
    + by intros p []%Hsch.
  - apply same_replica. by eapply iv_replica.
  - intros dst m Hd. destruct (Heff _ _ Hd) as [Hm|(batch & -> & Hl)];
      [by apply neutral_packet_ok|done].
  - by intros []%Hsch.
  - intros ? ? ? H%Htell. naive_solver.
  - by intros ?[]%Hsch.
  - intros ? ? ? ? H%Htell. naive_solver.
  - intros ? ? ? ? H%Htell. naive_solver.
  - intros ? ? ? H%Htell. naive_solver.
  - intros ? ? ? H%Htell. naive_solver.
  - intros ? ? H%Htell. naive_solver.
Qed.

Lemma leader_of_round b r q :
  0 < N -> batcher_inv n (nodes s) b ->
  ClassicRoundRobin.leader (Batcher.round_system b) r = Some q -> q = owner N r.
Proof.
  intros HN [-> _ _] Hq. rewrite ClassicRoundRobin.leader_owner in Hq by done. congruence.
Qed.

Lemma inv_batcher m b' effs :
  0 < N -> (exists p, p ∈ net s /\ pkt_msg p = MBatcher m) ->
  Batcher.receive_network (batcher_comp nd) m = Some (b', effs) ->
  inv n (after (set_batcher nd b') effs).
Proof.
  intros HN (p & Hp & Hm) H. pose proof (iv_batcher n s Hinv pid nd Hnd) as Hb.
  apply (iv_packet n s Hinv) in Hp. unfold packet_ok in Hp. rewrite Hm in Hp.
  unfold Batcher.receive_network, Batcher.handle_leader_info,
    Batcher.handle_not_leader_batcher in H.
  destruct m as [batch|r]; simpl in H.
  { simplify_eq. apply inv_batcher_only; [destruct Hb; by split|..].
    - intros t []%broadcast_no_schedule.
    - intros dst m Hd. left. assert (tells (broadcast (Batcher.leaders (batcher_comp nd))
        (disconnected_peers (Batcher.links (batcher_comp nd)))
        (MLeader (LI_LeaderInfoRequestBatcher (Batcher.index (batcher_comp nd))))) m)
        as ->%tells_broadcast by by exists dst. done. }
  handler_inv H; try (apply inv_batcher_only; [|set_solver|set_solver];
    destruct Hb; by split).
  rename x0 into new_leader, x1 into path.
  assert (new_leader = owner N r) as -> by by eapply leader_of_round.
  destruct Hb as [Hb1 Hb2 Hb3]. apply inv_batcher_only; [by split|..].
  - intros t (? & ? & _)%list_elem_of_fmap. done.
  - intros dst m (batch & Heq & _)%list_elem_of_fmap. right. exists batch.
    injection Heq as -> ->. split; [done|]. by rewrite (Hb2 _ _ Hx1).
Qed.

Lemma inv_batch_timeout b' effs :
  0 < N -> Batcher.batch_timeout (batcher_comp nd) = Some (b', effs) ->
  inv n (after (set_batcher nd b') effs).
Proof.
  intros HN H. pose proof (iv_batcher n s Hinv pid nd Hnd) as Hb.
  unfold Batcher.batch_timeout in H.
  handler_inv H; try (apply inv_batcher_only; [|set_solver|set_solver];
    destruct Hb; by split).
  rename x into q, x0 into path.
  assert (q = owner N (Batcher.round (batcher_comp nd))) as -> by by eapply leader_of_round.
  destruct Hb as [Hb1 Hb2 Hb3]. apply inv_batcher_only; [by split|set_solver|].
  intros dst m Hd%list_elem_of_singleton. injection Hd as -> ->. right.
  eexists. split; [done|]. by rewrite (Hb2 _ _ Hx0).
Qed.

End one_node.
End steps.
