(* ===== verification/MpQuiet.v ===== *)
(** Reactions that carry no protocol obligation: participants, replicas,
    proposals and the simulated partitions.  They preserve the cluster invariant
    because their effects are neutral and they keep what the invariant reads. *)

From S2P Require Import Prelude MpMessages Partition MpUtil.
From S2P Require Import MpAcceptor MpProxyLeader MpLeader MpReplica MpBatcher MpParticipant.
From S2P Require Import MpSystem MpInv MpFrame MpSteps.

(** ** Neutral effects of participants and replicas *)

Lemma neutral_map {A} (f : A -> Effect) l : (forall x, neutral [f x]) -> neutral (map f l).
Proof. intros H e (x & -> & _)%list_elem_of_fmap. apply (H x). set_solver. Qed.

#[export] Hint Resolve neutral_map : omni.

(** Solves [neutral] goals of a handler whose matches were opened. *)
Ltac neutral_tac :=
  repeat match goal with
    | |- neutral (map _ _) => apply neutral_map; intros ?
    | |- neutral (_ ++ _) => apply neutral_app
    | |- neutral [] => apply neutral_nil
    | |- neutral [_] => apply neutral_single
    | |- neutral (_ :: _) => apply neutral_cons
    | |- neutral (broadcast _ _ _) => apply neutral_broadcast
    | |- neutral_msg _ => exact I
    | |- neutral_timer _ => exact I
    end; try exact I; try done.

Module ParticipantEffects.
Import Participant.

(** A timer handle of a participant names one of its two timers. *)
Lemma participant_neutral p m rnd p' effs :
  receive_network_ping p m rnd = Some (p', effs) -> neutral effs.
Proof.
  unfold receive_network_ping, handle_ping, change_state, reset_no_ping_timer,
    start_no_ping_timer, stop_no_ping_timer, stop_ping_timer, start_ping_timer, ping.
  intros H. handler_inv H; repeat case_match; simplify_option_eq; neutral_tac.
Qed.

Lemma no_ping_neutral p rnd p' effs :
  no_ping_timeout p rnd = Some (p', effs) -> neutral effs.
Proof.
  unfold no_ping_timeout, change_state, stop_no_ping_timer, stop_ping_timer,
    start_no_ping_timer, start_ping_timer, ping.
  intros H. handler_inv H; repeat case_match; simplify_option_eq; neutral_tac.
Qed.

Lemma peer_stop_neutral p pid p' effs :
  handle_peer_stop p pid = Some (p', effs) -> neutral effs.
Proof. unfold handle_peer_stop. intros H. handler_inv H; neutral_tac. Qed.

Lemma ping_neutral p : neutral (ping_timeout p).2.
Proof. unfold ping_timeout, ping. simpl. neutral_tac. Qed.

Lemma start_effects p rnd p' effs :
  on_start p rnd = Some (p', effs) -> exists t, effs = [Schedule t] /\ neutral_timer t.
Proof.
  unfold on_start, start_ping_timer, start_no_ping_timer. intros H. handler_inv H; (eexists; split; [reflexivity|exact I]).
Qed.
End ParticipantEffects.

Module ReplicaEffects.
Import Replica.

Lemma announce_neutral r effs : announce_watermark r = Some effs -> neutral effs.
Proof. unfold announce_watermark. intros H. handler_inv H; neutral_tac. Qed.

(** Executing the log only moves the watermark. *)
Lemma execute_log_loop_frame fuel r replies effs r' replies' effs' :
  execute_log_loop fuel r replies effs = Some (r', replies', effs') ->
  log r' = log r /\ num_chosen r' = num_chosen r /\ recover_timer r' = recover_timer r /\
  (neutral effs -> neutral effs').
Proof.
  revert r replies effs. induction fuel as [|fuel IH]; intros r replies effs; simpl; [done|].
  intros H. handler_inv H; [|done].
  apply IH in H as (-> & -> & -> & Hn). split_and!; try done.
  intros He. apply Hn, neutral_app; [done|]. by eapply announce_neutral.
Qed.

Lemma handle_chosen_frame r c rnd r' effs :
  handle_chosen r c rnd = Some (r', effs) ->
  neutral effs /\
  (log r' = log r \/ (BufferMap.get (log r) (chosen_slot c) = None /\
     log r' = BufferMap.put (log r) (chosen_slot c) (chosen_value c))).
Proof.
  unfold handle_chosen. intros H.
  destruct (BufferMap.get _ _) eqn:Hg; [simplify_eq; split; [neutral_tac|by left]|].
  apply bind_Some in H as ([[r1 replies] e1] & Hex & H).
  apply execute_log_loop_frame in Hex as (Hlog & _ & _ & Hne). simpl in Hlog.
  apply bind_Some in H as ([r2 timers] & Ht & [= <- <-]).
  assert (neutral timers /\ log r2 = log r1) as [Hnt ->].
  { unfold reset_recover_timer, start_recover_timer, stop_recover_timer in Ht.
    handler_inv Ht; repeat case_match; simplify_option_eq; split; try done; neutral_tac. }
  split; [|right; done].
  apply neutral_app; [apply Hne, neutral_nil|]. apply neutral_app; [neutral_tac|done].
Qed.
End ReplicaEffects.

Section quiet.
Context {iter : IterationId} (n : nat).
Local Abbreviation N := (Z.of_nat n).

(** ** Partitions change none of the fields the invariant reads *)

Lemma acceptor_inv_links net pid a l :
  acceptor_inv net pid a -> acceptor_inv net pid (Acceptor.set_links a l).
Proof. intros []. by split. Qed.

Lemma proxy_inv_links net pid p l :
  proxy_inv n net pid p -> proxy_inv n net pid (ProxyLeader.set_links p l).
Proof. intros []. by split. Qed.

Lemma leader_inv_links net ts pid x l :
  leader_inv n net ts pid x -> leader_inv n net ts pid (Leader.set_links x l).
Proof. intros []. by split. Qed.

Lemma batcher_inv_links ns b l :
  batcher_inv n ns b -> batcher_inv n ns (Batcher.set_links b l).
Proof. intros []. by split. Qed.

(** The nodes differ only in what the invariant does not read. *)
Record quiet (s : Sys) (pid : Z) (nd nd' : Node) : Prop := {
  q_acceptor : forall net, acceptor_inv net pid (acceptor_comp nd) ->
    acceptor_inv net pid (acceptor_comp nd');
  q_proxy : forall net, proxy_inv n net pid (proxy_leader_comp nd) ->
    proxy_inv n net pid (proxy_leader_comp nd');
  q_leader : leader_inv n (net s) (timers s) pid (leader_comp nd) ->
    leader_inv n (net s) (timers s) pid (leader_comp nd');
  q_state : Leader.state (leader_comp nd') = Leader.state (leader_comp nd);
  q_round : Leader.round (leader_comp nd') = Leader.round (leader_comp nd);
  q_batcher : batcher_inv n (nodes s) (batcher_comp nd) ->
    batcher_inv n (nodes s) (batcher_comp nd');
  q_replica : replica_inv (net s) (replica_comp nd) ->
    replica_inv (net s) (replica_comp nd') }.

Lemma inv_quiet s pid nd nd' self ts0 effs :
  inv n s -> nodes s !! pid = Some nd -> ap_pid self = pid ->
  (forall x, x ∈ ts0 -> x ∈ timers s) ->
  quiet s pid nd nd' -> neutral effs ->
  inv n (after s pid self ts0 nd' effs).
Proof.
  intros Hinv Hnd Hself Hts [Ha Hp Hl Hst Hro Hb Hr] Hneu.
  assert (left_initial n pid (leader_comp nd) -> left_initial n pid (leader_comp nd')) as Hle.
  { unfold left_initial. by rewrite Hst, Hro. }
  eapply inv_neutral; eauto.
  - rewrite Hro. destruct (iv_initial n s Hinv pid nd Hnd); auto.
  - by eapply Hb, iv_batcher.
  - by eapply Hr, iv_replica.
Qed.

Lemma quiet_refl s pid nd : quiet s pid nd nd.
Proof. by split. Qed.

Lemma quiet_participant s pid nd x : quiet s pid nd (set_participant nd x).
Proof. by split. Qed.

Lemma quiet_propose s pid nd p : quiet s pid nd (node_propose nd p).
Proof. split; try done. intros []. by split. Qed.

Lemma quiet_leader s pid nd x :
  (leader_inv n (net s) (timers s) pid (leader_comp nd) ->
    leader_inv n (net s) (timers s) pid x) ->
  Leader.state x = Leader.state (leader_comp nd) ->
  Leader.round x = Leader.round (leader_comp nd) ->
  quiet s pid nd (set_leader nd x).
Proof. by split. Qed.

Lemma quiet_replica s pid nd x :
  (replica_inv (net s) (replica_comp nd) -> replica_inv (net s) x) ->
  quiet s pid nd (set_replica nd x).
Proof. by split. Qed.

Lemma quiet_disconnect s pid nd peers delay lagging nd' effs :
  node_disconnect nd peers delay lagging = Some (nd', effs) ->
  quiet s pid nd nd' /\ Forall (fun ce => neutral ce.2) effs.
Proof.
  unfold node_disconnect, Participant.disconnect_peers, Batcher.disconnect_peers,
    ProxyLeader.disconnect_peers, Leader.disconnect_peers, Acceptor.disconnect_peers,
    Replica.disconnect_peers.
  intros H. do 6 (apply bind_Some in H; destruct H as ([? ?] & Hd & H);
    apply bind_Some in Hd; destruct Hd as ([? ?] & ? & Hd);
    cbn beta iota in Hd; injection Hd as <- <-; cbn beta iota in H).
  simplify_eq. split.
  - split; simpl; intros; try done;
      first [by apply acceptor_inv_links|by apply proxy_inv_links
            |by apply leader_inv_links|by apply batcher_inv_links].
  - repeat constructor; simpl; by eapply neutral_links.
Qed.

Lemma quiet_recover s pid nd : quiet s pid nd (node_recover nd).
Proof.
  split; simpl; intros; auto;
    [by apply acceptor_inv_links|by apply proxy_inv_links|by apply leader_inv_links
    |by apply batcher_inv_links].
Qed.

(** The lag timers of a component. *)
Lemma quiet_links_timeout s pid nd comp t rnd nd' effs :
  (match t with TLagExtend _ | TLagSet _ => True | _ => False end) ->
  node_timeout nd comp t rnd = Some (nd', effs) -> quiet s pid nd nd' /\ neutral effs.
Proof.
  intros Ht H. destruct t; try done; destruct comp; simpl in H; simplify_eq;
    (split; [|apply neutral_nil]); split; simpl; intros; auto;
    first [by apply acceptor_inv_links|by apply proxy_inv_links
          |by apply leader_inv_links|by apply batcher_inv_links].
Qed.

Lemma inv_effects s self nd effs :
  inv n s -> nodes s !! ap_pid self = Some nd -> neutral effs ->
  inv n (apply_effects s self effs).
Proof.
  intros Hinv Hnd Hneu.
  pose proof (inv_quiet s (ap_pid self) nd nd self (timers s) effs Hinv Hnd eq_refl
    (fun _ H => H) (quiet_refl _ _ _) Hneu) as H.
  unfold after in H. by rewrite insert_id in H.
Qed.

Lemma inv_component_effects it pid nd effs s :
  inv n s -> nodes s !! pid = Some nd -> Forall (fun ce => neutral ce.2) effs ->
  inv n (apply_component_effects it pid s effs).
Proof.
  intros Hinv Hnd Hf. revert s Hinv Hnd.
  induction Hf as [|[c e] effs Hn Hf IH]; intros s Hinv Hnd; simpl; [done|].
  apply IH; [|done]. by eapply inv_effects.
Qed.

Lemma inv_update s pid nd nd' :
  inv n s -> nodes s !! pid = Some nd -> quiet s pid nd nd' -> inv n (update_node s pid nd').
Proof.
  intros Hinv Hnd Hq.
  pose proof (inv_quiet s pid nd nd' (mkPath CLIENT pid 0) (timers s) [] Hinv Hnd eq_refl
    (fun _ H => H) Hq neutral_nil) as H.
  unfold after in H. simpl in H. by rewrite app_nil_r in H.
Qed.

Lemma replica_inv_chosen net r c rnd r' effs :
  Replica.handle_chosen r c rnd = Some (r', effs) ->
  sent net (CHOSEN (chosen_slot c) (chosen_value c)) ->
  replica_inv net r -> replica_inv net r'.
Proof.
  intros H Hs Hr sl v Hg. apply ReplicaEffects.handle_chosen_frame in H as [_ [Hl|[Hn Hl]]];
    rewrite Hl in Hg; [by apply Hr|].
  destruct (decide (BufferMap.watermark (Replica.log r) <= chosen_slot c)).
  - rewrite BufferMap.get_put in Hg by done. case_decide; [by simplify_eq|by apply Hr].
  - rewrite BufferMap.get_put_below in Hg by lia. by apply Hr.
Qed.
End quiet.
