(* ===== verification/MpLeaderSteps.v ===== *)
(** The reactions of a leader preserve the cluster invariant, outside the two
    situations in which [leader.rs] proposes without a quorum that covers the
    slot (a no-op flush outside phase 2, and the end of phase 1 with a next slot
    below the chosen watermark). *)

From S2P Require Import Prelude MpMessages Partition MpUtil.
From S2P Require Import MpAcceptor MpProxyLeader MpLeader MpReplica MpBatcher MpParticipant.
From S2P Require Import MpSystem MpInv MpFrame MpSteps MpQuiet.

Section leader_steps.
Context {iter : IterationId} (n : nat).
Local Abbreviation N := (Z.of_nat n).

Section one_node.
Context (s : Sys) (Hinv : inv n s).
Context (pid : Z) (nd : Node) (Hnd : nodes s !! pid = Some nd).
Context (self : ActorPath) (Hself : ap_pid self = pid) (Hcomp : ap_component self = LEADER).
Context (ts0 : list (ActorPath * Timer)).
Context (Hts0 : forall x, x ∈ ts0 -> x ∈ timers s).

Local Abbreviation leader := (leader_comp nd).
Local Abbreviation after := (after s pid self ts0).

Lemma leader_pid : 1 <= pid <= N.
Proof. apply elem_of_pids, (iv_dom n s Hinv). eauto. Qed.

Lemma leader_ok : leader_inv n (net s) (timers s) pid leader.
Proof. by eapply iv_leader. Qed.

(** What a leader may do besides neutral effects. *)
Definition leader_effect (l' : Leader.t) (net' : list Packet) (e : Effect) : Prop :=
  match e with
  | Tell _ (P1A src r w) => src = pid \/ announced (net s) (timers s) src r w
  | Tell dst (P2A src sl r v) =>
      src = pid /\ dst = mkPath PROXY_LEADER pid ITERATION /\ safe_at n net' sl r v
  | Tell _ (MBatcher (BI_LeaderInfoReplyBatcher r)) => sys_left n (nodes s) (owner N r)
  | Tell _ m => neutral_msg m
  | Schedule TNoopFlush => left_initial n pid l'
  | Schedule (TResendPhase1as p) => p1a_src p = pid
  | Schedule t => neutral_timer t
  | _ => True
  end.

Lemma inv_leader_only l' effs :
  leader_inv n (net s ++ (effs ≫= effect_packets self))
    (foldl (effect_timers self) ts0 effs) pid l' ->
  (left_initial n pid leader -> left_initial n pid l') ->
  left_initial n pid l' \/ Leader.round l' = N ->
  (forall e, e ∈ effs -> leader_effect l' (net s ++ (effs ≫= effect_packets self)) e) ->
  inv n (after (set_leader nd l') effs).
Proof.
  intros Hl Hleft Hini Heff.
  assert (forall m, tells effs m -> exists dst,
    leader_effect l' (net s ++ (effs ≫= effect_packets self)) (Tell dst m)) as Htell.
  { intros m [dst Hd]. exists dst. by apply Heff. }
  apply (inv_frame n s Hinv pid nd _ self effs ts0); try done.
  split; simpl; try done.
  - apply same_acceptor; [..|by eapply iv_acceptor];
      intros ? ? [? []]%Htell.
  - apply same_proxy; [|by eapply iv_proxy]. intros ? ? ? [? []]%Htell.
  - by eapply iv_batcher.
  - apply same_replica. by eapply iv_replica.
  - intros dst m Hd. apply Heff in Hd. unfold packet_ok; simpl.
    destruct m as [[]|[[]|[]]|[]|[[]|[]]|[]|[]|?|?|?|?|?]; simpl in *; try done.
    by destruct Hd as (-> & -> & _).
  - by intros H%Heff.
  - by intros q r w [? H]%Htell.
  - by intros p H%Heff.
  - intros q sl r v [? (? & _ & ?)]%Htell. done.
  - intros q sl r v [? []]%Htell.
  - intros q sl r [? []]%Htell.
  - intros q r info [? []]%Htell.
  - intros sl v [? []]%Htell.
Qed.

(** The packets and timers of a leader's step that matter to its invariant. *)
Section effects.
Context (effs : list Effect).
Let net' := net s ++ (effs ≫= effect_packets self).
Let ts' := foldl (effect_timers self) ts0 effs.

Lemma announced_inv q r w : announced net' ts' q r w ->
  announced (net s) (timers s) q r w \/ tells effs (P1A q r w) \/
  Schedule (TResendPhase1as (mkPhase1a q r w)) ∈ effs.
Proof.
  intros [Hs|(path & Hp & Hc)].
  - apply sent_inv in Hs as [Hs|Hs]; [by left; left|by right; left|done].
  - apply elem_of_effect_timers in Hp as [Hp|(t & Ht & [= -> <-])].
    + left. right. exists path. auto.
    + by right; right.
Qed.

(** A leader that keeps its rounds and proposes nothing new. *)
Lemma leader_inv_effects l :
  (forall m, tells effs m -> match m with
     | P1A q r w => announced (net s) (timers s) q r w
     | P2A _ _ _ _ => False | _ => True end) ->
  (forall p, Schedule (TResendPhase1as p) ∉ effs) ->
  leader_inv n (net s) (timers s) pid l -> leader_inv n net' ts' pid l.
Proof.
  intros Ht Hsch. eapply leader_inv_ext; [apply frame_ext|..].
  - intros r w [?|[H|H]]%announced_inv; [done|by apply Ht in H|by apply Hsch in H].
  - intros sl r v [H|[? H]]; [by apply Ht in H|done].
Qed.
End effects.

Lemma owner_announced q r w :
  announced (net s) (timers s) q r w -> owner N r = q.
Proof.
  intros Ha. pose proof (iv_announced n s Hinv q r w Ha) as Hq.
  apply (iv_dom n s Hinv) in Hq as [ndq Hq].
  by destruct (li_announced _ _ _ _ _ (iv_leader n s Hinv q ndq Hq) r w Ha).
Qed.

Lemma owner_proposed q sl r v : sent (net s) (P2A q sl r v) -> owner N r = q.
Proof.
  intros Hs. destruct (iv_proposed n s Hinv q sl r v Hs) as [Hq _].
  apply (iv_dom n s Hinv) in Hq as [ndq Hq].
  by destruct (li_proposed _ _ _ _ _ (iv_leader n s Hinv q ndq Hq) sl r v Hs) as (_ & ? & _).
Qed.

(** ** Opening a new round *)

(** [l0] is the leader after its timers were stopped and, for a [Nack], its
    round was raised. *)
Lemma inv_new_round l0 cancelled l' effs :
  Leader.index l0 = Leader.index leader ->
  Leader.round_system l0 = Leader.round_system leader ->
  Leader.majority l0 = Leader.majority leader ->
  Leader.proxy_leader l0 = Leader.proxy_leader leader ->
  Leader.round leader <= Leader.round l0 -> 0 <= Leader.round l0 ->
  Leader.round l0 + 2 * N < 2 ^ 64 ->
  (forall e, e ∈ cancelled -> exists t, e = Cancel t) ->
  Leader.new_round l0 = Some (l', effs) ->
  inv n (after (set_leader nd l') (cancelled ++ effs)).
Proof.
  intros Hi Hrs Hm Hpr Hle H0 Hb Hcan H. pose proof leader_ok as [Li Lr Lm Lp L1 L2 L3 _ _].
  pose proof leader_pid as Hpid.
  unfold Leader.new_round in H. rewrite Hi, Hrs, Li, Lr in H.
  destruct (ClassicRoundRobin.next_classic_round_value N ltac:(lia) pid (Leader.round l0))
    as (r & Hr & Hlt & Hmod); [lia..|].
  rewrite Hr in H. simpl in H. injection H as <- <-.
  apply ClassicRoundRobin.owner_mod in Hmod; [|lia..].
  rewrite Hi, Li. set (p1a := mkPhase1a pid r (Leader.chosen_watermark l0)).
  set (effs := cancelled ++ _).
  assert (forall e, e ∈ effs -> (exists t, e = Cancel t) \/
    (exists dst, e = Tell dst (MAcceptor (AI_Phase1a p1a))) \/
    e = Schedule (TResendPhase1as p1a)) as Heff.
  { intros e [He|[He|He]%elem_of_app]%elem_of_app; [by left; apply Hcan|right; left|right; right].
    - apply elem_of_broadcast in He as (? & ? & _ & _ & ->). eauto.
    - by apply list_elem_of_singleton in He as ->. }
  clearbody effs. apply inv_leader_only;
    [|by intros _ ?|by left; intros ?|]; simpl.
  - assert (forall r' w', announced (net s ++ (effs ≫= effect_packets self))
      (foldl (effect_timers self) ts0 effs) pid r' w' ->
      announced (net s) (timers s) pid r' w' \/ (r' = r /\ w' = Leader.chosen_watermark l0))
      as Hann.
    { intros r' w' [?|[[dst Hd]|Hd]]%announced_inv; [by left|..]; right;
        apply Heff in Hd as [[? ?]|[[? ?]|?]]; unfold p1a in *; by simplify_eq. }
    split; simpl; try done; try congruence.
    + intros r' w' [Ha|[-> ->]]%Hann; [|split; [lia|done]].
      destruct (L1 r' w' Ha). split; [lia|done].
    + intros r' w1 w2 [Ha|[-> ->]]%Hann [Ha'|[? ->]]%Hann; [by eauto|..|done];
        subst; [destruct (L1 _ _ Ha)|destruct (L1 _ _ Ha')]; lia.
    + intros sl r' v Hs. apply sent_inv in Hs as [Hs|[dst Hd]]; [| |done].
      * destruct (L3 sl r' v Hs) as (? & ? & _). split_and!; [lia|done|lia].
      * by apply Heff in Hd as [[? ?]|[[? ?]|?]].
    + intros _. split; [done|]. split; [|intros a p; by rewrite lookup_empty].
      intros w' [Ha|[_ ->]]%Hann; [|lia]. destruct (L1 _ _ Ha). lia.
  - intros e [[t ->]|[[dst ->]| ->]]%Heff; simpl; auto.
Qed.

(** ** Leaving and changing leadership *)

(** The leader as the handlers hold it after raising its round to [r]. *)
Lemma inv_leader_change r is_new l' effs :
  Leader.round leader <= r -> 0 <= r -> r + 2 * N < 2 ^ 64 ->
  Leader.leader_change (Leader.set_round leader r) is_new = Some (l', effs) ->
  inv n (after (set_leader nd l') effs).
Proof.
  intros Hle H0 Hb H.
  assert (forall l1 t effs1, Leader.new_round l1 = Some (l', effs1) ->
    effs = t ++ effs1 -> (forall e, e ∈ t -> exists c, e = Cancel c) ->
    Leader.index l1 = Leader.index leader ->
    Leader.round_system l1 = Leader.round_system leader ->
    Leader.majority l1 = Leader.majority leader ->
    Leader.proxy_leader l1 = Leader.proxy_leader leader -> Leader.round l1 = r ->
    inv n (after (set_leader nd l') effs)) as Hnew.
  { intros l1 t effs1 Hn -> Hc ? ? ? ? Hr. eapply inv_new_round; rewrite ?Hr; eauto. }
  assert (Leader.index l' = Leader.index leader ->
    Leader.round_system l' = Leader.round_system leader ->
    Leader.majority l' = Leader.majority leader ->
    Leader.proxy_leader l' = Leader.proxy_leader leader ->
    Leader.round l' = r -> Leader.state l' = Leader.Inactive ->
    (forall e, e ∈ effs -> exists c, e = Cancel c) ->
    inv n (after (set_leader nd l') effs)) as Hoff.
  { intros Hi Hrs Hm Hp Hr Hst Hc. apply inv_leader_only.
    - apply leader_inv_effects; [by intros m [dst [? ?]%Hc]|by intros p [? ?]%Hc|].
      destruct leader_ok as [Li Lr Lm Lp L1 L2 L3 _ _]. split; try congruence; try done.
      + intros r' w Ha. destruct (L1 r' w Ha). split; [lia|done].
      + intros sl r' v Hs. destruct (L3 sl r' v Hs) as (? & ? & _).
        split_and!; [lia|done|]. congruence.
    - intros _ ?. congruence.
    - left. intros ?. congruence.
    - by intros e [? ->]%Hc. }
  unfold Leader.leader_change in H. simpl in H.
  destruct (Leader.state leader) eqn:Hst, is_new.
  - eapply (Hnew _ [] effs); [exact H|done|set_solver|done..].
  - injection H as <- <-. apply Hoff; try done. set_solver.
  - unfold Leader.stop_resend_phase1as in H. simpl in H.
    destruct (Leader.resend_phase1as leader); apply bind_Some in H as ([? ?] & ? & ?);
      simplify_eq; (eapply Hnew; [eassumption|reflexivity|set_solver|done..]).
  - unfold Leader.stop_resend_phase1as in H. simpl in H.
    destruct (Leader.resend_phase1as leader); injection H as <- <-;
      apply Hoff; try done; set_solver.
  - unfold Leader.stop_noop_flush_timer in H. simpl in H.
    destruct (Leader.noop_flush_timer leader); apply bind_Some in H as ([? ?] & ? & ?);
      simplify_eq; (eapply Hnew; [eassumption|reflexivity|set_solver|done..]).
  - unfold Leader.stop_noop_flush_timer in H. simpl in H.
    destruct (Leader.noop_flush_timer leader); injection H as <- <-;
      apply Hoff; try done; set_solver.
Qed.

Lemma set_round_id : Leader.set_round leader (Leader.round leader) = leader.
Proof. by destruct leader. Qed.

Lemma inv_handle_nack r l' effs :
  0 <= r -> r + 3 * N < 2 ^ 64 ->
  Leader.handle_nack leader r = Some (l', effs) ->
  inv n (after (set_leader nd l') effs).
Proof.
  intros H0 Hb H. pose proof leader_ok as Hok. pose proof leader_pid as Hpid.
  pose proof Hok as [Li Lr Lm Lp L1 L2 L3 _ _].
  unfold Leader.handle_nack in H.
  destruct (Z.leb_spec r (Leader.round leader)).
  { injection H as <- <-. eapply inv_quiet; eauto using neutral_nil. by split. }
  destruct (Leader.state leader) eqn:Hst.
  { apply (inv_leader_change r false); [lia..|]. unfold Leader.leader_change.
    simpl. by rewrite Hst. }
  all: rewrite Lr, Li in H.
  all: destruct (ClassicRoundRobin.next_classic_round_value N ltac:(lia) pid r)
    as (r' & Hr & Hlt & _); [lia..|]; rewrite Hr in H; simpl in H.
  all: eapply inv_leader_change; [..|exact H]; lia.
Qed.

(** ** Resending *)

Lemma inv_resend p l' effs :
  announced (net s) (timers s) (p1a_src p) (p1a_round p) (p1a_chosen_watermark p) ->
  Leader.resend_phase1as_timeout leader p = (l', effs) ->
  inv n (after (set_leader nd l') effs).
Proof.
  intros Ha [= <- <-]. destruct p as [src r w]; simpl in Ha.
  set (effs := broadcast _ _ _).
  assert (forall e, e ∈ effs -> exists dst, e = Tell dst (P1A src r w)) as Heff.
  { intros e (? & ? & _ & _ & ->)%elem_of_broadcast. eauto. }
  clearbody effs. apply inv_leader_only; [|done|by eapply iv_initial|].
  - apply leader_inv_effects; [by intros m [dst [? [= _ ->]]%Heff]|by intros p [? ?]%Heff|].
    apply leader_ok.
  - intros e [dst ->]%Heff. by right.
Qed.

(** ** Proposing in phase 2 *)

Lemma inv_propose l1 v dst effs :
  dst = Leader.proxy_leader leader ->
  effs = [Tell dst (P2A (Leader.index leader) (Leader.next_slot leader)
            (Leader.round leader) v)] ->
  l1 = Leader.set_next_slot leader (Leader.next_slot leader +u64 1) ->
  Leader.state leader = Leader.Phase2 -> left_initial n pid leader ->
  0 <= Leader.next_slot leader -> Leader.next_slot leader + 1 < 2 ^ 64 ->
  inv n (after (set_leader nd l1) effs).
Proof.
  intros Hd -> -> Hst Hleft H0 Hb. rewrite u64_add_small by lia.
  destruct leader_ok as [Li Lr Lm Lp L1 L2 L3 _ L5].
  pose proof (L5 Hst Hleft) as Hfree. pose proof (Hleft Hst) as Hown.
  rewrite Li, Hd, Lp. set (effs := [_]).
  assert (forall e, e ∈ effs -> e = Tell (mkPath PROXY_LEADER pid ITERATION)
    (P2A pid (Leader.next_slot leader) (Leader.round leader) v)) as Heff.
  { by intros e ->%list_elem_of_singleton. }
  clearbody effs.
  assert (free_from n (net s ++ (effs ≫= effect_packets self)) (Leader.round leader)
    (Leader.next_slot leader)) as Hfree' by (eapply free_from_ext; [apply frame_ext|done]).
  apply inv_leader_only.
  - assert (forall r w, announced (net s ++ (effs ≫= effect_packets self))
      (foldl (effect_timers self) ts0 effs) pid r w ->
      announced (net s) (timers s) pid r w) as Hann.
    { intros r w [?|[[dst' Hx%Heff]|Hx%Heff]]%announced_inv; done. }
    split; simpl; try done.
    + intros r w ?%Hann. eauto.
    + intros r w w' ?%Hann ?%Hann. eauto.
    + intros sl r v' Hs. apply sent_inv in Hs as [Hs|[dst' [= _ -> -> ->]%Heff]]; [| |done].
      * by apply L3 in Hs.
      * split_and!; [lia|done|congruence].
    + congruence.
    + intros _ _. eapply free_from_mono; [|exact Hfree']. lia.
  - done.
  - by left.
  - intros e ->%Heff. simpl. split_and!; [done..|].
    eapply free_from_safe; [exact Hfree'|lia].
Qed.

Lemma inv_client_batch sender batch l' effs :
  sys_left n (nodes s) pid ->
  0 <= Leader.next_slot leader -> Leader.next_slot leader + 1 < 2 ^ 64 ->
  Leader.handle_client_request_batch leader sender batch = (l', effs) ->
  inv n (after (set_leader nd l') effs).
Proof.
  intros Hleft H0 Hb H. unfold Leader.handle_client_request_batch in H.
  destruct (Leader.state leader) eqn:Hst.
  - injection H as <- <-. eapply inv_quiet; eauto; [by split|]. by apply neutral_tell.
  - injection H as <- <-. eapply inv_quiet; eauto using neutral_nil. split; try done.
    intros []. by split.
  - unfold Leader.process_client_request_batch in H. injection H as <- <-.
    eapply inv_propose; eauto.
Qed.

(** No no-op is flushed outside phase 2. *)
Lemma inv_noop_flush l' effs :
  Leader.state leader = Leader.Phase2 -> sys_left n (nodes s) pid ->
  0 <= Leader.next_slot leader -> Leader.next_slot leader + 1 < 2 ^ 64 ->
  Leader.noop_flush_timeout leader = (l', effs) ->
  inv n (after (set_leader nd l') effs).
Proof.
  intros Hst Hleft H0 Hb [= <- <-]. eapply inv_propose; eauto.
Qed.

(** ** Answering batchers *)

(** The node that owns the leader's round has left the state it was created
    in. *)
Lemma round_owner_left :
  Leader.state leader <> Leader.Inactive ->
  sys_left n (nodes s) (owner N (Leader.round leader)).
Proof.
  intros Hst. pose proof leader_pid as Hpid. pose proof leader_ok as Hok.
  destruct (iv_initial n s Hinv pid nd Hnd) as [Hl|Hr].
  - assert (owner N (Leader.round leader) = pid) as ->.
    { destruct (Leader.state leader) eqn:Hs; [done| |by apply Hl].
      by destruct (li_phase1 _ _ _ _ _ Hok Hs) as [? _]. }
    intros nd' Hnd'. rewrite Hnd in Hnd'. by injection Hnd' as <-.
  - assert (owner N (Leader.round leader) = N) as ->.
    { rewrite Hr. apply ClassicRoundRobin.owner_mod; lia. }
    intros nd' Hnd'. destruct (iv_initial n s Hinv _ nd' Hnd') as [?|Hr']; [done|].
    intros _. rewrite Hr'. apply ClassicRoundRobin.owner_mod; lia.
Qed.

Lemma inv_leader_info src sender l' effs :
  Leader.handle_leader_info_request_batcher leader src sender = (l', effs) ->
  inv n (after (set_leader nd l') effs).
Proof.
  intros H. unfold Leader.handle_leader_info_request_batcher in H.
  assert (inv n (after (set_leader nd leader) [])) as Hid.
  { eapply inv_quiet; eauto using neutral_nil. by split. }
  assert (Leader.state leader <> Leader.Inactive -> inv n (after (set_leader nd leader)
    [Tell sender (MBatcher (BI_LeaderInfoReplyBatcher (Leader.round leader)))])) as Hrep.
  { intros Hst. apply inv_leader_only; [|done|exact (iv_initial n s Hinv pid nd Hnd)|].
    - apply leader_inv_effects; [..|apply leader_ok]; [|set_solver].
      intros m [dst [= _ ->]%list_elem_of_singleton]. done.
    - intros e ->%list_elem_of_singleton. by apply round_owner_left. }
  case_bool_decide; [by injection H as <- <-|].
  destruct (Leader.state leader) eqn:Hst; injection H as <- <-; auto.
Qed.

(** ** Collecting promises *)

Section phase1.
Context (Hphase : Leader.state leader = Leader.Phase1).
(** The promises collected so far, with the one just received. *)
Context (bs : gmap Z Phase1b).
Context (Hbs : forall a p, bs !! a = Some p ->
  exists info, p = mkPhase1b a (Leader.round leader) info /\ a ∈ pids n /\
    sent (net s) (P1B a (Leader.round leader) info)).

Let r := Leader.round leader.

Definition info_of (a : Z) : list Phase1bSlotInfo :=
  match bs !! a with Some p => p1b_info p | None => [] end.

Lemma info_of_sent a : a ∈ dom bs -> bs !! a = Some (mkPhase1b a r (info_of a)) /\
  a ∈ pids n /\ sent (net s) (P1B a r (info_of a)).
Proof.
  intros [p Hp]%elem_of_dom. unfold info_of. rewrite Hp.
  by destruct (Hbs a p Hp) as (info & -> & ? & ?).
Qed.

Lemma phase1_owner : owner N r = pid.
Proof. by destruct (li_phase1 _ _ _ _ _ leader_ok Hphase). Qed.

(** The watermark of the round is unique and below the chosen watermark. *)
Lemma promise_watermark a : a ∈ dom bs -> exists w, sent (net s) (P1A pid r w) /\
  w <= Leader.chosen_watermark leader /\
  (forall e, e ∈ info_of a -> w <= info_slot e /\ info_vote_round e < r).
Proof.
  intros (Hb & Ha & Hs)%info_of_sent.
  apply (iv_dom n s Hinv) in Ha as [nda Hnda].
  destruct (ai_promise _ _ _ (iv_acceptor n s Hinv a nda Hnda) _ _ Hs)
    as (_ & src & w & H1a & _ & Hent).
  assert (src = pid) as ->.
  { rewrite <- phase1_owner. symmetry. eapply owner_announced. by left. }
  destruct (li_phase1 _ _ _ _ _ leader_ok Hphase) as (_ & Hw & _).
  exists w. split; [done|]. split; [apply Hw; by left|].
  intros e He. destruct (Hent e He) as (? & Hvr & src' & H2a). split; [done|].
  destruct (decide (info_vote_round e = r)) as [Heq|]; [|lia].
  apply (iv_relayed n s Hinv) in H2a. rewrite Heq in H2a.
  assert (src' = pid) as -> by (rewrite <- phase1_owner; symmetry; by eapply owner_proposed).
  destruct (li_proposed _ _ _ _ _ leader_ok _ _ _ H2a) as (_ & _ & Hlt).
  specialize (Hlt Hphase). unfold r in *. lia.
Qed.

Context (Hquorum : (quorum_size n <= size bs)%nat).

Lemma phase1_quorum : is_quorum n (dom bs).
Proof.
  split; [|by rewrite size_dom]. intros a Ha. by apply info_of_sent in Ha as (_ & ? & _).
Qed.

Lemma phase1_member : exists a, a ∈ dom bs.
Proof.
  destruct (map_choose bs) as (a & p & Hp).
  - intros ->. rewrite map_size_empty in Hquorum. unfold quorum_size in Hquorum. lia.
  - exists a. by apply elem_of_dom.
Qed.

Local Abbreviation l1 := (Leader.set_phase1bs leader bs).

(** Every slot from the chosen watermark is re-proposed with a safe value. *)
Lemma repropose_safe sl :
  Leader.chosen_watermark leader <= sl ->
  safe_at n (net s) sl r (Leader.safe_value (Leader.phase1b_values l1) sl).
Proof.
  intros Hsl. destruct phase1_member as [a0 Ha0].
  destruct (promise_watermark a0 Ha0) as (w & H1a & Hw & _).
  exists (dom bs), info_of, pid, w.
  split; [apply phase1_quorum|]. split; [done|]. split; [lia|]. split.
  - intros a Ha. split; [by apply info_of_sent|].
    destruct (promise_watermark a Ha) as (w' & _ & _ & He). intros e Hin _. by apply He.
  - destruct (Leader.safe_value_spec l1 sl)
      as [[-> Hnone]|(a & p & e & Hp & He & Hes & -> & Hmax)]; simpl in *.
    + left. intros a e Ha Hin. apply info_of_sent in Ha as (Hb & _).
      eapply Hnone; [exact Hb|done].
    + right. assert (a ∈ dom bs) as Ha by by apply elem_of_dom.
      exists a, e. pose proof (proj1 (info_of_sent a Ha)) as Hb.
      assert (p = mkPhase1b a r (info_of a)) as -> by congruence.
      split_and!; try done. intros a' e' Ha' Hin Hs'.
      pose proof (proj1 (info_of_sent a' Ha')) as Hb'. by eapply Hmax.
Qed.

(** Above the largest reported slot, or above the watermark when no slot is
    reported, the round is free to propose. *)
Lemma phase1_free :
  match Leader.max_phase1b_slots l1 with
  | Some m => free_from n (net s) r (m + 1)
  | None => Leader.chosen_watermark leader <= Leader.next_slot leader ->
            free_from n (net s) r (Leader.next_slot leader)
  end.
Proof.
  pose proof (Leader.max_phase1b_slots_spec l1) as Hm. simpl in Hm.
  destruct (Leader.max_phase1b_slots l1) as [m|].
  - destruct Hm as [(a & p & e & Hp & He & <-) Hmax].
    assert (a ∈ dom bs) as Ha by by apply elem_of_dom.
    pose proof (proj1 (info_of_sent a Ha)) as Hb.
    assert (p = mkPhase1b a r (info_of a)) as -> by congruence.
    destruct (promise_watermark a Ha) as (w & H1a & Hw & Hent).
    exists (dom bs), info_of, pid, w. split; [apply phase1_quorum|]. split; [done|].
    destruct (Hent e He). split; [lia|]. intros a' Ha'.
    pose proof (info_of_sent a' Ha') as (Hb' & _ & Hs'). split; [done|].
    intros e' He'. specialize (Hmax a' _ e' Hb' He'). lia.
  - intros Hcw. destruct phase1_member as [a0 Ha0].
    destruct (promise_watermark a0 Ha0) as (w & H1a & Hw & _).
    exists (dom bs), info_of, pid, w. split; [apply phase1_quorum|]. split; [done|].
    split; [lia|]. intros a Ha. pose proof (info_of_sent a Ha) as (Hb & _ & Hs).
    split; [done|]. intros e He. by destruct (Hm a _ e Hb).
Qed.
End phase1.

(** A leader that enters phase 2 with safe proposals. *)
Lemma inv_enter_phase2 l' effs :
  Leader.state leader = Leader.Phase1 ->
  Leader.state l' = Leader.Phase2 -> Leader.round l' = Leader.round leader ->
  Leader.index l' = Leader.index leader ->
  Leader.round_system l' = Leader.round_system leader ->
  Leader.majority l' = Leader.majority leader ->
  Leader.proxy_leader l' = Leader.proxy_leader leader ->
  free_from n (net s) (Leader.round leader) (Leader.next_slot l') ->
  (forall e, e ∈ effs -> match e with
     | Tell dst (P2A src sl r v) => src = pid /\ r = Leader.round leader /\
         dst = mkPath PROXY_LEADER pid ITERATION /\ safe_at n (net s) sl r v
     | Tell dst (MBatcher (BI_LeaderInfoReplyBatcher r)) => r = Leader.round leader
     | Tell dst m => neutral_msg m
     | Schedule t => t = TNoopFlush
     | _ => True end) ->
  inv n (after (set_leader nd l') effs).
Proof.
  intros Hst Hst' Hr Hi Hrs Hm Hp Hfree Heff.
  pose proof leader_ok as Hok. pose proof Hok as [Li Lr Lm Lp L1 L2 L3 L4 _].
  destruct (L4 Hst) as (Hown & _ & _). pose proof (frame_ext s self effs) as Hext.
  assert (left_initial n pid l') as Hleft by (intros _; by rewrite Hr).
  apply inv_leader_only; [|done|by left|].
  - assert (forall r w, announced (net s ++ (effs ≫= effect_packets self))
      (foldl (effect_timers self) ts0 effs) pid r w ->
      announced (net s) (timers s) pid r w) as Hann.
    { intros r w [?|[[dst' Hx%Heff]|Hx%Heff]]%announced_inv; done. }
    split; rewrite ?Hi, ?Hr, ?Hrs, ?Hm, ?Hp; try done.
    + intros r w ?%Hann. eauto.
    + intros r w w' ?%Hann ?%Hann. eauto.
    + intros sl r v Hs. apply sent_inv in Hs as [Hs|[dst Hd%Heff]]; [| |done].
      * destruct (L3 _ _ _ Hs) as (? & ? & _). split_and!; [done|done|congruence].
      * destruct Hd as (_ & -> & _). split_and!; [lia|done|congruence].
    + congruence.
    + intros _ _. by eapply free_from_ext.
  - intros e He. specialize (Heff e He).
    destruct e as [dst m|?|t|?|]; simpl; try done; [|by rewrite Heff].
    destruct m as [[]|[[]|[]]|[]|[[]|[]]|[]|[]|?|?|?|?|?]; simpl in *; try done.
    + destruct Heff as (-> & -> & -> & ?). split_and!; [done..|]. by eapply safe_at_ext.
    + rewrite Heff. apply round_owner_left. congruence.
Qed.

(** The effects of the end of phase 1. *)
Lemma inv_phase1_done bs l' effs batcher :
  Leader.state leader = Leader.Phase1 ->
  (forall a p, bs !! a = Some p ->
    exists info, p = mkPhase1b a (Leader.round leader) info /\ a ∈ pids n /\
      sent (net s) (P1B a (Leader.round leader) info)) ->
  (quorum_size n <= size bs)%nat ->
  (Leader.max_phase1b_slots (Leader.set_phase1bs leader bs) = None ->
    Leader.chosen_watermark leader <= Leader.next_slot leader) ->
  (forall m, Leader.max_phase1b_slots (Leader.set_phase1bs leader bs) = Some m ->
    0 <= m /\ m + 1 + Z.of_nat (length (Leader.pending_client_request_batches leader))
              < 2 ^ 64) ->
  0 <= Leader.next_slot leader ->
  Leader.next_slot leader +
    Z.of_nat (length (Leader.pending_client_request_batches leader)) < 2 ^ 64 ->
  Leader.local_batcher leader = Some batcher ->
  Leader.handle_phase1b_done (Leader.set_phase1bs leader bs) batcher = (l', effs) ->
  inv n (after (set_leader nd l') effs).
Proof.
  intros Hst Hbs Hq Hw Hm H0 Hb Hba H. pose proof leader_ok as [Li _ _ Lp _ _ _ _ _].
  pose proof (phase1_free Hst bs Hbs Hq) as Hfree.
  pose proof (repropose_safe Hst bs Hbs Hq) as Hsafe.
  unfold Leader.handle_phase1b_done in H.
  set (l1 := Leader.set_phase1bs leader bs) in *.
  set (k := Z.of_nat (length (Leader.pending_client_request_batches leader))) in *.
  assert (exists l2 proposals, (match Leader.max_phase1b_slots l1 with
        | Some max_slot => (Leader.set_next_slot l1 (max_slot +u64 1),
                            Leader.repropose l1 max_slot)
        | None => (l1, []) end) = (l2, proposals) /\
      l2 = Leader.set_next_slot l1 (Leader.next_slot l2) /\
      0 <= Leader.next_slot l2 /\ Leader.next_slot l2 + k < 2 ^ 64 /\
      free_from n (net s) (Leader.round leader) (Leader.next_slot l2) /\
      (forall e, e ∈ proposals -> exists sl v, safe_at n (net s) sl (Leader.round leader) v /\
         e = Tell (mkPath PROXY_LEADER pid ITERATION) (P2A pid sl (Leader.round leader) v)))
    as (l2 & proposals & Heq & Hl2 & Hn0 & Hnb & Hf & Hp).
  { destruct (Leader.max_phase1b_slots l1) as [m|]; do 2 eexists; (split; [reflexivity|]).
    - destruct (Hm m eq_refl). rewrite u64_add_small by lia. simpl.
      split_and!; [done|lia|lia|done|]. unfold Leader.repropose. simpl.
      intros e (sl & -> & Hsl%elem_of_seqZ)%list_elem_of_fmap. rewrite Li, Lp.
      do 2 eexists. split; [|reflexivity]. apply Hsafe. lia.
    - split_and!; [by destruct leader|done|done|by apply Hfree, Hw|set_solver]. }
  rewrite Heq, Hl2 in H. clear Heq Hl2.
  unfold Leader.stop_resend_phase1as, Leader.make_noop_flush_timer in H. simpl in H.
  assert (exists l3 cancelled, (match Leader.resend_phase1as leader with
        | Some t => (Leader.set_resend_phase1as
            (Leader.set_next_slot l1 (Leader.next_slot l2)) None, [Cancel t])
        | None => (Leader.set_next_slot l1 (Leader.next_slot l2), []) end)
        = (l3, cancelled) /\ (forall e, e ∈ cancelled -> exists t, e = Cancel t) /\
        l3 = Leader.set_resend_phase1as
            (Leader.set_next_slot l1 (Leader.next_slot l2)) None)
    as (l3 & cancelled & Heq & Hcan & Hl3).
  { destruct (Leader.resend_phase1as leader) eqn:Hres; do 2 eexists;
      (split; [reflexivity|split; [set_solver|]]); [done|].
    unfold l1. destruct leader. simpl in *. by subst. }
  rewrite Heq, Hl3 in H. simpl in H.
  rewrite Leader.process_client_request_batches_spec in H by done. injection H as <- <-.
  apply inv_enter_phase2; simpl; try done.
  - eapply free_from_mono; [|exact Hf]. lia.
  - intros e [->|[->|He]%elem_of_cons]%elem_of_cons; [done..|].
    apply elem_of_app in He as [He|[He|[->|He]%elem_of_cons]%elem_of_app].
    + by destruct (Hp e He) as (sl & v & ? & ->).
    + by destruct (Hcan e He) as [t ->].
    + done.
    + apply elem_of_lookup_imap in He as (i & b & -> & Hi).
      unfold Leader.batch_proposal. simpl. rewrite Li, Lp. split_and!; [done..|].
      eapply free_from_safe; [exact Hf|lia].
Qed.
End one_node.
End leader_steps.
