(* ===== verification/MpSafety.v ===== *)
(** Safety of the Multi-Paxos cluster.

    [safe_run] executes a sequence of events like [run] but stops at the two
    hazards of [leader.rs] and when a counter leaves the range in which 64-bit
    additions are exact.  Every state of a safe run satisfies the invariant, and
    the invariant implies that no two values are chosen for a slot. *)

From S2P Require Import Prelude MpMessages Partition MpUtil.
From S2P Require Import MpAcceptor MpProxyLeader MpLeader MpReplica MpBatcher MpParticipant.
From S2P Require Import MpSystem MpInv MpFrame MpSteps MpQuiet MpLeaderSteps.

(** ** Hazards and bounds *)

(** A no-op flush timer fires at a leader that is not in phase 2. *)
Definition flush_hazard (s : Sys) (e : event) : bool :=
  match e with
  | EvTimer i _ =>
      match timers s !! i with
      | Some (mkPath LEADER pid _, TNoopFlush) =>
          match nodes s !! pid with
          | Some nd => bool_decide (Leader.state (leader_comp nd) <> Leader.Phase2)
          | None => false
          end
      | _ => false
      end
  | _ => false
  end.

(** A [Phase1b] completes phase 1, no answer reports a slot, and the leader's next
    slot is below the chosen watermark. *)
Definition restart_hazard (s : Sys) (e : event) : bool :=
  match e with
  | EvDeliver i _ =>
      match net s !! i with
      | Some (mkPacket _ (mkPath LEADER pid _) (MLeader (LI_Phase1b p))) =>
          match nodes s !! pid with
          | Some nd =>
              let l := leader_comp nd in
              let l := Leader.set_phase1bs l
                         (<[p1b_acceptor_index p := p]> (Leader.phase1bs l)) in
              bool_decide (Leader.state l = Leader.Phase1) &&
              (p1b_round p =? Leader.round l) &&
              (Leader.majority l <=? size (Leader.phase1bs l))%nat &&
              bool_decide (Leader.max_phase1b_slots l = None) &&
              (Leader.next_slot l <? Leader.chosen_watermark l)
          | None => false
          end
      | _ => false
      end
  | _ => false
  end.

Definition hazard (s : Sys) (e : event) : bool := flush_hazard s e || restart_hazard s e.

(** Rounds and slots below [2^62] leave room for every addition of a step. *)
Definition small (z : Z) : bool := (0 <=? z) && (z <? 2 ^ 62).

Definition leader_fits (l : Leader.t) : bool :=
  small (Leader.round l) && small (Leader.next_slot l) &&
  small (Z.of_nat (length (Leader.pending_client_request_batches l))).

Definition msg_fits (m : NetMsg) : bool :=
  match m with
  | MLeader (LI_Nack r) => small r
  | MLeader (LI_Phase1b p) => forallb (fun e => small (info_slot e)) (p1b_info p)
  | _ => true
  end.

Definition fits (s : Sys) : bool :=
  forallb (fun kv => leader_fits (leader_comp kv.2)) (map_to_list (nodes s)) &&
  forallb (fun p => msg_fits (pkt_msg p)) (net s).

Definition safe_step {iter : IterationId} (s : Sys) (e : event) : option Sys :=
  if fits s && negb (hazard s e) then step s e else None.

Fixpoint safe_run {iter : IterationId} (s : Sys) (evs : list event) : option Sys :=
  match evs with
  | [] => Some s
  | e :: evs => s' ← safe_step s e; safe_run s' evs
  end.

(** A safe run is a run. *)
Lemma safe_run_run {iter : IterationId} evs : forall s s', safe_run s evs = Some s' -> run s evs = Some s'.
Proof.
  induction evs as [|e evs IH]; intros s s'; [done|]. simpl. unfold safe_step.
  destruct (fits s && negb (hazard s e)); [|done]. simpl.
  destruct (step s e) as [s1|]; [|done]. simpl. apply IH.
Qed.

Lemma small_range z : small z = true -> 0 <= z < 2 ^ 62.
Proof. unfold small. intros. bool_to_prop. lia. Qed.

Lemma fits_leader s pid nd :
  fits s = true -> nodes s !! pid = Some nd ->
  0 <= Leader.round (leader_comp nd) < 2 ^ 62 /\
  0 <= Leader.next_slot (leader_comp nd) < 2 ^ 62 /\
  Z.of_nat (length (Leader.pending_client_request_batches (leader_comp nd))) < 2 ^ 62.
Proof.
  unfold fits. intros [Hf _]%andb_true_iff Hnd. rewrite forallb_forall in Hf.
  specialize (Hf (pid, nd)). rewrite <- list_elem_of_In, elem_of_map_to_list in Hf.
  specialize (Hf Hnd). unfold leader_fits in Hf. simpl in Hf. bool_to_prop.
  repeat match goal with H : small _ = true |- _ => apply small_range in H end. lia.
Qed.

Lemma fits_msg s m : fits s = true -> sent (net s) m -> msg_fits m = true.
Proof.
  unfold fits. intros [_ Hf]%andb_true_iff (p & Hp & <-). rewrite forallb_forall in Hf.
  apply Hf. by rewrite <- list_elem_of_In.
Qed.

Section safety.
Context {iter : IterationId} (n : nat) (Hn : Z.of_nat n < 2 ^ 61).
Local Abbreviation N := (Z.of_nat n).

(** ** Every step preserves the invariant *)

Lemma fits_slots s (bs : gmap Z Phase1b) l r m :
  fits s = true ->
  (forall a p, bs !! a = Some p -> exists info, p = mkPhase1b a r info /\
     a ∈ pids n /\ sent (net s) (P1B a r info)) ->
  Leader.max_phase1b_slots (Leader.set_phase1bs l bs) = Some m -> 0 <= m < 2 ^ 62.
Proof.
  intros Hf Hbs Hm. pose proof (Leader.max_phase1b_slots_spec (Leader.set_phase1bs l bs)) as H.
  rewrite Hm in H. simpl in H. destruct H as [(a & p & e & Hp & He & <-) _].
  destruct (Hbs a p Hp) as (info & -> & _ & Hs).
  apply (fits_msg s _ Hf) in Hs. simpl in Hs. rewrite forallb_forall in Hs.
  apply small_range, Hs. by rewrite <- list_elem_of_In.
Qed.

Section step.
Context (s : Sys) (Hinv : inv n s) (Hfits : fits s = true).

Lemma inv_handle_phase1b i rnd pid it src p nd l' effs :
  net s !! i = Some (mkPacket src (mkPath LEADER pid it) (MLeader (LI_Phase1b p))) ->
  nodes s !! pid = Some nd ->
  restart_hazard s (EvDeliver i rnd) = false ->
  Leader.handle_phase1b (leader_comp nd) p = Some (l', effs) ->
  inv n (after s pid (mkPath LEADER pid it) (timers s) (set_leader nd l') effs).
Proof.
  intros Hi Hnd Hhaz H. set (l := leader_comp nd) in *.
  pose proof (iv_leader n s Hinv pid nd Hnd) as Hl. fold l in Hl.
  destruct (fits_leader s pid nd Hfits Hnd) as (Hr & Hs & Hp). fold l in Hr, Hs, Hp.
  assert (inv n (after s pid (mkPath LEADER pid it) (timers s) (set_leader nd l) [])) as Hid.
  { eapply inv_quiet; eauto using neutral_nil. by split. }
  destruct p as [a r info].
  assert (sent (net s) (P1B a r info)) as Hsent.
  { eexists. split; [by eapply list_elem_of_lookup_2|done]. }
  unfold restart_hazard in Hhaz. rewrite Hi, Hnd in Hhaz. fold l in Hhaz.
  unfold Leader.handle_phase1b in H. simpl in H, Hhaz.
  destruct (Leader.state l) eqn:Hst; [by injection H as <- <-| |by injection H as <- <-].
  destruct (Z.eqb_spec r (Leader.round l)) as [->|]; simpl in H; [|by injection H as <- <-].
  set (bs := <[a := _]> (Leader.phase1bs l)) in *.
  assert (forall a0 p0, bs !! a0 = Some p0 -> exists info0,
    p0 = mkPhase1b a0 (Leader.round l) info0 /\ a0 ∈ pids n /\
    sent (net s) (P1B a0 (Leader.round l) info0)) as Hbs.
  { intros a0 p0. unfold bs. rewrite lookup_insert. destruct (decide (a = a0)) as [->|Ha].
    - intros [= <-]. exists info. split_and!; [done| |done].
      by eapply (iv_promise n s Hinv).
    - apply (li_phase1 _ _ _ _ _ Hl Hst). }
  destruct (Nat.ltb_spec (size bs) (Leader.majority l)) as [|Hq].
  - injection H as <- <-. eapply inv_quiet; eauto using neutral_nil.
    apply quiet_leader; [|done..]. fold l. intros [? ? ? ? ? ? ? L4 ?]. split; try done.
    intros _. destruct (L4 Hst) as (? & ? & _). done.
  - apply bind_Some in H as (batcher & Hba & H). injection H as H.
    rewrite (li_majority _ _ _ _ _ Hl) in Hq.
    eapply (inv_phase1_done n s Hinv pid nd Hnd (mkPath LEADER pid it));
      try exact H; try done; fold l; try lia.
    + intros Hnone. rewrite Hnone in Hhaz. rewrite (li_majority _ _ _ _ _ Hl) in Hhaz.
      rewrite bool_decide_true in Hhaz by done.
      rewrite (proj2 (Nat.leb_le _ _) Hq) in Hhaz. simpl in Hhaz. bool_to_prop. lia.
    + intros m Hm. destruct (fits_slots s bs l _ m Hfits Hbs Hm). lia.
Qed.

Lemma inv_leader_receive i rnd pid it src m nd l' effs :
  net s !! i = Some (mkPacket src (mkPath LEADER pid it) (MLeader m)) ->
  nodes s !! pid = Some nd ->
  restart_hazard s (EvDeliver i rnd) = false ->
  Leader.receive_network (leader_comp nd) src m = Some (l', effs) ->
  inv n (after s pid (mkPath LEADER pid it) (timers s) (set_leader nd l') effs).
Proof.
  intros Hi Hnd Hhaz H.
  destruct (fits_leader s pid nd Hfits Hnd) as (Hr & Hs & Hp).
  assert (sent (net s) (MLeader m)) as Hsent.
  { eexists. split; [by eapply list_elem_of_lookup_2|done]. }
  pose proof (iv_packet n s Hinv _ (list_elem_of_lookup_2 _ _ _ Hi)) as Hpk.
  destruct m as [p|r|slot|slot|batch|q]; simpl in H.
  - by eapply inv_handle_phase1b.
  - apply (fits_msg s _ Hfits) in Hsent. simpl in Hsent. apply small_range in Hsent.
    eapply inv_handle_nack; eauto; lia.
  - injection H as <- <-. eapply inv_quiet; eauto using neutral_nil.
    apply quiet_leader; [|done..]. intros [? ? ? ? ? ? ? L4 ?]. split; try done.
    intros Hst. destruct (L4 Hst) as (? & Hw & ?). split_and!; try done.
    intros w Ha. specialize (Hw w Ha). simpl. lia.
  - unfold Leader.handle_recover in H.
    assert (Leader.leader_change (leader_comp nd) true = Some (l', effs) ->
      inv n (after s pid (mkPath LEADER pid it) (timers s) (set_leader nd l') effs)) as Hch.
    { rewrite <- (set_round_id nd). intros. eapply inv_leader_change; eauto; lia. }
    destruct (Leader.state _); [|by apply Hch..]. injection H as <- <-.
    eapply inv_quiet; eauto using neutral_nil. by split.
  - injection H as H. eapply inv_client_batch; eauto; lia.
  - injection H as H. by eapply inv_leader_info.
Qed.

Lemma inv_leader_election pid it idx nd l' effs :
  nodes s !! pid = Some nd ->
  Leader.handle (leader_comp nd) idx = Some (l', effs) ->
  inv n (after s pid (mkPath LEADER pid it) (timers s) (set_leader nd l') effs).
Proof.
  intros Hnd H. destruct (fits_leader s pid nd Hfits Hnd) as (Hr & _).
  unfold Leader.handle in H. rewrite <- (set_round_id nd) in H.
  eapply inv_leader_change; eauto; simpl; lia.
Qed.

Lemma inv_proxy_receive_local i pid it src m nd p' effs :
  net s !! i = Some (mkPacket src (mkPath PROXY_LEADER pid it) (MProxyLocal m)) ->
  nodes s !! pid = Some nd ->
  ProxyLeader.receive_local (proxy_leader_comp nd) m = Some (p', effs) ->
  inv n (after s pid (mkPath PROXY_LEADER pid it) (timers s) (set_proxy_leader nd p') effs).
Proof.
  intros Hi Hnd H. apply list_elem_of_lookup_2 in Hi.
  pose proof (iv_packet n s Hinv _ Hi) as Hpk.
  destruct m as [[q sl r v]|]; [|done]. injection H as H.
  unfold packet_ok in Hpk; simpl in Hpk. injection Hpk as -> ->.
  eapply inv_proxy_local; eauto. by eexists.
Qed.

Lemma inv_deliver i rnd s' :
  restart_hazard s (EvDeliver i rnd) = false ->
  step s (EvDeliver i rnd) = Some s' -> inv n s'.
Proof.
  intros Hhaz H. simpl in H.
  apply bind_Some in H as ([src [comp pid it] m] & Hi & H). simpl in H.
  apply bind_Some in H as (nd & Hnd & H).
  apply bind_Some in H as ([nd' effs] & H & [= <-]).
  change (inv n (after s pid (mkPath comp pid it) (timers s) nd' effs)).
  assert (0 < N) as HN.
  { assert (pid ∈ pids n) as ?%elem_of_pids by (apply (iv_dom n s Hinv); eauto). lia. }
  assert (sent (net s) m) as Hsent.
  { eexists. split; [by eapply list_elem_of_lookup_2|done]. }
  assert (quiet n s pid nd nd' -> neutral effs ->
    inv n (after s pid (mkPath comp pid it) (timers s) nd' effs)) as Hquiet.
  { intros Hq Hne. by eapply inv_quiet. }
  unfold node_receive in H.
  destruct comp, m; try discriminate H;
    try (apply bind_Some in H as ([x e] & H & [= <- <-])).
  - eapply inv_batcher; eauto.
  - apply Hquiet; [apply quiet_participant|].
    by eapply ParticipantEffects.participant_neutral.
  - apply Hquiet; [apply quiet_participant|].
    by eapply ParticipantEffects.peer_stop_neutral.
  - by eapply inv_leader_receive.
  - by eapply inv_leader_election.
  - by eapply inv_acceptor.
  - destruct m as [[sl v]].
    apply Hquiet; [|by eapply ReplicaEffects.handle_chosen_frame].
    apply quiet_replica. by eapply replica_inv_chosen.
  - injection H as <- <-. apply Hquiet; [by apply quiet_replica|apply neutral_nil].
  - destruct m as [|[a sl r]]; [done|]. injection H as H. by eapply inv_proxy_vote.
  - by eapply inv_proxy_receive_local.
Qed.

Lemma inv_timer i rnd s' :
  flush_hazard s (EvTimer i rnd) = false ->
  step s (EvTimer i rnd) = Some s' -> inv n s'.
Proof.
  intros Hhaz H. simpl in H.
  apply bind_Some in H as ([[comp pid it] t] & Hi & H). simpl in H.
  apply bind_Some in H as (nd & Hnd & H).
  apply bind_Some in H as ([nd' effs] & H & Heq).
  assert (0 < N) as HN.
  { assert (pid ∈ pids n) as ?%elem_of_pids by (apply (iv_dom n s Hinv); eauto). lia. }
  pose proof (list_elem_of_lookup_2 _ _ _ Hi) as Hin.
  destruct (fits_leader s pid nd Hfits Hnd) as (Hr & Hns & _).
  set (ts0 := timers (if is_periodic t then s else mkSys (nodes s) (net s)
    (delete i (timers s)))).
  assert (forall x, x ∈ ts0 -> x ∈ timers s) as Hts0.
  { intros x. unfold ts0. destruct (is_periodic t); [done|]. simpl.
    intros Hx. apply list_elem_of_lookup in Hx as [k Hk].
    rewrite list_lookup_delete in Hk.
    destruct (decide _); by eapply list_elem_of_lookup_2. }
  assert (s' = after s pid (mkPath comp pid it) ts0 nd' effs) as ->.
  { injection Heq as <-. unfold ts0. by destruct (is_periodic t). }
  clear Heq. clearbody ts0.
  assert (quiet n s pid nd nd' -> neutral effs ->
    inv n (after s pid (mkPath comp pid it) ts0 nd' effs)) as Hquiet.
  { intros Hq Hne. by eapply inv_quiet. }
  assert ((match t with TLagExtend _ | TLagSet _ => True | _ => False end) ->
    inv n (after s pid (mkPath comp pid it) ts0 nd' effs)) as Hlag.
  { intros Ht. destruct (quiet_links_timeout n s pid nd comp t rnd nd' effs Ht H).
    by apply Hquiet. }
  destruct t; try (by apply Hlag); destruct comp; simpl in H; try discriminate H.
  - injection H as <- <-. eapply (inv_resend n s Hinv pid nd) with (p := p); try done.
    right. exists (mkPath LEADER pid it). split; [by destruct p|done].
  - injection H as <- <-. eapply inv_noop_flush; try reflexivity; try done; try lia.
    + unfold flush_hazard in Hhaz. rewrite Hi, Hnd in Hhaz.
      by apply bool_decide_eq_false_1, dec_stable in Hhaz.
    + by apply (iv_noop n s Hinv) in Hin.
  - apply bind_Some in H as ([x e] & H & [= <- <-]). by eapply inv_batch_timeout.
  - injection H as <- <-. apply Hquiet; [by apply quiet_replica|].
    by apply neutral_broadcast.
  - injection H as <- <-. apply Hquiet; [apply quiet_participant|].
    apply ParticipantEffects.ping_neutral.
  - apply bind_Some in H as ([x e] & H & [= <- <-]).
    apply Hquiet; [apply quiet_participant|].
    by eapply ParticipantEffects.no_ping_neutral.
Qed.

Lemma inv_safe_step e s' : safe_step s e = Some s' -> inv n s'.
Proof.
  unfold safe_step. rewrite Hfits. simpl.
  destruct (hazard s e) eqn:Hhaz; [done|]. simpl. unfold hazard in Hhaz.
  apply orb_false_iff in Hhaz as [Hf Hr]. intros H.
  destruct e as [i rnd|i rnd|pid p|pid peers delay lag|pid].
  - by eapply inv_deliver.
  - by eapply inv_timer.
  - simpl in H. apply bind_Some in H as (nd & Hnd & [= <-]).
    eapply inv_update; eauto using quiet_propose.
  - simpl in H. apply bind_Some in H as (nd & Hnd & H).
    apply bind_Some in H as ([nd' effs] & H & [= <-]).
    destruct (quiet_disconnect n s pid nd _ _ _ _ _ H) as [Hq Hneu].
    eapply inv_component_effects; [by eapply inv_update|apply lookup_insert_eq|done].
  - simpl in H. apply bind_Some in H as (nd & Hnd & [= <-]).
    eapply inv_update; eauto using quiet_recover.
Qed.
End step.

Lemma inv_safe_run evs s s' : inv n s -> safe_run s evs = Some s' -> inv n s'.
Proof.
  revert s. induction evs as [|e evs IH]; intros s Hinv H; simpl in H; [by simplify_eq|].
  apply bind_Some in H as (s1 & Hs & H). eapply IH; [|done].
  assert (fits s = true) by (unfold safe_step in Hs; by destruct (fits s)).
  by eapply inv_safe_step.
Qed.

(** ** Agreement *)

Section agreement.
Context (s : Sys) (Hinv : inv n s).

Lemma accepted_source src sl r v :
  sent (net s) (A2A src sl r v) -> src = owner N r /\ safe_at n (net s) sl r v.
Proof.
  intros Hs%(iv_relayed n s Hinv). split; [symmetry; by eapply owner_proposed|].
  by eapply (iv_proposed n s Hinv).
Qed.

(** A quorum's votes in round [r] constrain every proposal of a later round. *)
Lemma chosen_stable sl r v : chosen_by n (net s) sl r v ->
  forall k src' r' v', r <= r' -> Z.to_nat (r' - r) = k ->
    sent (net s) (A2A src' sl r' v') -> v' = v.
Proof.
  intros (src & Q & HQ & H2a & Hv) k.
  induction k as [k IH] using lt_wf_ind. intros src' r' v' Hle Hk H2a'.
  destruct (accepted_source _ _ _ _ H2a') as [Hsrc Hsafe].
  destruct (decide (r' = r)) as [->|Hne].
  { destruct (accepted_source _ _ _ _ H2a) as [-> _]. rewrite Hsrc in H2a'.
    by eapply (iv_relayed_unique n s Hinv). }
  destruct Hsafe as (Q' & f & src1 & w1 & HQ' & H1a & Hw & Hp & Hval).
  destruct (quorum_intersect n Q Q' HQ HQ') as (a & Ha & Ha').
  assert (forall b, b ∈ Q' -> promise_ok (net s) b r' (f b)) as Hpromise.
  { intros b Hb. destruct (Hp b Hb) as [Hs _]. apply (proj1 HQ') in Hb.
    apply (iv_dom n s Hinv) in Hb as [ndb Hb].
    by destruct (ai_promise _ _ _ (iv_acceptor n s Hinv b ndb Hb) _ _ Hs). }
  destruct (Hpromise a Ha') as (src2 & w2 & H1a' & Hcov & _).
  assert (w2 = w1) as ->.
  { assert (src2 = owner N r') as -> by (symmetry; eapply owner_announced; [done|by left]).
    assert (src1 = owner N r') as -> by (symmetry; eapply owner_announced; [done|by left]).
    assert (is_Some (nodes s !! owner N r')) as [nd Hnd].
    { apply (iv_dom n s Hinv), (iv_announced n s Hinv _ r' w1). by left. }
    eapply (li_announced_unique _ _ _ _ _ (iv_leader n s Hinv _ nd Hnd)); by left. }
  destruct (Hcov sl r Hw ltac:(lia) (Hv a Ha)) as (e & He & Hes & Hvr).
  destruct Hval as [Hnone|(b & e' & Hb & He' & Hes' & <- & Hmax)].
  { by destruct (Hnone a e Ha' He). }
  specialize (Hmax a e Ha' He Hes). destruct (Hp b Hb) as [_ Hlt].
  specialize (Hlt e' He' Hes').
  destruct (Hpromise b Hb) as (? & ? & _ & _ & Hent).
  destruct (Hent e' He') as (_ & _ & src3 & H2a3). rewrite Hes' in H2a3.
  eapply IH; [..|exact H2a3]; [|lia|reflexivity]. lia.
Qed.

Lemma chosen_unique sl v v' :
  sent (net s) (CHOSEN sl v) -> sent (net s) (CHOSEN sl v') -> v = v'.
Proof.
  intros [r Hc]%(iv_chosen n s Hinv) [r' Hc']%(iv_chosen n s Hinv).
  pose proof Hc as (src & _ & _ & H2a & _). pose proof Hc' as (src' & _ & _ & H2a' & _).
  destruct (decide (r <= r')).
  - symmetry. by eapply (chosen_stable sl r v Hc _ src' r' v').
  - eapply (chosen_stable sl r' v' Hc' _ src r v); [lia|done|done].
Qed.
End agreement.
End safety.
