(* ===== verification/MpBoot.v ===== *)
(** The cluster that [create_components] and [start_components] build satisfies
    the invariant; agreement then holds for every safe run from it. *)

From S2P Require Import Prelude MpMessages Partition MpUtil.
From S2P Require Import MpAcceptor MpProxyLeader MpLeader MpReplica MpBatcher MpParticipant.
From S2P Require Import MpSystem MpInv MpFrame MpSteps MpQuiet MpLeaderSteps MpSafety.

(** ** The actor paths of a node *)

Record paths_ok (it : Z) (ids : gset Z) (p : AllActorPaths) : Prop := {
  po_acceptors : dom (all_acceptors p) = ids;
  po_leaders : dom (all_leaders p) = ids;
  po_leader_path : forall q path, all_leaders p !! q = Some path -> path = mkPath LEADER q it }.

Lemma derive_actorpaths_loop_ok it self num nodes ids acc p :
  derive_actorpaths_loop (fun _ => true) it self num nodes acc = Some p ->
  paths_ok it ids acc -> paths_ok it (ids ∪ list_to_set nodes) p.
Proof.
  revert ids acc. induction nodes as [|q nodes IH]; intros ids acc H Hok; simpl in *.
  - simplify_eq. by rewrite union_empty_r_L.
  - apply bind_Some in H as (_ & _ & H).
    eapply (IH (ids ∪ {[q]})) in H; [by rewrite <- union_assoc_L in H|].
    destruct Hok as [H1 H2 H3]. split; simpl.
    + rewrite dom_insert_L. set_solver.
    + rewrite dom_insert_L. set_solver.
    + intros q' path. rewrite lookup_insert. case_decide; [|apply H3].
      intros [= <-]. by subst.
Qed.

Section boot.
Context {iter : IterationId} (n : nat) (Hn : Z.of_nat n < 2 ^ 61).
Local Abbreviation N := (Z.of_nat n).

Lemma quorum_size_Z : quorum_size n = Z.to_nat (N / 2 + 1).
Proof.
  unfold quorum_size. apply Nat2Z.inj. rewrite Nat2Z.inj_add, Nat2Z.inj_div.
  pose proof (Z.div_pos N 2). rewrite Z2Nat.id by lia. done.
Qed.

(** Every leader starts with the first round of node [n]. *)
Lemma first_round : 0 < N ->
  ClassicRoundRobin.next_classic_round (ClassicRoundRobin.mk N) N 0 = Some N.
Proof.
  intros HN. unfold ClassicRoundRobin.next_classic_round. simpl.
  destruct (Z.eqb_spec N 0); [lia|]. rewrite Z.mod_same, Z.div_0_l, Z.mul_0_r by lia.
  rewrite (u64_add_small 0 N), !u64_add_small by lia. rewrite Z.ltb_irrefl. f_equal. lia.
Qed.

(** A node as [create_components] and [start_components] leave it. *)
Record node_init (pid : Z) (nd : Node) : Prop := {
  ni_acceptor : Acceptor.index (acceptor_comp nd) = pid /\
    Acceptor.states (acceptor_comp nd) = ∅;
  ni_proxy : ProxyLeader.majority (proxy_leader_comp nd) = quorum_size n /\
    ProxyLeader.states (proxy_leader_comp nd) = ∅;
  ni_leader : Leader.index (leader_comp nd) = pid /\
    Leader.round_system (leader_comp nd) = ClassicRoundRobin.mk N /\
    Leader.majority (leader_comp nd) = quorum_size n /\
    Leader.proxy_leader (leader_comp nd) = mkPath PROXY_LEADER pid ITERATION;
  ni_leader_state : Leader.round (leader_comp nd) = N /\
    Leader.chosen_watermark (leader_comp nd) = 0 /\
    Leader.phase1bs (leader_comp nd) = ∅ /\
    Leader.state (leader_comp nd) = if pid =? N then Leader.Phase1 else Leader.Phase2;
  ni_batcher : Batcher.round_system (batcher_comp nd) = ClassicRoundRobin.mk N /\
    Batcher.round (batcher_comp nd) = 0 /\
    forall q path, Batcher.leaders (batcher_comp nd) !! q = Some path -> ap_pid path = q;
  ni_replica : forall sl, BufferMap.get (Replica.log (replica_comp nd)) sl = None }.

(** What starting a node sends and schedules. *)
Definition boot_effect (pid : Z) (ce : component_name * list Effect) : Prop :=
  forall e, e ∈ ce.2 ->
    match e with
    | Tell _ (P1A src r w) => src = N /\ r = N /\ w = 0
    | Tell _ _ | Trigger _ => False
    | Schedule (TResendPhase1as p) => pid = N /\ p = mkPhase1a N N 0
    | Schedule t => neutral_timer t
    | _ => True
    end.

Lemma created_node c pid nd nd' effs :
  create_components c (fun _ => true) ITERATION pid n (seqZ 1 N) = Some nd ->
  start_components nd 0 = Some (nd', effs) ->
  node_init pid nd' /\ Forall (boot_effect pid) effs.
Proof.
  intros H Hs. unfold create_components in H.
  apply bind_Some in H as (paths & Hp & H).
  apply bind_Some in H as ([[eo lo] ro] & _ & H). apply bind_Some in H as (leader & Hl & [= <-]).
  apply (derive_actorpaths_loop_ok _ _ _ _ ∅) in Hp; [|split; set_solver].
  destruct Hp as [H1 H2 H3]. rewrite union_empty_l_L in H1, H2. fold (pids n) in H1, H2.
  assert (size (all_acceptors paths) = n) as Hs1 by (by rewrite <- size_dom, H1, size_pids).
  assert (size (all_leaders paths) = n) as Hs2 by (by rewrite <- size_dom, H2, size_pids).
  pose proof quorum_size_Z as Hq.
  unfold Leader.with_ in Hl. rewrite Hs1 in Hl. apply bind_Some in Hl as (r & Hr & [= <-]).
  assert (r = N) as ->.
  { destruct (decide (N = 0)) as [E|]; [by rewrite E in Hr|].
    rewrite first_round in Hr by lia. by injection Hr. }
  unfold start_components in Hs. apply bind_Some in Hs as ([pa e1] & Hpa & Hs).
  simpl in Hs. unfold Leader.on_start in Hs. simpl in Hs.
  destruct (pid =? N) eqn:Hpid; simpl in Hs; injection Hs as <- <-.
  all: split; [split; simpl|].
  all: rewrite ?Hpid, ?Hs2, ?Hs1, ?Hq; try (by split_and!).
  all: try (split_and!; try done; by intros q path ->%H3).
  all: try (intros sl; rewrite BufferMap.get_lookup; simpl; by case_decide).
  all: apply ParticipantEffects.start_effects in Hpa as (t & -> & Ht).
  all: assert (boot_effect pid (PARTICIPANT, [Schedule t])) as Hb1 by
    (intros e He; simpl in He; apply list_elem_of_singleton in He as ->; by destruct t).
  all: repeat constructor; try done; try (intros e He; simpl in He;
    apply list_elem_of_singleton in He as ->; exact I).
  - intros e [(? & ? & _ & _ & ->)%elem_of_broadcast| ->%list_elem_of_singleton]%elem_of_app;
      simpl; apply Z.eqb_eq in Hpid as ->; done.
  - intros e He. simpl in He. set_solver.
Qed.

(** ** The booted cluster *)

Record boot_ok (started : gset Z) (s : Sys) : Prop := {
  bo_dom : dom (nodes s) = started;
  bo_node : forall q nd, nodes s !! q = Some nd -> node_init q nd;
  bo_net : forall p, p ∈ net s -> exists dst, p = mkPacket (pkt_src p) dst (P1A N N 0);
  bo_timers : forall path t, (path, t) ∈ timers s ->
    neutral_timer t \/ (ap_pid path = N /\ t = TResendPhase1as (mkPhase1a N N 0)) }.

Lemma boot_effects_ok started pid s effs :
  boot_ok started s -> Forall (boot_effect pid) effs ->
  boot_ok started (apply_component_effects ITERATION pid s effs).
Proof.
  intros Hok Hf. revert s Hok. induction Hf as [|[c e] effs He Hf IH]; intros s Hok; simpl;
    [done|].
  apply IH. destruct Hok as [H1 H2 H3 H4]. unfold boot_effect in He. simpl in He.
  split; simpl; try done.
  - intros p [Hp|Hp]%elem_of_app; [by apply H3|].
    apply elem_of_effect_packets in Hp as [(dst & m & Hm & ->)|(idx & ? & Hm & _)];
      apply He in Hm; [|done].
    destruct m as [|[[src r w]|]| | | | | | | | |]; try done. exists dst.
    by destruct Hm as (-> & -> & ->).
  - intros path t Ht. apply elem_of_effect_timers in Ht as [Ht|(t' & Ht & [= -> ->])];
      [by apply H4|].
    apply He in Ht. destruct t'; try (by left). right. destruct Ht as [-> ->]. done.
Qed.

Lemma boot_nodes_ok c todo started s s' :
  boot_nodes c n todo (seqZ 1 N) s = Some s' ->
  boot_ok started s -> boot_ok (started ∪ list_to_set todo) s'.
Proof.
  revert started s. induction todo as [|pid todo IH]; intros started s H Hok; simpl in *.
  - simplify_eq. by rewrite union_empty_r_L.
  - apply bind_Some in H as (nd & Hc & H). apply bind_Some in H as ([nd' effs] & Hs & H).
    destruct (created_node c pid nd nd' effs Hc Hs) as [Hnd Heff].
    eapply (IH (started ∪ {[pid]})) in H; [by rewrite <- union_assoc_L in H|].
    eapply boot_effects_ok; [|exact Heff]. destruct Hok as [H1 H2 H3 H4].
    split; simpl; try done.
    + rewrite dom_insert_L. set_solver.
    + intros q nd0. rewrite lookup_insert. case_decide; [|apply H2].
      intros [= <-]. by subst.
Qed.

Lemma boot_boot_ok c s : boot c n = Some s -> boot_ok (pids n) s.
Proof.
  intros H. eapply boot_nodes_ok with (started := ∅) in H.
  - by rewrite union_empty_l_L in H.
  - split; simpl; set_solver.
Qed.

Lemma owner_N : 0 < N -> owner N N = N.
Proof. intros. apply ClassicRoundRobin.owner_mod; lia. Qed.

Section booted.
Context (s : Sys) (Hok : boot_ok (pids n) s) (HN : 0 < N).

Lemma boot_sent m : sent (net s) m -> m = P1A N N 0.
Proof. intros (p & Hp & <-). by apply (bo_net _ _ Hok) in Hp as [dst ->]. Qed.

Lemma boot_announced q r w : announced (net s) (timers s) q r w -> q = N /\ r = N /\ w = 0.
Proof.
  intros [Hs%boot_sent|(path & Ht & _)]; [by injection Hs|].
  apply (bo_timers _ _ Hok) in Ht as [[]|[_ Ht]]. by injection Ht.
Qed.

Lemma boot_leader_inv q nd :
  node_init q nd -> leader_inv n (net s) (timers s) q (leader_comp nd).
Proof.
  intros [_ _ (Li & Lr & Lm & Lp) (Hr & Hw & Hb & Hst) _ _]. split; try done.
  - intros r w (-> & -> & _)%boot_announced. rewrite Hr. by rewrite owner_N.
  - intros r w w' (_ & _ & ->)%boot_announced (_ & _ & ->)%boot_announced. done.
  - by intros sl r v ?%boot_sent.
  - intros Hph. rewrite Hst in Hph. destruct (Z.eqb_spec q N) as [->|]; [|done].
    rewrite Hr, owner_N by done. split; [done|]. split.
    + intros w (_ & _ & ->)%boot_announced. lia.
    + intros a p. by rewrite Hb, lookup_empty.
  - intros Hph Hleft. specialize (Hleft Hph). rewrite Hst in Hph.
    destruct (Z.eqb_spec q N) as [|Hne]; [done|]. rewrite Hr, owner_N in Hleft by done. done.
Qed.

Lemma boot_left : sys_left n (nodes s) N.
Proof.
  intros nd Hnd _. apply (bo_node _ _ Hok) in Hnd as [_ _ _ (-> & _) _ _]. by apply owner_N.
Qed.

Lemma boot_inv : inv n s.
Proof.
  pose proof (bo_node _ _ Hok) as Hnode. split.
  - intros q. rewrite <- elem_of_dom. by rewrite (bo_dom _ _ Hok).
  - intros q nd [[Hi Hs] _ _ _ _ _]%Hnode. split; [done|..].
    + intros sl st. by rewrite Hs, lookup_empty.
    + by intros sl r ?%boot_sent.
    + by intros r info ?%boot_sent.
  - intros q nd [_ [Hm Hs] _ _ _ _]%Hnode. split; [done|..].
    + by intros sl r v ?%boot_sent.
    + intros sl r m bs. by rewrite Hs, lookup_empty.
  - intros q nd Hnd%Hnode. by apply boot_leader_inv.
  - intros q nd [_ _ _ (Hr & _) _ _]%Hnode. by right.
  - intros q nd [_ _ _ _ (Hrs & Hr & Hl) _]%Hnode. split; [done|done|].
    rewrite Hr. assert (owner N 0 = N) as ->; [|apply boot_left].
    apply ClassicRoundRobin.owner_mod; [lia..|]. by rewrite Z.mod_same, Z.mod_0_l by lia.
  - intros q nd [_ _ _ _ _ Hl]%Hnode sl v. by rewrite Hl.
  - intros p Hp. apply (bo_net _ _ Hok) in Hp as [dst ->]. done.
  - intros path Ht. by apply (bo_timers _ _ Hok) in Ht as [[]|[_ Ht]].
  - intros q r w (-> & _)%boot_announced. apply elem_of_pids. lia.
  - by intros q sl r v ?%boot_sent.
  - by intros q sl r v ?%boot_sent.
  - by intros q sl r v v' ?%boot_sent.
  - by intros q sl r ?%boot_sent.
  - by intros q r info ?%boot_sent.
  - by intros sl v ?%boot_sent.
Qed.
End booted.
End boot.
