(* ===== verification/MpTheorems.v ===== *)
(** What the Multi-Paxos cluster guarantees, and where it does not.

    Agreement holds on every run that avoids the two hazards of [leader.rs];
    each hazard alone lets two values be chosen in one slot, which the two
    counterexample runs show on the executable model. *)

From Stdlib Require Import Strings.Byte.
From S2P Require Import Prelude MpMessages Partition MpUtil.
From S2P Require Import MpAcceptor MpProxyLeader MpLeader MpReplica MpBatcher MpParticipant.
From S2P Require Import MpSystem MpInv MpFrame MpSafety MpBoot.

(** ** Concrete runs *)

(** The first iteration. *)
#[local] Instance first_iteration : IterationId := 1.

(** A cluster of three nodes with the shipped Multi-Paxos periods. *)
Definition example_config : MpConfig := mkMpConfig 100 10 5 5000 1 4 1 3.

Definition deliver (i : nat) : event := EvDeliver i 0.
Definition timer (i : nat) : event := EvTimer i 0.
Definition command : CommandBatchOrNoop := CommandBatch [[x2a]].
Definition run_from_boot (evs : list event) : option Sys :=
  s ← boot example_config 3; run s evs.
Definition safe_run_from_boot (evs : list event) : option Sys :=
  s ← boot example_config 3; safe_run s evs.

(** Node 1 is elected while node 3 leads, opens round 4 and gets a command chosen
    in slot 0.  Node 3 still has its no-op timer. *)
Definition takeover_events : list event :=
  [deliver 0; deliver 1; deliver 3; deliver 4; timer 0; deliver 9; deliver 11; deliver 12;
   deliver 13; deliver 14; deliver 15; deliver 17; EvPropose 1 (mkProposal [x2a]); timer 0;
   deliver 19; deliver 20; deliver 21; deliver 22; deliver 23; deliver 24; deliver 25;
   deliver 27; deliver 28].

(** A late [Phase1a] makes node 3 start round 9; its timer then fires in phase 1. *)
Definition late_phase1a_events : list event := [deliver 2; deliver 31].
Definition flush_events : list event :=
  [timer 5; deliver 35; deliver 36; deliver 37; deliver 39; deliver 40].

(** Node 3 gets a command chosen in slot 0, replica 1 tells the leaders that the
    prefix of length 1 is executed, and node 1 is elected. *)
Definition announced_events : list event :=
  [deliver 0; deliver 1; deliver 3; deliver 4; EvPropose 3 (mkProposal [x2a]); timer 5;
   deliver 7; deliver 8; deliver 9; deliver 10; deliver 12; deliver 13; deliver 16;
   deliver 19; timer 0; deliver 22; deliver 25; deliver 26; deliver 27].
Definition restart_events : list event :=
  [deliver 28; timer 7; deliver 31; deliver 33; deliver 34; deliver 35; deliver 36].

(** [chosen_values s slot]: the values announced as chosen for a slot. *)
Definition chosen_in (slot : Z) (p : Packet) : option CommandBatchOrNoop :=
  match pkt_msg p with
  | CHOSEN sl v => if sl =? slot then Some v else None
  | _ => None
  end.

Definition chosen_values (s : Sys) (slot : Z) : list CommandBatchOrNoop :=
  remove_dups (omap (chosen_in slot) (net s)).

Lemma elem_of_chosen_values s slot v :
  v ∈ chosen_values s slot <-> sent (net s) (CHOSEN slot v).
Proof.
  unfold chosen_values. rewrite elem_of_remove_dups, list_elem_of_omap. split.
  - intros (p & Hp & Hc). exists p. split; [done|]. unfold chosen_in in Hc.
    repeat case_match; try done. bool_to_prop. simplify_eq. congruence.
  - intros (p & Hp & Hm). exists p. split; [done|]. unfold chosen_in. rewrite Hm.
    by rewrite Z.eqb_refl.
Qed.

Lemma safe_run_result {A} evs (f : Sys -> A) x :
  (s ← safe_run_from_boot evs; Some (f s)) = Some x ->
  exists s0 s, boot example_config 3 = Some s0 /\ safe_run s0 evs = Some s /\ f s = x.
Proof.
  intros (s & (s0 & Hb & Hr)%bind_Some & [= <-])%bind_Some. by exists s0, s.
Qed.

Lemma takeover_chosen :
  (s ← safe_run_from_boot takeover_events; Some (chosen_values s 0)) = Some [command].
Proof. vm_compute. reflexivity. Qed.

(** ** Agreement *)

(** C1: in every iteration, on every run that avoids the two hazards of the leader, at most one value
    is chosen for a slot, whatever messages are lost, reordered or duplicated,
    whenever timers fire, and whatever partitions are simulated. *)
Theorem mp_agreement {iter : IterationId} (c : MpConfig) (n : nat) (s0 s : Sys) (evs : list event)
    (slot : Slot) (v v' : CommandBatchOrNoop) :
  (0 < n)%nat -> Z.of_nat n < 2 ^ 61 ->
  boot c n = Some s0 -> safe_run s0 evs = Some s ->
  v ∈ chosen_values s slot -> v' ∈ chosen_values s slot -> v = v'.
Proof.
  intros Hpos Hn Hboot Hrun Hv%elem_of_chosen_values Hv'%elem_of_chosen_values.
  assert (inv n s) as Hinv.
  { apply (inv_safe_run n Hn evs s0 s); [|done].
    apply boot_inv; [by eapply boot_boot_ok|lia]. }
  by eapply chosen_unique.
Qed.

Lemma mp_agreement_witness :
  exists s0 s, boot example_config 3 = Some s0 /\
    safe_run s0 takeover_events = Some s /\
    command ∈ chosen_values s 0 /\
    forall v, v ∈ chosen_values s 0 -> v = command.
Proof.
  destruct (safe_run_result _ _ _ takeover_chosen) as (s0 & s & Hb & Hr & Hc).
  assert (command ∈ chosen_values s 0) as Hin by (rewrite Hc; set_solver).
  exists s0, s. split_and!; [done..|]. intros v Hv.
  apply (mp_agreement example_config 3 s0 s takeover_events 0 v command);
    [lia|lia|assumption..].
Defined.

(** The log of node [q]'s replica. *)
Definition replica_log (s : Sys) (q : Z) (slot : Slot) : option CommandBatchOrNoop :=
  nd ← nodes s !! q; BufferMap.get (Replica.log (replica_comp nd)) slot.

(** C2: on such a run the logs of any two replicas agree wherever both are
    filled, and every logged value was voted for by a majority of acceptors in
    one round. *)
Theorem mp_replica_logs {iter : IterationId} (c : MpConfig) (n : nat) (s0 s : Sys) (evs : list event) :
  (0 < n)%nat -> Z.of_nat n < 2 ^ 61 ->
  boot c n = Some s0 -> safe_run s0 evs = Some s ->
  (forall q slot v, replica_log s q slot = Some v ->
     exists round, chosen_by n (net s) slot round v) /\
  (forall q q' slot v v', replica_log s q slot = Some v ->
     replica_log s q' slot = Some v' -> v = v').
Proof.
  intros Hpos Hn Hboot Hrun.
  assert (inv n s) as Hinv.
  { apply (inv_safe_run n Hn evs s0 s); [|done].
    apply boot_inv; [by eapply boot_boot_ok|lia]. }
  assert (forall q slot v, replica_log s q slot = Some v -> sent (net s) (CHOSEN slot v)) as Hl.
  { intros q slot v (nd & Hnd & Hg)%bind_Some. by eapply iv_replica. }
  split.
  - intros q slot v Hv%Hl. by apply (iv_chosen n s Hinv).
  - intros q q' slot v v' Hv%Hl Hv'%Hl. by eapply chosen_unique.
Qed.

Lemma takeover_logs :
  (s ← safe_run_from_boot takeover_events; Some (replica_log s 2 0, replica_log s 3 0)) =
  Some (Some command, Some command).
Proof. vm_compute. reflexivity. Qed.

Lemma mp_replica_logs_witness :
  exists s0 s, boot example_config 3 = Some s0 /\
    safe_run s0 takeover_events = Some s /\
    replica_log s 2 0 = Some command /\
    (exists round, chosen_by 3 (net s) 0 round command) /\
    forall q v, replica_log s q 0 = Some v -> v = command.
Proof.
  destruct (safe_run_result _ _ _ takeover_logs) as (s0 & s & Hb & Hr & Hc).
  injection Hc as Hc2 Hc3.
  pose proof (mp_replica_logs example_config 3 s0 s takeover_events ltac:(lia) ltac:(lia) Hb Hr)
    as [Hchosen Hagree].
  exists s0, s. split_and!; [done..| |].
  - by eapply Hchosen.
  - intros q v Hv. by eapply Hagree.
Defined.

(** ** The hazards *)


