(* ===== verification/MpValidity.v ===== *)
(** Validity of Multi-Paxos: nothing is chosen, logged or answered that no client proposed.

    The invariant holds on every run, also after the hazards of the leader, and needs no bound
    on rounds and slots: every value in a message or in the state of a component consists of
    proposed commands, a replica logs what was announced as chosen, and it answers for what it
    logged. *)

From Stdlib Require Import Strings.Byte.
From S2P Require Import Prelude MpMessages Partition MpUtil.
From S2P Require Import MpAcceptor MpProxyLeader MpLeader MpReplica MpBatcher MpParticipant.
From S2P Require Import MpSystem MpInv MpFrame MpSafety MpBoot MpTheorems.

Section validity.
(** The commands that were proposed. *)
Context (P : ProposalType -> Prop).

Definition ok_value (v : CommandBatchOrNoop) : Prop :=
  match v with CommandBatch batch => Forall P batch | Noop => True end.

Definition ok_batch (batch : list Proposal) : Prop := Forall (fun p => P (proposal_data p)) batch.

Definition ok_info (info : list Phase1bSlotInfo) : Prop :=
  Forall (fun i => ok_value (info_vote_value i)) info.

Definition ok_msg (m : NetMsg) : Prop :=
  match m with
  | MLeader (LI_Phase1b p) => ok_info (p1b_info p)
  | MLeader (LI_ClientRequestBatch batch) | MBatcher (BI_NotLeaderBatcher batch) => ok_batch batch
  | MAcceptor (AI_Phase2a p) | MProxy (PI_Phase2a p) | MProxyLocal (PI_Phase2a p) =>
      ok_value (p2a_value p)
  | MReplica (RI_Chosen c) => ok_value (chosen_value c)
  | _ => True
  end.

(** Only replicas answer clients. *)
Definition ok_effect (e : Effect) : Prop :=
  match e with
  | Tell _ (MProposalResp _) => False
  | Tell _ m => ok_msg m
  | _ => True
  end.

Lemma ok_broadcast peers disc m :
  (forall dst, ok_effect (Tell dst m)) -> Forall ok_effect (broadcast peers disc m).
Proof. intros Hm. apply Forall_forall. intros e (? & ? & _ & _ & ->)%elem_of_broadcast. apply Hm. Qed.

(** Effects of a handler, after its matches were opened. *)
Ltac ok_tac :=
  repeat match goal with
    | |- Forall ok_effect (_ ++ _) => apply Forall_app; split
    | |- Forall ok_effect (_ :: _) => apply Forall_cons; split
    | |- Forall ok_effect [] => apply Forall_nil
    | |- Forall ok_effect (broadcast _ _ _) => apply ok_broadcast; intros ?
    | |- ok_effect _ => simpl
    end; try exact I; try done.

(** ** Links *)

Lemma links_ok peers delay lagging l l' effs :
  links_disconnect peers delay lagging l = Some (l', effs) -> Forall ok_effect effs.
Proof. unfold links_disconnect. intros H. handler_inv H; ok_tac. Qed.

(** ** Acceptor *)

Definition acceptor_ok (a : Acceptor.t) : Prop :=
  forall s st, Acceptor.states a !! s = Some st -> ok_value (Acceptor.vote_value st).

Lemma acceptor_receive_ok a m a' effs :
  Acceptor.receive_network a m = Some (a', effs) -> acceptor_ok a -> ok_msg (MAcceptor m) ->
  acceptor_ok a' /\ Forall ok_effect effs.
Proof.
  destruct m as [p|p]; simpl; unfold Acceptor.handle_phase1a, Acceptor.handle_phase2a; intros H Ha Hm;
    handler_inv H; (split; [|ok_tac]); try done.
  - apply Forall_forall. intros i (st & Hst & _ & _ & ->)%Acceptor.elem_of_slot_infos. by eapply Ha.
  - intros s st. simpl. rewrite lookup_insert. case_decide; [by intros [= <-]|apply Ha].
Qed.

(** ** Proxy leader *)

Definition proxy_ok (p : ProxyLeader.t) : Prop :=
  forall k p2a bs, ProxyLeader.states p !! k = Some (ProxyLeader.Pending p2a bs) -> ok_value (p2a_value p2a).

Lemma proxy_phase2a_ok p p2a p' effs :
  ProxyLeader.handle_phase2a p p2a = (p', effs) -> proxy_ok p -> ok_value (p2a_value p2a) ->
  proxy_ok p' /\ Forall ok_effect effs.
Proof.
  unfold ProxyLeader.handle_phase2a. intros H Hp Hv.
  destruct (ProxyLeader.states p !! _); simplify_eq; (split; [|ok_tac]); [done|].
  intros k p2a' bs. simpl. rewrite lookup_insert. case_decide; [by intros [= <- _]|apply Hp].
Qed.

Lemma proxy_phase2b_ok p p2b p' effs :
  ProxyLeader.handle_phase2b p p2b = (p', effs) -> proxy_ok p -> proxy_ok p' /\ Forall ok_effect effs.
Proof.
  unfold ProxyLeader.handle_phase2b. intros H Hp.
  destruct (ProxyLeader.states p !! _) as [[p2a bs|]|] eqn:Hs; [|by simplify_eq..].
  apply Hp in Hs as Hv. destruct (_ <? _)%nat; simplify_eq; (split; [|ok_tac]);
    intros k p2a' bs'; simpl; rewrite lookup_insert; case_decide; try apply Hp; [by intros [= <- _]|done].
Qed.

Lemma proxy_receive_ok p m p' effs :
  ProxyLeader.receive_network p m = Some (p', effs) \/ ProxyLeader.receive_local p m = Some (p', effs) ->
  proxy_ok p -> ok_msg (MProxy m) -> proxy_ok p' /\ Forall ok_effect effs.
Proof.
  destruct m as [p2a|p2b]; simpl; intros [H|H] Hp Hm; try done; injection H as H.
  - by eapply proxy_phase2a_ok.
  - by eapply proxy_phase2b_ok.
Qed.

(** ** Batcher *)

Definition batcher_ok (b : Batcher.t) : Prop :=
  ok_batch (Batcher.growing_batch b) /\ Forall ok_batch (Batcher.pending_resend_batches b).

Lemma ok_batches leader batches :
  Forall ok_batch batches ->
  Forall ok_effect (map (fun b => Tell leader (MLeader (LI_ClientRequestBatch b))) batches).
Proof. intros Hb. apply Forall_map. eapply Forall_impl; [exact Hb|done]. Qed.

Lemma batcher_receive_ok b m b' effs :
  Batcher.receive_network b m = Some (b', effs) -> batcher_ok b -> ok_msg (MBatcher m) ->
  batcher_ok b' /\ Forall ok_effect effs.
Proof.
  intros H [Hg Hp] Hm. destruct m as [batch|r]; simpl in H.
  - unfold Batcher.handle_not_leader_batcher in H. simplify_eq. split; [split; [done|]|ok_tac].
    simpl. apply Forall_app. split; [done|by constructor].
  - unfold Batcher.handle_leader_info in H. handler_inv H; (split; [split; simpl|]); try done;
      try constructor; by apply ok_batches.
Qed.

Lemma batcher_timeout_ok b b' effs :
  Batcher.batch_timeout b = Some (b', effs) -> batcher_ok b -> batcher_ok b' /\ Forall ok_effect effs.
Proof.
  unfold Batcher.batch_timeout. intros H [Hg Hp]. destruct (Batcher.growing_batch b) as [|p l] eqn:E.
  - simplify_eq. split; [|ok_tac]. split; [by rewrite E|done].
  - handler_inv H; (split; [split; [constructor|done]|ok_tac]); exact Hg.
Qed.

(** ** Leader *)

Record leader_ok (l : Leader.t) : Prop := {
  lo_phase1bs : forall a p, Leader.phase1bs l !! a = Some p -> ok_info (p1b_info p);
  lo_pending : Forall ok_batch (Leader.pending_client_request_batches l) }.

Lemma ok_batch_value batch : ok_batch batch -> ok_value (CommandBatch (map proposal_data batch)).
Proof. intros Hb. by apply Forall_map. Qed.

Lemma start_phase1_ok l r w l' effs :
  Leader.start_phase1 l r w = (l', effs) -> leader_ok l -> leader_ok l' /\ Forall ok_effect effs.
Proof.
  unfold Leader.start_phase1. simpl. intros [= <- <-] _. split; [|ok_tac].
  split; simpl; [by intros a p ?%lookup_empty_Some|constructor].
Qed.

Lemma set_fields_ok l st r :
  leader_ok l -> leader_ok (Leader.set_state (Leader.set_round l r) st).
Proof. intros []. by split. Qed.

Lemma stop_resend_ok l l' effs :
  Leader.stop_resend_phase1as l = (l', effs) -> leader_ok l -> leader_ok l' /\ Forall ok_effect effs.
Proof.
  unfold Leader.stop_resend_phase1as. intros H []. case_match; simplify_eq; (split; [by split|ok_tac]).
Qed.

Lemma stop_noop_ok l l' effs :
  Leader.stop_noop_flush_timer l = (l', effs) -> leader_ok l -> leader_ok l' /\ Forall ok_effect effs.
Proof.
  unfold Leader.stop_noop_flush_timer. intros H []. case_match; simplify_eq; (split; [by split|ok_tac]).
Qed.

Lemma new_round_ok l l' effs :
  Leader.new_round l = Some (l', effs) -> leader_ok l -> leader_ok l' /\ Forall ok_effect effs.
Proof.
  unfold Leader.new_round. intros (r & _ & H)%bind_Some Hl.
  destruct (Leader.start_phase1 _ _ _) as [l1 e1] eqn:Hs. simplify_eq.
  apply start_phase1_ok in Hs as [[] He]; [|by destruct Hl]. split; [by split|done].
Qed.

Lemma leader_change_ok l b l' effs :
  Leader.leader_change l b = Some (l', effs) -> leader_ok l -> leader_ok l' /\ Forall ok_effect effs.
Proof.
  unfold Leader.leader_change. intros H Hl.
  destruct (Leader.state l), b; simplify_eq; try (by split); try (by eapply new_round_ok).
  - destruct (Leader.stop_resend_phase1as l) as [l1 e1] eqn:Hs. apply stop_resend_ok in Hs as [Hl1 He1]; [|done].
    apply bind_Some in H as ([l2 e2] & Hn & [= <- <-]).
    apply new_round_ok in Hn as [Hl2 He2]; [|done]. split; [done|by apply Forall_app].
  - destruct (Leader.stop_resend_phase1as l) as [l1 e1] eqn:Hs. apply stop_resend_ok in Hs as [[] He1]; [|done].
    simplify_eq. split; [by split|done].
  - destruct (Leader.stop_noop_flush_timer l) as [l1 e1] eqn:Hs. apply stop_noop_ok in Hs as [Hl1 He1]; [|done].
    apply bind_Some in H as ([l2 e2] & Hn & [= <- <-]).
    apply new_round_ok in Hn as [Hl2 He2]; [|done]. split; [done|by apply Forall_app].
  - destruct (Leader.stop_noop_flush_timer l) as [l1 e1] eqn:Hs. apply stop_noop_ok in Hs as [[] He1]; [|done].
    simplify_eq. split; [by split|done].
Qed.

Lemma process_batch_ok l batch l' effs :
  Leader.process_client_request_batch l batch = (l', effs) -> leader_ok l -> ok_batch batch ->
  leader_ok l' /\ Forall ok_effect effs.
Proof.
  unfold Leader.process_client_request_batch. intros [= <- <-] [] Hb. split; [by split|ok_tac].
  by apply ok_batch_value.
Qed.

Lemma process_batches_ok batches : forall l l' effs,
  Leader.process_client_request_batches l batches = (l', effs) -> leader_ok l -> Forall ok_batch batches ->
  leader_ok l' /\ Forall ok_effect effs.
Proof.
  induction batches as [|b batches IH]; intros l l' effs H Hl Hb; simpl in H.
  - simplify_eq. split; [done|ok_tac].
  - apply Forall_cons in Hb as [Hb Hbs].
    destruct (Leader.process_client_request_batches _ batches) as [l2 e2] eqn:H2. simplify_eq.
    eapply IH in H2 as [Hl2 He2]; [|by destruct Hl|done]. split; [done|].
    apply Forall_cons. split; [by apply ok_batch_value|done].
Qed.

(** The value that a leader finds among the votes was voted for. *)
Lemma safe_value_ok l slot :
  leader_ok l -> ok_value (Leader.safe_value (Leader.phase1b_values l) slot).
Proof.
  intros [Hb _]. unfold Leader.safe_value. destruct (max_by_key _ _) as [i|] eqn:Hm; [|exact I].
  apply max_by_key_Some in Hm as [Hin _]. apply list_elem_of_filter in Hin as [_ Hin].
  apply Leader.elem_of_phase1b_infos in Hin as (a & p & Hp & Hi). apply Hb in Hp.
  unfold ok_info in Hp. rewrite Forall_forall in Hp. by apply Hp.
Qed.

Lemma repropose_ok l max_slot : leader_ok l -> Forall ok_effect (Leader.repropose l max_slot).
Proof.
  intros Hl. unfold Leader.repropose. apply Forall_map. apply Forall_forall. intros slot _. simpl.
  by apply safe_value_ok.
Qed.

Lemma phase1b_done_ok l batcher :
  leader_ok l ->
  leader_ok (Leader.handle_phase1b_done l batcher).1 /\ Forall ok_effect (Leader.handle_phase1b_done l batcher).2.
Proof.
  intros Hl. unfold Leader.handle_phase1b_done.
  set (pr := match Leader.max_phase1b_slots l with Some _ => _ | None => _ end).
  assert (leader_ok pr.1 /\ Forall ok_effect pr.2) as [Hl1 He1].
  { subst pr. destruct (Leader.max_phase1b_slots l) as [m|]; simpl; [|by split; [|constructor]].
    split; [by destruct Hl|by apply repropose_ok]. }
  destruct pr as [l1 e1]. destruct (Leader.stop_resend_phase1as l1) as [l2 e2] eqn:Hs.
  apply stop_resend_ok in Hs as [Hl2 He2]; [|done]. simpl.
  destruct (Leader.process_client_request_batches _ _) as [l3 e3] eqn:Hp.
  apply process_batches_ok in Hp as [Hl3 He3]; [| |apply Hl2].
  - simpl in *. split; [done|]. repeat (apply Forall_cons; split; [exact I|]).
    apply Forall_app. split; [done|]. apply Forall_app. split; [done|]. by apply Forall_cons.
  - destruct Hl2. split; [done|constructor].
Qed.

Lemma leader_receive_ok l sender m l' effs :
  Leader.receive_network l sender m = Some (l', effs) -> leader_ok l -> ok_msg (MLeader m) ->
  leader_ok l' /\ Forall ok_effect effs.
Proof.
  intros H Hl Hm. destruct m as [p|r|s|s|batch|src]; simpl in H.
  - unfold Leader.handle_phase1b in H. handler_inv H; try (by split; [|constructor]).
    + split; [|constructor]. destruct Hl as [Hb Hp]. split; [|done]. intros a q. simpl.
      rewrite lookup_insert. case_decide; [by intros [= <-]|apply Hb].
    + pose proof (phase1b_done_ok (Leader.set_phase1bs l (<[p1b_acceptor_index p := p]> (Leader.phase1bs l))) x)
        as [H1 H2].
      * destruct Hl as [Hb Hp]. split; [|done]. intros a q. simpl.
        rewrite lookup_insert. case_decide; [by intros [= <-]|apply Hb].
      * match goal with Hd : Leader.handle_phase1b_done _ _ = _ |- _ => rewrite Hd in H1, H2 end. done.
  - unfold Leader.handle_nack in H. handler_inv H; try (by split; [destruct Hl; by split|constructor]);
      (eapply leader_change_ok; [exact H|destruct Hl; by split]).
  - unfold Leader.handle_chosen_watermark in H. simplify_eq. split; [destruct Hl; by split|constructor].
  - unfold Leader.handle_recover in H. destruct (Leader.state l); simplify_eq;
      [by split; [|constructor]|by eapply leader_change_ok..].
  - injection H as H. unfold Leader.handle_client_request_batch in H. destruct (Leader.state l).
    + simplify_eq. split; [done|ok_tac].
    + simplify_eq. split; [|constructor]. destruct Hl as [Hb Hp]. split; [done|]. simpl.
      apply Forall_app. split; [done|by constructor].
    + by eapply process_batch_ok.
  - injection H as H. unfold Leader.handle_leader_info_request_batcher in H.
    repeat case_match; simplify_eq; (split; [done|ok_tac]).
Qed.

(** ** Participant *)

Lemma participant_ping_ok p m rnd p' effs :
  Participant.receive_network_ping p m rnd = Some (p', effs) -> Forall ok_effect effs.
Proof.
  unfold Participant.receive_network_ping, Participant.handle_ping, Participant.change_state,
    Participant.reset_no_ping_timer, Participant.start_no_ping_timer, Participant.stop_no_ping_timer,
    Participant.stop_ping_timer, Participant.start_ping_timer, Participant.ping.
  intros H. handler_inv H; repeat case_match; simplify_option_eq; ok_tac;
    apply Forall_map, Forall_forall; done.
Qed.

Lemma participant_no_ping_ok p rnd p' effs :
  Participant.no_ping_timeout p rnd = Some (p', effs) -> Forall ok_effect effs.
Proof.
  unfold Participant.no_ping_timeout, Participant.change_state, Participant.stop_no_ping_timer,
    Participant.stop_ping_timer, Participant.start_no_ping_timer, Participant.start_ping_timer,
    Participant.ping.
  intros H. handler_inv H; repeat case_match; simplify_option_eq; ok_tac;
    apply Forall_map, Forall_forall; done.
Qed.

Lemma participant_stop_ok p pid p' effs :
  Participant.handle_peer_stop p pid = Some (p', effs) -> Forall ok_effect effs.
Proof. unfold Participant.handle_peer_stop. intros H. handler_inv H; ok_tac. Qed.

Lemma participant_timeout_ok p : Forall ok_effect (Participant.ping_timeout p).2.
Proof. unfold Participant.ping_timeout, Participant.ping. simpl. ok_tac. apply Forall_map, Forall_forall; done. Qed.

Lemma participant_start_ok p rnd p' effs :
  Participant.on_start p rnd = Some (p', effs) -> Forall ok_effect effs.
Proof.
  unfold Participant.on_start, Participant.start_ping_timer, Participant.start_no_ping_timer.
  intros H. handler_inv H; ok_tac.
Qed.

(** ** Nodes *)

(** Every slot below the executed watermark is filled. *)
Definition filled (r : Replica.t) : Prop :=
  0 <= Replica.executed_watermark r /\
  forall slot, 0 <= slot < Replica.executed_watermark r -> is_Some (BufferMap.get (Replica.log r) slot).

(** What is logged is not part of it. *)
Record node_ok (nd : Node) : Prop := {
  nk_acceptor : acceptor_ok (acceptor_comp nd);
  nk_proxy : proxy_ok (proxy_leader_comp nd);
  nk_batcher : batcher_ok (batcher_comp nd);
  nk_leader : leader_ok (leader_comp nd);
  nk_replica : filled (replica_comp nd) }.

Definition log_of (nd : Node) : BufferMap.t := Replica.log (replica_comp nd).

Lemma leader_links_ok l k : leader_ok l -> leader_ok (Leader.set_links l k).
Proof. intros []. by split. Qed.

(** Every message but a [Chosen] keeps the log, and no client is answered. *)
Lemma node_receive_ok nd comp sender m rnd nd' effs :
  node_receive nd comp sender m rnd = Some (nd', effs) -> node_ok nd -> ok_msg m ->
  (forall c, m <> MReplica (RI_Chosen c)) ->
  node_ok nd' /\ log_of nd' = log_of nd /\ Forall ok_effect effs.
Proof.
  intros H [Ha Hp Hb Hl Hr] Hm Hc.
  destruct comp; try done; destruct m; try done; simpl in H.
  - apply bind_Some in H as ([x e] & Hx & [= <- <-]).
    destruct (batcher_receive_ok _ _ _ _ Hx Hb Hm). by split_and!.
  - apply bind_Some in H as ([x e] & Hx & [= <- <-]). split_and!; [by split|done|by eapply participant_ping_ok].
  - apply bind_Some in H as ([x e] & Hx & [= <- <-]). split_and!; [by split|done|by eapply participant_stop_ok].
  - apply bind_Some in H as ([x e] & Hx & [= <- <-]).
    destruct (leader_receive_ok _ _ _ _ _ Hx Hl Hm). by split_and!.
  - apply bind_Some in H as ([x e] & Hx & [= <- <-]).
    destruct (leader_change_ok _ _ _ _ Hx Hl). by split_and!.
  - apply bind_Some in H as ([x e] & Hx & [= <- <-]).
    destruct (acceptor_receive_ok _ _ _ _ Hx Ha Hm). by split_and!.
  - exfalso. destruct m as [c]. by apply (Hc c).
  - injection H as <- <-. split_and!; [by split|done|constructor].
  - apply bind_Some in H as ([x e] & Hx & [= <- <-]).
    destruct (proxy_receive_ok _ _ _ _ (or_introl Hx) Hp Hm). by split_and!.
  - apply bind_Some in H as ([x e] & Hx & [= <- <-]).
    destruct (proxy_receive_ok _ _ _ _ (or_intror Hx) Hp Hm). by split_and!.
Qed.

Lemma node_timeout_ok nd comp t rnd nd' effs :
  node_timeout nd comp t rnd = Some (nd', effs) -> node_ok nd ->
  node_ok nd' /\ log_of nd' = log_of nd /\ Forall ok_effect effs.
Proof.
  intros H [Ha Hp Hb Hl Hr].
  destruct comp, t; simpl in H; handler_inv H; try done;
    try match goal with
      | Hx : Batcher.batch_timeout _ = Some _ |- _ => apply batcher_timeout_ok in Hx as [? ?]; [|done]
      | Hx : Participant.no_ping_timeout _ _ = Some _ |- _ => apply participant_no_ping_ok in Hx
      end;
    split_and!; try done; try (by ok_tac).
  - apply participant_timeout_ok.
  - split; try done. destruct Hl; by split.
  - split; try done. by apply leader_links_ok.
  - split; try done. by apply leader_links_ok.
Qed.

(** ** Replicas *)

(** Replies are for commands of the log. *)
Definition logged (m : BufferMap.t) (r : ProposalResp) : Prop :=
  exists slot batch, BufferMap.get m slot = Some (CommandBatch batch) /\ resp_data r ∈ batch.

Lemma announce_ok r effs : Replica.announce_watermark r = Some effs -> Forall ok_effect effs.
Proof. unfold Replica.announce_watermark. intros H. handler_inv H; ok_tac. Qed.

Lemma replies_logged r slot c :
  BufferMap.get (Replica.log r) slot = Some c ->
  Forall (logged (Replica.log r)) (Replica.replies_of r c).
Proof.
  intros Hg. unfold Replica.replies_of. destruct (_ =? _); [|constructor].
  destruct c as [batch|]; [|constructor]. apply Forall_map, Forall_forall. intros d Hd.
  exists slot, batch. by split.
Qed.

(** The watermark may wrap around to zero. *)
Lemma filled_next r c :
  BufferMap.get (Replica.log r) (Replica.executed_watermark r) = Some c -> filled r ->
  filled (Replica.set_executed_watermark r (Replica.executed_watermark r +u64 1)).
Proof.
  intros Hg [H0 Hf]. unfold filled. simpl.
  set (w := Replica.executed_watermark r) in *. pose proof (u64_add_range w 1) as [Hr1 Hr2].
  split; [done|]. intros slot Hs.
  destruct (decide (slot < w)) as [|Hw]; [apply Hf; lia|].
  assert (w +u64 1 <= w + 1) by (apply Z.mod_le; lia). assert (slot = w) as -> by lia. by exists c.
Qed.

Lemma filled_put r c :
  BufferMap.get (Replica.log r) (chosen_slot c) = None -> filled r ->
  filled (Replica.set_log r (BufferMap.put (Replica.log r) (chosen_slot c) (chosen_value c))).
Proof.
  intros Hn [H0 Hf]. split; [done|]. simpl. intros slot Hs.
  destruct (decide (BufferMap.watermark (Replica.log r) <= chosen_slot c)).
  - rewrite BufferMap.get_put by done. case_decide; [by eexists|by apply Hf].
  - rewrite BufferMap.get_put_below by lia. by apply Hf.
Qed.

Lemma execute_log_ok fuel : forall r replies effs r' replies' effs',
  Replica.execute_log_loop fuel r replies effs = Some (r', replies', effs') ->
  Forall (logged (Replica.log r)) replies -> Forall ok_effect effs ->
  Replica.log r' = Replica.log r /\ Forall (logged (Replica.log r)) replies' /\ Forall ok_effect effs' /\
  (filled r -> filled r').
Proof.
  induction fuel as [|fuel IH]; intros r replies effs r' replies' effs' H Hr He; simpl in H; [done|].
  destruct (BufferMap.get _ _) as [c|] eqn:Hg; [|by simplify_eq].
  apply bind_Some in H as (sent & Hs & H). apply IH in H as (H1 & H2 & H3 & H4).
  - split_and!; try done. intros Hf. apply H4. by apply (filled_next r c).
  - apply Forall_app. split; [done|]. exact (replies_logged r _ c Hg).
  - apply Forall_app. split; [done|]. by eapply announce_ok.
Qed.

(** An effect of a replica with log [m]. *)
Definition replica_effect (m : BufferMap.t) (e : Effect) : Prop :=
  ok_effect e \/ exists dst r, e = Tell dst (MProposalResp r) /\ logged m r.

Lemma handle_chosen_ok r c rnd r' effs :
  Replica.handle_chosen r c rnd = Some (r', effs) ->
  Forall (replica_effect (Replica.log r')) effs /\
  (forall slot v, BufferMap.get (Replica.log r') slot = Some v ->
    BufferMap.get (Replica.log r) slot = Some v \/ (slot = chosen_slot c /\ v = chosen_value c)) /\
  (filled r -> filled r').
Proof.
  unfold Replica.handle_chosen. intros H.
  destruct (BufferMap.get (Replica.log r) (chosen_slot c)) eqn:Hg.
  { simplify_eq. split_and!; [constructor|by left|done]. }
  apply bind_Some in H as ([[r1 replies] e1] & Hex & H).
  apply execute_log_ok in Hex as (Hlog & Hrep & He1 & Hfill); [|constructor..]. simpl in Hlog, Hrep.
  apply bind_Some in H as ([r2 timers] & Ht & [= <- <-]).
  assert (Forall ok_effect timers /\ Replica.log r2 = Replica.log r1 /\
    Replica.executed_watermark r2 = Replica.executed_watermark r1) as (Hnt & Hl2 & Hw2).
  { unfold Replica.reset_recover_timer, Replica.start_recover_timer, Replica.stop_recover_timer in Ht.
    handler_inv Ht; repeat case_match; simplify_option_eq; (split_and!; [ok_tac|done..]). }
  assert (filled r -> filled r2).
  { intros Hf. unfold filled. rewrite Hl2, Hw2. apply Hfill. by apply filled_put. }
  rewrite Hl2, Hlog. split_and!; [| |done].
  - apply Forall_app. split; [eapply Forall_impl; [exact He1|by left]|]. apply Forall_app. split.
    + apply Forall_map. eapply Forall_impl; [exact Hrep|]. intros x Hx. right. by exists (Replica.cached_client r1), x.
    + eapply Forall_impl; [exact Hnt|by left].
  - intros slot v Hv. destruct (decide (BufferMap.watermark (Replica.log r) <= chosen_slot c)).
    + rewrite BufferMap.get_put in Hv by done. case_decide; [right; by simplify_eq|by left].
    + rewrite BufferMap.get_put_below in Hv by lia. by left.
Qed.

(** ** The cluster *)

Record valid (s : Sys) : Prop := {
  va_node : forall q nd, nodes s !! q = Some nd -> node_ok nd;
  va_net : forall m, sent (net s) m -> ok_msg m;
  va_log : forall q nd slot v, nodes s !! q = Some nd -> BufferMap.get (log_of nd) slot = Some v ->
    sent (net s) (CHOSEN slot v);
  va_resp : forall r, sent (net s) (MProposalResp r) ->
    exists slot batch, sent (net s) (CHOSEN slot (CommandBatch batch)) /\ resp_data r ∈ batch }.

Lemma sent_app l l' m : sent (l ++ l') m <-> sent l m \/ sent l' m.
Proof. unfold sent. setoid_rewrite elem_of_app. naive_solver. Qed.

(** One node reacts; its new log was announced, and it answers for its log. *)
Lemma valid_after s s' pid nd' self effs :
  valid s -> nodes s' = <[pid := nd']> (nodes s) -> net s' = net s ++ (effs ≫= effect_packets self) ->
  node_ok nd' ->
  (forall slot v, BufferMap.get (log_of nd') slot = Some v -> sent (net s) (CHOSEN slot v)) ->
  Forall (replica_effect (log_of nd')) effs -> valid s'.
Proof.
  intros [Hn Hm Hl Hr] Hns Hnet Hnd Hlog Heff. rewrite Forall_forall in Heff.
  assert (Hmono : forall m, sent (net s) m -> sent (net s') m)
    by (intros m ?; rewrite Hnet, sent_app; by left).
  assert (Hnew : forall m, sent (net s') m -> sent (net s) m \/ (exists idx, m = MElection idx) \/
    exists dst, replica_effect (log_of nd') (Tell dst m)).
  { intros m. rewrite Hnet, sent_app, sent_effects. intros [?|[(dst & Hd)|(idx & _ & ->)]];
      [by left|right; right; exists dst; by apply Heff|right; left; by exists idx]. }
  split.
  - intros q nd. rewrite Hns, lookup_insert. case_decide; [by intros [= <-]|apply Hn].
  - intros m [?|[(idx & ->)|(dst & [He|(? & r & [= _ ->] & _)])]]%Hnew; [by apply Hm|done| |done].
    simpl in He. by destruct m.
  - intros q nd slot v. rewrite Hns, lookup_insert. case_decide.
    + intros [= <-] Hg. apply Hmono. by apply Hlog.
    + intros Hq Hg. apply Hmono. by eapply Hl.
  - intros r [?|[(idx & [=])|(dst & [He|(? & r' & [= _ <-] & slot & batch & Hg & Hin)])]]%Hnew; [|done|].
    + destruct (Hr r) as (slot & batch & Hs & Hin); [done|]. exists slot, batch. by split; [apply Hmono|].
    + exists slot, batch. split; [by apply Hmono, Hlog|done].
Qed.

Lemma ok_effects m effs : Forall ok_effect effs -> Forall (replica_effect m) effs.
Proof. intros H. eapply Forall_impl; [exact H|by left]. Qed.

Lemma links_node_ok nd peers delay lagging nd' effs :
  node_disconnect nd peers delay lagging = Some (nd', effs) -> node_ok nd ->
  node_ok nd' /\ log_of nd' = log_of nd /\ Forall (fun ce => Forall ok_effect ce.2) effs.
Proof.
  unfold node_disconnect, Participant.disconnect_peers, Batcher.disconnect_peers,
    ProxyLeader.disconnect_peers, Leader.disconnect_peers, Acceptor.disconnect_peers,
    Replica.disconnect_peers.
  intros H [Ha Hp Hb Hl Hr]. do 6 (apply bind_Some in H; destruct H as ([? ?] & Hd & H);
    apply bind_Some in Hd; destruct Hd as ([? ?] & ? & Hd);
    cbn beta iota in Hd; injection Hd as <- <-; cbn beta iota in H).
  simplify_eq. split_and!; [|done|].
  - split; simpl; first [done|by apply leader_links_ok].
  - repeat constructor; simpl; by eapply links_ok.
Qed.

Lemma recover_node_ok nd : node_ok nd -> node_ok (node_recover nd).
Proof. intros [Ha Hp Hb Hl Hr]. split; simpl; first [done|by apply leader_links_ok]. Qed.

Lemma propose_node_ok nd p : P (proposal_data p) -> node_ok nd -> node_ok (node_propose nd p).
Proof.
  intros Hp [Ha Hpr [Hg Hb] Hl Hr]. split; simpl; try done. split; [|done]. simpl.
  apply Forall_app. split; [done|by constructor].
Qed.

(** Effects of several components of one node, which keep the log. *)
Lemma valid_component_effects it pid effs : forall s nd,
  valid s -> nodes s !! pid = Some nd -> Forall (fun ce => Forall ok_effect ce.2) effs ->
  valid (apply_component_effects it pid s effs).
Proof.
  induction effs as [|[c e] effs IH]; intros s nd Hv Hnd Hf; [done|]. apply Forall_cons in Hf as [He Hf].
  simpl. eapply IH; [|exact Hnd|done].
  eapply (valid_after s _ pid nd (mkPath c pid it) e); [done| |done|by eapply va_node| |by apply ok_effects].
  - simpl. by rewrite insert_id.
  - intros slot v. by eapply va_log.
Qed.

Lemma valid_update s pid nd nd' :
  valid s -> nodes s !! pid = Some nd -> node_ok nd' -> log_of nd' = log_of nd ->
  valid (update_node s pid nd').
Proof.
  intros Hv Hnd Hok Hlog. eapply (valid_after s _ pid nd' (mkPath CLIENT 0 0) []); try done.
  - simpl. by rewrite app_nil_r.
  - intros slot v. rewrite Hlog. by eapply va_log.
Qed.

Context {iter : IterationId}.

Lemma chosen_or_not m :
  (exists c, m = MReplica (RI_Chosen c)) \/ (forall c, m <> MReplica (RI_Chosen c)).
Proof. destruct m as [| | | |[c]| | | | | |]; try (by right). left. by exists c. Qed.

Definition proposes (e : event) : Prop :=
  match e with EvPropose _ p => P (proposal_data p) | _ => True end.

Lemma valid_step s e s' : proposes e -> step s e = Some s' -> valid s -> valid s'.
Proof.
  intros He H Hv. destruct e as [i rnd|i rnd|pid p|pid peers delay lagging|pid]; simpl in H.
  - apply bind_Some in H as (p & Hp & (nd & Hnd & ([nd' effs] & Hrec & [= <-])%bind_Some)%bind_Some).
    assert (Hs : sent (net s) (pkt_msg p)) by (exists p; split; [by eapply list_elem_of_lookup_2|done]).
    destruct (chosen_or_not (pkt_msg p)) as [[c Hc]|Hc].
    + rewrite Hc in Hrec, Hs. destruct (ap_component (pkt_dst p)); try done. simpl in Hrec.
      apply bind_Some in Hrec as ([x e] & Hx & [= <- <-]). apply handle_chosen_ok in Hx as (Heff & Hlog & Hfill).
      eapply valid_after; [exact Hv|done|done| | |exact Heff].
      * destruct (va_node _ Hv _ _ Hnd) as [? ? ? ? Hr]. split; try done. by apply Hfill.
      * intros slot v [Hg|[-> ->]]%Hlog; [by eapply va_log|by destruct c].
    + destruct (node_receive_ok _ _ _ _ _ _ _ Hrec) as (Hok & Hlog & Heff);
        [by eapply va_node|by apply Hv|done|].
      eapply valid_after; [exact Hv|done|done|done| |by apply ok_effects].
      intros slot v. rewrite Hlog. by eapply va_log.
  - apply bind_Some in H as ([path t] & Ht & (nd & Hnd & ([nd' effs] & Hto & [= <-])%bind_Some)%bind_Some).
    destruct (node_timeout_ok _ _ _ _ _ _ Hto) as (Hok & Hlog & Heff); [by eapply va_node|].
    eapply (valid_after s _ (ap_pid path) nd'); [exact Hv|by destruct (is_periodic t)| |done| |by apply ok_effects].
    + by destruct (is_periodic t).
    + intros slot v. rewrite Hlog. by eapply va_log.
  - apply bind_Some in H as (nd & Hnd & [= <-]). eapply valid_update; [done|done| |done].
    apply propose_node_ok; [done|by eapply va_node].
  - apply bind_Some in H as (nd & Hnd & ([nd' effs] & Hd & [= <-])%bind_Some).
    destruct (links_node_ok _ _ _ _ _ _ Hd) as (Hok & Hlog & Heff); [by eapply va_node|].
    eapply valid_component_effects; [by eapply valid_update|simpl; by rewrite lookup_insert_eq|done].
  - apply bind_Some in H as (nd & Hnd & [= <-]). eapply valid_update; [done|done| |done].
    apply recover_node_ok. by eapply va_node.
Qed.

Lemma valid_run evs : forall s s', Forall proposes evs -> run s evs = Some s' -> valid s -> valid s'.
Proof.
  induction evs as [|e evs IH]; intros s s' He H Hv; simpl in H; [by simplify_eq|].
  apply Forall_cons in He as [He Hes]. apply bind_Some in H as (s1 & H1 & H).
  eapply IH; [done|exact H|]. by eapply valid_step.
Qed.

(** ** The start *)

Lemma created_ok c pid n all nd nd' effs :
  create_components c (fun _ => true) ITERATION pid n all = Some nd ->
  start_components nd 0 = Some (nd', effs) ->
  node_ok nd' /\ (forall slot, BufferMap.get (log_of nd') slot = None) /\
  Forall (fun ce => Forall ok_effect ce.2) effs.
Proof.
  intros H Hs. unfold create_components in H.
  apply bind_Some in H as (paths & _ & ([[eo lo] ro] & _ & (leader & Hl & [= <-])%bind_Some)%bind_Some).
  apply bind_Some in Hs as ([pa e1] & Hpa & Hs). simpl in Hs, Hpa.
  apply participant_start_ok in Hpa.
  destruct (Leader.on_start _) as [le e3] eqn:Hle. injection Hs as <- <-.
  assert (leader_ok leader) as Hlo.
  { unfold Leader.with_ in Hl. apply bind_Some in Hl as (r & _ & [= <-]).
    split; simpl; [by intros a p ?%lookup_empty_Some|constructor]. }
  assert (leader_ok le /\ Forall ok_effect e3) as [Hlok He3].
  { unfold Leader.on_start in Hle. destruct (Leader.state _).
    - simplify_eq. split; [destruct Hlo; by split|constructor].
    - eapply start_phase1_ok; [exact Hle|destruct Hlo; by split].
    - simplify_eq. split; [destruct Hlo; by split|constructor]. }
  split_and!.
  - split; [intros s st; simpl; by rewrite lookup_empty|intros k p bs; simpl; by rewrite lookup_empty|split; constructor|done|].
    split; [done|]. simpl. lia.
  - intros slot. unfold log_of. simpl. rewrite BufferMap.get_lookup. simpl. by case_decide.
  - repeat constructor; done.
Qed.

Lemma boot_nodes_valid c n todo all : forall s s',
  boot_nodes c n todo all s = Some s' -> valid s -> valid s'.
Proof.
  induction todo as [|pid todo IH]; intros s s' H Hv; simpl in H; [by simplify_eq|].
  apply bind_Some in H as (nd & Hc & ([nd' effs] & Hs & H)%bind_Some).
  destruct (created_ok _ _ _ _ _ _ _ Hc Hs) as (Hok & Hlog & Heff).
  eapply IH; [exact H|]. eapply valid_component_effects; [|simpl; by rewrite lookup_insert_eq|done].
  eapply (valid_after s _ pid nd' (mkPath CLIENT 0 0) []); [done|done| |done| |constructor].
  - simpl. by rewrite app_nil_r.
  - intros slot v Hg. by rewrite Hlog in Hg.
Qed.

Lemma valid_boot c n s : boot c n = Some s -> valid s.
Proof.
  intros H. eapply boot_nodes_valid; [exact H|].
  split; simpl; try (by intros q nd ?%lookup_empty_Some); try (by intros q nd ? ? ?%lookup_empty_Some).
  - by intros m (p & ?%not_elem_of_nil & _).
  - by intros r (p & ?%not_elem_of_nil & _).
Qed.
End validity.

(** ** Validity *)

(** The commands that the clients proposed in a run. *)
Definition proposed (evs : list event) (d : ProposalType) : Prop :=
  exists pid p, EvPropose pid p ∈ evs /\ proposal_data p = d.

Lemma all_propose evs : Forall (proposes (proposed evs)) evs.
Proof.
  apply Forall_forall. intros e He. destruct e as [| |pid p| |]; try exact I. by exists pid, p.
Qed.

(** C6: on every run of the cluster, also after the hazards of the leader and when rounds wrap
    around: a value that is announced as chosen or that a replica logs is a no-op or a batch of
    commands that clients proposed; and a client gets an answer only for a command of a batch
    that was announced as chosen for some slot. *)
Theorem mp_validity {iter : IterationId} (c : MpConfig) (n : nat) (s0 s : Sys) (evs : list event) :
  boot c n = Some s0 -> run s0 evs = Some s ->
  (forall slot batch, CommandBatch batch ∈ chosen_values s slot -> Forall (proposed evs) batch) /\
  (forall q slot v, replica_log s q slot = Some v -> v ∈ chosen_values s slot) /\
  (forall p r, p ∈ net s -> pkt_msg p = MProposalResp r ->
     exists slot batch, CommandBatch batch ∈ chosen_values s slot /\ resp_data r ∈ batch).
Proof.
  intros Hb Hr. assert (Hv : valid (proposed evs) s).
  { eapply valid_run; [apply all_propose|exact Hr|by eapply valid_boot]. }
  destruct Hv as [Hn Hm Hl Hresp]. split_and!.
  - intros slot batch Hc%elem_of_chosen_values%Hm. exact Hc.
  - intros q slot v (nd & Hnd & Hg)%bind_Some. apply elem_of_chosen_values. by eapply Hl.
  - intros p r Hp Hm'. destruct (Hresp r) as (slot & batch & Hs & Hin); [by exists p|].
    exists slot, batch. by rewrite elem_of_chosen_values.
Qed.

(** ** The replicated state machine *)

(** The commands that a replica has executed, in order. *)
Definition executed_log (nd : Node) : list CommandBatchOrNoop :=
  Replica.executed (replica_comp nd) 0 (Replica.executed_watermark (replica_comp nd)).

Lemma omap_length {A B} (f : A -> option B) l :
  Forall (fun x => is_Some (f x)) l -> length (omap f l) = length l.
Proof. induction 1 as [|x l [y Hy] _ IH]; [done|]. csimpl. rewrite Hy. simpl. by f_equal. Qed.

Lemma executed_length nd :
  filled (replica_comp nd) ->
  Z.of_nat (length (executed_log nd)) = Replica.executed_watermark (replica_comp nd).
Proof.
  intros [H0 Hf]. unfold executed_log, Replica.executed. rewrite omap_length, length_seqZ; [lia|].
  apply Forall_forall. intros slot Hs%elem_of_seqZ. apply Hf. lia.
Qed.

Lemma executed_prefix nd nd' :
  filled (replica_comp nd) -> filled (replica_comp nd') ->
  (forall slot v v', BufferMap.get (log_of nd) slot = Some v ->
     BufferMap.get (log_of nd') slot = Some v' -> v = v') ->
  Replica.executed_watermark (replica_comp nd) <= Replica.executed_watermark (replica_comp nd') ->
  executed_log nd `prefix_of` executed_log nd'.
Proof.
  intros [H0 Hf] [H0' Hf'] Hagree Hw. unfold executed_log, Replica.executed. rewrite !Z.sub_0_r.
  set (w := Replica.executed_watermark (replica_comp nd)) in *.
  set (w' := Replica.executed_watermark (replica_comp nd')) in *.
  replace w' with (w + (w' - w)) by lia. rewrite seqZ_app, omap_app by lia.
  assert (E : omap (BufferMap.get (Replica.log (replica_comp nd))) (seqZ 0 w) =
    omap (BufferMap.get (Replica.log (replica_comp nd'))) (seqZ 0 w)); [|rewrite E; by apply prefix_app_r].
  apply list_omap_ext, Forall_Forall2_diag, Forall_forall. intros slot Hs%elem_of_seqZ.
  destruct (Hf slot ltac:(lia)) as [v Hv], (Hf' slot ltac:(lia)) as [v' Hv']. rewrite Hv, Hv'.
  f_equal. by eapply Hagree.
Qed.

(** C5: the replicas implement one state machine: on every run that avoids the two hazards of
    the leader, what a replica has executed is a sequence without holes, as long as its
    watermark, of no-ops and batches of commands that clients proposed; and of any two
    replicas one has executed a prefix of what the other has. *)
Theorem mp_state_machine {iter : IterationId} (c : MpConfig) (n : nat) (s0 s : Sys) (evs : list event) :
  (0 < n)%nat -> Z.of_nat n < 2 ^ 61 ->
  boot c n = Some s0 -> safe_run s0 evs = Some s ->
  (forall q nd, nodes s !! q = Some nd ->
     Z.of_nat (length (executed_log nd)) = Replica.executed_watermark (replica_comp nd) /\
     Forall (ok_value (proposed evs)) (executed_log nd)) /\
  (forall q q' nd nd', nodes s !! q = Some nd -> nodes s !! q' = Some nd' ->
     executed_log nd `prefix_of` executed_log nd' \/ executed_log nd' `prefix_of` executed_log nd).
Proof.
  intros Hpos Hn Hb Hr. assert (Hv : valid (proposed evs) s).
  { eapply valid_run; [apply all_propose|by eapply safe_run_run|by eapply valid_boot]. }
  assert (Hinv : inv n s).
  { apply (inv_safe_run n Hn evs s0 s); [|done]. apply boot_inv; [by eapply boot_boot_ok|lia]. }
  destruct Hv as [Hnode Hm Hl _]. split.
  - intros q nd Hnd. split; [apply executed_length, (nk_replica _ _ (Hnode q nd Hnd))|].
    apply Forall_forall. intros v (slot & _ & Hg)%list_elem_of_omap.
    exact (Hm _ (Hl q nd slot v Hnd Hg)).
  - intros q q' nd nd' Hnd Hnd'.
    pose proof (nk_replica _ _ (Hnode q nd Hnd)). pose proof (nk_replica _ _ (Hnode q' nd' Hnd')).
    assert (Hagree : forall slot v v', BufferMap.get (log_of nd) slot = Some v ->
      BufferMap.get (log_of nd') slot = Some v' -> v = v').
    { intros slot v v' Hg Hg'. eapply (chosen_unique n s); eauto. }
    destruct (Z.le_ge_cases (Replica.executed_watermark (replica_comp nd))
      (Replica.executed_watermark (replica_comp nd'))); [left|right].
    + by apply executed_prefix.
    + apply executed_prefix; try done. intros slot v v' Hg Hg'. symmetry. by eapply Hagree.
Qed.

#[local] Instance first_iteration : IterationId := 1.

Lemma takeover_batch :
  (s0 ← boot example_config 3; s ← run s0 takeover_events; Some (chosen_values s 0)) = Some [command].
Proof. vm_compute. reflexivity. Qed.

Lemma mp_validity_witness :
  exists s0 s, boot example_config 3 = Some s0 /\ run s0 takeover_events = Some s /\
    chosen_values s 0 = [command] /\ proposed takeover_events [x2a].
Proof.
  pose proof takeover_batch as H. apply bind_Some in H as (s0 & Hb & (s & Hr & [= Hc])%bind_Some).
  exists s0, s. split_and!; [done..|].
  destruct (mp_validity example_config 3 s0 s takeover_events Hb Hr) as [Hv _].
  assert (Hin : CommandBatch [[x2a]] ∈ chosen_values s 0) by (rewrite Hc; left).
  apply Hv in Hin. by apply Forall_cons in Hin as [Hin _].
Defined.

Lemma takeover_executed :
  (s0 ← boot example_config 3; s ← safe_run s0 takeover_events; nd2 ← nodes s !! 2; nd3 ← nodes s !! 3;
   Some (executed_log nd2, executed_log nd3)) = Some ([command], [command]).
Proof. vm_compute. reflexivity. Qed.

Lemma mp_state_machine_witness :
  exists s0 s nd2 nd3, boot example_config 3 = Some s0 /\ safe_run s0 takeover_events = Some s /\
    nodes s !! 2 = Some nd2 /\ nodes s !! 3 = Some nd3 /\ executed_log nd2 = [command] /\
    ok_value (proposed takeover_events) command /\
    (executed_log nd2 `prefix_of` executed_log nd3 \/ executed_log nd3 `prefix_of` executed_log nd2).
Proof.
  pose proof takeover_executed as H.
  apply bind_Some in H as (s0 & Hb & (s & Hr & (nd2 & H2 & (nd3 & H3 & [= He2 He3])%bind_Some)%bind_Some)%bind_Some).
  exists s0, s, nd2, nd3.
  destruct (mp_state_machine example_config 3 s0 s takeover_events ltac:(lia) ltac:(lia) Hb Hr) as [Hex Hpre].
  split_and!; [done..| |by eapply Hpre].
  destruct (Hex 2 nd2 H2) as [_ Hok]. rewrite He2 in Hok. by apply Forall_cons in Hok as [Hok _].
Defined.
