(* ===== verification/MpRuns.v ===== *)
(** Schedules of the Multi-Paxos cluster in which only some components take steps.

    [reaches ok s ps s']: a safe run leads from [s] to [s'] in which every event is handled by a
    component that [ok] allows, and the proposals made by clients are [ps].  The other components and
    their timers are as before ([reaches_frame]).  The lemmas build such runs event by event: a packet
    in the network can be delivered, a scheduled timer can fire, a client can propose.  [holds_at]
    states a property of one component of one node; [state] describes the cluster by one predicate per
    component, and each step lemma says how an event changes one of them. *)

From S2P Require Import Prelude MpMessages Partition MpUtil.
From S2P Require Import MpAcceptor MpProxyLeader MpLeader MpReplica MpBatcher MpParticipant.
From S2P Require Import MpSystem MpInv MpFrame MpSafety.

(** ** Which component handles an event, and what clients propose *)

Definition acting (s : Sys) (e : event) : option (component_name * Z) :=
  match e with
  | EvDeliver i _ => p ← net s !! i; Some (ap_component (pkt_dst p), ap_pid (pkt_dst p))
  | EvTimer i _ => pt ← timers s !! i; Some (ap_component pt.1, ap_pid pt.1)
  | EvPropose pid _ => Some (BATCHER, pid)
  | EvDisconnect _ _ _ _ | EvRecoverPeers _ => None
  end.

Definition proposal_of (e : event) : option (Z * Proposal) :=
  match e with EvPropose pid p => Some (pid, p) | _ => None end.

Definition proposals (evs : list event) : list (Z * Proposal) := omap proposal_of evs.

(** No link is cut and every event is handled by an allowed component. *)
Fixpoint only_acting {iter : IterationId} (ok : component_name -> Z -> bool) (s : Sys)
    (evs : list event) : bool :=
  match evs with
  | [] => true
  | e :: evs =>
      match acting s e, step s e with
      | Some (comp, pid), Some s' => ok comp pid && only_acting ok s' evs
      | _, _ => false
      end
  end.

(** Every event is handled by a node of [live]. *)
Definition on_nodes (live : gset Z) (comp : component_name) (pid : Z) : bool := bool_decide (pid ∈ live).

(** Of the nodes of [live] only [m] uses its leader, proxy leader, batcher and participant. *)
Definition serving (live : gset Z) (m : Z) (comp : component_name) (pid : Z) : bool :=
  bool_decide (pid ∈ live) &&
  match comp with ACCEPTOR | REPLICA => true | _ => bool_decide (pid = m) end.

Section reaches.
Context {iter : IterationId} (ok : component_name -> Z -> bool).

Definition reaches (s : Sys) (ps : list (Z * Proposal)) (s' : Sys) : Prop :=
  exists evs, safe_run s evs = Some s' /\ only_acting ok s evs = true /\ proposals evs = ps.

Lemma reaches_refl s : reaches s [] s.
Proof. by exists []. Qed.

Lemma reaches_trans s1 ps s2 ps' s3 :
  reaches s1 ps s2 -> reaches s2 ps' s3 -> reaches s1 (ps ++ ps') s3.
Proof.
  intros (evs & Hr & Hl & <-) (evs' & Hr' & Hl' & <-). exists (evs ++ evs').
  unfold proposals. rewrite omap_app. revert s1 Hr Hl.
  induction evs as [|e evs IH]; intros s1 Hr Hl; simpl in *; [by simplify_eq|].
  apply bind_Some in Hr as (s & Hs & Hr). rewrite Hs. simpl.
  unfold safe_step in Hs. destruct (fits s1 && _); [|done]. rewrite Hs in Hl |- *.
  destruct (acting s1 e) as [[comp pid]|]; [|done].
  apply andb_true_iff in Hl as [-> Hl]. destruct (IH s Hr Hl) as (? & Hol & _). by rewrite Hol.
Qed.

(** Steps without a proposal in front or behind. *)
Lemma reaches_then s1 s2 ps s3 : reaches s1 [] s2 -> reaches s2 ps s3 -> reaches s1 ps s3.
Proof. apply reaches_trans. Qed.

Lemma reaches_step s e comp pid s' :
  fits s = true -> hazard s e = false -> acting s e = Some (comp, pid) -> ok comp pid = true ->
  step s e = Some s' -> reaches s (proposals [e]) s'.
Proof.
  intros Hf Hh Ha Hl Hs. exists [e]. split; [|split; [|done]]; cbn [safe_run only_acting].
  - unfold safe_step. rewrite Hf, Hh. cbn [andb negb]. by rewrite Hs.
  - by rewrite Ha, Hs, Hl.
Qed.

(** ** One event *)

(** The state after node [pid] reacted: component [comp] has performed [effs]. *)
Definition reacted (s : Sys) (comp : component_name) (pid : Z) (nd : Node) (effs : list Effect) : Sys :=
  apply_effects (update_node s pid nd) (mkPath comp pid ITERATION) effs.

Definition completes_phase1 (comp : component_name) (m : NetMsg) : bool :=
  match comp, m with LEADER, MLeader (LI_Phase1b _) => true | _, _ => false end.

Lemma deliver_reaches s src comp pid m nd nd' effs :
  fits s = true -> ok comp pid = true -> nodes s !! pid = Some nd ->
  mkPacket src (mkPath comp pid ITERATION) m ∈ net s ->
  (completes_phase1 comp m = true -> Leader.chosen_watermark (leader_comp nd) <=
     Leader.next_slot (leader_comp nd)) ->
  node_receive nd comp src m 0 = Some (nd', effs) ->
  reaches s [] (reacted s comp pid nd' effs).
Proof.
  intros Hf Hl Hnd [i Hi]%list_elem_of_lookup Hw Hr.
  apply (reaches_step s (EvDeliver i 0) comp pid); [done| |by simpl; rewrite Hi|done|].
  - unfold hazard. cbn [flush_hazard restart_hazard orb]. rewrite Hi.
    destruct comp; try done. destruct m as [[p| | | | |]| | | | | | | | | |]; try done.
    rewrite Hnd. apply andb_false_iff. right. simpl. apply Z.ltb_ge. by apply Hw.
  - cbn [step]. rewrite Hi. cbn [mbind option_bind pkt_dst ap_pid]. rewrite Hnd.
    cbn [mbind option_bind ap_component pkt_src pkt_msg]. by rewrite Hr.
Qed.

Lemma timer_reaches s comp pid t nd nd' effs :
  fits s = true -> ok comp pid = true -> nodes s !! pid = Some nd -> t <> TNoopFlush ->
  (mkPath comp pid ITERATION, t) ∈ timers s ->
  node_timeout nd comp t 0 = Some (nd', effs) ->
  exists ts, reaches s [] (reacted (mkSys (nodes s) (net s) ts) comp pid nd' effs) /\
    forall x, x ∈ timers s -> x.2 <> t \/ is_periodic t = true -> x ∈ ts.
Proof.
  intros Hf Hl Hnd Ht [i Hi]%list_elem_of_lookup Hr.
  exists (if is_periodic t then timers s else delete i (timers s)). split.
  - apply (reaches_step s (EvTimer i 0) comp pid); [done| |by simpl; rewrite Hi|done|].
    + unfold hazard. cbn [flush_hazard restart_hazard]. rewrite Hi. by destruct comp, t.
    + cbn [step]. rewrite Hi. cbn [mbind option_bind ap_pid ap_component]. rewrite Hnd.
      cbn [mbind option_bind]. rewrite Hr. cbn [mbind option_bind].
      destruct (is_periodic t); [by destruct s|done].
  - intros x Hx Hor. destruct (is_periodic t); [done|]. destruct Hor as [Hne|]; [|done].
    rewrite (delete_Permutation _ _ _ Hi) in Hx. apply elem_of_cons in Hx as [->|Hx]; done.
Qed.

Lemma propose_reaches s pid p nd :
  fits s = true -> ok BATCHER pid = true -> nodes s !! pid = Some nd ->
  reaches s [(pid, p)] (update_node s pid (node_propose nd p)).
Proof.
  intros Hf Hl Hnd. apply (reaches_step s (EvPropose pid p) BATCHER pid); try done.
  simpl. by rewrite Hnd.
Qed.

(** Packets stay in the network. *)
Lemma component_effects_net pid effs : forall s,
  net s ⊆ net (apply_component_effects ITERATION pid s effs).
Proof.
  induction effs as [|[comp es] effs IH]; intros s; simpl; [done|].
  etransitivity; [|apply IH]. simpl. set_solver.
Qed.

Lemma step_net s e s' : step s e = Some s' -> net s ⊆ net s'.
Proof.
  destruct e; simpl; intros H; handler_inv H; simpl; try set_solver.
  - repeat case_match; simpl; set_solver.
  - etransitivity; [|apply component_effects_net]. done.
Qed.

Lemma reaches_net s ps s' : reaches s ps s' -> net s ⊆ net s'.
Proof.
  intros (evs & Hr%safe_run_run & _). revert s Hr.
  induction evs as [|e evs IH]; intros s; simpl; [by intros [= <-]|].
  intros (s1 & Hs%step_net & Hr%IH)%bind_Some. set_solver.
Qed.
End reaches.

(** ** What does not change *)

Definition same_component (comp : component_name) (nd nd' : Node) : Prop :=
  match comp with
  | BATCHER => batcher_comp nd' = batcher_comp nd
  | PARTICIPANT => participant_comp nd' = participant_comp nd
  | LEADER => leader_comp nd' = leader_comp nd
  | ACCEPTOR => acceptor_comp nd' = acceptor_comp nd
  | REPLICA => replica_comp nd' = replica_comp nd
  | PROXY_LEADER => proxy_leader_comp nd' = proxy_leader_comp nd
  | CLIENT => True
  end.

Lemma same_refl comp nd : same_component comp nd nd.
Proof. by destruct comp. Qed.

Lemma receive_same nd comp src msg rnd nd' effs other :
  node_receive nd comp src msg rnd = Some (nd', effs) -> other <> comp -> same_component other nd nd'.
Proof.
  intros H Hne. unfold node_receive in H. destruct comp, msg; try done; handler_inv H; by destruct other.
Qed.

Lemma timeout_same nd comp t rnd nd' effs other :
  node_timeout nd comp t rnd = Some (nd', effs) -> other <> comp -> same_component other nd nd'.
Proof.
  intros H Hne. unfold node_timeout in H. destruct comp, t; try done; handler_inv H; by destruct other.
Qed.

(** [s'] differs from [s] only in what the component [comp] of node [pid] owns. *)
Definition others_kept (s s' : Sys) (acts : component_name -> Z -> Prop) : Prop :=
  (forall q nd, nodes s !! q = Some nd -> exists nd', nodes s' !! q = Some nd' /\
     forall comp, ~ acts comp q -> same_component comp nd nd') /\
  (forall path t, ~ acts (ap_component path) (ap_pid path) -> (path, t) ∈ timers s -> (path, t) ∈ timers s').

Lemma elem_of_remove_first {A} `{EqDecision A} (x y : A) l :
  y ∈ l -> y <> x -> y ∈ remove_first x l.
Proof. induction l as [|z l IH]; simpl; [done|]. case_decide; set_solver. Qed.

Lemma effect_timers_keep effs self x ts :
  x ∈ ts -> (forall t, Cancel t ∈ effs -> x <> (self, t)) ->
  x ∈ foldl (effect_timers self) ts effs.
Proof.
  revert ts. induction effs as [|e l IH]; intros ts Hx Hc; simpl; [done|]. apply IH.
  - destruct e; simpl; try done; [set_solver|]. apply elem_of_remove_first; [done|].
    apply Hc, list_elem_of_here.
  - intros t Ht. apply Hc. by right.
Qed.

Lemma update_kept s ns' net' ts' path nd nd' effs :
  nodes s !! ap_pid path = Some nd -> ns' = <[ap_pid path := nd']> (nodes s) ->
  (forall other, other <> ap_component path -> same_component other nd nd') ->
  (forall x, x ∈ timers s -> x.1 <> path -> x ∈ ts') ->
  others_kept s (mkSys ns' net' (foldl (effect_timers path) ts' effs))
    (fun comp q => comp = ap_component path /\ q = ap_pid path).
Proof.
  intros Hnd -> Hsame Hts. split.
  - intros q ndq Hq. simpl. destruct (decide (q = ap_pid path)) as [->|Hne].
    + exists nd'. rewrite lookup_insert_eq. split; [done|]. intros comp Hc.
      rewrite Hnd in Hq. injection Hq as <-. apply Hsame. tauto.
    + exists ndq. rewrite lookup_insert_ne by done. split; [done|]. intros. apply same_refl.
  - intros path' t Hp Hin. apply effect_timers_keep.
    + apply Hts; [done|]. simpl. intros ->. by apply Hp.
    + intros t' _ [= -> _]. by apply Hp.
Qed.

Lemma step_kept {iter : IterationId} s e comp pid s' :
  acting s e = Some (comp, pid) -> step s e = Some s' ->
  others_kept s s' (fun c q => c = comp /\ q = pid).
Proof.
  destruct e as [i rnd|i rnd|q p|q peers delay lag|q]; cbn [acting step]; [| | |done..]; intros Ha Hs.
  - destruct (net s !! i) as [p|]; [|done]. injection Ha as <- <-. cbn [mbind option_bind] in Hs.
    destruct (nodes s !! _) as [nd|] eqn:Hnd; [|done]. cbn [mbind option_bind] in Hs.
    destruct (node_receive _ _ _ _ _) as [[nd' effs]|] eqn:Hr; [|done]. injection Hs as <-.
    eapply update_kept; [exact Hnd|reflexivity| |done]. intros. by eapply receive_same.
  - destruct (timers s !! i) as [[path t]|] eqn:Hi; [|done]. injection Ha as <- <-.
    cbn [mbind option_bind] in Hs. destruct (nodes s !! _) as [nd|] eqn:Hnd; [|done].
    cbn [mbind option_bind] in Hs. destruct (node_timeout _ _ _ _) as [[nd' effs]|] eqn:Hr; [|done].
    injection Hs as <-. replace (nodes (if is_periodic t then s else _)) with (nodes s) by (by destruct (is_periodic t)).
    eapply update_kept; [exact Hnd|by destruct (is_periodic t)|intros; by eapply timeout_same|].
    intros x Hx Hne. simpl. destruct (is_periodic t); simpl; [done|].
    rewrite (delete_Permutation _ _ _ Hi) in Hx. apply elem_of_cons in Hx as [->|Hx]; done.
  - injection Ha as <- <-. destruct (nodes s !! q) as [nd|] eqn:Hnd; [|done]. injection Hs as <-.
    apply (update_kept s _ (net s) (timers s) (mkPath BATCHER q 0) nd (node_propose nd p) []); try done.
    by intros [].
Qed.

(** Components that are not allowed to act are as before, and so are their timers. *)
Lemma reaches_frame {iter : IterationId} ok s ps s' :
  reaches ok s ps s' -> others_kept s s' (fun comp q => ok comp q = true).
Proof.
  intros (evs & Hr%safe_run_run & Hl & _). revert s Hr Hl.
  induction evs as [|e evs IH]; intros s Hr Hl; simpl in *.
  - simplify_eq. split; [|done]. intros q nd Hq. exists nd. split; [done|]. intros. apply same_refl.
  - apply bind_Some in Hr as (s1 & Hs & Hr). destruct (acting s e) as [[comp pid]|] eqn:Ha; [|done].
    rewrite Hs in Hl. apply andb_true_iff in Hl as [Hok Hl].
    destruct (step_kept _ _ _ _ _ Ha Hs) as [Hn1 Ht1]. destruct (IH s1 Hr Hl) as [Hn2 Ht2]. split.
    + intros q nd Hq. destruct (Hn1 q nd Hq) as (nd1 & Hq1 & Hs1). destruct (Hn2 q nd1 Hq1) as (nd2 & Hq2 & Hs2).
      exists nd2. split; [done|]. intros c Hc. specialize (Hs2 c Hc).
      assert (same_component c nd nd1) as Hs0 by (apply Hs1; intros [-> ->]; done).
      destruct c; simpl in *; congruence.
    + intros path t Hp Hin. apply Ht2; [done|]. apply Ht1; [|done]. intros [H1 H2]. apply Hp. by rewrite H1, H2.
Qed.

Lemma only_acting_weaken {iter : IterationId} (ok ok' : component_name -> Z -> bool) evs :
  (forall comp q, ok comp q = true -> ok' comp q = true) ->
  forall s, only_acting ok s evs = true -> only_acting ok' s evs = true.
Proof.
  intros Hok. induction evs as [|e evs IH]; intros s; simpl; [done|].
  destruct (acting s e) as [[comp pid]|]; [|done]. destruct (step s e) as [s1|]; [|done].
  rewrite !andb_true_iff. intros [H1 H2]. split; [by apply Hok|by apply IH].
Qed.

(** ** Bounds *)

(** The messages are within the bounds, and the batch timer keeps running. *)
Definition effect_quiet (e : Effect) : bool :=
  match e with Tell _ m => msg_fits m | Cancel TBatch => false | _ => true end.

Lemma broadcast_quiet peers disc m : msg_fits m = true -> Forall effect_quiet (broadcast peers disc m).
Proof.
  intros Hm. apply Forall_forall. intros e (? & ? & _ & _ & ->)%elem_of_broadcast. simpl. by rewrite Hm.
Qed.

Section reacted.
Context {iter : IterationId} (s : Sys) (comp : component_name) (pid : Z) (nd nd' : Node)
  (effs : list Effect).

Lemma fits_update : fits s = true -> leader_fits (leader_comp nd') = true ->
  fits (update_node s pid nd') = true.
Proof.
  unfold fits. rewrite !andb_true_iff, !forallb_forall. intros [Hf Hm] Hl. split; [|done].
  intros [q ndq]. rewrite <- list_elem_of_In, elem_of_map_to_list. simpl.
  rewrite lookup_insert_Some. intros [[_ <-]|[_ Hq]]; [done|].
  apply (Hf (q, ndq)). by rewrite <- list_elem_of_In, elem_of_map_to_list.
Qed.

Lemma fits_reacted : fits s = true -> leader_fits (leader_comp nd') = true ->
  Forall effect_quiet effs -> fits (reacted s comp pid nd' effs) = true.
Proof.
  intros Hf Hl Hm. pose proof (fits_update Hf Hl) as Hu. unfold fits in *.
  apply andb_true_iff in Hu as [Hu1 Hu2]. apply andb_true_iff. split; [done|]. simpl.
  rewrite forallb_app. apply andb_true_iff. split; [done|]. apply forallb_forall.
  intros p Hp. apply list_elem_of_In, elem_of_effect_packets in Hp.
  destruct Hp as [(dst & m & Ht & ->)|(idx & c & _ & _ & ->)]; [|done].
  rewrite Forall_forall in Hm. apply Hm in Ht. by apply Is_true_true.
Qed.

Lemma fits_timers ts : fits (mkSys (nodes s) (net s) ts) = fits s.
Proof. done. Qed.

(** ** The network and the timers only lose what is cancelled *)

Lemma reacted_net p : p ∈ net s -> p ∈ net (reacted s comp pid nd' effs).
Proof. intros Hp. simpl. apply elem_of_app. by left. Qed.

Lemma reacted_tell dst m : Tell dst m ∈ effs ->
  mkPacket (mkPath comp pid ITERATION) dst m ∈ net (reacted s comp pid nd' effs).
Proof.
  intros He. simpl. apply elem_of_app. right. apply elem_of_effect_packets. left. eauto.
Qed.

Lemma reacted_trigger idx c : Trigger idx ∈ effs -> c = LEADER \/ c = REPLICA ->
  mkPacket (mkPath comp pid ITERATION) (mkPath c pid ITERATION) (MElection idx)
    ∈ net (reacted s comp pid nd' effs).
Proof.
  intros He Hc. simpl. apply elem_of_app. right. apply elem_of_effect_packets. right. eauto 8.
Qed.

Lemma reacted_batch_timer path :
  Forall effect_quiet effs -> (path, TBatch) ∈ timers s ->
  (path, TBatch) ∈ timers (reacted s comp pid nd' effs).
Proof.
  intros Hq Hx. apply effect_timers_keep; [done|]. intros t Ht [= _ <-].
  rewrite Forall_forall in Hq. by apply Hq in Ht.
Qed.
End reacted.

(** ** Properties of one component *)

Definition holds_at {A} (s : Sys) (f : Node -> A) (q : Z) (P : A -> Prop) : Prop :=
  exists nd, nodes s !! q = Some nd /\ P (f nd).

(** A node's reaction leaves its other components and the other nodes alone. *)
Lemma update_other {A} (s s' : Sys) (f : Node -> A) pid nd nd' q P :
  nodes s' = <[pid := nd']> (nodes s) -> nodes s !! pid = Some nd -> f nd' = f nd ->
  holds_at s f q P -> holds_at s' f q P.
Proof.
  intros Hs Hnd Hf (ndq & Hq & HP). unfold holds_at. rewrite Hs.
  destruct (decide (q = pid)) as [->|Hne].
  - exists nd'. rewrite lookup_insert_eq. split; [done|].
    rewrite Hnd in Hq. injection Hq as <-. by rewrite Hf.
  - exists ndq. by rewrite lookup_insert_ne.
Qed.

Lemma update_self {A} (s s' : Sys) (f : Node -> A) pid nd' q (P P' : A -> Prop) :
  nodes s' = <[pid := nd']> (nodes s) -> (q = pid -> P' (f nd')) ->
  (forall x, q <> pid -> P x -> P' x) -> holds_at s f q P -> holds_at s' f q P'.
Proof.
  intros Hs Hx Hi (ndq & Hq & HP). unfold holds_at. rewrite Hs.
  destruct (decide (q = pid)) as [->|Hne].
  - exists nd'. rewrite lookup_insert_eq. split; [done|]. by apply Hx.
  - exists ndq. rewrite lookup_insert_ne by done. split; [done|]. by apply Hi.
Qed.

Section schedule.
(** The live nodes, and the one whose leader and batcher are in use. *)
Context {iter : IterationId} (live : gset Z) (m : Z) (Hm : m ∈ live).
Local Abbreviation path comp q := (mkPath comp q ITERATION).

Lemma serving_shared comp q : q ∈ live -> comp = ACCEPTOR \/ comp = REPLICA -> serving live m comp q = true.
Proof. intros Hq [-> | ->]; unfold serving; by rewrite bool_decide_true. Qed.

Lemma serving_own comp : serving live m comp m = true.
Proof. unfold serving. rewrite !bool_decide_true by done. by destruct comp. Qed.

#[local] Hint Resolve serving_shared serving_own : core.

(** ** The state of the cluster between two events *)

Record state (s : Sys) (PA : Z -> Acceptor.t -> Prop) (PL : Leader.t -> Prop)
    (PP : ProxyLeader.t -> Prop) (PB : Batcher.t -> Prop) (PR : Z -> Replica.t -> Prop) : Prop := {
  st_fits : fits s = true;
  st_timer : (path BATCHER m, TBatch) ∈ timers s;
  st_acceptor : forall q, q ∈ live -> holds_at s acceptor_comp q (PA q);
  st_leader : holds_at s leader_comp m PL;
  st_proxy : holds_at s proxy_leader_comp m PP;
  st_batcher : holds_at s batcher_comp m PB;
  st_replica : forall q, q ∈ live -> holds_at s replica_comp q (PR q) }.

Section steps.
Context (s : Sys) (PA : Z -> Acceptor.t -> Prop) (PL : Leader.t -> Prop)
  (PP : ProxyLeader.t -> Prop) (PB : Batcher.t -> Prop) (PR : Z -> Replica.t -> Prop).
Context (Hst : state s PA PL PP PB PR).

Lemma node_fits q nd : nodes s !! q = Some nd -> leader_fits (leader_comp nd) = true.
Proof.
  intros Hnd. pose proof (st_fits _ _ _ _ _ _ Hst) as Hf. unfold fits in Hf.
  apply andb_true_iff in Hf as [Hf _]. rewrite forallb_forall in Hf.
  apply (Hf (q, nd)). by rewrite <- list_elem_of_In, elem_of_map_to_list.
Qed.

(** The state after component [comp] of node [pid] reacted, from what the step does to it. *)
Ltac state_tac Hnd Hq :=
  split;
  [ apply fits_reacted; [by apply Hst|cbn; try (by eapply node_fits)|exact Hq]
  | apply reacted_batch_timer; [exact Hq|by apply Hst]
  | intros q' Hq'; try (eapply update_other; [reflexivity|exact Hnd|reflexivity|by apply Hst])
  | try (eapply update_other; [reflexivity|exact Hnd|reflexivity|by apply Hst])
  | try (eapply update_other; [reflexivity|exact Hnd|reflexivity|by apply Hst])
  | try (eapply update_other; [reflexivity|exact Hnd|reflexivity|by apply Hst])
  | intros q' Hq'; try (eapply update_other; [reflexivity|exact Hnd|reflexivity|by apply Hst]) ].

(** Packets that a step adds to the network. *)
Definition sends (s' : Sys) (self : ActorPath) (effs : list Effect) : Prop :=
  forall dst msg, Tell dst msg ∈ effs -> mkPacket self dst msg ∈ net s'.

(** A delivery to component [comp] of node [pid] that leaves the node as [nd']. *)
Ltac deliver_tac comp pid nd' effs Hr Hqu Hnd :=
  exists (reacted s comp pid nd' effs); try exists effs; split;
  [ eapply deliver_reaches; [by apply Hst|by auto|exact Hnd|eassumption|done|simpl; by rewrite Hr]
  | try (split; [eassumption|split; [by intros ? ?; apply reacted_tell|]]); state_tac Hnd Hqu ].

Lemma acceptor_step src q msg (Q : list Effect -> Prop) :
  q ∈ live -> mkPacket src (path ACCEPTOR q) (MAcceptor msg) ∈ net s ->
  (forall a, PA q a -> exists a' effs, Acceptor.receive_network a msg = Some (a', effs) /\
     PA q a' /\ Forall effect_quiet effs /\ Q effs) ->
  exists s' effs, reaches (serving live m) s [] s' /\ Q effs /\ sends s' (path ACCEPTOR q) effs /\ state s' PA PL PP PB PR.
Proof.
  intros Hq Hp Hstep. destruct (st_acceptor _ _ _ _ _ _ Hst q Hq) as (nd & Hnd & Ha).
  apply Hstep in Ha as (a' & effs & Hr & Ha' & Hqu & Hout).
  deliver_tac ACCEPTOR q (set_acceptor nd a') effs Hr Hqu Hnd.
  eapply update_self; [reflexivity|by intros ->|done|by apply Hst].
Qed.

Lemma leader_step src msg (Q : list Effect -> Prop) PL' :
  mkPacket src (path LEADER m) (MLeader msg) ∈ net s ->
  (forall l, PL l -> exists l' effs, Leader.receive_network l src msg = Some (l', effs) /\
     Leader.chosen_watermark l <= Leader.next_slot l /\ PL' l' /\ leader_fits l' = true /\
     Forall effect_quiet effs /\ Q effs) ->
  exists s' effs, reaches (serving live m) s [] s' /\ Q effs /\ sends s' (path LEADER m) effs /\ state s' PA PL' PP PB PR.
Proof.
  intros Hp Hstep. destruct (st_leader _ _ _ _ _ _ Hst) as (nd & Hnd & Hl).
  apply Hstep in Hl as (l' & effs & Hr & Hw & Hl' & Hf & Hqu & Hout).
  deliver_tac LEADER m (set_leader nd l') effs Hr Hqu Hnd; [done|].
  eapply update_self; [reflexivity|done|by intros ? []|by apply Hst].
Qed.

(** The election port of the leader. *)
Lemma elected_step src (Q : list Effect -> Prop) PL' :
  mkPacket src (path LEADER m) (MElection m) ∈ net s ->
  (forall l, PL l -> exists l' effs, Leader.handle l m = Some (l', effs) /\
     PL' l' /\ leader_fits l' = true /\
     Forall effect_quiet effs /\ Q effs) ->
  exists s' effs, reaches (serving live m) s [] s' /\ Q effs /\ sends s' (path LEADER m) effs /\ state s' PA PL' PP PB PR.
Proof.
  intros Hp Hstep. destruct (st_leader _ _ _ _ _ _ Hst) as (nd & Hnd & Hl).
  apply Hstep in Hl as (l' & effs & Hr & Hl' & Hf & Hqu & Hout).
  deliver_tac LEADER m (set_leader nd l') effs Hr Hqu Hnd; [done|].
  eapply update_self; [reflexivity|done|by intros ? []|by apply Hst].
Qed.

(** The leader hands a proposal to its proxy leader; an acceptor votes. *)
Lemma relay_step src p2a (Q : list Effect -> Prop) PP' :
  mkPacket src (path PROXY_LEADER m) (MProxyLocal (PI_Phase2a p2a)) ∈ net s ->
  (forall p, PP p -> exists p' effs, ProxyLeader.handle_phase2a p p2a = (p', effs) /\
     PP' p' /\ Forall effect_quiet effs /\ Q effs) ->
  exists s' effs, reaches (serving live m) s [] s' /\ Q effs /\ sends s' (path PROXY_LEADER m) effs /\ state s' PA PL PP' PB PR.
Proof.
  intros Hp Hstep. destruct (st_proxy _ _ _ _ _ _ Hst) as (nd & Hnd & Hx).
  apply Hstep in Hx as (p' & effs & Hr & Hp' & Hqu & Hout).
  deliver_tac PROXY_LEADER m (set_proxy_leader nd p') effs Hr Hqu Hnd.
  eapply update_self; [reflexivity|done|by intros ? []|by apply Hst].
Qed.

Lemma vote_step src p2b (Q : list Effect -> Prop) PP' :
  mkPacket src (path PROXY_LEADER m) (MProxy (PI_Phase2b p2b)) ∈ net s ->
  (forall p, PP p -> exists p' effs, ProxyLeader.handle_phase2b p p2b = (p', effs) /\
     PP' p' /\ Forall effect_quiet effs /\ Q effs) ->
  exists s' effs, reaches (serving live m) s [] s' /\ Q effs /\ sends s' (path PROXY_LEADER m) effs /\ state s' PA PL PP' PB PR.
Proof.
  intros Hp Hstep. destruct (st_proxy _ _ _ _ _ _ Hst) as (nd & Hnd & Hx).
  apply Hstep in Hx as (p' & effs & Hr & Hp' & Hqu & Hout).
  deliver_tac PROXY_LEADER m (set_proxy_leader nd p') effs Hr Hqu Hnd.
  eapply update_self; [reflexivity|done|by intros ? []|by apply Hst].
Qed.

Lemma batcher_step src msg PB' :
  mkPacket src (path BATCHER m) (MBatcher msg) ∈ net s ->
  (forall b, PB b -> exists b' effs, Batcher.receive_network b msg = Some (b', effs) /\
     PB' b' /\ Forall effect_quiet effs) ->
  exists s', reaches (serving live m) s [] s' /\ state s' PA PL PP PB' PR.
Proof.
  intros Hp Hstep. destruct (st_batcher _ _ _ _ _ _ Hst) as (nd & Hnd & Hb).
  apply Hstep in Hb as (b' & effs & Hr & Hb' & Hqu).
  deliver_tac BATCHER m (set_batcher nd b') effs Hr Hqu Hnd.
  eapply update_self; [reflexivity|done|by intros ? []|by apply Hst].
Qed.

Lemma replica_step src q msg (Q : list Effect -> Prop) PR' :
  q ∈ live -> mkPacket src (path REPLICA q) (MReplica msg) ∈ net s ->
  (forall q' r, q' <> q -> PR q' r -> PR' q' r) ->
  (forall r, PR q r -> exists r' effs, Replica.receive_network r msg 0 = Some (r', effs) /\
     PR' q r' /\ Forall effect_quiet effs /\ Q effs) ->
  exists s' effs, reaches (serving live m) s [] s' /\ Q effs /\ sends s' (path REPLICA q) effs /\ state s' PA PL PP PB PR'.
Proof.
  intros Hq Hp Hi Hstep. destruct (st_replica _ _ _ _ _ _ Hst q Hq) as (nd & Hnd & Hr).
  apply Hstep in Hr as (r' & effs & Hr & Hr' & Hqu & Hout).
  deliver_tac REPLICA q (set_replica nd r') effs Hr Hqu Hnd.
  eapply update_self; [reflexivity|by intros ->| |by apply Hst]. by eauto.
Qed.

(** The election port of the replica. *)
Lemma replica_election_step src PR' :
  mkPacket src (path REPLICA m) (MElection m) ∈ net s ->
  (forall q' r, q' <> m -> PR q' r -> PR' q' r) ->
  (forall r, PR m r -> PR' m (Replica.handle r m)) ->
  exists s', reaches (serving live m) s [] s' /\ state s' PA PL PP PB PR'.
Proof.
  intros Hp Hi Hstep. destruct (st_replica _ _ _ _ _ _ Hst m Hm) as (nd & Hnd & Hr).
  exists (reacted s REPLICA m (set_replica nd (Replica.handle (replica_comp nd) m)) []). split.
  - eapply deliver_reaches; try done. apply Hst.
  - state_tac Hnd (Forall_nil_2 effect_quiet).
  eapply update_self; [reflexivity| | |by apply Hst].
    + intros ->. by apply Hstep.
    + by eauto.
Qed.

(** The batch timer and the proposals of clients. *)
Lemma batch_timer_step (Q : list Effect -> Prop) PB' :
  (forall b, PB b -> exists b' effs, Batcher.batch_timeout b = Some (b', effs) /\
     PB' b' /\ Forall effect_quiet effs /\ Q effs) ->
  exists s' effs, reaches (serving live m) s [] s' /\ Q effs /\ sends s' (path BATCHER m) effs /\ state s' PA PL PP PB' PR.
Proof.
  intros Hstep. destruct (st_batcher _ _ _ _ _ _ Hst) as (nd & Hnd & Hb).
  apply Hstep in Hb as (b' & effs & Hr & Hb' & Hqu & Hout).
  destruct (timer_reaches (serving live m) s BATCHER m TBatch nd (set_batcher nd b') effs) as (ts & Hre & Hts);
    [by apply Hst|by auto|done|done|by apply Hst|by simpl; rewrite Hr|].
  eexists _, effs. split; [exact Hre|]. split_and!; [done| |].
  - by intros dst msg'; apply reacted_tell.
  - split; try (intros q' Hq'); try (eapply update_other; [reflexivity|exact Hnd|reflexivity|by apply Hst]).
    + apply fits_reacted; [by apply Hst|cbn; by eapply node_fits|exact Hqu].
    + apply reacted_batch_timer; [done|]. apply Hts; [by apply Hst|by right].
    + eapply update_self; [reflexivity|done|by intros ? []|by apply Hst].
Qed.

Lemma propose_step p PB' :
  (forall b, PB b -> PB' (Batcher.receive_local b p)) ->
  exists s', reaches (serving live m) s [(m, p)] s' /\ state s' PA PL PP PB' PR.
Proof.
  intros Hstep. destruct (st_batcher _ _ _ _ _ _ Hst) as (nd & Hnd & Hb).
  exists (update_node s m (node_propose nd p)). split.
  - apply propose_reaches; [by apply Hst|done|done].
  - split; try (intros q' Hq'); try (eapply update_other; [reflexivity|exact Hnd|reflexivity|by apply Hst]).
    + apply fits_update; [by apply Hst|]. cbn. by eapply node_fits.
    + by apply Hst.
    + eapply update_self; [reflexivity| |by intros ? []|by apply Hst]. intros _. by apply Hstep.
Qed.
End steps.
End schedule.
