(* ===== verification/MpSteady.v ===== *)
(** Phase 1, the votes for a slot and the chosen values, as rounds over the live nodes.

    The building blocks of [MpProgress]: for a set [live] with a majority of the nodes and a node [m]
    of it, what the components of the live nodes do in a schedule in which [m] leads.  Each component
    has a record of what the schedule needs to know of it and lemmas on its handlers;
    [phase1_reaches], [votes_reaches] and [learn_reaches] are the three rounds, [batches_reach] gets
    one batch after the other chosen, logged and answered. *)

From S2P Require Import Prelude MpMessages Partition MpUtil.
From S2P Require Import MpAcceptor MpProxyLeader MpLeader MpReplica MpBatcher MpParticipant.
From S2P Require Import MpSystem MpInv MpFrame MpSafety MpRuns.

Section steady.
Context {iter : IterationId} (n : nat) (live : gset Z) (m : Z).
Context (Hn : Z.of_nat n < 2 ^ 61) (Hlive : is_quorum n live) (Hm : m ∈ live).
Local Abbreviation N := (Z.of_nat n).
Local Abbreviation path comp q := (mkPath comp q ITERATION).

Lemma live_pids q : q ∈ live -> 1 <= q <= N.
Proof. intros Hq. apply elem_of_pids. by apply Hlive. Qed.

(** ** The components

    Each record holds what the schedule needs to know of a component of a live node; [r] is the round
    of the leader [m]. *)

(** An acceptor that promised and voted in rounds up to [r] and in slots below [k]. *)
Record acceptor_up (r : Z) (k : nat) (q : Z) (a : Acceptor.t) : Prop := {
  au_index : Acceptor.index a = q;
  au_round : Acceptor.round a <= r;
  au_leader : forall q', q' ∈ pids n -> Acceptor.leaders a !! q' = Some (path LEADER q');
  au_proxy : forall q', q' ∈ pids n -> Acceptor.proxy_leaders a !! q' = Some (path PROXY_LEADER q');
  au_links : disconnected_peers (Acceptor.links a) = [];
  au_slots : forall sl st, Acceptor.states a !! sl = Some st -> 0 <= sl < Z.of_nat k }.

(** The acceptors of [voted] voted for the last of the [k] slots. *)
Definition acceptor_seen (r : Z) (k : nat) (voted : gset Z) (q : Z) (a : Acceptor.t) : Prop :=
  acceptor_up r k q a /\
  (q ∈ voted -> (0 < k)%nat -> is_Some (Acceptor.states a !! (Z.of_nat k - 1))).

(** What such an acceptor reports in phase 1. *)
Definition reports (k : nat) (voted : gset Z) (q : Z) (info : list Phase1bSlotInfo) : Prop :=
  (forall i, i ∈ info -> 0 <= info_slot i < Z.of_nat k) /\
  (q ∈ voted -> (0 < k)%nat -> exists i, i ∈ info /\ info_slot i = Z.of_nat k - 1).

Lemma reports_fit k voted q r info :
  reports k voted q info -> Z.of_nat k < 2 ^ 62 -> msg_fits (P1B q r info) = true.
Proof.
  intros [Hi _] Hk. simpl. apply forallb_forall. intros i Hin%list_elem_of_In. apply Hi in Hin.
  unfold small. by rewrite (proj2 (Z.leb_le _ _)), (proj2 (Z.ltb_lt _ _)) by lia.
Qed.

Lemma m_pids : m ∈ pids n.
Proof. by apply Hlive. Qed.

Lemma promise_effect r k voted q a :
  acceptor_seen r k voted q a ->
  exists a' info, Acceptor.receive_network a (AI_Phase1a (mkPhase1a m r 0)) =
      Some (a', [Tell (path LEADER m) (P1B q r info)]) /\
    acceptor_seen r k voted q a' /\ reports k voted q info.
Proof.
  intros [[Hi Hr Hl Hp Hd Hs] Hv]. simpl. unfold Acceptor.handle_phase1a. simpl.
  rewrite (Hl m m_pids). cbn [mbind option_bind]. rewrite Hd, bool_decide_false by set_solver.
  destruct (Z.ltb_spec r (Acceptor.round a)); [lia|]. cbn [mbind option_bind].
  rewrite Hi. eexists _, _. split; [reflexivity|]. split; [by split; [split|]|]. split.
  - intros i (st & Hst & _)%Acceptor.elem_of_slot_infos. by eapply Hs.
  - intros Hq Hk. destruct (Hv Hq Hk) as [st Hst].
    exists (Acceptor.slot_info (Z.of_nat k - 1, st)). split; [|done].
    apply Acceptor.elem_of_slot_infos. exists st. simpl. split_and!; [done|lia|done..].
Qed.

Lemma vote_effect r K q k v a :
  acceptor_up r K q a -> (k < K)%nat ->
  exists a', Acceptor.receive_network a (AI_Phase2a (mkPhase2a m (Z.of_nat k) r v)) =
      Some (a', [Tell (path PROXY_LEADER m) (VOTE q (Z.of_nat k) r)]) /\ acceptor_up r K q a'.
Proof.
  intros [Hi Hr Hl Hp Hd Hs] Hk. simpl. unfold Acceptor.handle_phase2a. simpl.
  rewrite Hd, bool_decide_false by set_solver.
  destruct (Z.ltb_spec r (Acceptor.round a)); [lia|]. rewrite (Hp m m_pids). cbn [mbind option_bind].
  rewrite Hi. eexists. split; [reflexivity|]. split; try done. intros sl st. simpl.
  rewrite lookup_insert_Some. intros [[<- _]|[_ Hst]]; [lia|by eapply Hs].
Qed.

Lemma acceptor_up_weaken r r' k k' q a :
  acceptor_up r k q a -> r <= r' -> (k <= k')%nat -> acceptor_up r' k' q a.
Proof. intros [] Hr Hk. split; try done; [lia|]. intros sl st Hst%au_slots0. lia. Qed.

Record leader_at (st : Leader.State) (r k : Z) (l : Leader.t) : Prop := {
  la_index : Leader.index l = m;
  la_system : Leader.round_system l = ClassicRoundRobin.mk N;
  la_state : Leader.state l = st;
  la_round : Leader.round l = r;
  la_slot : Leader.next_slot l = k;
  la_watermark : Leader.chosen_watermark l = 0;
  la_majority : Leader.majority l = quorum_size n;
  la_acceptors : forall q, q ∈ live -> Leader.acceptors l !! q = Some (path ACCEPTOR q);
  la_pending : Leader.pending_client_request_batches l = [];
  la_proxy : Leader.proxy_leader l = path PROXY_LEADER m;
  la_batcher : Leader.local_batcher l = Some (path BATCHER m);
  la_links : disconnected_peers (Leader.links l) = [];
  la_resend : forall t, Leader.resend_phase1as l = Some t -> t <> TBatch;
  la_flush : Leader.noop_flush_timer l = None }.

Lemma leader_at_fits st r k l :
  leader_at st r k l -> 0 <= r < 2 ^ 62 -> 0 <= k < 2 ^ 62 -> leader_fits l = true.
Proof.
  intros [] Hr Hk. unfold leader_fits, small. simplify_eq. rewrite la_pending0. simpl.
  repeat (rewrite (proj2 (Z.leb_le _ _)) by lia). by repeat (rewrite (proj2 (Z.ltb_lt _ _)) by lia).
Qed.

(** The answers of phase 1 so far come from the acceptors [done]. *)
Definition collected (k : nat) (voted : gset Z) (done : list Z) (l : Leader.t) : Prop :=
  dom (Leader.phase1bs l) = list_to_set done /\
  forall a p, Leader.phase1bs l !! a = Some p -> reports k voted a (p1b_info p).

Definition leader_collecting (r : Z) (k : nat) (voted : gset Z) (done : list Z) (l : Leader.t) : Prop :=
  if (length done <? quorum_size n)%nat
  then leader_at Leader.Phase1 r 0 l /\ collected k voted done l
  else leader_at Leader.Phase2 r (Z.of_nat k) l.

(** The proposals with which a leader of round [r] opens phase 2, one for every slot below [k]. *)
Definition reproposes (r : Z) (w : list CommandBatchOrNoop) (out : ActorPath -> NetMsg -> Prop) : Prop :=
  forall i v, w !! i = Some v -> out (path PROXY_LEADER m) (P2A m (Z.of_nat i) r v).

(** What the answers of a quorum say about the last slot. *)
Lemma collected_max k voted done l :
  collected k voted done l -> (forall q, q ∈ done -> q ∈ live) -> NoDup done ->
  (quorum_size n <= length done)%nat -> ((0 < k)%nat -> is_quorum n voted) ->
  Leader.max_phase1b_slots l = if decide (k = 0%nat) then None else Some (Z.of_nat k - 1).
Proof.
  intros [Hdom Hrep] Hin Hnd Hlen Hq. pose proof (Leader.max_phase1b_slots_spec l) as Hmax.
  case_decide as Hk.
  - destruct (Leader.max_phase1b_slots l) as [x|]; [|done].
    destruct Hmax as [(a & p & e & Hp & He & _) _]. apply Hrep in Hp as [Hslots _].
    apply Hslots in He. lia.
  - destruct (quorum_intersect n (list_to_set done) voted) as (a & Ha & Hav).
    + split; [|by rewrite size_list_to_set]. intros q Hqd%elem_of_list_to_set.
      by apply Hlive, Hin.
    + apply Hq. lia.
    + rewrite <- Hdom in Ha. apply elem_of_dom in Ha as [p Hp]. destruct (Hrep a p Hp) as [_ Hlast].
      destruct (Hlast Hav ltac:(lia)) as (e & He & Hslot).
      destruct (Leader.max_phase1b_slots l) as [x|]; [|by destruct (Hmax a p e Hp)].
      destruct Hmax as [(a' & p' & e' & Hp' & He' & <-) Hle]. specialize (Hle a p e Hp He).
      apply Hrep in Hp' as [Hslots _]. apply Hslots in He'. f_equal. lia.
Qed.

Lemma phase1b_done_effect r k l :
  leader_at Leader.Phase1 r 0 l -> Z.of_nat k < 2 ^ 62 ->
  Leader.max_phase1b_slots l = (if decide (k = 0%nat) then None else Some (Z.of_nat k - 1)) ->
  exists l' effs, Leader.handle_phase1b_done l (path BATCHER m) = (l', effs) /\
    leader_at Leader.Phase2 r (Z.of_nat k) l' /\ Forall effect_quiet effs /\
    Tell (path BATCHER m) (MBatcher (BI_LeaderInfoReplyBatcher r)) ∈ effs /\
    exists w, length w = k /\ reproposes r w (fun dst msg => Tell dst msg ∈ effs).
Proof.
  intros Hl Hk Hmax. unfold Leader.handle_phase1b_done. rewrite Hmax.
  set (pr := match (if decide (k = 0%nat) then None else _) with Some _ => _ | None => _ end).
  assert (exists w, length w = k /\ leader_at Leader.Phase1 r (Z.of_nat k) pr.1 /\
    Leader.resend_phase1as pr.1 = Leader.resend_phase1as l /\ Forall effect_quiet pr.2 /\
    reproposes r w (fun dst msg => Tell dst msg ∈ pr.2)) as (w & Hw & Hl1 & Hrs & Hq1 & Hout).
  { subst pr. case_decide as Hk0; simpl.
    - exists []. subst k. by split_and!.
    - exists (map (Leader.safe_value (Leader.phase1b_values l)) (seqZ 0 (Z.of_nat k))).
      rewrite u64_add_small by lia. replace (Z.of_nat k - 1 + 1) with (Z.of_nat k) by lia.
      split_and!; [by rewrite length_map, length_seqZ, Nat2Z.id|by destruct Hl|done| |].
      + apply Forall_map. by apply Forall_forall.
      + intros i v. rewrite list_lookup_fmap. intros (sl & [Hsl Hi]%lookup_seqZ & ->)%fmap_Some.
        rewrite Z.add_0_l in Hsl. subst sl. apply list_elem_of_fmap. exists (Z.of_nat i).
        rewrite (la_proxy _ _ _ _ Hl), (la_index _ _ _ _ Hl), (la_round _ _ _ _ Hl), (la_watermark _ _ _ _ Hl).
        split; [done|]. apply elem_of_seqZ. lia. }
  destruct pr as [l1 e1]. cbn [fst snd] in *.
  unfold Leader.stop_resend_phase1as. rewrite Hrs. rewrite (la_round _ _ _ _ Hl).
  destruct (Leader.resend_phase1as l) as [t|] eqn:Ht;
    cbn; rewrite (la_pending _ _ _ _ Hl1); cbn;
    (eexists _, _; split; [reflexivity|]; split; [by destruct Hl1|]; split; [|split; [set_solver|]]);
    try (exists w; split; [done|]; intros i v Hi; specialize (Hout i v Hi); set_solver).
  - apply (la_resend _ _ _ _ Hl) in Ht. repeat (apply Forall_cons; split; [done|]).
    apply Forall_app. split; [done|]. repeat constructor. by destruct t.
  - repeat (apply Forall_cons; split; [done|]). apply Forall_app. split; [done|]. by repeat constructor.
Qed.

(** One answer more; the last one needed opens phase 2. *)
Lemma collect_effect r k voted done q info l src :
  leader_collecting r k voted done l -> NoDup (done ++ [q]) -> (forall q', q' ∈ done ++ [q] -> q' ∈ live) ->
  reports k voted q info -> ((0 < k)%nat -> is_quorum n voted) -> 0 <= r < 2 ^ 62 -> Z.of_nat k < 2 ^ 62 ->
  exists l' effs, Leader.receive_network l src (LI_Phase1b (mkPhase1b q r info)) = Some (l', effs) /\
    Leader.chosen_watermark l <= Leader.next_slot l /\
    leader_collecting r k voted (done ++ [q]) l' /\ leader_fits l' = true /\ Forall effect_quiet effs /\
    (S (length done) = quorum_size n ->
     Tell (path BATCHER m) (MBatcher (BI_LeaderInfoReplyBatcher r)) ∈ effs /\
     exists w, length w = k /\ reproposes r w (fun dst msg => Tell dst msg ∈ effs)).
Proof.
  intros Hl Hnd' Hin Hrep Hvq Hr Hk. pose proof Hnd' as [Hnd [Hnew _]]%NoDup_app.
  unfold leader_collecting in *.
  assert (q ∉ done) as Hq by (intros Hq; by apply (Hnew q Hq), list_elem_of_here).
  assert (length (done ++ [q]) = S (length done)) as Hlen by (rewrite length_app; simpl; lia).
  rewrite Hlen. simpl Leader.receive_network. unfold Leader.handle_phase1b.
  destruct (Nat.ltb_spec (length done) (quorum_size n)) as [Hlt|Hge].
  - destruct Hl as [Hl [Hdom Hinfo]]. pose proof (la_state _ _ _ _ Hl) as ->.
    cbn [p1b_round p1b_acceptor_index]. rewrite (la_round _ _ _ _ Hl), Z.eqb_refl. cbn [negb].
    set (l1 := Leader.set_phase1bs l _).
    assert (leader_at Leader.Phase1 r 0 l1) as Hl1 by (by destruct Hl).
    assert (collected k voted (done ++ [q]) l1) as Hc.
    { split; [simpl; rewrite dom_insert_L, Hdom, list_to_set_app_L; set_solver|].
      intros a p. simpl. rewrite lookup_insert. case_decide; [by intros [= <-]; subst|apply Hinfo]. }
    assert (size (Leader.phase1bs l1) = S (length done)) as Hsize.
    { rewrite <- size_dom. destruct Hc as [-> _]. by rewrite size_list_to_set. }
    rewrite Hsize, (la_majority _ _ _ _ Hl1), (la_watermark _ _ _ _ Hl), (la_slot _ _ _ _ Hl).
    destruct (Nat.ltb_spec (S (length done)) (quorum_size n)) as [Hlt'|Hge'].
    + exists l1, []. split_and!; try done; [by eapply leader_at_fits; [done|lia..]|lia].
    + rewrite (la_batcher _ _ _ _ Hl1). cbn [mbind option_bind].
      destruct (phase1b_done_effect r k l1 Hl1 Hk) as (l' & effs & -> & Hl' & Hq' & Ht & Hw).
      { apply (collected_max k voted (done ++ [q])); try done. by rewrite Hlen. }
      exists l', effs. split_and!; try done. by eapply leader_at_fits; [done|lia..].
  - rewrite (la_state _ _ _ _ Hl). exists l, []. rewrite (proj2 (Nat.ltb_ge _ _)) by lia.
    rewrite (la_watermark _ _ _ _ Hl), (la_slot _ _ _ _ Hl).
    split_and!; try done; [lia|by eapply leader_at_fits; [done|lia..]|lia].
Qed.

(** The leader in phase 2 proposes a batch in its next slot. *)
Lemma request_effect r k l src batch :
  leader_at Leader.Phase2 r k l -> 0 <= r < 2 ^ 62 -> 0 <= k < 2 ^ 62 - 1 ->
  exists l', Leader.receive_network l src (LI_ClientRequestBatch batch) =
      Some (l', [Tell (path PROXY_LEADER m) (P2A m k r (CommandBatch (map proposal_data batch)))]) /\
    leader_at Leader.Phase2 r (k + 1) l' /\ leader_fits l' = true.
Proof.
  intros Hl Hr Hk. simpl. unfold Leader.handle_client_request_batch.
  rewrite (la_state _ _ _ _ Hl). unfold Leader.process_client_request_batch.
  rewrite (la_index _ _ _ _ Hl), (la_slot _ _ _ _ Hl), (la_round _ _ _ _ Hl), (la_proxy _ _ _ _ Hl).
  rewrite u64_add_small by lia. eexists. split; [reflexivity|].
  assert (leader_at Leader.Phase2 r (k + 1) (Leader.set_next_slot l (k + 1))) as Hl' by (by destruct Hl).
  split; [done|]. eapply leader_at_fits; [done|lia..].
Qed.

Record proxy_up (r k : Z) (p : ProxyLeader.t) : Prop := {
  pu_acceptors : forall q, q ∈ live -> ProxyLeader.acceptors p !! q = Some (path ACCEPTOR q);
  pu_replicas : forall q, q ∈ live -> ProxyLeader.replicas p !! q = Some (path REPLICA q);
  pu_majority : ProxyLeader.majority p = quorum_size n;
  pu_links : disconnected_peers (ProxyLeader.links p) = [];
  pu_free : forall sl, k <= sl -> ProxyLeader.states p !! (sl, r) = None }.

(** The votes for the slot so far come from the acceptors [done]. *)
Definition proxy_counting (r k : Z) (v : CommandBatchOrNoop) (done : list Z) (p : ProxyLeader.t) : Prop :=
  proxy_up r (k + 1) p /\
  if (length done <? quorum_size n)%nat
  then exists bs, ProxyLeader.states p !! (k, r) = Some (ProxyLeader.Pending (mkPhase2a m k r v) bs) /\
         dom bs = list_to_set done
  else ProxyLeader.states p !! (k, r) = Some ProxyLeader.Done.

Lemma elem_of_live_broadcast peers disc comp q msg :
  q ∈ live -> (forall q, q ∈ live -> peers !! q = Some (path comp q)) -> disc = [] ->
  Tell (path comp q) msg ∈ broadcast peers disc msg.
Proof.
  intros Hq Hp ->. apply elem_of_broadcast. exists q, (path comp q). split_and!; [by apply Hp| |done].
  apply not_elem_of_nil.
Qed.

Lemma proxy_up_set r k p st :
  proxy_up r k p -> proxy_up r (k + 1) (ProxyLeader.set_states p (<[(k, r) := st]> (ProxyLeader.states p))).
Proof.
  intros []. split; try done. intros sl Hsl. simpl.
  rewrite lookup_insert_ne by (intros [= Heq]; lia).
  apply pu_free0. lia.
Qed.

Lemma relay_effect r k v p :
  proxy_up r k p ->
  exists p' effs, ProxyLeader.handle_phase2a p (mkPhase2a m k r v) = (p', effs) /\
    proxy_counting r k v [] p' /\ Forall effect_quiet effs /\
    forall q, q ∈ live -> Tell (path ACCEPTOR q) (A2A m k r v) ∈ effs.
Proof.
  intros Hp. unfold ProxyLeader.handle_phase2a. simpl. rewrite (pu_free _ _ _ Hp) by lia.
  eexists _, _. split; [reflexivity|]. split; [|split].
  - split; [by apply proxy_up_set|]. rewrite (proj2 (Nat.ltb_lt _ _)) by (unfold quorum_size; simpl; lia).
    exists ∅. simpl. by rewrite lookup_insert_eq, dom_empty_L.
  - by apply broadcast_quiet.
  - intros q Hq. apply elem_of_live_broadcast; [done|apply Hp|apply Hp].
Qed.

Lemma count_effect r k v done q p :
  proxy_counting r k v done p -> NoDup (done ++ [q]) ->
  exists p' effs, ProxyLeader.handle_phase2b p (mkPhase2b q k r) = (p', effs) /\
    proxy_counting r k v (done ++ [q]) p' /\ Forall effect_quiet effs /\
    (S (length done) = quorum_size n -> forall q, q ∈ live ->
     Tell (path REPLICA q) (CHOSEN k v) ∈ effs).
Proof.
  intros [Hp Hst] [Hnd [Hnew _]]%NoDup_app.
  assert (q ∉ done) as Hq by (intros Hq; by apply (Hnew q Hq), list_elem_of_here).
  unfold proxy_counting, ProxyLeader.handle_phase2b. simpl. rewrite length_app.
  change (length [q]) with 1%nat.
  destruct (Nat.ltb_spec (length done) (quorum_size n)) as [Hlt|Hge].
  - destruct Hst as (bs & -> & Hdom). cbn [p2a_value].
    assert (size (<[q := mkPhase2b q k r]> bs) = S (length done)) as ->.
    { rewrite map_size_insert_None by (apply not_elem_of_dom; rewrite Hdom; set_solver).
      by rewrite <- size_dom, Hdom, size_list_to_set. }
    rewrite (pu_majority _ _ _ Hp).
    assert (forall st, proxy_up r (k + 1) (ProxyLeader.set_states p
      (<[(k, r) := st]> (ProxyLeader.states p)))) as Hset.
    { intros st. destruct Hp. split; try done. intros sl Hsl. simpl.
      rewrite lookup_insert_ne by (intros [= Heq]; lia). by apply pu_free0. }
    destruct (Nat.ltb_spec (S (length done)) (quorum_size n)) as [Hlt'|Hge'];
      (eexists _, _; split; [reflexivity|]; split; [split; [apply Hset|]|split]).
    + rewrite (proj2 (Nat.ltb_lt _ _)) by lia. eexists. simpl. rewrite lookup_insert_eq.
      split; [reflexivity|]. rewrite dom_insert_L, Hdom, list_to_set_app_L. set_solver.
    + done.
    + lia.
    + rewrite (proj2 (Nat.ltb_ge _ _)) by lia. simpl. by rewrite lookup_insert_eq.
    + by apply broadcast_quiet.
    + intros _ q' Hq'. apply elem_of_live_broadcast; [done|apply Hp|apply Hp].
  - rewrite Hst. exists p, []. rewrite (proj2 (Nat.ltb_ge _ _)) by lia. split_and!; try done. lia.
Qed.

(** The batcher of [m] holds [held] and takes the owner of its round for the leader. *)
Record batcher_up (held : list Proposal) (b : Batcher.t) : Prop := {
  bu_held : Batcher.growing_batch b = held;
  bu_system : Batcher.round_system b = ClassicRoundRobin.mk N;
  bu_round : owner N (Batcher.round b) = m;
  bu_leader : Batcher.leaders b !! m = Some (path LEADER m);
  bu_links : disconnected_peers (Batcher.links b) = [] }.

Lemma batch_effect held b :
  batcher_up held b -> held <> [] ->
  exists b', Batcher.batch_timeout b =
      Some (b', [Tell (path LEADER m) (MLeader (LI_ClientRequestBatch held))]) /\ batcher_up [] b'.
Proof.
  intros [] Hne. unfold Batcher.batch_timeout. rewrite bu_held0. destruct held as [|p held]; [done|].
  pose proof (live_pids m Hm).
  rewrite bu_system0, ClassicRoundRobin.leader_owner, bu_round0 by lia. cbn [mbind option_bind].
  rewrite bu_links0, bool_decide_false by set_solver. rewrite bu_leader0. cbn [mbind option_bind].
  eexists. split; [reflexivity|]. by split.
Qed.

(** A batcher that just started, and what it learns from the leader that completed phase 1. *)
Record batcher_new (b : Batcher.t) : Prop := {
  bn_held : Batcher.growing_batch b = [];
  bn_pending : Batcher.pending_resend_batches b = [];
  bn_system : Batcher.round_system b = ClassicRoundRobin.mk N;
  bn_round : Batcher.round b = 0;
  bn_leader : Batcher.leaders b !! m = Some (path LEADER m);
  bn_links : disconnected_peers (Batcher.links b) = [] }.

Lemma leader_info_effect r b :
  batcher_new b -> 0 < r -> owner N r = m ->
  exists b', Batcher.receive_network b (BI_LeaderInfoReplyBatcher r) = Some (b', []) /\ batcher_up [] b'.
Proof.
  intros [] Hr Ho. pose proof (live_pids m Hm). simpl. unfold Batcher.handle_leader_info.
  rewrite bn_round0. destruct (Z.leb_spec r 0); [lia|]. simpl.
  rewrite bn_system0, !ClassicRoundRobin.leader_owner by lia. cbn [mbind option_bind]. rewrite Ho.
  destruct (_ =? m); [eexists; split; [reflexivity|by split]|].
  rewrite bn_links0, bool_decide_false by set_solver. rewrite bn_leader0. cbn [mbind option_bind].
  rewrite bn_pending0. eexists. split; [reflexivity|by split].
Qed.

(** A replica that logged and executed exactly the slots of [vals]. *)
Record replica_up (q : Z) (grow : nat) (vals : list CommandBatchOrNoop) (x : Replica.t) : Prop := {
  ru_index : Replica.index x = q;
  ru_every : Replica.send_chosen_watermark_every_n_entries (Replica.options x) <> 0;
  ru_replicas : Replica.num_replicas x <> 0;
  ru_client : Replica.cached_client x = client_path ITERATION;
  ru_base : BufferMap.watermark (Replica.log x) = 0;
  ru_grow : BufferMap.grow_size (Replica.log x) = grow;
  ru_buffer : (length (BufferMap.buffer (Replica.log x)) <= length vals + grow)%nat;
  ru_log : forall sl, 0 <= sl -> BufferMap.get (Replica.log x) sl = vals !! Z.to_nat sl;
  ru_executed : Replica.executed_watermark x = Z.of_nat (length vals);
  ru_chosen : Replica.num_chosen x = Z.of_nat (length vals);
  ru_round : Replica.current_round x = 0;
  ru_leader : q = m -> Replica.current_leader x = m }.

Lemma put_up x q grow vals v :
  replica_up q grow vals x ->
  let log := BufferMap.put (Replica.log x) (Z.of_nat (length vals)) v in
  BufferMap.watermark log = 0 /\ BufferMap.grow_size log = grow /\
  (length (BufferMap.buffer log) <= S (length vals) + grow)%nat /\
  (forall sl, 0 <= sl -> BufferMap.get log sl = (vals ++ [v]) !! Z.to_nat sl).
Proof.
  intros [] log. split_and!.
  - subst log. by rewrite BufferMap.put_watermark.
  - subst log. unfold BufferMap.put. by repeat case_match.
  - subst log. unfold BufferMap.put, BufferMap.normalize. simpl. rewrite ru_base0.
    destruct (Z.leb_spec 0 (Z.of_nat (length vals))); [|lia].
    destruct (Z.ltb_spec (Z.of_nat (length vals) - 0)
      (Z.of_nat (length (BufferMap.buffer (Replica.log x))))); simpl; rewrite length_insert; [lia|].
    rewrite length_app, length_replicate. lia.
  - intros sl Hsl. subst log. rewrite BufferMap.get_put by lia. case_decide as Heq.
    + subst sl. rewrite Nat2Z.id, lookup_app_r, Nat.sub_diag by lia. done.
    + rewrite ru_log0 by done. destruct (decide (Z.to_nat sl < length vals)%nat).
      * by rewrite lookup_app_l.
      * rewrite lookup_ge_None_2 by lia. rewrite lookup_ge_None_2; [done|]. rewrite length_app. simpl. lia.
Qed.

Lemma announced_quiet x from to : Forall effect_quiet (Replica.announced_between x from to).
Proof.
  unfold Replica.announced_between. apply Forall_bind, Forall_forall. intros w _. simpl.
  set (o := Replica.announce_watermark _). destruct o as [effs|] eqn:H; [|constructor].
  subst o. unfold Replica.announce_watermark in H. handler_inv H; [by apply broadcast_quiet|constructor..].
Qed.

(** The commands of a value, and the answer of the replica of [m] to one of them. *)
Definition answer_of (data : ProposalType) : NetMsg := MProposalResp (mkProposalResp data m 0).

Definition commands_of (v : CommandBatchOrNoop) : list ProposalType :=
  match v with CommandBatch batch => batch | Noop => [] end.

Lemma chosen_effect x q grow vals v :
  replica_up q grow vals x -> Z.of_nat (length vals) + Z.of_nat grow < 2 ^ 62 ->
  exists x' effs,
    Replica.receive_network x (RI_Chosen (mkChosen (Z.of_nat (length vals)) v)) 0 = Some (x', effs) /\
    replica_up q grow (vals ++ [v]) x' /\ Forall effect_quiet effs /\
    (q = m -> forall data, data ∈ commands_of v ->
       Tell (client_path ITERATION) (answer_of data) ∈ effs).
Proof.
  intros Hx Hb. destruct (put_up x q grow vals v Hx) as (Hw & Hg & Hlen & Hget).
  destruct Hx. simpl. unfold Replica.handle_chosen. simpl.
  rewrite ru_log0, Nat2Z.id, lookup_ge_None_2 by lia.
  rewrite ru_executed0, ru_chosen0, Z.eqb_refl, u64_add_small by lia. cbn [negb].
  set (k := Z.of_nat (length vals)) in *. set (log := BufferMap.put _ _ _) in *.
  set (x1 := Replica.set_num_chosen _ _).
  destruct (Replica.execute_log_loop_spec x1) with (fuel := S (length (BufferMap.buffer log)))
    (w := k) (replies := @nil ProposalResp) (effs := @nil Effect) as (w & Hkw & Hex & Hend & Hfull);
    [done|done|change (Replica.log x1) with log; lia..|].
  assert (w = k + 1) as ->.
  { destruct (decide (w <= k)).
    - assert (w = k) as -> by lia. simpl in Hend. rewrite Hget in Hend by lia.
      subst k. by rewrite Nat2Z.id, lookup_app_r, Nat.sub_diag in Hend by lia.
    - destruct (decide (w <= k + 1)); [lia|]. destruct (Hfull (k + 1) ltac:(lia)) as [y Hy].
      simpl in Hy. rewrite Hget in Hy by lia. apply lookup_lt_Some in Hy.
      rewrite length_app in Hy. simpl in Hy. lia. }
  assert (Replica.set_executed_watermark x1 k = x1) as Hid by (by destruct x; simpl in *; subst).
  rewrite Hid in Hex. unfold Replica.execute_log. change (Replica.log x1) with log.
  rewrite Hex. cbn [mbind option_bind]. simpl. rewrite Z.eqb_refl. cbn [negb mbind option_bind].
  eexists _, _. split; [reflexivity|]. split; [|split].
  - split; try done; simpl; rewrite ?length_app; simpl; lia.
  - apply Forall_app. split; [apply announced_quiet|]. apply Forall_app. split; [|constructor].
    apply Forall_map. by apply Forall_forall.
  - intros Hqm data Hd. apply elem_of_app. right. apply elem_of_app. left.
    rewrite ru_client0. apply list_elem_of_fmap. exists (mkProposalResp data m 0). split; [done|].
    unfold Replica.executed. replace (k + 1 - k) with 1 by lia. rewrite (seqZ_cons k 1) by lia.
    cbn [omap list_omap]. simpl.
    rewrite Hget by lia. subst k. rewrite Nat2Z.id, lookup_app_r, Nat.sub_diag by lia. simpl.
    rewrite app_nil_r. unfold Replica.replies_of. simpl. rewrite ru_leader0 by done.
    rewrite ru_index0, Hqm, Z.eqb_refl, ru_round0. destruct v; [|set_solver].
    apply list_elem_of_fmap. by exists data.
Qed.

(** ** Rounds over the live nodes *)

Lemma each_live (I : list Z -> Sys -> Prop) s :
  (forall done q s, q ∈ live -> NoDup (done ++ [q]) -> I done s ->
     exists s', reaches (serving live m) s [] s' /\ I (done ++ [q]) s') ->
  I [] s -> exists s', reaches (serving live m) s [] s' /\ I (elements live) s'.
Proof.
  intros Hstep. pose proof (NoDup_elements live) as Hnd.
  assert (forall q, q ∈ elements live -> q ∈ live) as Hin by (intros q; by rewrite elem_of_elements).
  change (elements live) with ([] ++ elements live) in Hnd |- *. revert Hin Hnd.
  generalize (elements live) as todo. generalize (@nil Z) as done. intros done todo. revert done s.
  induction todo as [|q todo IH]; intros done s Hin Hnd HI.
  - exists s. rewrite app_nil_r. split; [apply reaches_refl|done].
  - rewrite cons_middle, app_assoc in Hnd |- *.
    destruct (Hstep done q s) as (s1 & Hr1 & HI1);
      [apply Hin, list_elem_of_here|by apply NoDup_app in Hnd as [? _]|done|].
    destruct (IH (done ++ [q]) s1) as (s2 & Hr2 & HI2); [|done|done|].
    + intros q' Hq'. apply Hin. by right.
    + exists s2. split; [by eapply reaches_then|done].
Qed.

Lemma quorum_elements : (quorum_size n <= length (elements live))%nat.
Proof. destruct Hlive as [_ Hs]. exact Hs. Qed.

Lemma state_weaken s (PA PA' : Z -> Acceptor.t -> Prop) (PL PL' : Leader.t -> Prop)
    (PP PP' : ProxyLeader.t -> Prop) PB (PR PR' : Z -> Replica.t -> Prop) :
  state live m s PA PL PP PB PR ->
  (forall q a, PA q a -> PA' q a) -> (forall l, PL l -> PL' l) -> (forall p, PP p -> PP' p) ->
  (forall q x, q ∈ live -> PR q x -> PR' q x) ->
  state live m s PA' PL' PP' PB PR'.
Proof.
  assert (forall A (f : Node -> A) q (P P' : A -> Prop), (forall x, P x -> P' x) ->
    holds_at s f q P -> holds_at s f q P') as Hw by (intros A f q P P' ? (nd & ? & ?); exists nd; auto).
  intros [] ????. split; try done; try intros q Hq; eapply Hw; eauto.
Qed.

(** Phase 1 while the acceptors [done] have answered. *)
Record phase1_state (r : Z) (k : nat) (voted : gset Z) (PP : ProxyLeader.t -> Prop)
    (PR : Z -> Replica.t -> Prop) (done : list Z) (s : Sys) : Prop := {
  ps_state : state live m s (acceptor_seen r k voted) (leader_collecting r k voted done) PP batcher_new PR;
  ps_live : forall q, q ∈ done -> q ∈ live;
  ps_p1a : forall q, q ∈ live -> exists src, mkPacket src (path ACCEPTOR q) (P1A m r 0) ∈ net s;
  ps_done : (quorum_size n <= length done)%nat ->
    mkPacket (path LEADER m) (path BATCHER m) (MBatcher (BI_LeaderInfoReplyBatcher r)) ∈ net s /\
    exists w, length w = k /\ reproposes r w (fun dst msg => mkPacket (path LEADER m) dst msg ∈ net s) }.

(** One acceptor promises, and the leader collects its answer. *)
Lemma promise_reaches r k voted PP PR done q s :
  0 < r < 2 ^ 62 -> Z.of_nat k < 2 ^ 62 -> ((0 < k)%nat -> is_quorum n voted) ->
  q ∈ live -> NoDup (done ++ [q]) -> phase1_state r k voted PP PR done s ->
  exists s', reaches (serving live m) s [] s' /\ phase1_state r k voted PP PR (done ++ [q]) s'.
Proof.
  intros Hr Hk Hvq Hq Hnd [Hst Hin Hp1a Hinfo]. destruct (Hp1a q Hq) as [src Hpkt].
  assert (forall q', q' ∈ done ++ [q] -> q' ∈ live) as Hin'.
  { intros q' [Hq'| ->%list_elem_of_singleton]%elem_of_app; [by apply Hin|done]. }
  destruct (acceptor_step live m s _ _ _ _ _ Hst src q (AI_Phase1a (mkPhase1a m r 0))
    (fun effs => exists i, effs = [Tell (path LEADER m) (P1B q r i)] /\ reports k voted q i))
    as (s1 & e1 & Hr1 & (i & -> & Hrep) & Hout1 & Hs1); [done..| |].
  { intros a (a' & i & He & Ha' & Hrep)%promise_effect. eexists _, _.
    split_and!; [exact He|done| |by eauto].
    repeat constructor. cbn [effect_quiet]. by rewrite (reports_fit k voted q r i). }
  destruct (leader_step live m Hm s1 _ _ _ _ _ Hs1 (path ACCEPTOR q) (LI_Phase1b (mkPhase1b q r i))
    (fun effs => S (length done) = quorum_size n ->
       Tell (path BATCHER m) (MBatcher (BI_LeaderInfoReplyBatcher r)) ∈ effs /\
       exists w, length w = k /\ reproposes r w (fun dst msg => Tell dst msg ∈ effs))
    (leader_collecting r k voted (done ++ [q]))) as (s2 & e2 & Hr2 & HQ2 & Hout2 & Hs2).
  { apply Hout1, list_elem_of_here. }
  { intros l Hl. apply (collect_effect r k voted done q i l); try done. lia. }
  exists s2. split; [by eapply reaches_then|].
  pose proof (reaches_net _ _ _ _ Hr1) as Hn1. pose proof (reaches_net _ _ _ _ Hr2) as Hn2.
  split; [done|done| |].
  - intros q' Hq'. destruct (Hp1a q' Hq') as [src' ?]. exists src'. by apply Hn2, Hn1.
  - rewrite length_app. simpl. intros Hlen.
    destruct (decide (S (length done) = quorum_size n)) as [Hex|Hne].
    + destruct (HQ2 Hex) as [Ht (w & Hw & Hre)]. split; [by apply Hout2|].
      exists w. split; [done|]. intros j v Hj. by apply Hout2, Hre.
    + destruct Hinfo as [Hi (w & Hw & Hre)]; [lia|]. split; [by apply Hn2, Hn1|].
      exists w. split; [done|]. intros j v Hj. by apply Hn2, Hn1, Hre.
Qed.

(** Phase 1: every live acceptor promises, and a majority of promises opens phase 2. *)
Lemma phase1_reaches r k voted s PP PR :
  state live m s (acceptor_seen r k voted) (leader_collecting r k voted []) PP batcher_new PR ->
  0 < r < 2 ^ 62 -> Z.of_nat k < 2 ^ 62 -> owner N r = m -> ((0 < k)%nat -> is_quorum n voted) ->
  (forall q, q ∈ live -> exists src, mkPacket src (path ACCEPTOR q) (P1A m r 0) ∈ net s) ->
  exists s', reaches (serving live m) s [] s' /\
    (exists w, length w = k /\ reproposes r w (fun dst msg => mkPacket (path LEADER m) dst msg ∈ net s')) /\
    state live m s' (acceptor_up r k) (leader_at Leader.Phase2 r (Z.of_nat k)) PP (batcher_up []) PR.
Proof.
  intros Hst Hr Hk Ho Hvq Hp1a.
  destruct (each_live (phase1_state r k voted PP PR) s) as (s1 & Hr1 & [Hs1 _ _ Hinfo]).
  - intros done q s0 Hq Hnd. by apply promise_reaches.
  - split; [done|set_solver|done|]. simpl. unfold quorum_size. lia.
  - destruct (Hinfo quorum_elements) as [Hi (w & Hw & Hre)].
    destruct (batcher_step live m Hm s1 _ _ _ _ _ Hs1 (path LEADER m) (BI_LeaderInfoReplyBatcher r)
      (batcher_up [])) as (s2 & Hr2 & Hs2); [done| |].
    { intros b Hb. destruct (leader_info_effect r b Hb ltac:(lia) Ho) as (b' & ? & ?).
      exists b', []. split_and!; [done..|constructor]. }
    exists s2. split; [by eapply reaches_then|]. split.
    + exists w. split; [done|]. intros j v Hj. by apply (reaches_net _ _ _ _ Hr2), Hre.
    + eapply state_weaken; [exact Hs2|by intros q a []| |done|done].
      intros l. unfold leader_collecting. rewrite (proj2 (Nat.ltb_ge _ _)); [done|apply quorum_elements].
Qed.

(** The clients of [m] propose. *)
Lemma propose_reaches_all s PA PL PP PR batch : forall held,
  state live m s PA PL PP (batcher_up held) PR ->
  exists s', reaches (serving live m) s (map (pair m) batch) s' /\
    state live m s' PA PL PP (batcher_up (held ++ batch)) PR.
Proof.
  revert s. induction batch as [|p batch IH]; intros s held Hst.
  - exists s. rewrite app_nil_r. split; [apply reaches_refl|done].
  - destruct (propose_step live m Hm s _ _ _ _ _ Hst p (batcher_up (held ++ [p]))) as (s1 & Hr1 & Hs1).
    { intros b []. split; try done. simpl. by rewrite bu_held0. }
    destruct (IH s1 _ Hs1) as (s2 & Hr2 & Hs2). exists s2. split.
    + eapply (reaches_trans _ _ [(m, p)]); [exact Hr1|exact Hr2].
    + by rewrite <- app_assoc in Hs2.
Qed.

(** The batch timer fires; the leader proposes the batch. *)
Lemma request_reaches r k s PA PP PR batch :
  state live m s PA (leader_at Leader.Phase2 r k) PP (batcher_up batch) PR ->
  batch <> [] -> 0 <= r < 2 ^ 62 -> 0 <= k < 2 ^ 62 - 1 ->
  exists s', reaches (serving live m) s [] s' /\
    mkPacket (path LEADER m) (path PROXY_LEADER m) (P2A m k r (CommandBatch (map proposal_data batch)))
      ∈ net s' /\
    state live m s' PA (leader_at Leader.Phase2 r (k + 1)) PP (batcher_up []) PR.
Proof.
  intros Hst Hne Hr Hk.
  destruct (batch_timer_step live m Hm s _ _ _ _ _ Hst
    (fun effs => effs = [Tell (path LEADER m) (MLeader (LI_ClientRequestBatch batch))]) (batcher_up []))
    as (s1 & e1 & Hr1 & -> & Hout1 & Hs1).
  { intros b (b' & He & Hb')%batch_effect; [|done]. eexists _, _.
    split_and!; [exact He|done|by repeat constructor|done]. }
  destruct (leader_step live m Hm s1 _ _ _ _ _ Hs1 (path BATCHER m) (LI_ClientRequestBatch batch)
    (fun effs => effs =
       [Tell (path PROXY_LEADER m) (P2A m k r (CommandBatch (map proposal_data batch)))])
    (leader_at Leader.Phase2 r (k + 1))) as (s2 & e2 & Hr2 & -> & Hout2 & Hs2).
  { apply Hout1, list_elem_of_here. }
  { intros l Hl. destruct (request_effect r k l (path BATCHER m) batch Hl Hr Hk) as (l' & He & Hl' & Hf).
    eexists _, _. split_and!; [exact He| |done|done|by repeat constructor|done].
    rewrite (la_watermark _ _ _ _ Hl), (la_slot _ _ _ _ Hl). lia. }
  exists s2. split; [by eapply reaches_then|]. split; [apply Hout2, list_elem_of_here|done].
Qed.

(** The proxy leader relays a proposal to the acceptors. *)
Lemma relay_reaches r k v s PA PL PB PR :
  state live m s PA PL (proxy_up r k) PB PR ->
  mkPacket (path LEADER m) (path PROXY_LEADER m) (P2A m k r v) ∈ net s ->
  exists s', reaches (serving live m) s [] s' /\
    (forall q, q ∈ live -> mkPacket (path PROXY_LEADER m) (path ACCEPTOR q) (A2A m k r v) ∈ net s') /\
    state live m s' PA PL (proxy_counting r k v []) PB PR.
Proof.
  intros Hst Hp2a.
  destruct (relay_step live m Hm s _ _ _ _ _ Hst (path LEADER m) (mkPhase2a m k r v)
    (fun effs => forall q, q ∈ live -> Tell (path ACCEPTOR q) (A2A m k r v) ∈ effs)
    (proxy_counting r k v [])) as (s1 & e1 & Hr1 & HQ & Hout & Hs1); [done| |].
  { intros p Hp. destruct (relay_effect r k v p Hp) as (p' & effs & ?). by exists p', effs. }
  exists s1. split; [done|]. split; [|done]. intros q Hq. by apply Hout, HQ.
Qed.

(** Every live acceptor votes, and a majority of votes makes the value chosen. *)
Lemma votes_reaches r K k v s PL PB PR :
  state live m s (acceptor_up r K) PL (proxy_counting r (Z.of_nat k) v []) PB PR -> (k < K)%nat ->
  (forall q, q ∈ live ->
     mkPacket (path PROXY_LEADER m) (path ACCEPTOR q) (A2A m (Z.of_nat k) r v) ∈ net s) ->
  exists s', reaches (serving live m) s [] s' /\
    (forall q, q ∈ live ->
       mkPacket (path PROXY_LEADER m) (path REPLICA q) (CHOSEN (Z.of_nat k) v) ∈ net s') /\
    state live m s' (acceptor_up r K) PL (proxy_up r (Z.of_nat (S k))) PB PR.
Proof.
  intros Hst Hk Hp2a.
  destruct (each_live (fun done s =>
    state live m s (acceptor_up r K) PL (proxy_counting r (Z.of_nat k) v done) PB PR /\
    (forall q, q ∈ live ->
       mkPacket (path PROXY_LEADER m) (path ACCEPTOR q) (A2A m (Z.of_nat k) r v) ∈ net s) /\
    ((quorum_size n <= length done)%nat -> forall q, q ∈ live ->
      mkPacket (path PROXY_LEADER m) (path REPLICA q) (CHOSEN (Z.of_nat k) v) ∈ net s)) s)
    as (s1 & Hr1 & Hs1 & _ & Hchosen).
  - clear s Hst Hp2a. intros done q s Hq Hnd (Hst & Hp2a & Hchosen).
    destruct (acceptor_step live m s _ _ _ _ _ Hst (path PROXY_LEADER m) q
      (AI_Phase2a (mkPhase2a m (Z.of_nat k) r v))
      (fun effs => effs = [Tell (path PROXY_LEADER m) (VOTE q (Z.of_nat k) r)]))
      as (s1 & e1 & Hr1 & -> & Hout1 & Hs1); [done|by apply Hp2a| |].
    { intros a Ha. destruct (vote_effect r K q k v a Ha Hk) as (a' & He & Ha').
      eexists _, _. split_and!; [exact He|done|by repeat constructor|done]. }
    destruct (vote_step live m Hm s1 _ _ _ _ _ Hs1 (path ACCEPTOR q) (mkPhase2b q (Z.of_nat k) r)
      (fun effs => S (length done) = quorum_size n -> forall q, q ∈ live ->
         Tell (path REPLICA q) (CHOSEN (Z.of_nat k) v) ∈ effs)
      (proxy_counting r (Z.of_nat k) v (done ++ [q]))) as (s2 & e2 & Hr2 & HQ2 & Hout2 & Hs2).
    { apply Hout1, list_elem_of_here. }
    { intros p Hp. destruct (count_effect r _ v done q p Hp Hnd) as (p' & effs & ?). by exists p', effs. }
    exists s2. split; [by eapply reaches_then|]. split; [done|].
    pose proof (reaches_net _ _ _ _ Hr1) as Hn1. pose proof (reaches_net _ _ _ _ Hr2) as Hn2. split.
    + intros q' Hq'. by apply Hn2, Hn1, Hp2a.
    + rewrite length_app. simpl. intros Hlen q' Hq'.
      destruct (decide (S (length done) = quorum_size n)) as [Hex|]; [by apply Hout2, HQ2|].
      apply Hn2, Hn1, Hchosen; [lia|done].
  - split; [done|]. split; [done|]. simpl. unfold quorum_size. lia.
  - exists s1. split; [done|]. split; [by apply Hchosen, quorum_elements|].
    replace (Z.of_nat (S k)) with (Z.of_nat k + 1) by lia.
    eapply state_weaken; [exact Hs1|done|done|by intros p []|done].
Qed.

(** Every live replica learns a chosen value. *)
Lemma learn_reaches s PA PL PP PB (PR PR' : Z -> Replica.t -> Prop) k v (Q : list Effect -> Prop) :
  state live m s PA PL PP PB PR ->
  (forall q, q ∈ live -> mkPacket (path PROXY_LEADER m) (path REPLICA q) (CHOSEN k v) ∈ net s) ->
  (forall q x, q ∈ live -> PR q x -> exists x' effs,
     Replica.receive_network x (RI_Chosen (mkChosen k v)) 0 = Some (x', effs) /\
     PR' q x' /\ Forall effect_quiet effs /\ (q = m -> Q effs)) ->
  exists s' effs, reaches (serving live m) s [] s' /\ Q effs /\ sends s' (path REPLICA m) effs /\
    state live m s' PA PL PP PB PR'.
Proof.
  intros Hst Hchosen Hstep.
  set (PD := fun (done : list Z) q => if decide (q ∈ done) then PR' q else PR q).
  destruct (each_live (fun done s =>
    state live m s PA PL PP PB (PD done) /\
    (forall q, q ∈ live -> mkPacket (path PROXY_LEADER m) (path REPLICA q) (CHOSEN k v) ∈ net s) /\
    (m ∈ done -> exists effs, Q effs /\ sends s (path REPLICA m) effs)) s)
    as (s1 & Hr1 & Hs1 & _ & Hans).
  - clear s Hst Hchosen. intros done q s Hq [_ [Hnew _]]%NoDup_app (Hst & Hchosen & Hans).
    assert (q ∉ done) as Hqd by (intros Hqd; by apply (Hnew q Hqd), list_elem_of_here).
    destruct (replica_step live m s _ _ _ _ _ Hst (path PROXY_LEADER m) q (RI_Chosen (mkChosen k v))
      (fun effs => q = m -> Q effs) (PD (done ++ [q])))
      as (s1 & e1 & Hr1 & HQ1 & Hout1 & Hs1); [done|by apply Hchosen| | |].
    { intros q' x Hne. unfold PD. do 2 case_decide; set_solver. }
    { intros x Hx. unfold PD in Hx |- *. rewrite decide_False in Hx by done.
      rewrite decide_True by set_solver. by apply Hstep. }
    exists s1. split; [done|]. split; [done|]. pose proof (reaches_net _ _ _ _ Hr1) as Hn1. split.
    + intros q' Hq'. by apply Hn1, Hchosen.
    + intros [Hmd|Hmq%list_elem_of_singleton]%elem_of_app.
      * destruct (Hans Hmd) as (effs & HQ & Hsends). exists effs. split; [done|].
        intros dst msg Ht. by apply Hn1, Hsends.
      * subst q. exists e1. split; [by apply HQ1|done].
  - split; [|split; [done|set_solver]]. eapply state_weaken; [exact Hst|done|done|done|].
    intros q x _ Hx. unfold PD. by rewrite decide_False by set_solver.
  - destruct Hans as (effs & HQ & Hsends); [by apply elem_of_elements|].
    exists s1, effs. split_and!; try done.
    eapply state_weaken; [exact Hs1|done|done|done|].
    intros q x Hq. unfold PD. by rewrite decide_True by (by apply elem_of_elements).
Qed.

(** From the proposal of the leader to the replicas. *)
Lemma choose_reaches r K k v s PL PB (PR PR' : Z -> Replica.t -> Prop) (Q : list Effect -> Prop) :
  state live m s (acceptor_up r K) PL (proxy_up r (Z.of_nat k)) PB PR -> (k < K)%nat ->
  mkPacket (path LEADER m) (path PROXY_LEADER m) (P2A m (Z.of_nat k) r v) ∈ net s ->
  (forall s1, reaches (serving live m) s [] s1 -> sent (net s1) (CHOSEN (Z.of_nat k) v) ->
   forall q x, q ∈ live -> PR q x -> exists x' effs,
     Replica.receive_network x (RI_Chosen (mkChosen (Z.of_nat k) v)) 0 = Some (x', effs) /\
     PR' q x' /\ Forall effect_quiet effs /\ (q = m -> Q effs)) ->
  exists s' effs, reaches (serving live m) s [] s' /\ Q effs /\ sends s' (path REPLICA m) effs /\
    state live m s' (acceptor_up r K) PL (proxy_up r (Z.of_nat (S k))) PB PR'.
Proof.
  intros Hst Hk Hp2a Hlearn.
  destruct (relay_reaches r (Z.of_nat k) v s _ _ _ _ Hst Hp2a) as (s1 & Hr1 & Ha1 & Hs1).
  destruct (votes_reaches r K k v s1 _ _ _ Hs1 Hk Ha1) as (s2 & Hr2 & Hc2 & Hs2).
  assert (reaches (serving live m) s [] s2) as Hr12 by (by eapply reaches_then).
  destruct (learn_reaches s2 _ _ _ _ PR PR' _ v Q Hs2 Hc2) as (s3 & effs & Hr3 & HQ & Hout & Hs3).
  { apply (Hlearn s2 Hr12). eexists. split; [by apply (Hc2 m)|done]. }
  exists s3, effs. split; [by eapply reaches_then|done].
Qed.

(** ** The steady state: one batch after the other *)

(** The leader [m] of round [r] got the slots of [vals] chosen. *)
Definition steady (r : Z) (grow : nat) (vals : list CommandBatchOrNoop) (s : Sys) : Prop :=
  state live m s (acceptor_up r (length vals)) (leader_at Leader.Phase2 r (Z.of_nat (length vals)))
    (proxy_up r (Z.of_nat (length vals))) (batcher_up []) (fun q => replica_up q grow vals).

(** The replica of [m] answered the clients for the commands of [vals]. *)
Definition answered (s : Sys) (vals : list CommandBatchOrNoop) : Prop :=
  forall v data, v ∈ vals -> data ∈ commands_of v ->
    mkPacket (path REPLICA m) (client_path ITERATION) (answer_of data) ∈ net s.

Definition batch_value (batch : list Proposal) : CommandBatchOrNoop :=
  CommandBatch (map proposal_data batch).

Lemma slot_reaches r grow vals s batch :
  steady r grow vals s -> batch <> [] -> 0 <= r < 2 ^ 62 ->
  Z.of_nat (length vals) + Z.of_nat grow < 2 ^ 62 - 1 ->
  exists s', reaches (serving live m) s (map (pair m) batch) s' /\
    steady r grow (vals ++ [batch_value batch]) s' /\ answered s' [batch_value batch].
Proof.
  intros Hst Hne Hr Hb.
  destruct (propose_reaches_all s _ _ _ _ batch [] Hst) as (s1 & Hr1 & Hs1).
  destruct (request_reaches r _ s1 _ _ _ batch Hs1 Hne Hr ltac:(lia)) as (s2 & Hr2 & Hp2 & Hs2).
  destruct (choose_reaches r (S (length vals)) (length vals) (batch_value batch) s2
    (leader_at Leader.Phase2 r (Z.of_nat (length vals) + 1)) (batcher_up [])
    (fun q => replica_up q grow vals) (fun q => replica_up q grow (vals ++ [batch_value batch]))
    (fun effs => forall data, data ∈ commands_of (batch_value batch) ->
       Tell (client_path ITERATION) (answer_of data) ∈ effs))
    as (s3 & effs & Hr3 & HQ & Hout & Hs3); [|lia|done| |].
  { eapply state_weaken; [exact Hs2| |done..]. intros q a Ha. eapply acceptor_up_weaken; [done|lia|lia]. }
  { intros s0 _ _ q x Hq Hx. apply chosen_effect; [done|lia]. }
  exists s3. split; [|split].
  - rewrite <- (app_nil_r (map _ batch)). by eapply reaches_trans, reaches_then.
  - unfold steady. rewrite length_app. change (length [_]) with 1%nat. rewrite Nat.add_1_r.
    replace (Z.of_nat (length vals) + 1) with (Z.of_nat (S (length vals))) in Hs3 by lia. done.
  - intros v data ->%list_elem_of_singleton Hd. by apply Hout, HQ.
Qed.

Lemma batches_reach r grow batches : forall vals s,
  steady r grow vals s -> Forall (fun b => b <> []) batches -> 0 <= r < 2 ^ 62 ->
  Z.of_nat (length vals + length batches) + Z.of_nat grow < 2 ^ 62 ->
  exists s', reaches (serving live m) s (map (pair m) (concat batches)) s' /\
    steady r grow (vals ++ map batch_value batches) s' /\ answered s' (map batch_value batches).
Proof.
  induction batches as [|batch batches IH]; intros vals s Hs Hne Hr Hb; simpl in *.
  - exists s. rewrite app_nil_r. split; [apply reaches_refl|]. split; [done|].
    by intros v data ?%not_elem_of_nil.
  - apply Forall_cons in Hne as [Hne1 Hne].
    destruct (slot_reaches r grow vals s batch Hs Hne1 Hr ltac:(lia)) as (s1 & Hr1 & Hs1 & Ha1).
    destruct (IH _ s1 Hs1 Hne Hr) as (s2 & Hr2 & Hs2 & Ha2); [rewrite length_app; simpl; lia|].
    exists s2. split; [rewrite map_app; by eapply reaches_trans|]. split.
    + by rewrite <- app_assoc in Hs2.
    + intros v data [->|Hv]%elem_of_cons Hd; [|by eapply Ha2].
      apply (reaches_net _ _ _ _ Hr2). eapply Ha1; [apply list_elem_of_here|done].
Qed.

(** ** A new leader proposes the slots of its predecessor again *)

(** A replica that logged at least the first [i] slots of [vals]. *)
Definition replica_behind (grow : nat) (vals : list CommandBatchOrNoop) (i : nat) (q : Z)
    (x : Replica.t) : Prop :=
  exists j, (i <= j <= length vals)%nat /\ replica_up q grow (take j vals) x.

Lemma behind_effect grow vals i q v x :
  replica_behind grow vals i q x -> vals !! i = Some v ->
  Z.of_nat (length vals) + Z.of_nat grow < 2 ^ 62 ->
  exists x' effs,
    Replica.receive_network x (RI_Chosen (mkChosen (Z.of_nat i) v)) 0 = Some (x', effs) /\
    replica_behind grow vals (S i) q x' /\ Forall effect_quiet effs /\ (q = m -> True).
Proof.
  intros (j & Hj & Hx) Hv Hb. pose proof (lookup_lt_Some _ _ _ Hv) as Hi.
  destruct (decide (j = i)) as [->|Hne].
  - assert (length (take i vals) = i) as Hlen by (rewrite length_take; lia).
    destruct (chosen_effect x q grow (take i vals) v Hx) as (x' & effs & He & Hx' & Hqu & _);
      rewrite Hlen in *; [lia|].
    exists x', effs. split_and!; [done| |done|done]. exists (S i). split; [lia|].
    by rewrite (take_S_r _ _ v).
  - simpl. unfold Replica.handle_chosen. simpl.
    rewrite (ru_log _ _ _ _ Hx), Nat2Z.id, lookup_take_lt, Hv by lia.
    exists x, []. split_and!; [done| |constructor|done]. exists j. split; [lia|done].
Qed.

Lemma recover_reaches r grow vals w PL PB todo : forall i s,
  (i + todo = length vals)%nat -> length w = length vals ->
  Z.of_nat (length vals) + Z.of_nat grow < 2 ^ 62 ->
  state live m s (acceptor_up r (length vals)) PL (proxy_up r (Z.of_nat i)) PB (replica_behind grow vals i) ->
  reproposes r w (fun dst msg => mkPacket (path LEADER m) dst msg ∈ net s) ->
  (forall s1 i v, reaches (serving live m) s [] s1 -> (i < length vals)%nat ->
     sent (net s1) (CHOSEN (Z.of_nat i) v) -> vals !! i = Some v) ->
  exists s', reaches (serving live m) s [] s' /\
    state live m s' (acceptor_up r (length vals)) PL (proxy_up r (Z.of_nat (length vals))) PB
      (fun q => replica_up q grow vals).
Proof.
  induction todo as [|todo IH]; intros i s Hi Hw Hb Hst Hre Hagree.
  - assert (i = length vals) as -> by lia. exists s. split; [apply reaches_refl|].
    eapply state_weaken; [exact Hst|done..|]. intros q x _ (j & Hj & Hx).
    by rewrite take_ge in Hx by lia.
  - destruct (lookup_lt_is_Some_2 w i ltac:(lia)) as [v Hv].
    destruct (choose_reaches r (length vals) i v s PL PB (replica_behind grow vals i)
      (replica_behind grow vals (S i)) (fun _ => True)) as (s1 & effs & Hr1 & _ & _ & Hs1);
      [done|lia|by apply Hre| |].
    { intros s1 Hr1 Hc q x _ Hx. apply (behind_effect grow vals i q v x); [done| |done].
      eapply Hagree; [done|lia|done]. }
    destruct (IH (S i) s1) as (s2 & Hr2 & Hs2); try done; [lia| | |].
    + intros j v' Hj. by apply (reaches_net _ _ _ _ Hr1), Hre.
    + intros s2 j v' Hr2. apply Hagree. by eapply reaches_then.
    + exists s2. split; [by eapply reaches_then|done].
Qed.
End steady.
