(* ===== verification/MpProgress.v ===== *)
(** Progress of Multi-Paxos with a minority of the nodes down, and after the leader failed.

    Take any set [live] with a majority of the nodes, any node [m] of it and any batches of commands
    proposed at [m].  From the start of the cluster there is a schedule in which the other nodes take
    no step, [m] becomes the leader (the initial one, or after its no-ping timer fired), and the
    batches are chosen in order, logged and executed by every live replica and answered by [m].  The
    same holds when another leader served commands before: the new leader recovers them from the votes
    of the acceptors, and by agreement they are the ones that were chosen. *)

From Stdlib Require Import Strings.Byte.
From S2P Require Import Prelude MpMessages Partition MpUtil.
From S2P Require Import MpAcceptor MpProxyLeader MpLeader MpReplica MpBatcher MpParticipant.
From S2P Require Import MpSystem MpInv MpFrame MpSafety MpBoot MpTheorems MpRuns MpSteady.

(** A configuration with which the nodes start: no division by zero, and a range from which the
    election timeout can be drawn. *)
Record config_ok (c : MpConfig) : Prop := {
  co_delta : 0 < timeout_delta_factor c <= election_timeout_ms c;
  co_ping : ping_period_factor c <> 0;
  co_timeout : election_timeout_ms c < 2 ^ 62;
  co_every : cfg_send_chosen_watermark_every_n_entries c <> 0 }.

Section boot.
Context {iter : IterationId} (c : MpConfig) (n : nat) (live : gset Z) (m : Z).
Context (Hn : Z.of_nat n < 2 ^ 61) (Hc : config_ok c) (Hlive : is_quorum n live) (Hm : m ∈ live).
Local Abbreviation N := (Z.of_nat n).
Local Abbreviation path comp q := (mkPath comp q ITERATION).

(** ** The nodes as they are started *)

(** The paths of the nodes [ids] are known. *)
Record paths_known (ids : gset Z) (p : AllActorPaths) : Prop := {
  pk_dom : dom (all_leaders p) = ids /\ dom (all_acceptors p) = ids;
  pk_leaders : forall q, q ∈ ids -> all_leaders p !! q = Some (path LEADER q);
  pk_acceptors : forall q, q ∈ ids -> all_acceptors p !! q = Some (path ACCEPTOR q);
  pk_replicas : forall q, q ∈ ids -> all_replicas p !! q = Some (path REPLICA q);
  pk_proxies : forall q, q ∈ ids -> all_proxy_leaders p !! q = Some (path PROXY_LEADER q) }.

Lemma derive_known self nodes : forall ids acc,
  Forall (fun q => 1 <= q <= N) nodes -> paths_known ids acc ->
  exists p, derive_actorpaths_loop (fun _ => true) ITERATION self n nodes acc = Some p /\
    paths_known (ids ∪ list_to_set nodes) p.
Proof.
  induction nodes as [|q nodes IH]; intros ids acc Hall Hok; simpl.
  - exists acc. by rewrite union_empty_r_L.
  - apply Forall_cons in Hall as [Hq Hall]. unfold get_node_actorpath.
    rewrite (proj2 (Z.leb_le 1 q)), (proj2 (Z.leb_le q N)) by lia. cbn [mbind option_bind andb].
    rewrite union_assoc_L, (union_comm_L ids). apply IH; [done|].
    destruct Hok as [[H1 H2] H3 H4 H5 H6].
    split; simpl; rewrite ?dom_insert_L, ?H1, ?H2; try done; intros q'; rewrite lookup_insert;
      case_decide as Hd; try (by subst); set_solver.
Qed.

Record booted (q : Z) (nd : Node) : Prop := {
  bt_acceptor : acceptor_up n 0 0 q (acceptor_comp nd);
  bt_fits : leader_fits (leader_comp nd) = true;
  bt_leader : q = m -> Leader.phase1bs (leader_comp nd) = ∅ /\
    leader_at n live m (if m =? N then Leader.Phase1 else Leader.Phase2) N 0 (leader_comp nd);
  bt_proxy : q = m -> forall r, proxy_up n live r 0 (proxy_leader_comp nd);
  bt_batcher : batcher_new n m (batcher_comp nd);
  bt_replica : Replica.current_leader (replica_comp nd) = N /\
    replica_up m q (cfg_log_grow_size c) [] (Replica.set_current_leader (replica_comp nd) m);
  bt_participant : q <> N -> Participant.state (participant_comp nd) = Participant.Follower /\
    Participant.index (participant_comp nd) = q /\
    Participant.no_ping_timer (participant_comp nd) = Some TNoPing }.

(** What a node schedules and sends when it is started. *)
Definition start_effects (q : Z) (effs : list (component_name * list Effect)) : Prop :=
  exists t e, effs = [(PARTICIPANT, [Schedule t]); (BATCHER, [Schedule TBatch]); (LEADER, e)] /\
    (q <> N -> t = TNoPing) /\ Forall effect_quiet e /\ (forall t, Cancel t ∉ e) /\
    (q = N -> forall q', 1 <= q' <= N -> Tell (path ACCEPTOR q') (P1A N N 0) ∈ e).

Lemma start_participant peers q period rnd :
  let delta := election_timeout_ms c / timeout_delta_factor c in
  let opts := Participant.mkElectionOptions period (election_timeout_ms c -u64 delta)
                (election_timeout_ms c +u64 delta) in
  exists pa t, Participant.on_start (Participant.set_lagging_delay
      (Participant.with_ peers q N opts) rnd) 0 = Some (pa, [Schedule t]) /\
    (q <> N -> t = TNoPing /\ Participant.state pa = Participant.Follower /\
       Participant.index pa = q /\ Participant.no_ping_timer pa = Some TNoPing).
Proof.
  intros delta opts. destruct Hc as [Hd _ Ht _].
  assert (1 <= delta <= election_timeout_ms c) as Hdelta.
  { unfold delta. split; [apply Z.div_le_lower_bound; lia|]. apply Z.div_le_upper_bound; nia. }
  unfold Participant.on_start, Participant.with_. simpl. destruct (Z.eqb_spec q N) as [->|Hne]; simpl.
  - eexists _, _. split; [reflexivity|done].
  - unfold Participant.start_no_ping_timer, Participant.get_random_timeout_period. simpl.
    rewrite u64_add_small, u64_sub_small by lia.
    destruct (Z.ltb_spec (election_timeout_ms c - delta) (election_timeout_ms c + delta)); [|lia].
    eexists _, _. split; [reflexivity|done].
Qed.

Lemma created_leader q opts acceptors proxy client :
  size acceptors = n -> 0 < N ->
  Leader.with_ q opts acceptors proxy client =
    Some (Leader.mk opts (if q =? N then Leader.Phase1 else Leader.Phase2) q (ClassicRoundRobin.mk N) N 0 0
            (quorum_size n) acceptors ∅ [] None None proxy client links_init None).
Proof.
  intros Hs HN. unfold Leader.with_. rewrite Hs, first_round by done. cbn [mbind option_bind].
  by rewrite (quorum_size_Z n).
Qed.

Lemma paths_of q : exists p,
  derive_actorpaths (fun _ => true) ITERATION q n (seqZ 1 N) = Some p /\ paths_known (pids n) p.
Proof.
  destruct (derive_known q (seqZ 1 N) ∅ (mkAllActorPaths [] ∅ ∅ ∅ ∅)) as (p & Hp & Hk).
  - apply Forall_forall. intros q'. rewrite elem_of_seqZ. lia.
  - split; simpl; set_solver.
  - exists p. split; [exact Hp|]. by rewrite union_empty_l_L in Hk.
Qed.

Lemma booted_leader q opts acceptors :
  (forall q, q ∈ pids n -> acceptors !! q = Some (path ACCEPTOR q)) -> size acceptors = n -> 1 <= q <= N ->
  exists l l' e, Leader.with_ q opts acceptors (path PROXY_LEADER q) (client_path ITERATION) = Some l /\
    Leader.on_start (Leader.set_local_batcher (Leader.set_lagging_delay l (election_timeout_ms c / LAGGING_DELAY_FACTOR))
      (Some (path BATCHER q))) = (l', e) /\
    leader_fits l' = true /\
    (q = m -> Leader.phase1bs l' = ∅ /\ leader_at n live m (if m =? N then Leader.Phase1 else Leader.Phase2) N 0 l') /\
    Forall effect_quiet e /\ (forall t, Cancel t ∉ e) /\
    (q = N -> forall q', 1 <= q' <= N -> Tell (path ACCEPTOR q') (P1A N N 0) ∈ e).
Proof.
  intros Hacc Hs Hq. rewrite created_leader by (done || lia).
  assert (forall q, q ∈ live -> acceptors !! q = Some (path ACCEPTOR q)) as Hacc'.
  { intros q' Hq'. by apply Hacc, Hlive. }
  assert (small N = true) as Hsmall.
  { unfold small. by rewrite (proj2 (Z.leb_le _ _)), (proj2 (Z.ltb_lt _ _)) by lia. }
  destruct (Z.eqb_spec q N) as [->|Hne]; eexists _, _, _; (split; [reflexivity|]); (split; [reflexivity|]);
    simpl; split_and!.
  - unfold leader_fits. simpl. by rewrite Hsmall.
  - intros <-. rewrite Z.eqb_refl. split; [done|]. split; try done. by intros t [= <-].
  - apply Forall_app. split; [by apply broadcast_quiet|by repeat constructor].
  - intros t [(? & ? & _ & _ & ?)%elem_of_broadcast|Ht%list_elem_of_singleton]%elem_of_app; done.
  - intros _ q' Hq'. apply elem_of_app. left. apply elem_of_broadcast. exists q', (path ACCEPTOR q').
    split_and!; [by apply Hacc, elem_of_pids|apply not_elem_of_nil|done].
  - unfold leader_fits. simpl. by rewrite Hsmall.
  - intros <-. rewrite (proj2 (Z.eqb_neq q N)) by done. split; [done|by split].
  - constructor.
  - intros t. apply not_elem_of_nil.
  - done.
Qed.

Lemma started_node q :
  1 <= q <= N ->
  exists nd nd' effs, create_components c (fun _ => true) ITERATION q n (seqZ 1 N) = Some nd /\
    start_components nd 0 = Some (nd', effs) /\ booted q nd' /\ start_effects q effs.
Proof.
  intros Hq. unfold create_components. destruct (paths_of q) as (paths & -> & [[Hd1 Hd2] Hl Ha Hr Hp]).
  cbn [mbind option_bind]. unfold create_options, u64_div.
  pose proof (co_delta c Hc) as Hdelta. rewrite (proj2 (Z.eqb_neq (timeout_delta_factor c) 0)) by lia.
  rewrite (proj2 (Z.eqb_neq _ 0)) by apply Hc. cbn [mbind option_bind].
  assert (size (all_acceptors paths) = n) as Hsa by (by rewrite <- size_dom, Hd2, size_pids).
  assert (size (all_leaders paths) = n) as Hsl by (by rewrite <- size_dom, Hd1, size_pids).
  assert (m ∈ pids n) as Hmp by (by apply Hlive).
  destruct (booted_leader q (Leader.mkLeaderOptions (cfg_resend_phase1as_period c) (cfg_noop_flush_period c))
    (all_acceptors paths) Ha Hsa Hq) as (l & l' & e & Hl1 & Hl2 & Hfits & Hlead & Hqu & Hnc & Hp1a).
  unfold derive_component_actorpath. rewrite Hl1. cbn [mbind option_bind].
  destruct (start_participant (all_participant_peers paths) q (election_timeout_ms c / ping_period_factor c)
    (election_timeout_ms c / LAGGING_DELAY_FACTOR)) as (pa & t & Hpa & Hfol).
  eexists _, _, _. split; [reflexivity|]. unfold start_components. cbn [participant_comp].
  rewrite Hpa. cbn [mbind option_bind leader_comp]. rewrite Hl2. split; [reflexivity|]. split.
  - split; simpl; try done.
    + intros -> r. split; simpl; try done.
      * intros q' Hq'. by apply Ha, Hlive.
      * intros q' Hq'. by apply Hr, Hlive.
      * unfold quorum_size. by rewrite Hsa.
    + split; simpl; try done; [by rewrite Hsl|by apply Hl].
    + split; [by rewrite Hsl|]. split; simpl; try done; try lia.
      * by apply Hc.
      * intros sl _. rewrite BufferMap.get_lookup. simpl. by case_decide.
    + intros Hne. by apply Hfol.
  - exists t, e. split_and!; try done. intros Hne. by apply Hfol.
Qed.

(** ** The booted cluster *)

Record booting (started : gset Z) (s : Sys) : Prop := {
  bg_node : forall q nd, nodes s !! q = Some nd -> booted q nd;
  bg_up : forall q, q ∈ started -> is_Some (nodes s !! q);
  bg_msgs : forall p, p ∈ net s -> msg_fits (pkt_msg p) = true;
  bg_batch : forall q, q ∈ started -> (path BATCHER q, TBatch) ∈ timers s;
  bg_ping : forall q, q ∈ started -> q <> N -> (path PARTICIPANT q, TNoPing) ∈ timers s;
  bg_p1a : N ∈ started -> forall q, 1 <= q <= N ->
    exists src, mkPacket src (path ACCEPTOR q) (P1A N N 0) ∈ net s }.

Lemma booting_step started s q nd effs :
  booting started s -> booted q nd -> start_effects q effs ->
  booting (started ∪ {[q]}) (apply_component_effects ITERATION q (update_node s q nd) effs).
Proof.
  intros [H1 H2 H3 H4 H5 H6] Hnd (t & e & -> & Ht & Hqu & Hnc & Hp).
  assert (forall x, x ∈ (timers s ++ [(path PARTICIPANT q, t)]) ++ [(path BATCHER q, TBatch)] ->
    x ∈ timers (apply_component_effects ITERATION q (update_node s q nd)
      [(PARTICIPANT, [Schedule t]); (BATCHER, [Schedule TBatch]); (LEADER, e)])) as Htm.
  { intros x Hx. apply (effect_timers_keep e (path LEADER q)); [exact Hx|]. intros t' Ht'. by apply Hnc in Ht'. }
  split.
  - intros q' nd'. simpl. rewrite lookup_insert_Some. intros [[<- <-]|[_ Hq']]; [done|by apply H1].
  - intros q' Hq'. simpl. rewrite lookup_insert_is_Some'. set_solver.
  - intros p. simpl. rewrite !app_nil_r. intros [Hp'|Hp']%elem_of_app; [by apply H3|].
    apply elem_of_effect_packets in Hp' as [(dst & msg & He & ->)|(idx & ? & _ & _ & ->)]; [|done].
    rewrite Forall_forall in Hqu. apply Hqu in He. by apply Is_true_true.
  - intros q' [Hq'| ->%elem_of_singleton]%elem_of_union; apply Htm; [|set_solver].
    apply H4 in Hq'. set_solver.
  - intros q' [Hq'| ->%elem_of_singleton]%elem_of_union Hne; apply Htm.
    + apply (H5 q' Hq') in Hne. set_solver.
    + rewrite Ht by done. set_solver.
  - simpl. rewrite !app_nil_r. intros Hin q' Hq'. apply elem_of_union in Hin as [Hin|Hin%elem_of_singleton].
    + destruct (H6 Hin q' Hq') as [src Hs]. exists src. set_solver.
    + exists (path LEADER q). apply elem_of_app. right. apply elem_of_effect_packets. left.
      eexists _, _. split; [by apply Hp|done].
Qed.

Lemma boot_nodes_total todo : forall started s,
  Forall (fun q => 1 <= q <= N) todo -> booting started s ->
  exists s', boot_nodes c n todo (seqZ 1 N) s = Some s' /\ booting (started ∪ list_to_set todo) s'.
Proof.
  induction todo as [|q todo IH]; intros started s Hall Hs; simpl.
  - exists s. by rewrite union_empty_r_L.
  - apply Forall_cons in Hall as [Hq Hall].
    destruct (started_node q Hq) as (nd & nd' & effs & -> & Hst & Hnd & He).
    cbn [mbind option_bind]. rewrite Hst. cbn [mbind option_bind].
    rewrite union_assoc_L. apply IH; [done|]. by apply booting_step.
Qed.

Lemma boot_total : exists s0, boot c n = Some s0 /\ booting (pids n) s0.
Proof.
  destruct (boot_nodes_total (seqZ 1 N) ∅ (mkSys ∅ [] [])) as (s0 & Hs & Hb).
  - apply Forall_forall. intros q. rewrite elem_of_seqZ. lia.
  - split; simpl; set_solver.
  - exists s0. split; [exact Hs|]. by rewrite union_empty_l_L in Hb.
Qed.

(** ** [m] becomes the leader *)

(** The replicas on their way from the old leader to [m]. *)
Definition replica_moving (vals : list CommandBatchOrNoop) (q : Z) (x : Replica.t) : Prop :=
  replica_behind m (cfg_log_grow_size c) vals 0 q (if decide (q = m) then Replica.handle x m else x).

Definition follower (pa : Participant.t) : Prop :=
  Participant.state pa = Participant.Follower /\ Participant.index pa = m /\
  Participant.no_ping_timer pa = Some TNoPing.

Definition leader_untouched (l : Leader.t) : Prop :=
  Leader.phase1bs l = ∅ /\ leader_at n live m (if m =? N then Leader.Phase1 else Leader.Phase2) N 0 l.

Lemma booted_moving vals q nd : booted q nd -> replica_moving vals q (replica_comp nd).
Proof.
  intros [_ _ _ _ _ [_ Hr] _]. exists 0%nat. split; [lia|]. rewrite take_0.
  case_decide; [done|]. destruct Hr. by split.
Qed.

Lemma booted_at {A} s0 (f : Node -> A) q (P : A -> Prop) :
  booting (pids n) s0 -> q ∈ pids n -> (forall nd, booted q nd -> P (f nd)) -> holds_at s0 f q P.
Proof.
  intros [H1 H2 _ _ _ _] Hq HP. destruct (H2 q Hq) as [nd Hnd]. exists nd. split; [done|]. by apply HP, H1.
Qed.

Lemma booted_fits s0 : booting (pids n) s0 -> fits s0 = true.
Proof.
  intros [H1 _ H3 _ _ _]. unfold fits. apply andb_true_iff. split; apply forallb_forall.
  - intros [q nd] Hnd%list_elem_of_In%elem_of_map_to_list. by apply H1 in Hnd as [].
  - intros p Hp%list_elem_of_In. by apply H3.
Qed.

Lemma booted_inv s0 : boot c n = Some s0 -> inv n s0.
Proof.
  intros Hb. assert (m ∈ pids n) as Hp%elem_of_pids by (by apply Hlive).
  apply boot_inv; [by eapply boot_boot_ok|lia].
Qed.

(** A node that takes over opens the next round that it owns. *)
Lemma takeover_round : 1 <= m < N -> 0 < N ->
  ClassicRoundRobin.next_classic_round (ClassicRoundRobin.mk N) m N = Some (N + m) /\ owner N (N + m) = m.
Proof.
  intros Hm1 HN. split.
  - unfold ClassicRoundRobin.next_classic_round. simpl. destruct (Z.eqb_spec N 0); [lia|].
    rewrite Z.div_same, Z.mul_1_r, Z.mod_small, u64_add_small by lia.
    by rewrite (proj2 (Z.ltb_lt _ _)) by lia.
  - apply ClassicRoundRobin.owner_mod; [lia..|].
    replace (N + m) with (m + 1 * N) by ring. by rewrite Z.mod_add by lia.
Qed.

Lemma elected_effect k voted l :
  leader_at n live m Leader.Phase2 N 0 l -> 1 <= m < N ->
  exists l' effs, Leader.handle l m = Some (l', effs) /\
    leader_collecting n live m (N + m) k voted [] l' /\ leader_fits l' = true /\ Forall effect_quiet effs /\
    forall q, q ∈ live -> Tell (path ACCEPTOR q) (P1A m (N + m) 0) ∈ effs.
Proof.
  intros Hl Hm1. destruct (takeover_round Hm1 ltac:(lia)) as [Hr _].
  unfold Leader.handle. rewrite (la_index _ _ _ _ _ _ _ Hl), Z.eqb_refl.
  unfold Leader.leader_change. rewrite (la_state _ _ _ _ _ _ _ Hl).
  unfold Leader.stop_noop_flush_timer. rewrite (la_flush _ _ _ _ _ _ _ Hl).
  unfold Leader.new_round. rewrite (la_system _ _ _ _ _ _ _ Hl), (la_index _ _ _ _ _ _ _ Hl),
    (la_round _ _ _ _ _ _ _ Hl), Hr. cbn [mbind option_bind].
  unfold Leader.start_phase1. simpl.
  rewrite (la_index _ _ _ _ _ _ _ Hl), (la_watermark _ _ _ _ _ _ _ Hl).
  eexists _, _. split; [reflexivity|].
  match goal with |- leader_collecting _ _ _ _ _ _ _ ?l' /\ _ => set (l1 := l') end.
  assert (leader_at n live m Leader.Phase1 (N + m) 0 l1) as Hl1.
  { destruct Hl. split; try done. by intros t [= <-]. }
  split_and!.
  - unfold leader_collecting. rewrite (proj2 (Nat.ltb_lt _ _)) by (unfold quorum_size; simpl; lia).
    split; [done|]. split; [apply dom_empty_L|]. intros a p H. simpl in H.
    by apply lookup_empty_Some in H.
  - eapply leader_at_fits; [exact Hm|exact Hl1|lia..].
  - apply Forall_app. split; [by apply broadcast_quiet|by repeat constructor].
  - intros q Hq. apply elem_of_app. left.
    apply elem_of_live_broadcast with (live := live); [done|apply Hl|apply Hl].
Qed.

Lemma no_ping_effect pa :
  Participant.state pa = Participant.Follower -> Participant.index pa = m ->
  Participant.no_ping_timer pa = Some TNoPing ->
  exists pa' effs, Participant.no_ping_timeout pa 0 = Some (pa', effs) /\
    Forall effect_quiet effs /\ Trigger m ∈ effs.
Proof.
  intros Hs Hi Ht. unfold Participant.no_ping_timeout, Participant.change_state. simpl. rewrite Hs.
  unfold Participant.stop_no_ping_timer. simpl. rewrite Ht. simpl. rewrite Hi.
  eexists _, _. split; [reflexivity|]. split.
  - repeat constructor. apply Forall_app. split; [|by repeat constructor].
    apply Forall_map. by apply Forall_forall.
  - set_solver.
Qed.

(** The follower [m] hears no ping, and its leader and its replica learn of the election. *)
Lemma takeover_reaches s k voted vals PA PP :
  m <> N -> state live m s PA leader_untouched PP (batcher_new n m) (replica_moving vals) ->
  holds_at s participant_comp m follower -> (path PARTICIPANT m, TNoPing) ∈ timers s ->
  exists s', reaches (serving live m) s [] s' /\
    state live m s' PA (leader_collecting n live m (N + m) k voted []) PP (batcher_new n m)
      (replica_behind m (cfg_log_grow_size c) vals 0) /\
    forall q, q ∈ live -> exists src, mkPacket src (path ACCEPTOR q) (P1A m (N + m) 0) ∈ net s'.
Proof.
  intros Hne Hst (nd & Hnd & Hfol & Hidx & Htm) Hping.
  assert (1 <= m < N) as Hm1.
  { assert (m ∈ pids n) as Hp%elem_of_pids by (by apply Hlive). lia. }
  destruct (no_ping_effect _ Hfol Hidx Htm) as (pa & effs & He & Hqu & Htr).
  destruct (timer_reaches (serving live m) s PARTICIPANT m TNoPing nd (set_participant nd pa) effs)
    as (ts & Hr1 & Hts); [by apply Hst|by apply serving_own|done|done|done|by simpl; rewrite He|].
  set (s1 := reacted _ _ _ _ _) in Hr1.
  assert (state live m s1 PA leader_untouched PP (batcher_new n m) (replica_moving vals)) as Hst1.
  { split; try (intros q' Hq'); try (eapply update_other; [reflexivity|exact Hnd|reflexivity|by apply Hst]).
    - apply fits_reacted; [by apply Hst|cbn; by eapply node_fits|done].
    - apply reacted_batch_timer; [done|]. apply Hts; [by apply Hst|by left]. }
  destruct (elected_step live m Hm s1 _ _ _ _ _ Hst1 (path PARTICIPANT m)
    (fun effs => forall q, q ∈ live -> Tell (path ACCEPTOR q) (P1A m (N + m) 0) ∈ effs)
    (leader_collecting n live m (N + m) k voted [])) as (s2 & e2 & Hr2 & HQ2 & Hout2 & Hs2);
    [by apply reacted_trigger; [|left]| |].
  { intros l [_ Hl]. rewrite (proj2 (Z.eqb_neq m N)) in Hl by done.
    destruct (elected_effect k voted l Hl Hm1) as (l' & e & ?). by exists l', e. }
  destruct (replica_election_step live m Hm s2 _ _ _ _ _ Hs2 (path PARTICIPANT m)
    (replica_behind m (cfg_log_grow_size c) vals 0)) as (s3 & Hr3 & Hs3).
  { apply (reaches_net _ _ _ _ Hr2), reacted_trigger; [done|by right]. }
  { intros q x Hq. unfold replica_moving. by rewrite decide_False. }
  { intros x. unfold replica_moving. by rewrite decide_True. }
  exists s3. split; [by eapply reaches_then, reaches_then|]. split; [done|].
  intros q Hq. exists (path LEADER m). by apply (reaches_net _ _ _ _ Hr3), Hout2, HQ2.
Qed.

(** [m] takes over from the initial leader, who got the slots of [vals] chosen: it recovers them and
    proposes them again. *)
Lemma takeover_steady s vals voted :
  m <> N -> inv n s ->
  state live m s (acceptor_seen n (N + m) (length vals) voted) leader_untouched (proxy_up n live (N + m) 0)
    (batcher_new n m) (replica_moving vals) ->
  holds_at s participant_comp m follower -> (path PARTICIPANT m, TNoPing) ∈ timers s ->
  Z.of_nat (length vals) + Z.of_nat (cfg_log_grow_size c) < 2 ^ 62 ->
  ((0 < length vals)%nat -> is_quorum n voted) ->
  (forall i v, vals !! i = Some v -> sent (net s) (CHOSEN (Z.of_nat i) v)) ->
  exists s', reaches (serving live m) s [] s' /\ steady n live m (N + m) (cfg_log_grow_size c) vals s'.
Proof.
  intros Hne Hinv Hst Hpa Hping Hb Hvq Hchosen.
  assert (m ∈ pids n) as Hp%elem_of_pids by (by apply Hlive).
  destruct (takeover_reaches s (length vals) voted vals _ _ Hne Hst Hpa Hping) as (s1 & Hr1 & Hs1 & Hp1a).
  destruct (takeover_round ltac:(lia) ltac:(lia)) as [_ Ho].
  destruct (phase1_reaches n live m Hn Hlive Hm (N + m) (length vals) voted s1 _ _ Hs1)
    as (s2 & Hr2 & (w & Hw & Hre) & Hs2); [lia|lia|done|done|done|].
  destruct (recover_reaches n live m Hn Hlive Hm (N + m) (cfg_log_grow_size c) vals w
    (leader_at n live m Leader.Phase2 (N + m) (Z.of_nat (length vals))) (batcher_up n m []) (length vals) 0%nat s2)
    as (s3 & Hr3 & Hs3); [lia|done|done|exact Hs2|done| |].
  - intros s3 i v Hr3 Hi Hv. destruct (lookup_lt_is_Some_2 vals i Hi) as [v' Hv'].
    rewrite Hv'. f_equal. assert (reaches (serving live m) s [] s3) as Hr by (by eapply reaches_then, reaches_then).
    pose proof (reaches_net _ _ _ _ Hr) as Hnet. destruct Hr as (evs & Hsafe & _).
    apply (chosen_unique n s3 (inv_safe_run n Hn evs s s3 Hinv Hsafe) (Z.of_nat i)); [|done].
    apply Hchosen in Hv' as (p & Hin & Hmsg). exists p. split; [by apply Hnet|done].
  - exists s3. split; [by eapply reaches_then, reaches_then|done].
Qed.

(** What is left of the started cluster serves [m]. *)
Lemma boot_leads s0 :
  Z.of_nat (cfg_log_grow_size c) < 2 ^ 62 -> boot c n = Some s0 -> booting (pids n) s0 -> exists r s, reaches (serving live m) s0 [] s /\
    0 <= r < 2 ^ 62 /\ (m = N -> r = N) /\ steady n live m r (cfg_log_grow_size c) [] s.
Proof.
  intros Hgrow Hboot Hb. assert (m ∈ pids n) as Hmp by (by apply Hlive). pose proof Hmp as Hp%elem_of_pids.
  assert (forall k r voted, k = 0%nat -> 0 <= r -> state live m s0 (acceptor_seen n r k voted) leader_untouched
    (proxy_up n live r 0) (batcher_new n m) (replica_moving [])) as Hst.
  { intros k r voted -> Hr. split.
    - by apply booted_fits.
    - by apply Hb.
    - intros q Hq. apply (booted_at s0 _ q _ Hb); [by apply Hlive|]. intros nd [].
      split; [|lia]. by eapply acceptor_up_weaken.
    - apply (booted_at s0 _ m _ Hb Hmp). intros nd []. by apply bt_leader0.
    - apply (booted_at s0 _ m _ Hb Hmp). intros nd []. by apply bt_proxy0.
    - apply (booted_at s0 _ m _ Hb Hmp). by intros nd [].
    - intros q Hq. apply (booted_at s0 _ q _ Hb); [by apply Hlive|]. intros nd. apply booted_moving. }
  destruct (decide (m = N)) as [Heq|Hne].
  - assert (owner N N = m) as Ho by (rewrite owner_N by lia; done).
    assert (state live m s0 (acceptor_seen n N 0 ∅) (leader_collecting n live m N 0 ∅ []) (proxy_up n live N 0)
      (batcher_new n m) (fun q => replica_up m q (cfg_log_grow_size c) [])) as Hs.
    { destruct (Hst 0%nat N ∅ eq_refl ltac:(lia)) as [H1 H2 H3 [nd [Hnd [Hbs Hl]]] H5 H6 _].
      split; try done.
      - exists nd. split; [done|]. rewrite (proj2 (Z.eqb_eq m N)) in Hl by done. unfold leader_collecting.
        rewrite (proj2 (Nat.ltb_lt _ _)) by (unfold quorum_size; simpl; lia).
        split; [done|]. split; rewrite Hbs; [apply dom_empty_L|]. by intros a p ?%lookup_empty_Some.
      - intros q Hq. apply (booted_at s0 _ q _ Hb); [by apply Hlive|]. intros nd' [_ _ _ _ _ [Hcl []] _].
        split; try done. intros _. by rewrite Hcl. }
    destruct (phase1_reaches n live m Hn Hlive Hm N 0 ∅ s0 _ _ Hs) as (s1 & Hr1 & _ & Hs1);
      [lia|lia|done|lia| |].
    { intros q Hq. rewrite Heq. apply (bg_p1a _ _ Hb); [apply elem_of_pids; lia|].
      apply elem_of_pids. by apply Hlive. }
    exists N, s1. split; [done|]. split; [lia|]. split; [done|]. exact Hs1.
  - destruct (takeover_steady s0 [] ∅) as (s1 & Hr1 & Hs1); try done.
    + by apply booted_inv.
    + apply Hst; [done|lia].
    + apply (booted_at s0 _ m _ Hb Hmp). intros nd []. by apply bt_participant0.
    + by apply Hb.
    + simpl. lia.
    + exists (N + m), s1. split; [done|]. split; [lia|]. split; [done|exact Hs1].
Qed.
End boot.

(** ** Failover *)

Section failover.
Context {iter : IterationId} (c : MpConfig) (n : nat) (live live' : gset Z) (m : Z).
Local Abbreviation N := (Z.of_nat n).
Context (Hn : N < 2 ^ 61) (Hc : config_ok c) (HN : N ∈ live).
Context (Hlive' : is_quorum n live') (Hm : m ∈ live') (Hne : m <> N).
(** The initial leader served the clients from the start and got the slots of [vals] chosen. *)
Context (s0 s1 : Sys) (ps : list (Z * Proposal)) (vals : list CommandBatchOrNoop).
Context (Hboot : boot c n = Some s0) (Hb : booting c n live' m (pids n) s0).
Context (Hrun : reaches (serving live N) s0 ps s1).
Context (Hst : steady n live N N (cfg_log_grow_size c) vals s1).
Context (Hlen : Z.of_nat (length vals) + Z.of_nat (cfg_log_grow_size c) < 2 ^ 62).

Lemma served_inv : inv n s1.
Proof.
  destruct Hrun as (evs & Hsafe & _). apply (inv_safe_run n Hn evs s0 s1); [|done].
  by eapply (booted_inv c n live').
Qed.

(** What did not act is as it was started. *)
Lemma idle_kept {A} (f : Node -> A) comp q (P : A -> Prop) :
  (forall nd nd', same_component comp nd nd' -> f nd' = f nd) -> serving live N comp q = false ->
  q ∈ pids n -> (forall nd, booted c n live' m q nd -> P (f nd)) -> holds_at s1 f q P.
Proof.
  intros Hf Hidle Hq HP. destruct (booted_at c n live' m s0 f q P Hb Hq HP) as (nd & Hnd & Hx).
  destruct (reaches_frame _ _ _ _ Hrun) as [Hk _]. destruct (Hk q nd Hnd) as (nd' & Hnd' & Hs).
  exists nd'. split; [done|]. rewrite (Hf nd nd'); [done|]. apply Hs. by rewrite Hidle.
Qed.

Lemma timer_kept comp q t :
  serving live N comp q = false -> (mkPath comp q ITERATION, t) ∈ timers s0 ->
  (mkPath comp q ITERATION, t) ∈ timers s1.
Proof.
  intros Hidle. destruct (reaches_frame _ _ _ _ Hrun) as [_ Hk]. apply Hk. simpl. by rewrite Hidle.
Qed.

Lemma not_serving comp : comp <> ACCEPTOR -> comp <> REPLICA -> serving live N comp m = false.
Proof.
  intros Ha Hr. unfold serving. rewrite (bool_decide_false (m = N)) by done.
  apply andb_false_iff. by destruct comp; auto.
Qed.

Lemma down_serving comp q : q ∉ live -> serving live N comp q = false.
Proof. intros Hq. unfold serving. by rewrite bool_decide_false. Qed.

(** A majority voted for the last chosen slot. *)
Lemma voters : exists voted, ((0 < length vals)%nat -> is_quorum n voted) /\
  forall q nd, nodes s1 !! q = Some nd -> q ∈ voted -> (0 < length vals)%nat ->
    is_Some (Acceptor.states (acceptor_comp nd) !! (Z.of_nat (length vals) - 1)).
Proof.
  destruct (decide (length vals = 0%nat)) as [Hz|Hz]; [exists ∅; split; intros; lia|].
  destruct (lookup_lt_is_Some_2 vals (length vals - 1) ltac:(lia)) as [v Hv].
  destruct (st_replica _ _ _ _ _ _ _ _ Hst N HN) as (nd & Hnd & Hup).
  pose proof served_inv as Hinv.
  assert (sent (net s1) (CHOSEN (Z.of_nat (length vals) - 1) v)) as Hs.
  { apply (iv_replica n s1 Hinv N nd Hnd). rewrite (ru_log _ _ _ _ _ Hup) by lia.
    rewrite <- Hv. f_equal. lia. }
  apply (iv_chosen n s1 Hinv) in Hs as (r & src & Q & HQ & _ & Hvotes).
  exists Q. split; [done|]. intros q ndq Hq Hin _.
  destruct (ai_vote _ _ _ (iv_acceptor n s1 Hinv q ndq Hq) _ _ (Hvotes q Hin)) as [(st & Hstq & _) _].
  by exists st.
Qed.

Lemma failover_steady :
  exists s2, reaches (serving live' m) s1 [] s2 /\ steady n live' m (N + m) (cfg_log_grow_size c) vals s2.
Proof.
  destruct voters as (voted & Hvq & Hvoted). pose proof served_inv as Hinv.
  assert (m ∈ pids n) as Hmp by (by apply Hlive'). pose proof Hmp as Hm1%elem_of_pids.
  apply (takeover_steady c n live' m Hn Hc Hlive' Hm s1 vals voted); try done.
  - split.
    + by apply Hst.
    + apply timer_kept; [by apply not_serving|]. by apply Hb.
    + intros q Hq. assert (holds_at s1 acceptor_comp q (acceptor_up n (N + m) (length vals) q)) as (nd & Hnd & Ha).
      { destruct (decide (q ∈ live)) as [Hql|Hql].
        - destruct (st_acceptor _ _ _ _ _ _ _ _ Hst q Hql) as (nd & Hnd & Ha). exists nd. split; [done|].
          eapply acceptor_up_weaken; [done|lia|lia].
        - apply (idle_kept acceptor_comp ACCEPTOR); [done|by apply down_serving|by apply Hlive'|].
          intros nd []. eapply acceptor_up_weaken; [done|lia|lia]. }
      exists nd. split; [done|]. split; [done|]. by apply Hvoted.
    + apply (idle_kept leader_comp LEADER); [done|by apply not_serving|done|]. intros nd []. by apply bt_leader0.
    + apply (idle_kept proxy_leader_comp PROXY_LEADER); [done|by apply not_serving|done|]. intros nd [].
      by apply bt_proxy0.
    + apply (idle_kept batcher_comp BATCHER); [done|by apply not_serving|done|]. by intros nd [].
    + intros q Hq. destruct (decide (q ∈ live)) as [Hql|Hql].
      * destruct (st_replica _ _ _ _ _ _ _ _ Hst q Hql) as (nd & Hnd & Hx). exists nd. split; [done|].
        exists (length vals). split; [lia|]. rewrite take_ge by lia. case_decide; destruct Hx; by split.
      * apply (idle_kept replica_comp REPLICA); [done|by apply down_serving|by apply Hlive'|].
        intros nd. apply booted_moving.
  - apply (idle_kept participant_comp PARTICIPANT); [done|by apply not_serving|done|]. intros nd [].
    by apply bt_participant0.
  - apply timer_kept; [by apply not_serving|]. by apply Hb.
  - intros i v Hi. destruct (st_replica _ _ _ _ _ _ _ _ Hst N HN) as (nd & Hnd & Hup).
    apply (iv_replica n s1 Hinv N nd Hnd). by rewrite (ru_log _ _ _ _ _ Hup), Nat2Z.id by lia.
Qed.
End failover.

(** ** Progress *)

(** Every replica of [live] has logged the [batches], batch [i] in slot [i], and executed all of them. *)
Definition learned (s : Sys) (live : gset Z) (batches : list (list Proposal)) : Prop :=
  forall q, q ∈ live ->
    (forall i batch, batches !! i = Some batch ->
       replica_log s q (Z.of_nat i) = Some (CommandBatch (map proposal_data batch))) /\
    exists nd, nodes s !! q = Some nd /\
      Replica.executed_watermark (replica_comp nd) = Z.of_nat (length batches).

(** The replica of [m] has answered the clients for all commands of the [batches]. *)
Definition clients_answered {iter : IterationId} (s : Sys) (m : Z) (batches : list (list Proposal)) : Prop :=
  forall p, p ∈ concat batches ->
    mkPacket (mkPath REPLICA m ITERATION) (client_path ITERATION)
      (MProposalResp (mkProposalResp (proposal_data p) m 0)) ∈ net s.

Lemma steady_learned {iter : IterationId} n live m r grow batches s :
  steady n live m r grow (map batch_value batches) s -> learned s live batches.
Proof.
  intros Hs q Hq. destruct (st_replica _ _ _ _ _ _ _ _ Hs q Hq) as (nd & Hnd & Hup). split.
  - intros i batch Hi. unfold replica_log. rewrite Hnd. cbn [mbind option_bind].
    by rewrite (ru_log _ _ _ _ _ Hup), Nat2Z.id, list_lookup_fmap, Hi by lia.
  - exists nd. split; [done|]. by rewrite (ru_executed _ _ _ _ _ Hup), length_map.
Qed.

Lemma answered_clients {iter : IterationId} m batches s :
  answered m s (map batch_value batches) -> clients_answered s m batches.
Proof.
  intros Ha p Hp%list_elem_of_In. apply in_concat in Hp as (batch & Hbatch%list_elem_of_In & Hp%list_elem_of_In).
  apply (Ha (batch_value batch)); by apply list_elem_of_fmap_2.
Qed.

Lemma serving_on_nodes live m comp q : serving live m comp q = true -> on_nodes live comp q = true.
Proof. unfold serving. by intros [? _]%andb_true_iff. Qed.

(** C3: Multi-Paxos makes progress with any minority of the nodes down.  For every cluster size,
    every set [live] of at least a majority of the nodes, every node [m] of it and all batches of
    commands proposed at [m], the cluster starts and has a run that avoids the hazards, in which every
    event is handled by a live node and no other proposals are made, at the end of which every live
    replica has logged batch [i] in slot [i] and executed all of them, and the replica of [m] has
    answered every command to the client. *)
Theorem mp_progress {iter : IterationId} (c : MpConfig) (n : nat) (live : gset Z) (m : Z)
    (batches : list (list Proposal)) :
  Z.of_nat n < 2 ^ 61 -> config_ok c -> is_quorum n live -> m ∈ live ->
  Forall (fun b => b <> []) batches ->
  Z.of_nat (length batches) + Z.of_nat (cfg_log_grow_size c) < 2 ^ 62 ->
  exists s0 evs s, boot c n = Some s0 /\ safe_run s0 evs = Some s /\
    only_acting (on_nodes live) s0 evs = true /\ proposals evs = map (pair m) (concat batches) /\
    learned s live batches /\ clients_answered s m batches.
Proof.
  intros Hn Hc Hlive Hm Hne Hlen.
  destruct (boot_total c n live m Hn Hc Hlive Hm) as (s0 & Hboot & Hb).
  destruct (boot_leads c n live m Hn Hc Hlive Hm s0 ltac:(lia) Hboot Hb) as (r & s1 & Hr1 & Hr & _ & Hs1).
  destruct (batches_reach n live m Hn Hlive Hm r (cfg_log_grow_size c) batches [] s1 Hs1 Hne ltac:(lia) Hlen)
    as (s & Hrun & Hs & Hans).
  destruct (reaches_then _ _ _ _ _ Hr1 Hrun) as (evs & Hsafe & Hol & Hps).
  exists s0, evs, s. split_and!; [done|done| |done|by eapply steady_learned|by apply answered_clients].
  eapply only_acting_weaken; [apply serving_on_nodes|done].
Qed.

(** Node 3, the initial leader, is down. *)
Lemma mp_progress_witness :
  let iter : IterationId := 1 in
  exists s0 evs s, boot example_config 3 = Some s0 /\ safe_run s0 evs = Some s /\
    only_acting (on_nodes {[1; 2]}) s0 evs = true /\
    replica_log s 1 0 = Some (CommandBatch [[x2a]; [x2b]]) /\ replica_log s 2 1 = Some (CommandBatch [[x2c]]).
Proof.
  intros iter.
  destruct (mp_progress example_config 3 {[1; 2]} 1
    [[mkProposal [x2a]; mkProposal [x2b]]; [mkProposal [x2c]]])
    as (s0 & evs & s & Hb & Hr & Hl & _ & Hlog & _).
  - reflexivity.
  - split; vm_compute; by split || done.
  - split; [|by vm_compute; lia]. intros q. rewrite elem_of_pids. set_solver by lia.
  - set_solver.
  - by repeat constructor.
  - reflexivity.
  - exists s0, evs, s. split_and!; [done..| |].
    + destruct (Hlog 1 ltac:(set_solver)) as [H _]. by apply (H 0%nat [mkProposal [x2a]; mkProposal [x2b]]).
    + destruct (Hlog 2 ltac:(set_solver)) as [H _]. by apply (H 1%nat [mkProposal [x2c]]).
Defined.

(** C4: Multi-Paxos survives the failure of its leader.  The initial leader, node [n], has served
    [batches] with any majority [live].  From that state any other node [m] can take over with any
    majority [live'], in which the old leader need not be: there is a run that avoids the hazards, in
    which only nodes of [live'] handle events and only [batches'] are proposed, at the end of which
    every replica of [live'] has logged and executed the batches that the old leader got chosen, in
    their slots, and after them those of [m], and the clients of [m] are answered. *)
Theorem mp_failover {iter : IterationId} (c : MpConfig) (n : nat) (live live' : gset Z) (m : Z)
    (batches batches' : list (list Proposal)) :
  let N := Z.of_nat n in
  N < 2 ^ 61 -> config_ok c -> is_quorum n live -> N ∈ live -> is_quorum n live' -> m ∈ live' -> m <> N ->
  Forall (fun b => b <> []) (batches ++ batches') ->
  Z.of_nat (length (batches ++ batches')) + Z.of_nat (cfg_log_grow_size c) < 2 ^ 62 ->
  exists s0 evs s evs' s',
    boot c n = Some s0 /\ safe_run s0 evs = Some s /\
    only_acting (on_nodes live) s0 evs = true /\ proposals evs = map (pair N) (concat batches) /\
    learned s live batches /\ clients_answered s N batches /\
    safe_run s evs' = Some s' /\
    only_acting (on_nodes live') s evs' = true /\ proposals evs' = map (pair m) (concat batches') /\
    learned s' live' (batches ++ batches') /\ clients_answered s' m batches'.
Proof.
  intros N Hn Hc Hlive HN Hlive' Hm Hmn [Hne Hne']%Forall_app Hlen. rewrite length_app in Hlen.
  destruct (boot_total c n live N Hn Hc Hlive HN) as (s0 & Hboot & Hb).
  destruct (boot_total c n live' m Hn Hc Hlive' Hm) as (s0' & Hboot' & Hb').
  rewrite Hboot in Hboot'. injection Hboot' as <-.
  destruct (boot_leads c n live N Hn Hc Hlive HN s0 ltac:(lia) Hboot Hb) as (r & s1 & Hr1 & Hr & Hrn & Hs1).
  rewrite (Hrn eq_refl) in Hs1. clear r Hr Hrn.
  destruct (batches_reach n live N Hn Hlive HN N (cfg_log_grow_size c) batches [] s1 Hs1 Hne ltac:(lia) ltac:(simpl; lia))
    as (s & Hrun & Hs & Hans).
  pose proof (reaches_then _ _ _ _ _ Hr1 Hrun) as Hserved. simpl in Hs.
  destruct (failover_steady c n live live' m Hn Hc HN Hlive' Hm Hmn s0 s _ _ Hboot Hb' Hserved Hs)
    as (s2 & Hr2 & Hs2); [rewrite length_map; lia|].
  assert (m ∈ pids n) as Hm1%elem_of_pids by (by apply Hlive').
  destruct (batches_reach n live' m Hn Hlive' Hm (N + m) (cfg_log_grow_size c) batches' _ s2 Hs2 Hne'
    ltac:(lia) ltac:(rewrite length_map; lia)) as (s' & Hrun' & Hs' & Hans').
  destruct Hserved as (evs & Hsafe & Hol & Hps).
  destruct (reaches_then _ _ _ _ _ Hr2 Hrun') as (evs' & Hsafe' & Hol' & Hps').
  exists s0, evs, s, evs', s'. rewrite <- map_app in Hs'.
  split_and!; try done; try (by eapply steady_learned); try (by apply answered_clients);
    (eapply only_acting_weaken; [apply serving_on_nodes|done]).
Qed.

(** Node 3 serves a command with node 2 and fails; node 1, which has seen nothing, takes over. *)
Lemma mp_failover_witness :
  let iter : IterationId := 1 in
  exists s0 evs s evs' s', boot example_config 3 = Some s0 /\ safe_run s0 evs = Some s /\
    only_acting (on_nodes {[2; 3]}) s0 evs = true /\ replica_log s 3 0 = Some (CommandBatch [[x2a]]) /\
    safe_run s evs' = Some s' /\ only_acting (on_nodes {[1; 2]}) s evs' = true /\
    replica_log s' 1 0 = Some (CommandBatch [[x2a]]) /\ replica_log s' 1 1 = Some (CommandBatch [[x2b]]).
Proof.
  intros iter.
  destruct (mp_failover example_config 3 {[2; 3]} {[1; 2]} 1 [[mkProposal [x2a]]] [[mkProposal [x2b]]])
    as (s0 & evs & s & evs' & s' & Hb & Hr & Ho & _ & Hlog & _ & Hr' & Ho' & _ & Hlog' & _).
  - reflexivity.
  - split; vm_compute; by split || done.
  - split; [|by vm_compute; lia]. intros q. rewrite elem_of_pids. set_solver by lia.
  - set_solver.
  - split; [|by vm_compute; lia]. intros q. rewrite elem_of_pids. set_solver by lia.
  - set_solver.
  - lia.
  - by repeat constructor.
  - reflexivity.
  - exists s0, evs, s, evs', s'. split_and!; try done.
    + destruct (Hlog 3 ltac:(set_solver)) as [H _]. by apply (H 0%nat [mkProposal [x2a]]).
    + destruct (Hlog' 1 ltac:(set_solver)) as [H _]. by apply (H 0%nat [mkProposal [x2a]]).
    + destruct (Hlog' 1 ltac:(set_solver)) as [H _]. by apply (H 1%nat [mkProposal [x2b]]).
Defined.
