(* ===== verification/Election.v ===== *)
(** What the leader-election components share.

    Ballots and their order ([ble.rs], [Ballot]), the messages and effects of the
    three components behind the [BallotLeaderElection] port ([ble.rs], [vr_le.rs],
    [mp_le.rs]), and the contract of that port: the leaders a component announces
    have strictly increasing ballots.  The contract is a type class; a generic
    theorem lifts it from one step to whole runs. *)

From S2P Require Import Prelude MpMessages Partition.

Module Ballot.

(** [#[derive(Default, Ord, PartialOrd)]]: the default is [(0, 0)], the order is
    lexicographic in the order of the fields. *)
Record t := with_ { n : Z; pid : Z }.

Definition default : t := with_ 0 0.

#[global] Instance t_eq_dec : EqDecision t.
Proof. solve_decision. Defined.

Definition lt (x y : t) : Prop := n x < n y \/ (n x = n y /\ pid x < pid y).
Definition le (x y : t) : Prop := lt x y \/ x = y.
Definition ltb (x y : t) : bool := (n x <? n y) || ((n x =? n y) && (pid x <? pid y)).

#[global] Instance lt_dec x y : Decision (lt x y).
Proof. unfold lt. apply _. Defined.

(** [Iterator::max]: of several equal maxima the last one. *)
Definition max (x y : t) : t := if ltb y x then x else y.
Definition max_list (l : list t) : option t :=
  match l with
  | [] => None
  | x :: l => Some (foldl max x l)
  end.

Lemma ltb_spec x y : ltb x y = true <-> lt x y.
Proof.
  unfold ltb, lt. by rewrite orb_true_iff, andb_true_iff, !Z.ltb_lt, Z.eqb_eq.
Qed.

Lemma ltb_false x y : ltb x y = false <-> le y x.
Proof.
  rewrite <- not_true_iff_false, ltb_spec. unfold le, lt. destruct x as [a b], y as [c d]; simpl.
  split; [|by intros [?|[= -> ->]]; lia]. intros H.
  destruct (decide (a = c)) as [->|]; [|lia]. destruct (decide (b = d)) as [->|]; [by right|lia].
Qed.

#[global] Instance lt_trans : Transitive lt.
Proof. unfold lt. intros x y z. lia. Qed.

#[global] Instance le_preorder : PreOrder le.
Proof.
  split; [by right|]. intros x y z [H1| ->] [H2| ->]; [left; by etrans|by left..|by right].
Qed.

Lemma lt_irrefl x : ~ lt x x.
Proof. unfold lt. lia. Qed.

Lemma lt_le_trans x y z : lt x y -> le y z -> lt x z.
Proof. intros H [H'| ->]; [by etrans|done]. Qed.

Lemma le_lt_trans x y z : le x y -> lt y z -> lt x z.
Proof. intros [H| ->] H'; [by etrans|done]. Qed.

Lemma le_lt_false x y : le x y -> ~ lt y x.
Proof. intros H H'. by eapply lt_irrefl, le_lt_trans. Qed.

Lemma le_neq_lt x y : le x y -> x <> y -> lt x y.
Proof. by intros [?| ->]. Qed.

Lemma max_le_l x y : le x (max x y).
Proof. unfold max. destruct (ltb y x) eqn:E; [by right|by apply ltb_false]. Qed.

Lemma max_le_r x y : le y (max x y).
Proof. unfold max. destruct (ltb y x) eqn:E; [left; by apply ltb_spec|by right]. Qed.

Lemma max_choice x y : max x y = x \/ max x y = y.
Proof. unfold max. destruct (ltb y x); auto. Qed.

Lemma foldl_max x l :
  le x (foldl max x l) /\ (forall y, y ∈ l -> le y (foldl max x l)) /\
  (foldl max x l = x \/ foldl max x l ∈ l).
Proof.
  revert x. induction l as [|y l IH]; intros x; simpl; [split; [by right|set_solver]|].
  destruct (IH (max x y)) as (H1 & H2 & H3). split_and!.
  - etrans; [apply max_le_l|done].
  - intros z [->|Hz]%elem_of_cons; [etrans; [apply max_le_r|done]|by apply H2].
  - destruct H3 as [->|H3]; [|set_solver]. destruct (max_choice x y) as [->| ->]; set_solver.
Qed.

Lemma max_list_spec l m :
  max_list l = Some m -> m ∈ l /\ forall y, y ∈ l -> le y m.
Proof.
  destruct l as [|x l]; simpl; [done|]. intros [= <-].
  destruct (foldl_max x l) as (H1 & H2 & H3). split.
  - destruct H3 as [->|H3]; set_solver.
  - intros y [->|Hy]%elem_of_cons; auto.
Qed.

Lemma le_antisym x y : le x y -> le y x -> x = y.
Proof. intros [H|H] H'; [|done]. by destruct (le_lt_false y x). Qed.

End Ballot.

(** ** Messages and effects

    [Addr] is the type of actor paths. *)

Inductive LeMsg :=
| HbRequest (round : Z)
| HbReply (round : Z) (ballot : Ballot.t) (candidate : bool)
| HbReplyMp (round : Z) (ballot current_leader : Ballot.t)
| StartViewChange (b : Ballot.t) (from : Z)
| DoViewChange (b : Ballot.t) (from : Z)
| NetStopPeer (pid : Z).

(** [AnnounceLeader] is [ble_port.trigger(Leader::with(pid, ballot))];
    a scheduled heartbeat timer carries the ballot its closure captured. *)
Inductive LeEffect {Addr : Type} :=
| LeTell (dst : Addr) (m : LeMsg)
| AnnounceLeader (pid : Z) (round : Ballot.t)
| StartTimer (delay : Z) (b : option Ballot.t)
| StopTimer
| ScheduleLag (t : Timer)
| LeReplyStop.
Arguments LeEffect : clear implicits.

Definition lag_effects {Addr} (effs : list Effect) : list (LeEffect Addr) :=
  omap (fun e => match e with Schedule t => Some (ScheduleLag t) | _ => None end) effs.

Definition announced_leaders {Addr} (effs : list (LeEffect Addr)) : list Ballot.t :=
  omap (fun e => match e with AnnounceLeader _ b => Some b | _ => None end) effs.

Lemma announced_app {Addr} (e1 e2 : list (LeEffect Addr)) :
  announced_leaders (e1 ++ e2) = announced_leaders e1 ++ announced_leaders e2.
Proof. apply omap_app. Qed.

Lemma announced_lag {Addr} effs : announced_leaders (Addr := Addr) (lag_effects effs) = [].
Proof.
  induction effs as [|e effs IH]; csimpl; [done|].
  destruct e; csimpl; try done.
Qed.

Lemma announced_tells {Addr A} (f : A -> Addr) m (l : list A) :
  announced_leaders (map (fun x => LeTell (f x) m) l) = [].
Proof. by induction l. Qed.

Lemma announced_tells_id {Addr} m (l : list Addr) :
  announced_leaders (map (fun x => LeTell x m) l) = [].
Proof. by induction l. Qed.

(** ** The contract of the election port *)

(** [increasing last l]: the ballots of [l] are strictly increasing and above the
    last ballot announced before. *)
Fixpoint increasing (o : option Ballot.t) (l : list Ballot.t) : Prop :=
  match l with
  | [] => True
  | b :: l => (match o with Some b0 => Ballot.lt b0 b | None => True end) /\
              increasing (Some b) l
  end.

Definition last_announced (o : option Ballot.t) (l : list Ballot.t) : option Ballot.t :=
  match last l with Some b => Some b | None => o end.

Lemma last_announced_app o l1 l2 :
  last_announced o (l1 ++ l2) = last_announced (last_announced o l1) l2.
Proof.
  unfold last_announced. rewrite last_app. by destruct (last l2).
Qed.

Lemma increasing_app o l1 l2 :
  increasing o (l1 ++ l2) <-> increasing o l1 /\ increasing (last_announced o l1) l2.
Proof.
  revert o. induction l1 as [|b l1 IH]; intros o; simpl; [by split; [|intros [_ ?]]|].
  rewrite IH. replace (last_announced o (b :: l1)) with (last_announced (Some b) l1); [tauto|].
  unfold last_announced. rewrite last_cons. by destruct (last l1).
Qed.

(** A component that announces leaders: its steps, the range in which its 32-bit
    ballot numbers do not wrap around, and an invariant that relates its state to
    the last leader it announced. *)
Class Election (St Input Addr : Type) := {
  le_step : St -> Input -> option (St * list (LeEffect Addr));
  le_fits : St -> bool;
  le_inv : St -> option Ballot.t -> Prop;
  le_step_ok s i s' effs last :
    le_inv s last -> le_fits s = true -> le_step s i = Some (s', effs) ->
    increasing last (announced_leaders effs) /\
    le_inv s' (last_announced last (announced_leaders effs)) }.

Section election.
Context {St Input Addr : Type} `{Election St Input Addr}.

(** A run stops when a ballot number could wrap around. *)
Fixpoint le_run (s : St) (inputs : list Input) : option (St * list Ballot.t) :=
  match inputs with
  | [] => Some (s, [])
  | i :: inputs =>
      if le_fits s then
        '(s, effs) ← le_step s i;
        '(s, l) ← le_run s inputs;
        Some (s, announced_leaders effs ++ l)
      else None
  end.

Lemma le_run_increasing s inputs s' l last :
  le_inv s last -> le_run s inputs = Some (s', l) ->
  increasing last l /\ le_inv s' (last_announced last l).
Proof.
  revert s last l. induction inputs as [|i inputs IH]; intros s last l Hinv Hr; simpl in Hr.
  - by simplify_eq.
  - destruct (le_fits s) eqn:Hf; [|done].
    apply bind_Some in Hr as ([s1 effs] & Hs & Hr).
    apply bind_Some in Hr as ([s2 l2] & Hr & [= <- <-]).
    destruct (le_step_ok _ _ _ _ _ Hinv Hf Hs) as [H1 H2].
    destruct (IH _ _ _ H2 Hr) as [H3 H4].
    rewrite increasing_app, last_announced_app. done.
Qed.

(** The announcements of a run from a freshly created component. *)
Definition le_announced (s : option St) (inputs : list Input) : option (list Ballot.t) :=
  s ← s; '(_, l) ← le_run s inputs; Some l.

Lemma le_announced_result o inputs l :
  le_announced o inputs = Some l ->
  exists s0 s, o = Some s0 /\ le_run s0 inputs = Some (s, l).
Proof.
  unfold le_announced. intros (s0 & Ho & Hr)%bind_Some.
  apply bind_Some in Hr as ([s l'] & Hr & [= <-]). eauto.
Qed.
End election.
