(* ===== verification/Ble.v ===== *)
(** Ballot leader election ([ble.rs]).

    Every heartbeat round a process asks its peers for their ballots.  If a
    majority answered, the largest candidate ballot becomes the leader; a process
    that does not hear the leader's ballot raises its own ballot above it. *)

From S2P Require Import Prelude MpMessages Partition Election.

Module Ble.
Section ble.
Context {Addr : Type}.

Record t := mk {
  pid : Z;
  peers : list Addr;
  hb_round : Z;
  ballots : list (Ballot.t * bool);
  current_ballot : Ballot.t;
  candidate : bool;
  leader : option Ballot.t;
  hb_delay : Z;
  majority : nat;
  timer : option (option Ballot.t);
  stopped : bool;
  stopped_peers : gset Z;
  stop_ask : option Z;
  quick_timeout : bool;
  initial_election_factor : Z;
  links : Links }.

Definition set_hb_round (s : t) (x : Z) : t :=
  mk (pid s) (peers s) x (ballots s) (current_ballot s) (candidate s) (leader s)
     (hb_delay s) (majority s) (timer s) (stopped s) (stopped_peers s) (stop_ask s)
     (quick_timeout s) (initial_election_factor s) (links s).

Definition set_ballots (s : t) (x : list (Ballot.t * bool)) : t :=
  mk (pid s) (peers s) (hb_round s) x (current_ballot s) (candidate s) (leader s)
     (hb_delay s) (majority s) (timer s) (stopped s) (stopped_peers s) (stop_ask s)
     (quick_timeout s) (initial_election_factor s) (links s).

Definition set_current_ballot (s : t) (x : Ballot.t) : t :=
  mk (pid s) (peers s) (hb_round s) (ballots s) x (candidate s) (leader s)
     (hb_delay s) (majority s) (timer s) (stopped s) (stopped_peers s) (stop_ask s)
     (quick_timeout s) (initial_election_factor s) (links s).

Definition set_candidate (s : t) (x : bool) : t :=
  mk (pid s) (peers s) (hb_round s) (ballots s) (current_ballot s) x (leader s)
     (hb_delay s) (majority s) (timer s) (stopped s) (stopped_peers s) (stop_ask s)
     (quick_timeout s) (initial_election_factor s) (links s).

Definition set_leader (s : t) (x : option Ballot.t) : t :=
  mk (pid s) (peers s) (hb_round s) (ballots s) (current_ballot s) (candidate s) x
     (hb_delay s) (majority s) (timer s) (stopped s) (stopped_peers s) (stop_ask s)
     (quick_timeout s) (initial_election_factor s) (links s).

Definition set_timer (s : t) (x : option (option Ballot.t)) : t :=
  mk (pid s) (peers s) (hb_round s) (ballots s) (current_ballot s) (candidate s)
     (leader s) (hb_delay s) (majority s) x (stopped s) (stopped_peers s) (stop_ask s)
     (quick_timeout s) (initial_election_factor s) (links s).

Definition set_stopped (s : t) (x : bool) : t :=
  mk (pid s) (peers s) (hb_round s) (ballots s) (current_ballot s) (candidate s)
     (leader s) (hb_delay s) (majority s) (timer s) x (stopped_peers s) (stop_ask s)
     (quick_timeout s) (initial_election_factor s) (links s).

Definition set_stopped_peers (s : t) (x : gset Z) : t :=
  mk (pid s) (peers s) (hb_round s) (ballots s) (current_ballot s) (candidate s)
     (leader s) (hb_delay s) (majority s) (timer s) (stopped s) x (stop_ask s)
     (quick_timeout s) (initial_election_factor s) (links s).

Definition set_stop_ask (s : t) (x : option Z) : t :=
  mk (pid s) (peers s) (hb_round s) (ballots s) (current_ballot s) (candidate s)
     (leader s) (hb_delay s) (majority s) (timer s) (stopped s) (stopped_peers s) x
     (quick_timeout s) (initial_election_factor s) (links s).

Definition set_quick_timeout (s : t) (x : bool) : t :=
  mk (pid s) (peers s) (hb_round s) (ballots s) (current_ballot s) (candidate s)
     (leader s) (hb_delay s) (majority s) (timer s) (stopped s) (stopped_peers s)
     (stop_ask s) x (initial_election_factor s) (links s).

Definition set_links (s : t) (x : Links) : t :=
  mk (pid s) (peers s) (hb_round s) (ballots s) (current_ballot s) (candidate s)
     (leader s) (hb_delay s) (majority s) (timer s) (stopped s) (stopped_peers s)
     (stop_ask s) (quick_timeout s) (initial_election_factor s) x.

(** [Leader::with(pid, round)] of the initial leader, if one is given. *)
Definition with_ (peers : list Addr) (pid hb_delay : Z) (quick_timeout : bool)
    (initial_leader : option (Z * Ballot.t)) (initial_election_factor : Z) : t :=
  let n := (length peers + 1)%nat in
  let '(leader, initial_ballot) :=
    match initial_leader with
    | Some (l_pid, l_round) =>
        let leader_ballot := Ballot.with_ (Ballot.n l_round) l_pid in
        let initial_ballot :=
          if l_pid =? pid then leader_ballot else Ballot.with_ 0 pid in
        (Some leader_ballot, initial_ballot)
    | None => (None, Ballot.with_ 0 pid)
    end in
  mk pid peers 0 [] initial_ballot true leader hb_delay (n / 2 + 1)%nat None false ∅ None
     quick_timeout initial_election_factor links_init.

Definition set_lagging_delay (s : t) (d : Z) : t :=
  set_links s (links_set_lagging_delay d (links s)).

(** [None] is the failed [assert!]. *)
Definition set_initial_leader (s : t) (l_pid : Z) (l_round : Ballot.t)
    : option (t * list (LeEffect Addr)) :=
  match leader s with
  | Some _ => None
  | None =>
      let leader_ballot := Ballot.with_ (Ballot.n l_round) l_pid in
      let s := set_leader s (Some leader_ballot) in
      let s := set_current_ballot s
                 (if l_pid =? pid s then leader_ballot else Ballot.with_ 0 (pid s)) in
      Some (set_quick_timeout s false, [AnnounceLeader l_pid leader_ballot])
  end.

Definition leader_or_default (s : t) : Ballot.t := default Ballot.default (leader s).

Definition candidate_ballots (l : list (Ballot.t * bool)) : list Ballot.t :=
  omap (fun bc : Ballot.t * bool => if bc.2 then Some bc.1 else None) l.

Definition check_leader (s : t) : t * list (LeEffect Addr) :=
  let taken := ballots s in
  let s := set_ballots s [] in
  let top_ballot := default Ballot.default (Ballot.max_list (candidate_ballots taken)) in
  if Ballot.ltb top_ballot (leader_or_default s) then
    let s := set_current_ballot s
      (Ballot.with_ (Ballot.n (leader_or_default s) +u32 1) (Ballot.pid (current_ballot s))) in
    (set_leader s None, [])
  else if bool_decide (leader s = Some top_ballot) then (s, [])
  else
    let s := set_quick_timeout s false in
    let s := set_leader s (Some top_ballot) in
    (s, [AnnounceLeader (Ballot.pid top_ballot) top_ballot]).

Definition start_timer (s : t) (delay : Z) : t * list (LeEffect Addr) :=
  (set_timer s (Some None), [StartTimer delay None]).

Definition stop_timer (s : t) : t * list (LeEffect Addr) :=
  match timer s with
  | Some _ => (set_timer s None, [StopTimer])
  | None => (s, [])
  end.

(** [None] is a division by zero. *)
Definition new_hb_round (s : t) : option (t * list (LeEffect Addr)) :=
  delay ← (if quick_timeout s then
             if initial_election_factor s =? 0 then None
             else Some (hb_delay s / initial_election_factor s)
           else Some (hb_delay s));
  let s := set_hb_round s (hb_round s +u32 1) in
  let requests := map (fun peer => LeTell peer (HbRequest (hb_round s))) (peers s) in
  let '(s, started) := start_timer s delay in
  Some (s, requests ++ started).

Definition hb_timeout (s : t) : option (t * list (LeEffect Addr)) :=
  let '(s, announced) :=
    if (majority s <=? length (ballots s) + 1)%nat then
      let s := set_candidate s true in
      let s := set_ballots s (ballots s ++ [(current_ballot s, candidate s)]) in
      check_leader s
    else (set_candidate (set_ballots s []) false, []) in
  '(s, effs) ← new_hb_round s;
  Some (s, announced ++ effs).

Definition disconnect_peers (s : t) (peers : list Z) (delay : bool)
    (lagging_peer : option Z) : option (t * list (LeEffect Addr)) :=
  '(l, effs) ← links_disconnect peers delay lagging_peer (links s);
  Some (set_links s l, lag_effects effs).

Definition recover_peers (s : t) : t := set_links s (links_recover (links s)).

Definition on_start (s : t) : option (t * list (LeEffect Addr)) := new_hb_round s.

Definition on_kill (s : t) : t * list (LeEffect Addr) := stop_timer s.

(** The [Stop] request of the parent, which carries the pid told to the peers. *)
Definition receive_local (s : t) (stop : Z) : t * list (LeEffect Addr) :=
  let s := set_links s (links_recover (links s)) in
  let '(s, e1) := stop_timer s in
  let e2 := map (fun peer => LeTell peer (NetStopPeer stop)) (peers s) in
  let s := set_stopped s true in
  if bool_decide (size (stopped_peers s) = length (peers s)) then
    (s, e1 ++ e2 ++ [LeReplyStop])
  else (set_stop_ask s (Some stop), e1 ++ e2).

(** [None] is a failed [assert!], a missing ask or an [unimplemented!] message. *)
Definition receive_network (s : t) (sender : Addr) (m : LeMsg)
    : option (t * list (LeEffect Addr)) :=
  match m with
  | HbRequest round =>
      if stopped s then Some (s, [])
      else Some (s, [LeTell sender (HbReply round (current_ballot s) (candidate s))])
  | HbReply round ballot cand =>
      if stopped s then Some (s, [])
      else if bool_decide (Ballot.pid ballot ∈ disconnected_peers (links s)) then Some (s, [])
      else if round =? hb_round s then Some (set_ballots s (ballots s ++ [(ballot, cand)]), [])
      else Some (s, [])
  | NetStopPeer p =>
      if bool_decide (p ∈ stopped_peers s) then None
      else
        let s := set_stopped_peers s ({[p]} ∪ stopped_peers s) in
        if stopped s && bool_decide (size (stopped_peers s) = length (peers s)) then
          _ ← stop_ask s;
          Some (set_stop_ask s None, [LeReplyStop])
        else Some (s, [])
  | _ => None
  end.

(** What can happen to a started component. *)
Inductive input :=
| HbTimeout
| Receive (sender : Addr) (m : LeMsg)
| Stop (pid : Z)
| LagTimeout (timer : Timer)
| Disconnect (peers : list Z) (delay : bool) (lagging_peer : option Z)
| Recover.

Definition step (s : t) (i : input) : option (t * list (LeEffect Addr)) :=
  match i with
  | HbTimeout => hb_timeout s
  | Receive sender m => receive_network s sender m
  | Stop p => Some (receive_local s p)
  | LagTimeout timer => l ← links_timeout timer (links s); Some (set_links s l, [])
  | Disconnect peers delay lp => disconnect_peers s peers delay lp
  | Recover => Some (recover_peers s, [])
  end.

(** ** The contract of the election port *)

(** Raising the own ballot above the leader's does not wrap around. *)
Definition fits (s : t) : bool := Ballot.n (leader_or_default s) + 1 <? 2 ^ 32.

(** With a leader, nothing larger was announced; without one, the own ballot is
    larger than everything announced. *)
Definition inv (s : t) (o : option Ballot.t) : Prop :=
  0 <= Ballot.n (leader_or_default s) /\
  match o with
  | None => True
  | Some b => match leader s with
              | Some l => Ballot.le b l
              | None => Ballot.lt b (current_ballot s)
              end
  end.

Lemma candidate_ballots_app l1 l2 :
  candidate_ballots (l1 ++ l2) = candidate_ballots l1 ++ candidate_ballots l2.
Proof. apply omap_app. Qed.

(** The maximum is taken over a list that ends in the own ballot. *)
Lemma top_ballot_own l b :
  exists m, Ballot.max_list (candidate_ballots (l ++ [(b, true)])) = Some m /\
    Ballot.le b m.
Proof.
  rewrite candidate_ballots_app. simpl.
  destruct (Ballot.max_list (candidate_ballots l ++ [b])) as [m|] eqn:Hm.
  - exists m. split; [done|]. apply Ballot.max_list_spec in Hm as [_ Hm]. apply Hm.
    apply elem_of_app. right. by apply list_elem_of_singleton.
  - by destruct (candidate_ballots l).
Qed.

Lemma ble_new_hb_round_frame s s' effs :
  new_hb_round s = Some (s', effs) ->
  leader s' = leader s /\ current_ballot s' = current_ballot s /\ ballots s' = ballots s /\
  announced_leaders effs = [].
Proof.
  unfold new_hb_round, start_timer. intros (delay & _ & H)%bind_Some. simplify_eq.
  split_and!; try done. by rewrite announced_app, announced_tells_id.
Qed.

(** The decision of [check_leader] on the top ballot of the round. *)
Lemma check_leader_spec s top s' effs :
  Ballot.max_list (candidate_ballots (ballots s)) = Some top ->
  check_leader s = (s', effs) ->
  (Ballot.lt top (leader_or_default s) /\ leader s' = None /\ announced_leaders effs = [] /\
     current_ballot s' = Ballot.with_ (Ballot.n (leader_or_default s) +u32 1)
                           (Ballot.pid (current_ballot s))) \/
  (Ballot.le (leader_or_default s) top /\ leader s' = Some top /\
     current_ballot s' = current_ballot s /\
     announced_leaders effs = if bool_decide (leader s = Some top) then [] else [top]).
Proof.
  unfold check_leader. intros -> H. simpl in H.
  destruct (Ballot.ltb top (leader_or_default (set_ballots s []))) eqn:Hlt.
  - left. simplify_eq. by apply Ballot.ltb_spec in Hlt.
  - right. apply Ballot.ltb_false in Hlt. case_bool_decide; by simplify_eq.
Qed.

Lemma check_leader_ok s top s' effs o :
  inv s o -> fits s = true ->
  Ballot.max_list (candidate_ballots (ballots s)) = Some top ->
  Ballot.le (current_ballot s) top ->
  check_leader s = (s', effs) ->
  increasing o (announced_leaders effs) /\
  inv s' (last_announced o (announced_leaders effs)).
Proof.
  intros [H0 Hinv] Hfits Htop Hcur H. unfold fits in Hfits. bool_to_prop.
  destruct (check_leader_spec _ _ _ _ Htop H)
    as [(Hlt & Hl & -> & Hc)|(Hle & Hl & Hc & ->)].
  - split; [done|]. unfold inv, last_announced, leader_or_default. simpl. rewrite Hl, Hc.
    split; [done|]. destruct o as [b|]; [|done].
    unfold leader_or_default in *. destruct (leader s) as [l|]; simpl in *.
    + rewrite u32_add_small by lia.
      apply (Ballot.le_lt_trans _ l); [done|]. left. simpl. lia.
    + rewrite u32_add_small by lia. destruct Hlt as [Hlt|Hlt]; simpl in Hlt.
      * destruct (Ballot.lt_le_trans _ _ _ Hinv Hcur) as [?|[? ?]]; left; simpl; lia.
      * destruct (Ballot.lt_le_trans _ _ _ Hinv Hcur) as [?|[? ?]]; left; simpl; lia.
  - assert (0 <= Ballot.n top) as Htop0.
    { destruct Hle as [[?|[? _]]|Heq]; [lia|lia|by rewrite <- Heq]. }
    case_bool_decide as Heq.
    + split; [done|]. unfold inv, last_announced, leader_or_default. simpl. rewrite Hl. simpl.
      split; [done|]. by rewrite Heq in Hinv.
    + split.
      * split; [|done]. destruct o as [b|]; [|done]. unfold leader_or_default in Hle.
        destruct (leader s) as [l|]; simpl in *.
        -- apply (Ballot.le_lt_trans _ l); [done|]. apply Ballot.le_neq_lt; [done|congruence].
        -- by apply (Ballot.lt_le_trans _ (current_ballot s)).
      * unfold inv, last_announced, leader_or_default. simpl. rewrite Hl. split; [done|by right].
Qed.

(** A step that keeps the leader and the own ballot and announces nothing. *)
Lemma ble_inv_same s s' o (effs : list (LeEffect Addr)) :
  leader s' = leader s -> current_ballot s' = current_ballot s ->
  announced_leaders effs = [] -> inv s o ->
  increasing o (announced_leaders effs) /\
  inv s' (last_announced o (announced_leaders effs)).
Proof.
  intros Hl Hc -> Hinv. split; [done|]. unfold inv, leader_or_default, last_announced in *.
  simpl. by rewrite Hl, Hc.
Qed.

Lemma ble_receive_local_quiet s p :
  announced_leaders (receive_local s p).2 = [] /\
  leader (receive_local s p).1 = leader s /\
  current_ballot (receive_local s p).1 = current_ballot s.
Proof.
  unfold receive_local. destruct (stop_timer _) as [s1 e1] eqn:Hs.
  assert (announced_leaders e1 = [] /\ leader s1 = leader s /\
    current_ballot s1 = current_ballot s) as (He & Hl & Hc).
  { unfold stop_timer in Hs. repeat case_match; by simplify_eq. }
  case_bool_decide; cbn [fst snd]; rewrite !announced_app, He, announced_tells_id;
    by split_and!.
Qed.

Lemma ble_step_ok s i s' effs o :
  inv s o -> fits s = true -> step s i = Some (s', effs) ->
  increasing o (announced_leaders effs) /\
  inv s' (last_announced o (announced_leaders effs)).
Proof.
  intros Hinv Hfits H. destruct i as [|sender m|p|timer|ps delay lp|]; simpl in H.
  - unfold hb_timeout in H. destruct (_ <=? _)%nat.
    + destruct (check_leader _) as [s1 e1] eqn:Hch.
      apply bind_Some in H as ([s2 e2] & Hr & [= <- <-]).
      apply ble_new_hb_round_frame in Hr as (Hl & Hc & _ & Ha).
      destruct (top_ballot_own (ballots s) (current_ballot s)) as (top & Htop & Hle).
      eapply check_leader_ok in Hch as [H1 H2]; [|exact Hinv|exact Hfits|exact Htop|exact Hle].
      rewrite announced_app, Ha, app_nil_r. split; [done|].
      unfold inv, leader_or_default in *. by rewrite Hl, Hc.
    + apply bind_Some in H as ([s2 e2] & Hr & [= <- <-]).
      apply ble_new_hb_round_frame in Hr as (Hl & Hc & _ & Ha). by eapply ble_inv_same.
  - destruct m; simpl in H; handler_inv H; by eapply ble_inv_same.
  - destruct (ble_receive_local_quiet s p) as (Ha & Hl & Hc). injection H as H.
    rewrite H in Ha, Hl, Hc. by eapply ble_inv_same.
  - apply bind_Some in H as (l & _ & [= <- <-]). by eapply ble_inv_same.
  - apply bind_Some in H as ([l e] & _ & [= <- <-]). eapply ble_inv_same; try done.
    apply announced_lag.
  - injection H as <- <-. by eapply ble_inv_same.
Qed.

#[export] Instance ble_election : Election t input Addr := {
  le_step := step;
  le_fits := fits;
  le_inv := inv;
  le_step_ok := ble_step_ok }.

Lemma with_inv peers p d q init f :
  (forall l, init = Some l -> 0 <= Ballot.n l.2) -> inv (with_ peers p d q init f) None.
Proof.
  intros Hi. unfold inv, with_, leader_or_default. destruct init as [[lp lr]|]; simpl; [|done].
  split; [|done]. by specialize (Hi _ eq_refl).
Qed.

(** C35: over a whole run the ballots a process announces as leaders are strictly
    increasing, whatever answers, stops and partitions it sees, as long as no
    ballot number reaches [2^32 - 1]. *)
Theorem ble_leaders_increasing (peers : list Addr) (p d : Z) (q : bool)
    (init : option (Z * Ballot.t)) (f : Z) (inputs : list input) (s : t) (l : list Ballot.t) :
  (forall b, init = Some b -> 0 <= Ballot.n b.2) ->
  le_run (with_ peers p d q init f) inputs = Some (s, l) -> increasing None l.
Proof.
  intros Hi H. eapply le_run_increasing in H as [H _]; [done|]. by apply with_inv.
Qed.

(** The largest candidate ballot of a round, with the process's own. *)
Definition top_ballot (s : t) : Ballot.t :=
  default Ballot.default
    (Ballot.max_list (candidate_ballots (ballots s ++ [(current_ballot s, true)]))).

(** The end of a heartbeat round.  Without a majority of answers the process
    steps back as a candidate and keeps its leader.  With a majority, a larger top
    ballot is announced as the leader, and a top ballot below the leader's makes
    the process give up the leader and raise its own ballot above it.  The answers
    are dropped and the next round is started either way. *)
Theorem ble_timeout_spec (s s' : t) (effs : list (LeEffect Addr)) :
  hb_timeout s = Some (s', effs) ->
  ballots s' = [] /\ hb_round s' = hb_round s +u32 1 /\
  if (majority s <=? length (ballots s) + 1)%nat then
    candidate s' = true /\
    (Ballot.lt (top_ballot s) (leader_or_default s) ->
       leader s' = None /\ announced_leaders effs = [] /\
       current_ballot s' = Ballot.with_ (Ballot.n (leader_or_default s) +u32 1)
                             (Ballot.pid (current_ballot s))) /\
    (Ballot.le (leader_or_default s) (top_ballot s) ->
       leader s' = Some (top_ballot s) /\ current_ballot s' = current_ballot s /\
       announced_leaders effs =
         if bool_decide (leader s = Some (top_ballot s)) then [] else [top_ballot s])
  else
    candidate s' = false /\ leader s' = leader s /\
    current_ballot s' = current_ballot s /\ announced_leaders effs = [].
Proof.
  intros H. unfold hb_timeout in H. destruct (majority s <=? _)%nat.
  - set (s0 := set_ballots (set_candidate s true) _) in H.
    destruct (check_leader s0) as [s1 e1] eqn:Hch.
    apply bind_Some in H as ([s2 e2] & Hr & [= <- <-]).
    assert (candidate s1 = true /\ ballots s1 = [] /\ hb_round s1 = hb_round s) as (Hc1 & Hb1 & Hr1).
    { unfold check_leader in Hch. repeat case_match; by simplify_eq. }
    destruct (top_ballot_own (ballots s) (current_ballot s)) as (top & Htop & _).
    assert (top_ballot s = top) as -> by (unfold top_ballot; by rewrite Htop).
    assert (candidate s2 = candidate s1 /\ hb_round s2 = hb_round s1 +u32 1) as [Hc2 Hr2].
    { unfold new_hb_round in Hr. apply bind_Some in Hr as (? & _ & [= <- _]). done. }
    apply ble_new_hb_round_frame in Hr as (Hl & Hc & Hb & Ha).
    rewrite announced_app, Ha, app_nil_r, Hl, Hc, Hb, Hc2, Hr2, Hc1, Hb1, Hr1.
    split; [done|]. split; [done|]. split; [done|].
    destruct (check_leader_spec s0 top s1 e1 Htop Hch)
      as [(Hlt & ? & ? & ?)|(Hle & ? & ? & ?)]; split; intros Hx.
    + done.
    + by destruct (Ballot.le_lt_false _ _ Hx Hlt).
    + by destruct (Ballot.le_lt_false _ _ Hle Hx).
    + done.
  - apply bind_Some in H as ([s2 e2] & Hr & [= <- <-]). pose proof Hr as Hr'.
    apply ble_new_hb_round_frame in Hr as (Hl & Hc & Hb & Ha).
    unfold new_hb_round in Hr'. apply bind_Some in Hr' as (? & _ & [= <- _]). done.
Qed.


End ble.
Arguments t : clear implicits.
Arguments input : clear implicits.

(** ** Concrete processes *)

(** Process 1 of three, whose two peers answer the first round. *)
Definition example : t nat := with_ [2%nat; 3%nat] 1 100 false None 10.
Definition example_inputs : list (input nat) :=
  [HbTimeout; Receive 2%nat (HbReply 1 (Ballot.with_ 0 2) true);
   Receive 3%nat (HbReply 1 (Ballot.with_ 0 3) true); HbTimeout;
   Receive 2%nat (HbReply 2 (Ballot.with_ 0 2) true); HbTimeout;
   Receive 2%nat (HbReply 3 (Ballot.with_ 2 2) true); HbTimeout].

Lemma ble_leaders_increasing_witness :
  exists s, le_run example example_inputs = Some (s, [Ballot.with_ 0 3; Ballot.with_ 2 2]) /\
    increasing None [Ballot.with_ 0 3; Ballot.with_ 2 2].
Proof.
  destruct (le_run example example_inputs) as [[s l]|] eqn:H; [|vm_compute in H; discriminate H].
  assert (l = [Ballot.with_ 0 3; Ballot.with_ 2 2]) as Hl
    by (vm_compute in H; injection H as _ <-; reflexivity).
  exists s. rewrite Hl in H |- *. split; [reflexivity|].
  apply (ble_leaders_increasing [2%nat; 3%nat] 1 100 false None 10 example_inputs s _);
    [discriminate|exact H].
Defined.

Lemma ble_timeout_spec_witness :
  exists s' effs, hb_timeout example = Some (s', effs) /\ leader s' = None /\
    candidate s' = false.
Proof.
  eexists _, _. split; [reflexivity|].
  destruct (ble_timeout_spec example _ _ eq_refl) as (_ & _ & Hc & Hl & _).
  split; [exact Hl|exact Hc].
Defined.

(** Two processes that heard of each other's ballots. *)
Definition example_with (p : Z) (peer : Ballot.t) : t nat :=
  set_ballots (with_ [2%nat; 3%nat] p 100 false None 10) [(peer, true)].


End Ble.
