(* ===== verification/VrLe.v ===== *)
(** View-change leader election ([vr_le.rs]).

    A process that misses the leader's heartbeats starts the next view; a majority
    of [StartViewChange] makes the others vote for the view's candidate, and a
    majority of [DoViewChange] makes the candidate the leader. *)

From S2P Require Import Prelude MpMessages Partition Election.

Module VrLe.

Inductive ViewChangeStatus :=
| Elected (b : Ballot.t)
| Candidate (b : Ballot.t) (counter : nat)
| ViewChange (b : Ballot.t) (counter : nat).

Section vr.
Context {Addr : Type}.

Record t := mk {
  pid : Z;
  views : list (Z * Addr);
  view_number : Z;
  hb_round : Z;
  leader_is_alive : bool;
  viewchange_status : ViewChangeStatus;
  latest_ballot_as_leader : Ballot.t;
  hb_delay : Z;
  majority : nat;
  timer : option (option Ballot.t);
  stopped : bool;
  stopped_peers : gset Z;
  stop_ask : option Z;
  quick_timeout : bool;
  initial_election_factor : Z;
  links : Links }.

Definition set_view_number (s : t) (x : Z) : t :=
  mk (pid s) (views s) x (hb_round s) (leader_is_alive s) (viewchange_status s)
     (latest_ballot_as_leader s) (hb_delay s) (majority s) (timer s) (stopped s)
     (stopped_peers s) (stop_ask s) (quick_timeout s) (initial_election_factor s)
     (links s).

Definition set_hb_round (s : t) (x : Z) : t :=
  mk (pid s) (views s) (view_number s) x (leader_is_alive s) (viewchange_status s)
     (latest_ballot_as_leader s) (hb_delay s) (majority s) (timer s) (stopped s)
     (stopped_peers s) (stop_ask s) (quick_timeout s) (initial_election_factor s)
     (links s).

Definition set_leader_is_alive (s : t) (x : bool) : t :=
  mk (pid s) (views s) (view_number s) (hb_round s) x (viewchange_status s)
     (latest_ballot_as_leader s) (hb_delay s) (majority s) (timer s) (stopped s)
     (stopped_peers s) (stop_ask s) (quick_timeout s) (initial_election_factor s)
     (links s).

Definition set_viewchange_status (s : t) (x : ViewChangeStatus) : t :=
  mk (pid s) (views s) (view_number s) (hb_round s) (leader_is_alive s) x
     (latest_ballot_as_leader s) (hb_delay s) (majority s) (timer s) (stopped s)
     (stopped_peers s) (stop_ask s) (quick_timeout s) (initial_election_factor s)
     (links s).

Definition set_latest_ballot_as_leader (s : t) (x : Ballot.t) : t :=
  mk (pid s) (views s) (view_number s) (hb_round s) (leader_is_alive s)
     (viewchange_status s) x (hb_delay s) (majority s) (timer s) (stopped s)
     (stopped_peers s) (stop_ask s) (quick_timeout s) (initial_election_factor s)
     (links s).

Definition set_timer (s : t) (x : option (option Ballot.t)) : t :=
  mk (pid s) (views s) (view_number s) (hb_round s) (leader_is_alive s)
     (viewchange_status s) (latest_ballot_as_leader s) (hb_delay s) (majority s) x
     (stopped s) (stopped_peers s) (stop_ask s) (quick_timeout s)
     (initial_election_factor s) (links s).

Definition set_stopped (s : t) (x : bool) : t :=
  mk (pid s) (views s) (view_number s) (hb_round s) (leader_is_alive s)
     (viewchange_status s) (latest_ballot_as_leader s) (hb_delay s) (majority s)
     (timer s) x (stopped_peers s) (stop_ask s) (quick_timeout s)
     (initial_election_factor s) (links s).

Definition set_stopped_peers (s : t) (x : gset Z) : t :=
  mk (pid s) (views s) (view_number s) (hb_round s) (leader_is_alive s)
     (viewchange_status s) (latest_ballot_as_leader s) (hb_delay s) (majority s)
     (timer s) (stopped s) x (stop_ask s) (quick_timeout s) (initial_election_factor s)
     (links s).

Definition set_stop_ask (s : t) (x : option Z) : t :=
  mk (pid s) (views s) (view_number s) (hb_round s) (leader_is_alive s)
     (viewchange_status s) (latest_ballot_as_leader s) (hb_delay s) (majority s)
     (timer s) (stopped s) (stopped_peers s) x (quick_timeout s)
     (initial_election_factor s) (links s).

Definition set_quick_timeout (s : t) (x : bool) : t :=
  mk (pid s) (views s) (view_number s) (hb_round s) (leader_is_alive s)
     (viewchange_status s) (latest_ballot_as_leader s) (hb_delay s) (majority s)
     (timer s) (stopped s) (stopped_peers s) (stop_ask s) x (initial_election_factor s)
     (links s).

Definition set_links (s : t) (x : Links) : t :=
  mk (pid s) (views s) (view_number s) (hb_round s) (leader_is_alive s)
     (viewchange_status s) (latest_ballot_as_leader s) (hb_delay s) (majority s)
     (timer s) (stopped s) (stopped_peers s) (stop_ask s) (quick_timeout s)
     (initial_election_factor s) x.

(** [None] is the overflowing capacity of an empty view list. *)
Definition with_ (views : list (Z * Addr)) (pid hb_delay : Z) (quick_timeout : bool)
    (initial_election_factor : Z) : option t :=
  match views with
  | [] => None
  | _ =>
      Some (mk pid views 0 0 false (Elected Ballot.default) Ballot.default hb_delay
              (length views / 2 + 1)%nat None false ∅ None quick_timeout
              initial_election_factor links_init)
  end.

Definition set_lagging_delay (s : t) (d : Z) : t :=
  set_links s (links_set_lagging_delay d (links s)).

Definition start_timer (s : t) (delay : Z) (b : Ballot.t) : t * list (LeEffect Addr) :=
  (set_timer s (Some (Some b)), [StartTimer delay (Some b)]).

Definition stop_timer (s : t) : t * list (LeEffect Addr) :=
  match timer s with
  | Some _ => (set_timer s None, [StopTimer])
  | None => (s, [])
  end.

(** [self.views.iter().find(|x| x.0 == pid)]. *)
Definition find_view (s : t) (p : Z) : option (Z * Addr) :=
  snd <$> list_find (fun x : Z * Addr => x.1 = p) (views s).

(** [None] is a division by zero, the [panic!] without an elected leader, or a
    leader that is not among the views. *)
Definition new_hb_round (s : t) : option (t * list (LeEffect Addr)) :=
  delay ← (if quick_timeout s then
             if initial_election_factor s =? 0 then None
             else Some (hb_delay s / initial_election_factor s)
           else Some (hb_delay s));
  let s := set_hb_round s (hb_round s +u32 1) in
  match viewchange_status s with
  | Elected leader_ballot =>
      let s := set_leader_is_alive s false in
      '(_, leader_ap) ← find_view s (Ballot.pid leader_ballot);
      let request := [LeTell leader_ap (HbRequest (hb_round s))] in
      let '(s, started) := start_timer s delay leader_ballot in
      Some (s, request ++ started)
  | _ => None
  end.

Definition get_next_view (s : t) : option (t * Ballot.t) :=
  let s := set_view_number s (view_number s +u32 1) in
  if bool_decide (views s = []) then None
  else
    '(cand, _) ← views s !! Z.to_nat (view_number s mod Z.of_nat (length (views s)));
    Some (s, Ballot.with_ (view_number s) cand).

Definition peers (s : t) : list Addr :=
  map snd (filter (fun x : Z * Addr => x.1 <> pid s) (views s)).

Definition start_view_change (s : t) (b : Ballot.t) : list (LeEffect Addr) :=
  map (fun peer => LeTell peer (StartViewChange b (pid s))) (peers s).

Definition hb_timeout (s : t) (b : Ballot.t) : option (t * list (LeEffect Addr)) :=
  match viewchange_status s with
  | Elected l =>
      if bool_decide (l = b) then
        if leader_is_alive s then new_hb_round s
        else
          '(s, b) ← get_next_view s;
          let s := set_viewchange_status s (ViewChange b 1) in
          Some (s, start_view_change s b)
      else Some (s, [])
  | _ => Some (s, [])
  end.

Definition disconnect_peers (s : t) (ps : list Z) (delay : bool)
    (lagging_peer : option Z) : option (t * list (LeEffect Addr)) :=
  '(l, effs) ← links_disconnect ps delay lagging_peer (links s);
  Some (set_links s l, lag_effects effs).

Definition recover_peers (s : t) : t := set_links s (links_recover (links s)).

Definition on_start (s : t) : option (t * list (LeEffect Addr)) := hb_timeout s Ballot.default.

Definition on_kill (s : t) : t * list (LeEffect Addr) := stop_timer s.

Definition receive_local (s : t) (stop : Z) : t * list (LeEffect Addr) :=
  let s := set_links s (links_recover (links s)) in
  let '(s, e1) := stop_timer s in
  let e2 := map (fun peer => LeTell peer (NetStopPeer stop)) (peers s) in
  let s := set_stopped s true in
  if bool_decide (size (stopped_peers s) = (length (views s) - 1)%nat) then
    (s, e1 ++ e2 ++ [LeReplyStop])
  else (set_stop_ask s (Some stop), e1 ++ e2).

(** The three branches that adopt a larger view. *)
Definition adopt_view (s : t) (b : Ballot.t) : t * list (LeEffect Addr) :=
  let s := set_view_number s (Ballot.n b) in
  let s := set_viewchange_status s (ViewChange b 1) in
  (s, start_view_change s b).

Definition handle_start_view_change (s : t) (b : Ballot.t) (from : Z)
    : option (t * list (LeEffect Addr)) :=
  if bool_decide (from ∈ disconnected_peers (links s)) then Some (s, [])
  else
    match viewchange_status s with
    | Elected l =>
        if Ballot.n l <? Ballot.n b then Some (adopt_view s b) else Some (s, [])
    | Candidate l _ =>
        if Ballot.n l <? Ballot.n b then Some (adopt_view s b) else Some (s, [])
    | ViewChange l counter =>
        if Ballot.n l <? Ballot.n b then Some (adopt_view s b)
        else if bool_decide (b = l) then
          let new_counter := (counter + 1)%nat in
          if (new_counter =? majority s)%nat then
            if Ballot.pid b =? pid s then
              Some (set_viewchange_status s (Candidate b 1), [])
            else
              '(_, leader_ap) ← find_view s (Ballot.pid b);
              let vote := [LeTell leader_ap (DoViewChange b (pid s))] in
              let s := set_viewchange_status s (Elected l) in
              let s := set_quick_timeout s false in
              let '(s, stopped) := stop_timer s in
              '(s, started) ← new_hb_round s;
              Some (s, vote ++ stopped ++ started)
          else Some (set_viewchange_status s (ViewChange b new_counter), [])
        else Some (s, [])
    end.

Definition handle_do_view_change (s : t) (b : Ballot.t) (from : Z)
    : t * list (LeEffect Addr) :=
  if bool_decide (from ∈ disconnected_peers (links s)) then (s, [])
  else
    match viewchange_status s with
    | Candidate l counter =>
        if bool_decide (l = b) then
          let new_counter := (counter + 1)%nat in
          if (new_counter =? majority s)%nat then
            let '(s, stopped) := stop_timer s in
            let s := set_viewchange_status s (Elected l) in
            let s := set_leader_is_alive s true in
            let s := set_latest_ballot_as_leader s l in
            let s := set_quick_timeout s false in
            (s, stopped ++ [AnnounceLeader (pid s) l])
          else (set_viewchange_status s (Candidate l new_counter), [])
        else (s, [])
    | _ => (s, [])
    end.

Definition handle_heartbeat_reply (s : t) (ballot : Ballot.t) : t :=
  if bool_decide (Ballot.pid ballot ∈ disconnected_peers (links s)) then s
  else match viewchange_status s with
       | Elected b => if bool_decide (b = ballot) then set_leader_is_alive s true else s
       | _ => s
       end.

(** [None] is a failed [assert!], a missing ask, a panic of a handler or an
    [unimplemented!] message. *)
Definition receive_network (s : t) (sender : Addr) (m : LeMsg)
    : option (t * list (LeEffect Addr)) :=
  match m with
  | HbRequest round =>
      if stopped s then Some (s, [])
      else Some (s, [LeTell sender (HbReply round (latest_ballot_as_leader s) true)])
  | HbReply _ ballot _ =>
      if stopped s then Some (s, []) else Some (handle_heartbeat_reply s ballot, [])
  | StartViewChange b from => handle_start_view_change s b from
  | DoViewChange b from => Some (handle_do_view_change s b from)
  | NetStopPeer p =>
      if bool_decide (p ∈ stopped_peers s) then None
      else
        let s := set_stopped_peers s ({[p]} ∪ stopped_peers s) in
        if stopped s && bool_decide (size (stopped_peers s) = (length (views s) - 1)%nat) then
          _ ← stop_ask s;
          Some (set_stop_ask s None, [LeReplyStop])
        else Some (s, [])
  | _ => None
  end.

Inductive input :=
| HbTimeout (b : Ballot.t)
| Receive (sender : Addr) (m : LeMsg)
| Stop (pid : Z)
| LagTimeout (timer : Timer)
| Disconnect (peers : list Z) (delay : bool) (lagging_peer : option Z)
| Recover.

Definition step (s : t) (i : input) : option (t * list (LeEffect Addr)) :=
  match i with
  | HbTimeout b => hb_timeout s b
  | Receive sender m => receive_network s sender m
  | Stop p => Some (receive_local s p)
  | LagTimeout timer => l ← links_timeout timer (links s); Some (set_links s l, [])
  | Disconnect ps delay lp => disconnect_peers s ps delay lp
  | Recover => Some (recover_peers s, [])
  end.

(** ** The contract of the election port *)

Definition status_ballot (v : ViewChangeStatus) : Ballot.t :=
  match v with Elected b | Candidate b _ | ViewChange b _ => b end.

Definition fits (s : t) : bool := (0 <=? view_number s) && (view_number s + 1 <? 2 ^ 32).

(** The view number is that of the status, and every announced ballot is below the
    status, or at most equal once it is elected. *)
Definition inv (s : t) (o : option Ballot.t) : Prop :=
  view_number s = Ballot.n (status_ballot (viewchange_status s)) /\
  match o with
  | None => True
  | Some b =>
      match viewchange_status s with
      | Elected l => Ballot.le b l
      | Candidate l _ | ViewChange l _ => Ballot.lt b l
      end
  end.

Lemma inv_below s o b :
  inv s o -> view_number s < Ballot.n b ->
  match o with None => True | Some b0 => Ballot.lt b0 b end.
Proof.
  intros [Hv Ho] Hlt. destruct o as [b0|]; [|done]. rewrite Hv in Hlt.
  destruct (viewchange_status s) as [l|l c|l c]; simpl in *;
    [eapply Ballot.le_lt_trans|etrans|etrans]; try done; by left.
Qed.

Lemma vr_inv_same s s' o (effs : list (LeEffect Addr)) :
  viewchange_status s' = viewchange_status s -> view_number s' = view_number s ->
  announced_leaders effs = [] -> inv s o ->
  increasing o (announced_leaders effs) /\
  inv s' (last_announced o (announced_leaders effs)).
Proof.
  intros Hl Hc -> Hinv. split; [done|]. unfold inv, last_announced in *. simpl.
  by rewrite Hl, Hc.
Qed.

Lemma stop_timer_frame s s' effs :
  stop_timer s = (s', effs) -> viewchange_status s' = viewchange_status s /\
    view_number s' = view_number s /\ views s' = views s /\ majority s' = majority s /\
    pid s' = pid s /\ quick_timeout s' = quick_timeout s /\
    initial_election_factor s' = initial_election_factor s /\ announced_leaders effs = [].
Proof. unfold stop_timer. intros H. repeat case_match; by simplify_eq. Qed.

Lemma vr_new_hb_round_frame s s' effs :
  new_hb_round s = Some (s', effs) -> viewchange_status s' = viewchange_status s /\
    view_number s' = view_number s /\ views s' = views s /\ majority s' = majority s /\
    announced_leaders effs = [].
Proof.
  unfold new_hb_round, start_timer. intros (delay & _ & H)%bind_Some. simpl in H.
  destruct (viewchange_status s) eqn:Hst; [|done..].
  apply bind_Some in H as ([q ap] & _ & [= <- <-]). by simpl; rewrite Hst.
Qed.

Lemma start_view_change_quiet s b : announced_leaders (start_view_change s b) = [].
Proof. apply announced_tells_id. Qed.

(** A step to a larger view announces nothing. *)
Lemma inv_larger_view s s' o b c (effs : list (LeEffect Addr)) :
  inv s o -> view_number s < Ballot.n b ->
  viewchange_status s' = ViewChange b c -> view_number s' = Ballot.n b ->
  announced_leaders effs = [] ->
  increasing o (announced_leaders effs) /\
  inv s' (last_announced o (announced_leaders effs)).
Proof.
  intros Hinv Hlt Hst Hv ->. split; [done|]. unfold inv, last_announced. simpl.
  rewrite Hst, Hv. split; [done|]. pose proof (inv_below s o b Hinv Hlt). by destruct o.
Qed.

Lemma inv_timeout s b s' effs o :
  inv s o -> fits s = true -> hb_timeout s b = Some (s', effs) ->
  increasing o (announced_leaders effs) /\
  inv s' (last_announced o (announced_leaders effs)).
Proof.
  intros Hinv Hfits H. unfold hb_timeout in H. unfold fits in Hfits. bool_to_prop.
  destruct (viewchange_status s) as [l|l c|l c] eqn:Hst; [|simplify_eq; by eapply vr_inv_same..].
  case_bool_decide; [|simplify_eq; by eapply vr_inv_same].
  destruct (leader_is_alive s).
  - apply vr_new_hb_round_frame in H as (? & ? & _ & _ & ?). by eapply vr_inv_same.
  - apply bind_Some in H as ([s1 b1] & Hn & [= <- <-]).
    unfold get_next_view in Hn. case_bool_decide; [done|].
    apply bind_Some in Hn as ([cand ap] & _ & [= <- <-]).
    eapply inv_larger_view; try done; simpl.
    + rewrite u32_add_small by lia. lia.
    + apply start_view_change_quiet.
Qed.

Lemma inv_start_view_change s b from s' effs o :
  inv s o -> handle_start_view_change s b from = Some (s', effs) ->
  increasing o (announced_leaders effs) /\
  inv s' (last_announced o (announced_leaders effs)).
Proof.
  intros Hinv H. unfold handle_start_view_change in H.
  pose proof Hinv as [Hv Ho].
  case_bool_decide; [simplify_eq; by eapply vr_inv_same|].
  assert (forall l, status_ballot (viewchange_status s) = l -> Ballot.n l < Ballot.n b ->
    adopt_view s b = (s', effs) ->
    increasing o (announced_leaders effs) /\
    inv s' (last_announced o (announced_leaders effs))) as Hadopt.
  { intros l Hl Hlt [= <- <-]. eapply inv_larger_view; try done; simpl; [by rewrite Hv, Hl|].
    apply start_view_change_quiet. }
  destruct (viewchange_status s) as [l|l c|l c] eqn:Hst;
    destruct (Z.ltb_spec (Ballot.n l) (Ballot.n b)) as [Hlt|Hge];
    try (apply (inj Some) in H; by apply (Hadopt l));
    try (simplify_eq; by eapply vr_inv_same).
  case_bool_decide as Hb; [|simplify_eq; by eapply vr_inv_same]. subst b.
  destruct (_ =? _)%nat.
  - destruct (_ =? _).
    + simplify_eq. split; [done|]. by split.
    + apply bind_Some in H as ([q ap] & _ & H).
      destruct (stop_timer _) as [s1 e1] eqn:Hs. apply bind_Some in H as ([s2 e2] & Hr & [= <- <-]).
      apply stop_timer_frame in Hs as (Hs1 & Hv1 & _ & _ & _ & _ & _ & He1).
      apply vr_new_hb_round_frame in Hr as (Hs2 & Hv2 & _ & _ & He2).
      change (LeTell ap (DoViewChange l (pid s)) :: e1 ++ e2)
        with ([LeTell ap (DoViewChange l (pid s))] ++ e1 ++ e2).
      rewrite !announced_app, He1, He2. simpl. split; [done|].
      unfold inv, last_announced. simpl. rewrite Hs2, Hs1, Hv2, Hv1. simpl.
      split; [done|]. destruct o; [by left|done].
  - simplify_eq. split; [done|]. by split.
Qed.

Lemma inv_do_view_change s b from s' effs o :
  inv s o -> handle_do_view_change s b from = (s', effs) ->
  increasing o (announced_leaders effs) /\
  inv s' (last_announced o (announced_leaders effs)).
Proof.
  intros Hinv H. unfold handle_do_view_change in H. pose proof Hinv as [Hv Ho].
  case_bool_decide; [simplify_eq; by eapply vr_inv_same|].
  destruct (viewchange_status s) as [l|l c|l c] eqn:Hst; try (simplify_eq; by eapply vr_inv_same).
  case_bool_decide; [|simplify_eq; by eapply vr_inv_same].
  destruct (_ =? _)%nat.
  - destruct (stop_timer s) as [s1 e1] eqn:Hs.
    apply stop_timer_frame in Hs as (Hs1 & Hv1 & _ & _ & _ & _ & _ & He1). simplify_eq.
    rewrite announced_app, He1. simpl. split.
    + split; [|done]. by destruct o.
    + unfold inv, last_announced. simpl. rewrite Hv1. split; [done|by right].
  - simplify_eq. split; [done|]. by split.
Qed.

Lemma vr_receive_local_quiet s p :
  announced_leaders (receive_local s p).2 = [] /\
  viewchange_status (receive_local s p).1 = viewchange_status s /\
  view_number (receive_local s p).1 = view_number s.
Proof.
  unfold receive_local. destruct (stop_timer _) as [s1 e1] eqn:Hs.
  apply stop_timer_frame in Hs as (Hs1 & Hv1 & _ & _ & _ & _ & _ & He1).
  case_bool_decide; cbn [fst snd]; rewrite !announced_app, He1, announced_tells_id;
    by split_and!.
Qed.

Lemma vr_step_ok s i s' effs o :
  inv s o -> fits s = true -> step s i = Some (s', effs) ->
  increasing o (announced_leaders effs) /\
  inv s' (last_announced o (announced_leaders effs)).
Proof.
  intros Hinv Hfits H. destruct i as [b|sender m|p|timer|ps delay lp|]; simpl in H.
  - by eapply inv_timeout.
  - destruct m as [r|r b c| |b from|b from|p]; simpl in H.
    + case_match; simplify_eq; by eapply vr_inv_same.
    + unfold handle_heartbeat_reply in H. repeat case_match; simplify_eq; by eapply vr_inv_same.
    + done.
    + by eapply inv_start_view_change.
    + injection H as H. by eapply inv_do_view_change.
    + handler_inv H; by eapply vr_inv_same.
  - destruct (vr_receive_local_quiet s p) as (Ha & Hl & Hc). injection H as H.
    rewrite H in Ha, Hl, Hc. by eapply vr_inv_same.
  - apply bind_Some in H as (l & _ & [= <- <-]). by eapply vr_inv_same.
  - apply bind_Some in H as ([l e] & _ & [= <- <-]). eapply vr_inv_same; try done.
    apply announced_lag.
  - injection H as <- <-. by eapply vr_inv_same.
Qed.

#[export] Instance vr_election : Election t input Addr := {
  le_step := step;
  le_fits := fits;
  le_inv := inv;
  le_step_ok := vr_step_ok }.

(** C32: over a whole run the ballots a process announces for itself are strictly
    increasing, as long as no view number reaches [2^32 - 1]. *)
Theorem vr_leaders_increasing (vs : list (Z * Addr)) (p d : Z) (q : bool) (f : Z)
    (s0 : t) (inputs : list input) (s : t) (l : list Ballot.t) :
  with_ vs p d q f = Some s0 -> le_run s0 inputs = Some (s, l) -> increasing None l.
Proof.
  intros H0 H. eapply le_run_increasing in H as [H _]; [done|].
  unfold with_ in H0. destruct vs; [done|]. injection H0 as <-. by split.
Qed.

(** ** Votes *)

(** The [StartViewChange] and [DoViewChange] messages for [b] among the inputs. *)
Definition is_start (b : Ballot.t) (i : input) : bool :=
  match i with Receive _ (StartViewChange b' _) => bool_decide (b' = b) | _ => false end.
Definition is_do (b : Ballot.t) (i : input) : bool :=
  match i with Receive _ (DoViewChange b' _) => bool_decide (b' = b) | _ => false end.
Definition count (f : input -> bool) (l : list input) : nat := length (List.filter f l).

(** The counters never exceed the messages received, with the process's own vote. *)
Definition votes_inv (s : t) (past : list input) : Prop :=
  match viewchange_status s with
  | Elected _ => True
  | ViewChange b c => (c <= 1 + count (is_start b) past)%nat
  | Candidate b c =>
      (c <= 1 + count (is_do b) past)%nat /\ (majority s <= 1 + count (is_start b) past)%nat
  end.

Lemma count_snoc f l i : count f (l ++ [i]) = (count f l + if f i then 1 else 0)%nat.
Proof.
  unfold count. rewrite List.filter_app, length_app. simpl. by destruct (f i).
Qed.

Lemma votes_same s s' past i :
  viewchange_status s' = viewchange_status s -> majority s' = majority s ->
  votes_inv s past -> votes_inv s' (past ++ [i]).
Proof.
  unfold votes_inv. intros -> ->. destruct (viewchange_status s); rewrite ?count_snoc; lia.
Qed.

Lemma votes_view_change s' past i b :
  viewchange_status s' = ViewChange b 1 -> votes_inv s' (past ++ [i]).
Proof. unfold votes_inv. intros ->. rewrite count_snoc. lia. Qed.

(** What a step has to show: it keeps [votes_inv], and announces only ballots with
    enough votes. *)
Definition votes_ok (s s' : t) (effs : list (LeEffect Addr)) (past : list input) : Prop :=
  votes_inv s' past /\ majority s' = majority s /\
  forall b, b ∈ announced_leaders effs ->
    (majority s <= 1 + count (is_do b) past)%nat /\
    (majority s <= 1 + count (is_start b) past)%nat.

Lemma votes_ok_quiet s s' effs past i :
  viewchange_status s' = viewchange_status s -> majority s' = majority s ->
  announced_leaders effs = [] -> votes_inv s past -> votes_ok s s' effs (past ++ [i]).
Proof.
  intros H1 H2 H3 Hinv. split; [by eapply votes_same|]. split; [done|].
  rewrite H3. intros b Hb. by apply not_elem_of_nil in Hb.
Qed.

Lemma votes_ok_view_change s s' effs past i b :
  viewchange_status s' = ViewChange b 1 -> majority s' = majority s ->
  announced_leaders effs = [] -> votes_ok s s' effs (past ++ [i]).
Proof.
  intros H1 H2 H3. split; [by eapply votes_view_change|]. split; [done|].
  rewrite H3. intros b' Hb. by apply not_elem_of_nil in Hb.
Qed.

Lemma votes_start_view_change s sender b from s' effs past :
  votes_inv s past -> handle_start_view_change s b from = Some (s', effs) ->
  votes_ok s s' effs (past ++ [Receive sender (StartViewChange b from)]).
Proof.
  intros Hinv H. unfold handle_start_view_change in H.
  case_bool_decide; [simplify_eq; by apply votes_ok_quiet|].
  assert (adopt_view s b = (s', effs) ->
    votes_ok s s' effs (past ++ [Receive sender (StartViewChange b from)])) as Hadopt.
  { intros [= <- <-]. eapply votes_ok_view_change; try done. apply start_view_change_quiet. }
  destruct (viewchange_status s) as [l|l c|l c] eqn:Hst; destruct (_ <? _);
    try (apply (inj Some) in H; by apply Hadopt);
    try (simplify_eq; by apply votes_ok_quiet).
  case_bool_decide as Hb; [|simplify_eq; by apply votes_ok_quiet]. subst b.
  unfold votes_inv in Hinv. rewrite Hst in Hinv.
  destruct (Nat.eqb_spec (c + 1) (majority s)) as [Hc|].
  - destruct (_ =? _).
    + simplify_eq. split; [|split; [done|]].
      * unfold votes_inv. simpl. rewrite !count_snoc. simpl. rewrite bool_decide_true by done. lia.
      * intros b Hb. by apply not_elem_of_nil in Hb.
    + apply bind_Some in H as ([q ap] & _ & H).
      destruct (stop_timer _) as [s1 e1] eqn:Hs.
      apply bind_Some in H as ([s2 e2] & Hr & [= <- <-]).
      apply stop_timer_frame in Hs as (Hs1 & _ & _ & Hm1 & _ & _ & _ & He1).
      apply vr_new_hb_round_frame in Hr as (Hs2 & _ & _ & Hm2 & He2). split; [|split].
      * unfold votes_inv. by rewrite Hs2, Hs1.
      * by rewrite Hm2, Hm1.
      * change (LeTell ap (DoViewChange l (pid s)) :: e1 ++ e2)
          with ([LeTell ap (DoViewChange l (pid s))] ++ e1 ++ e2).
        rewrite !announced_app, He1, He2. intros b Hb. by apply not_elem_of_nil in Hb.
  - simplify_eq. split; [|split; [done|]].
    + unfold votes_inv. simpl. rewrite !count_snoc. simpl. rewrite bool_decide_true by done. lia.
    + intros b Hb. by apply not_elem_of_nil in Hb.
Qed.

Lemma votes_do_view_change s sender b from s' effs past :
  votes_inv s past -> handle_do_view_change s b from = (s', effs) ->
  votes_ok s s' effs (past ++ [Receive sender (DoViewChange b from)]).
Proof.
  intros Hinv H. unfold handle_do_view_change in H.
  case_bool_decide; [simplify_eq; by apply votes_ok_quiet|].
  destruct (viewchange_status s) as [l|l c|l c] eqn:Hst;
    try (simplify_eq; by apply votes_ok_quiet).
  case_bool_decide as Hb; [|simplify_eq; by apply votes_ok_quiet]. subst b.
  unfold votes_inv in Hinv. rewrite Hst in Hinv. destruct Hinv as [Hd Hs].
  destruct (Nat.eqb_spec (c + 1) (majority s)) as [Hc|].
  - destruct (stop_timer s) as [s1 e1] eqn:Hs'.
    apply stop_timer_frame in Hs' as (_ & _ & _ & Hm1 & _ & _ & _ & He1). simplify_eq.
    split; [done|]. split; [done|]. rewrite announced_app, He1. simpl.
    intros b ->%list_elem_of_singleton. rewrite !count_snoc. simpl.
    rewrite bool_decide_true by done. lia.
  - simplify_eq. split; [|split; [done|]].
    + unfold votes_inv. simpl. rewrite !count_snoc. simpl. rewrite bool_decide_true by done. lia.
    + intros b Hb. by apply not_elem_of_nil in Hb.
Qed.

Lemma receive_local_majority s p : majority (receive_local s p).1 = majority s.
Proof.
  unfold receive_local. destruct (stop_timer _) as [s1 e1] eqn:Hs.
  apply stop_timer_frame in Hs as (_ & _ & _ & Hm1 & _). by case_bool_decide.
Qed.

Lemma votes_step s i s' effs past :
  votes_inv s past -> step s i = Some (s', effs) -> votes_ok s s' effs (past ++ [i]).
Proof.
  intros Hinv H.
  assert (viewchange_status s' = viewchange_status s -> majority s' = majority s ->
    announced_leaders effs = [] -> votes_ok s s' effs (past ++ [i])) as Hsame.
  { intros. by apply votes_ok_quiet. }
  destruct i as [b|sender m|p|timer|ps delay lp|]; simpl in H.
  - unfold hb_timeout in H. destruct (viewchange_status s) as [l|l c|l c] eqn:Hst;
      [|simplify_eq; by apply Hsame..].
    case_bool_decide; [|simplify_eq; by apply Hsame]. destruct (leader_is_alive s).
    + apply vr_new_hb_round_frame in H as (? & ? & _ & ? & ?). apply Hsame; congruence.
    + apply bind_Some in H as ([s1 b1] & Hn & [= <- <-]). unfold get_next_view in Hn.
      case_bool_decide; [done|]. apply bind_Some in Hn as ([cand ap] & _ & [= <- <-]).
      eapply votes_ok_view_change; try done. apply start_view_change_quiet.
  - destruct m as [r|r b c| |b from|b from|p]; simpl in H.
    + case_match; simplify_eq; by apply Hsame.
    + unfold handle_heartbeat_reply in H. repeat case_match; simplify_eq; by apply Hsame.
    + done.
    + by eapply votes_start_view_change.
    + apply (inj Some) in H. by eapply votes_do_view_change.
    + handler_inv H; by apply Hsame.
  - destruct (vr_receive_local_quiet s p) as (Ha & Hl & _).
    pose proof (receive_local_majority s p) as Hm. apply (inj Some) in H.
    rewrite H in Ha, Hl, Hm. by apply Hsame.
  - apply bind_Some in H as (l & _ & [= <- <-]). by apply Hsame.
  - apply bind_Some in H as ([l e] & _ & [= <- <-]). apply Hsame; try done.
    apply announced_lag.
  - injection H as <- <-. by apply Hsame.
Qed.

Lemma votes_run s inputs s' l past :
  votes_inv s past -> le_run s inputs = Some (s', l) ->
  forall b, b ∈ l ->
    (majority s <= 1 + count (is_do b) (past ++ inputs))%nat /\
    (majority s <= 1 + count (is_start b) (past ++ inputs))%nat.
Proof.
  assert (forall f l1 l2, count f l1 <= count f (l1 ++ l2))%nat as Hmono.
  { intros f l1 l2. unfold count. rewrite List.filter_app, length_app. lia. }
  revert s l past. induction inputs as [|i inputs IH]; intros s l past Hinv Hr b Hb; simpl in Hr.
  - simplify_eq. by apply not_elem_of_nil in Hb.
  - destruct (fits s); [|done].
    apply bind_Some in Hr as ([s1 effs] & Hs & Hr).
    apply bind_Some in Hr as ([s2 l2] & Hr & [= <- <-]).
    destruct (votes_step _ _ _ _ _ Hinv Hs) as (Hinv1 & Hm & Ha).
    replace (past ++ i :: inputs) with ((past ++ [i]) ++ inputs) by by rewrite <- app_assoc.
    apply elem_of_app in Hb as [Hb|Hb].
    + destruct (Ha b Hb). pose proof (Hmono (is_do b) (past ++ [i]) inputs).
      pose proof (Hmono (is_start b) (past ++ [i]) inputs). lia.
    + rewrite <- Hm. by eapply IH.
Qed.


(** ** No panics *)

(** [start] and then a list of inputs. *)
Fixpoint steps (s : t) (inputs : list input) : option t :=
  match inputs with
  | [] => Some s
  | i :: inputs => '(s, _) ← step s i; steps s inputs
  end.

Definition start (vs : list (Z * Addr)) (p d : Z) (q : bool) (f : Z) (inputs : list input)
    : option t :=
  s ← with_ vs p d q f; '(s, _) ← on_start s; steps s inputs.

(** A started component: the candidate or leader it knows is one of the views, and
    a counter has not reached the majority. *)
Record wf (vs : list (Z * Addr)) (s : t) : Prop := {
  wf_views : views s = vs;
  wf_majority : majority s = (length vs / 2 + 1)%nat;
  wf_status : exists ap, (Ballot.pid (status_ballot (viewchange_status s)), ap) ∈ vs;
  wf_counter : match viewchange_status s with
    | Elected _ => True
    | Candidate _ c | ViewChange _ c => (1 <= c < majority s)%nat
    end;
  wf_factor : initial_election_factor s <> 0 }.

(** The messages of the protocol among processes with the same views. *)
Definition allowed (vs : list (Z * Addr)) (i : input) : Prop :=
  match i with
  | HbTimeout _ => True
  | Receive _ m =>
      match m with
      | HbRequest _ | HbReply _ _ _ | DoViewChange _ _ => True
      | StartViewChange b _ => exists ap, (Ballot.pid b, ap) ∈ vs
      | _ => False
      end
  | _ => False
  end.

Lemma find_view_some s p ap : (p, ap) ∈ views s -> exists x, find_view s p = Some (p, x).
Proof.
  intros Hin. unfold find_view.
  destruct (list_find_elem_of (fun x : Z * Addr => x.1 = p) (views s) (p, ap) Hin eq_refl)
    as [[i [p' x]] Hf].
  rewrite Hf. simpl. apply list_find_Some in Hf as (_ & Hp & _). simpl in Hp. subst.
  by exists x.
Qed.

Lemma new_hb_round_total vs s l :
  views s = vs -> viewchange_status s = Elected l -> (exists ap, (Ballot.pid l, ap) ∈ vs) ->
  initial_election_factor s <> 0 ->
  exists s' effs, new_hb_round s = Some (s', effs) /\
    views s' = vs /\ majority s' = majority s /\ viewchange_status s' = Elected l /\
    initial_election_factor s' = initial_election_factor s.
Proof.
  intros Hv Hst [ap Hap] Hf. unfold new_hb_round, start_timer.
  assert (is_Some (if quick_timeout s then if initial_election_factor s =? 0 then None
    else Some (hb_delay s / initial_election_factor s) else Some (hb_delay s))) as [d ->].
  { destruct (quick_timeout s); [|done]. by destruct (Z.eqb_spec (initial_election_factor s) 0). }
  simpl. rewrite Hst. rewrite <- Hv in Hap.
  destruct (find_view_some (set_leader_is_alive (set_hb_round s (hb_round s +u32 1)) false)
    (Ballot.pid l) ap Hap) as [x ->]. simpl.
  do 2 eexists. split; [done|]. by simpl.
Qed.

Lemma get_next_view_total vs s :
  views s = vs -> vs <> [] ->
  exists s' b, get_next_view s = Some (s', b) /\ views s' = vs /\ majority s' = majority s /\
    initial_election_factor s' = initial_election_factor s /\ pid s' = pid s /\
    exists ap, (Ballot.pid b, ap) ∈ vs.
Proof.
  intros Hv Hne. unfold get_next_view. simpl. rewrite bool_decide_false by congruence.
  rewrite Hv. assert (0 < Z.of_nat (length vs)) by (destruct vs; [done|simpl; lia]).
  pose proof (Z.mod_pos_bound (view_number s +u32 1) (Z.of_nat (length vs)) ltac:(lia)).
  set (k := (view_number s +u32 1) mod Z.of_nat (length vs)) in *. destruct (lookup_lt_is_Some_2 vs (Z.to_nat k)) as [[c ap] Hc]; [lia|].
  rewrite Hc. simpl. do 2 eexists. split; [done|]. simpl. split_and!; try done.
  exists ap. by eapply list_elem_of_lookup_2.
Qed.

Section no_panic.
Context (vs : list (Z * Addr)) (Hvs : (2 <= length vs)%nat).

Lemma half_at_least_one : (2 <= length vs / 2 + 1)%nat.
Proof. pose proof (Nat.div_le_lower_bound (length vs) 2 1 ltac:(lia) ltac:(lia)). lia. Qed.

Lemma wf_next s s' b :
  wf vs s -> views s' = vs -> majority s' = majority s ->
  initial_election_factor s' = initial_election_factor s ->
  (exists ap, (Ballot.pid b, ap) ∈ vs) -> wf vs (set_viewchange_status s' (ViewChange b 1)).
Proof.
  intros [H1 H2 H3 H4 H5] Hv Hm Hf Hb. pose proof half_at_least_one.
  split; cbn -[Nat.div]; try congruence; try done. lia.
Qed.

Lemma timeout_total s b : wf vs s -> exists s' effs, hb_timeout s b = Some (s', effs) /\ wf vs s'.
Proof.
  intros Hwf. pose proof Hwf as [H1 H2 H3 H4 H5]. unfold hb_timeout.
  destruct (viewchange_status s) as [l|l c|l c] eqn:Hst; [|by do 2 eexists..].
  case_bool_decide; [|by do 2 eexists]. destruct (leader_is_alive s).
  - destruct (new_hb_round_total vs s l H1 Hst H3 H5) as (s' & e & -> & Hv & Hm & Hs & Hf).
    do 2 eexists. split; [done|]. split; rewrite ?Hv, ?Hm, ?Hs, ?Hf; done.
  - destruct (get_next_view_total vs s H1) as (s' & b' & -> & Hv & Hm & Hf & Hp & Hb).
    { destruct vs; [simpl in Hvs; lia|done]. }
    do 2 eexists. split; [done|]. by eapply wf_next.
Qed.

Lemma start_view_change_total s b from :
  wf vs s -> (exists ap, (Ballot.pid b, ap) ∈ vs) ->
  exists s' effs, handle_start_view_change s b from = Some (s', effs) /\ wf vs s'.
Proof.
  intros Hwf Hb. pose proof Hwf as [H1 H2 H3 H4 H5]. unfold handle_start_view_change.
  pose proof half_at_least_one.
  case_bool_decide; [by do 2 eexists|].
  assert (wf vs (adopt_view s b).1) as Hadopt by (by eapply wf_next).
  destruct (viewchange_status s) as [l|l c|l c] eqn:Hst; destruct (_ <? _);
    try (do 2 eexists; split; [rewrite (surjective_pairing (adopt_view s b)); done|done]);
    try (by do 2 eexists).
  case_bool_decide as Hbl; [|by do 2 eexists]. subst b.
  destruct (Nat.eqb_spec (c + 1) (majority s)).
  - destruct (_ =? _).
    + do 2 eexists. split; [done|]. split; cbn -[Nat.div]; try done. lia.
    + destruct Hb as [ap Hap]. pose proof Hap as Hap'. rewrite <- H1 in Hap'.
      destruct (find_view_some s _ _ Hap') as [x ->]. simpl.
      destruct (stop_timer _) as [s1 e1] eqn:Hs.
      apply stop_timer_frame in Hs as (Hs1 & _ & Hv1 & Hm1 & _ & _ & Hf1 & _).
      simpl in *. destruct (new_hb_round_total vs s1 l) as (s' & e' & -> & Hv & Hm & Hst' & Hf);
        [congruence|done|by exists ap|congruence|].
      do 2 eexists. split; [done|].
      split; rewrite ?Hv, ?Hm, ?Hst', ?Hf, ?Hm1, ?Hf1; done.
  - do 2 eexists. split; [done|]. split; cbn -[Nat.div]; try done. simpl in H4. lia.
Qed.

Lemma do_view_change_wf s b from : wf vs s -> wf vs (handle_do_view_change s b from).1.
Proof.
  intros Hwf. pose proof Hwf as [H1 H2 H3 H4 H5]. unfold handle_do_view_change.
  case_bool_decide; [done|].
  destruct (viewchange_status s) as [l|l c|l c] eqn:Hst; try done.
  case_bool_decide; [|done]. destruct (Nat.eqb_spec (c + 1) (majority s)).
  - destruct (stop_timer s) as [s1 e1] eqn:Hs.
    apply stop_timer_frame in Hs as (_ & _ & Hv1 & Hm1 & _ & _ & Hf1 & _).
    split; cbn -[Nat.div]; try congruence; done.
  - split; cbn -[Nat.div]; try done. simpl in H4. lia.
Qed.

Lemma step_total s i :
  wf vs s -> allowed vs i -> exists s' effs, step s i = Some (s', effs) /\ wf vs s'.
Proof.
  intros Hwf Hi. destruct i as [b|sender m| | | |]; try done; simpl in *;
    [by apply timeout_total|].
  destruct m as [r|r b c| |b from|b from|p]; try done; simpl.
  - destruct (stopped s); by do 2 eexists.
  - destruct (stopped s); [by do 2 eexists|]. do 2 eexists. split; [done|].
    assert (wf vs (set_leader_is_alive s true)) by (destruct Hwf; by split).
    unfold handle_heartbeat_reply. case_bool_decide; [done|].
    destruct (viewchange_status s); [by case_bool_decide|done..].
  - by apply start_view_change_total.
  - rewrite (surjective_pairing (handle_do_view_change s b from)).
    do 2 eexists. split; [done|]. by apply do_view_change_wf.
Qed.
End no_panic.

(** C34: with at least two views no handler panics: a started component answers
    every sequence of timeouts and protocol messages for these views.  It always
    knows a leader or candidate among the views, and its vote counter stays below
    the majority. *)
Theorem vr_no_panic (vs : list (Z * Addr)) (p d : Z) (q : bool) (f : Z) (inputs : list input) :
  (2 <= length vs)%nat -> f <> 0 -> Forall (allowed vs) inputs ->
  exists s, start vs p d q f inputs = Some s /\ wf vs s.
Proof.
  intros Hvs Hf Hall. unfold start.
  assert (exists s1 e, (s ← with_ vs p d q f; on_start s) = Some (s1, e) /\ wf vs s1)
    as (s1 & e & Hs1 & Hwf).
  { unfold with_. destruct vs as [|v vs'] eqn:Hv; [simpl in Hvs; lia|]. rewrite <- Hv in *.
    cbn -[Nat.div]. unfold on_start, hb_timeout. cbn -[Nat.div]. rewrite ?bool_decide_true by done.
    set (s0 := mk _ _ _ _ _ _ _ _ _ _ _ _ _ _ _ _).
    destruct (get_next_view_total vs s0) as (s' & b & -> & H1 & H2 & H3 & _ & Hb); [done|congruence|].
    do 2 eexists. split; [done|]. pose proof (half_at_least_one vs Hvs).
    split; cbn -[Nat.div]; try congruence; try done.
    - rewrite H2. cbn -[Nat.div]. lia.
    - by rewrite H3. }
  apply bind_Some in Hs1 as (s0 & -> & Hs1). simpl. rewrite Hs1. simpl. clear Hs1 e s0.
  revert s1 Hwf. induction Hall as [|i inputs Hi Hall IH]; intros s1 Hwf; simpl; [by eexists|].
  destruct (step_total vs Hvs s1 i Hwf Hi) as (s2 & e & -> & Hwf2). simpl. by apply IH.
Qed.

End vr.
Arguments t : clear implicits.
Arguments input : clear implicits.

(** ** A concrete process *)

Definition example_views : list (Z * nat) := [(1, 1%nat); (2, 2%nat); (3, 3%nat)].
Definition view_one : Ballot.t := Ballot.with_ 1 2.

(** Process 2 becomes the leader of view 1. *)
Definition example_inputs : list (input nat) :=
  [Receive 1%nat (StartViewChange view_one 1); Receive 1%nat (DoViewChange view_one 1)].

Definition example : option (t nat) :=
  s ← with_ example_views 2 100 false 10; '(s, _) ← on_start s; Some s.

Definition timeout_and_inputs : list (input nat) := HbTimeout Ballot.default :: example_inputs.

Lemma example_run :
  le_announced (with_ example_views 2 100 false 10) timeout_and_inputs = Some [view_one].
Proof. vm_compute. reflexivity. Qed.

Lemma vr_leaders_increasing_witness :
  exists s0 s, with_ example_views 2 100 false 10 = Some s0 /\
    le_run s0 timeout_and_inputs = Some (s, [view_one]) /\ increasing None [view_one].
Proof.
  destruct (le_announced_result _ _ _ example_run) as (s0 & s & H0 & Hr).
  exists s0, s. split; [exact H0|]. split; [exact Hr|].
  apply (vr_leaders_increasing example_views 2 100 false 10 s0 timeout_and_inputs s _ H0 Hr).
Defined.


Lemma vr_no_panic_witness :
  exists s, start example_views 2 100 false 10 example_inputs = Some s /\
    wf example_views s.
Proof.
  apply vr_no_panic; [simpl; lia|discriminate|].
  repeat constructor. exists 2%nat. apply list_elem_of_further, list_elem_of_here.
Defined.

End VrLe.
