(* ===== verification/MpLe.v ===== *)
(** Leader election in the style of Multi-Paxos ([mp_le.rs]).

    Like the ballot leader election, but every process is a candidate and the
    heartbeat answers also carry the sender's current leader, which is adopted at
    once when it is larger than the receiver's. *)

From S2P Require Import Prelude MpMessages Partition Election.

Module MpLe.
Section mple.
Context {Addr : Type}.

Record t := mk {
  pid : Z;
  peers : list Addr;
  hb_round : Z;
  ballots : list Ballot.t;
  current_ballot : Ballot.t;
  leader : option Ballot.t;
  hb_delay : Z;
  majority : nat;
  timer : option (option Ballot.t);
  stopped : bool;
  stopped_peers : gset Z;
  stop_ask : option Z;
  quick_timeout : bool;
  initial_election_factor : Z;
  links : Links }.

Definition set_hb_round (s : t) (x : Z) : t :=
  mk (pid s) (peers s) x (ballots s) (current_ballot s) (leader s) (hb_delay s)
     (majority s) (timer s) (stopped s) (stopped_peers s) (stop_ask s)
     (quick_timeout s) (initial_election_factor s) (links s).

Definition set_ballots (s : t) (x : list Ballot.t) : t :=
  mk (pid s) (peers s) (hb_round s) x (current_ballot s) (leader s) (hb_delay s)
     (majority s) (timer s) (stopped s) (stopped_peers s) (stop_ask s)
     (quick_timeout s) (initial_election_factor s) (links s).

Definition set_current_ballot (s : t) (x : Ballot.t) : t :=
  mk (pid s) (peers s) (hb_round s) (ballots s) x (leader s) (hb_delay s)
     (majority s) (timer s) (stopped s) (stopped_peers s) (stop_ask s)
     (quick_timeout s) (initial_election_factor s) (links s).

Definition set_leader (s : t) (x : option Ballot.t) : t :=
  mk (pid s) (peers s) (hb_round s) (ballots s) (current_ballot s) x (hb_delay s)
     (majority s) (timer s) (stopped s) (stopped_peers s) (stop_ask s)
     (quick_timeout s) (initial_election_factor s) (links s).

Definition set_timer (s : t) (x : option (option Ballot.t)) : t :=
  mk (pid s) (peers s) (hb_round s) (ballots s) (current_ballot s) (leader s)
     (hb_delay s) (majority s) x (stopped s) (stopped_peers s) (stop_ask s)
     (quick_timeout s) (initial_election_factor s) (links s).

Definition set_stopped (s : t) (x : bool) : t :=
  mk (pid s) (peers s) (hb_round s) (ballots s) (current_ballot s) (leader s)
     (hb_delay s) (majority s) (timer s) x (stopped_peers s) (stop_ask s)
     (quick_timeout s) (initial_election_factor s) (links s).

Definition set_stopped_peers (s : t) (x : gset Z) : t :=
  mk (pid s) (peers s) (hb_round s) (ballots s) (current_ballot s) (leader s)
     (hb_delay s) (majority s) (timer s) (stopped s) x (stop_ask s) (quick_timeout s)
     (initial_election_factor s) (links s).

Definition set_stop_ask (s : t) (x : option Z) : t :=
  mk (pid s) (peers s) (hb_round s) (ballots s) (current_ballot s) (leader s)
     (hb_delay s) (majority s) (timer s) (stopped s) (stopped_peers s) x
     (quick_timeout s) (initial_election_factor s) (links s).

Definition set_quick_timeout (s : t) (x : bool) : t :=
  mk (pid s) (peers s) (hb_round s) (ballots s) (current_ballot s) (leader s)
     (hb_delay s) (majority s) (timer s) (stopped s) (stopped_peers s) (stop_ask s) x
     (initial_election_factor s) (links s).

Definition set_links (s : t) (x : Links) : t :=
  mk (pid s) (peers s) (hb_round s) (ballots s) (current_ballot s) (leader s)
     (hb_delay s) (majority s) (timer s) (stopped s) (stopped_peers s) (stop_ask s)
     (quick_timeout s) (initial_election_factor s) x.

Definition with_ (peers : list Addr) (pid hb_delay : Z) (quick_timeout : bool)
    (initial_leader : option (Z * Ballot.t)) (initial_election_factor : Z) : t :=
  let n := (length peers + 1)%nat in
  let '(leader, initial_ballot) :=
    match initial_leader with
    | Some (l_pid, l_round) =>
        let leader_ballot := Ballot.with_ (Ballot.n l_round) l_pid in
        let initial_ballot :=
          if l_pid =? pid then leader_ballot else Ballot.with_ 0 pid in
        (Some leader_ballot, initial_ballot)
    | None => (None, Ballot.with_ 0 pid)
    end in
  mk pid peers 0 [] initial_ballot leader hb_delay (n / 2 + 1)%nat None false ∅ None
     quick_timeout initial_election_factor links_init.

Definition set_lagging_delay (s : t) (d : Z) : t :=
  set_links s (links_set_lagging_delay d (links s)).

Definition leader_or_default (s : t) : Ballot.t := default Ballot.default (leader s).

Definition check_leader (s : t) : t * list (LeEffect Addr) :=
  let taken := ballots s in
  let s := set_ballots s [] in
  let top_ballot := default Ballot.default (Ballot.max_list taken) in
  if Ballot.ltb top_ballot (leader_or_default s) then
    let s := set_current_ballot s
      (Ballot.with_ (Ballot.n (leader_or_default s) +u32 1) (Ballot.pid (current_ballot s))) in
    (set_leader s None, [])
  else if bool_decide (leader s = Some top_ballot) then (s, [])
  else
    let s := set_quick_timeout s false in
    let s := set_leader s (Some top_ballot) in
    (s, [AnnounceLeader (Ballot.pid top_ballot) top_ballot]).

Definition start_timer (s : t) (delay : Z) : t * list (LeEffect Addr) :=
  (set_timer s (Some None), [StartTimer delay None]).

Definition stop_timer (s : t) : t * list (LeEffect Addr) :=
  match timer s with
  | Some _ => (set_timer s None, [StopTimer])
  | None => (s, [])
  end.

(** [None] is a division by zero. *)
Definition new_hb_round (s : t) : option (t * list (LeEffect Addr)) :=
  delay ← (if quick_timeout s then
             if initial_election_factor s =? 0 then None
             else Some (hb_delay s / initial_election_factor s)
           else Some (hb_delay s));
  let s := set_hb_round s (hb_round s +u32 1) in
  let requests := map (fun peer => LeTell peer (HbRequest (hb_round s))) (peers s) in
  let '(s, started) := start_timer s delay in
  Some (s, requests ++ started).

Definition hb_timeout (s : t) : option (t * list (LeEffect Addr)) :=
  let '(s, announced) :=
    if (majority s <=? length (ballots s) + 1)%nat then
      check_leader (set_ballots s (ballots s ++ [current_ballot s]))
    else (set_ballots s [], []) in
  '(s, effs) ← new_hb_round s;
  Some (s, announced ++ effs).

Definition disconnect_peers (s : t) (ps : list Z) (delay : bool)
    (lagging_peer : option Z) : option (t * list (LeEffect Addr)) :=
  '(l, effs) ← links_disconnect ps delay lagging_peer (links s);
  Some (set_links s l, lag_effects effs).

Definition recover_peers (s : t) : t := set_links s (links_recover (links s)).

Definition on_start (s : t) : option (t * list (LeEffect Addr)) := new_hb_round s.

Definition on_kill (s : t) : t * list (LeEffect Addr) := stop_timer s.

Definition receive_local (s : t) (stop : Z) : t * list (LeEffect Addr) :=
  let s := set_links s (links_recover (links s)) in
  let '(s, e1) := stop_timer s in
  let e2 := map (fun peer => LeTell peer (NetStopPeer stop)) (peers s) in
  let s := set_stopped s true in
  if bool_decide (size (stopped_peers s) = length (peers s)) then
    (s, e1 ++ e2 ++ [LeReplyStop])
  else (set_stop_ask s (Some stop), e1 ++ e2).

(** A heartbeat answer of the current round. *)
Definition handle_heartbeat_reply (s : t) (round : Z) (ballot current_leader : Ballot.t)
    : t * list (LeEffect Addr) :=
  if bool_decide (Ballot.pid ballot ∈ disconnected_peers (links s)) then (s, [])
  else if round =? hb_round s then
    let s := set_ballots s (ballots s ++ [ballot]) in
    if Ballot.ltb (leader_or_default s) current_leader then
      let s := set_quick_timeout s false in
      let s := set_leader s (Some current_leader) in
      (s, [AnnounceLeader (Ballot.pid current_leader) current_leader])
    else (s, [])
  else (s, []).

Definition receive_network (s : t) (sender : Addr) (m : LeMsg)
    : option (t * list (LeEffect Addr)) :=
  match m with
  | HbRequest round =>
      if stopped s then Some (s, [])
      else Some (s, [LeTell sender
                       (HbReplyMp round (current_ballot s) (leader_or_default s))])
  | HbReplyMp round ballot current_leader =>
      if stopped s then Some (s, [])
      else Some (handle_heartbeat_reply s round ballot current_leader)
  | NetStopPeer p =>
      if bool_decide (p ∈ stopped_peers s) then None
      else
        let s := set_stopped_peers s ({[p]} ∪ stopped_peers s) in
        if stopped s && bool_decide (size (stopped_peers s) = length (peers s)) then
          _ ← stop_ask s;
          Some (set_stop_ask s None, [LeReplyStop])
        else Some (s, [])
  | _ => None
  end.

Inductive input :=
| HbTimeout
| Receive (sender : Addr) (m : LeMsg)
| Stop (pid : Z)
| LagTimeout (timer : Timer)
| Disconnect (peers : list Z) (delay : bool) (lagging_peer : option Z)
| Recover.

Definition step (s : t) (i : input) : option (t * list (LeEffect Addr)) :=
  match i with
  | HbTimeout => hb_timeout s
  | Receive sender m => receive_network s sender m
  | Stop p => Some (receive_local s p)
  | LagTimeout timer => l ← links_timeout timer (links s); Some (set_links s l, [])
  | Disconnect ps delay lp => disconnect_peers s ps delay lp
  | Recover => Some (recover_peers s, [])
  end.

Fixpoint run (s : t) (inputs : list input) : option (t * list Ballot.t) :=
  match inputs with
  | [] => Some (s, [])
  | i :: inputs =>
      '(s, effs) ← step s i;
      '(s, l) ← run s inputs;
      Some (s, announced_leaders effs ++ l)
  end.

Lemma mple_new_hb_round_frame s s' effs :
  new_hb_round s = Some (s', effs) ->
  leader s' = leader s /\ announced_leaders effs = [].
Proof.
  unfold new_hb_round, start_timer. intros (delay & _ & H)%bind_Some. simplify_eq.
  split; [done|]. by rewrite announced_app, announced_tells_id.
Qed.

Lemma mple_receive_local_quiet s p :
  announced_leaders (receive_local s p).2 = [] /\
  leader (receive_local s p).1 = leader s.
Proof.
  unfold receive_local. destruct (stop_timer _) as [s1 e1] eqn:Hs.
  assert (announced_leaders e1 = [] /\ leader s1 = leader s) as (He & Hl).
  { unfold stop_timer in Hs. repeat case_match; by simplify_eq. }
  case_bool_decide; cbn [fst snd]; rewrite !announced_app, He, announced_tells_id;
    by split_and!.
Qed.

(** A process announces at most one leader in a step.  It follows that leader
    afterwards, and while it follows a leader it replaces it only by a larger one;
    a step that announces nothing keeps the leader or gives it up. *)
Theorem mple_step_leader (s s' : t) (i : input) (effs : list (LeEffect Addr)) :
  step s i = Some (s', effs) ->
  (announced_leaders effs = [] /\ (leader s' = leader s \/ leader s' = None)) \/
  (exists b, announced_leaders effs = [b] /\ leader s' = Some b /\
     forall l, leader s = Some l -> Ballot.lt l b).
Proof.
  intros H. destruct i as [|sender m|p|timer|ps delay lp|]; simpl in H.
  - unfold hb_timeout in H. destruct (_ <=? _)%nat.
    + destruct (check_leader _) as [s1 e1] eqn:Hch.
      apply bind_Some in H as ([s2 e2] & Hr & [= <- <-]).
      apply mple_new_hb_round_frame in Hr as (Hl & Ha). rewrite announced_app, Ha, app_nil_r, Hl.
      unfold check_leader in Hch. simpl in Hch.
      set (top := default _ (Ballot.max_list _)) in Hch.
      destruct (Ballot.ltb top _) eqn:Hlt; [simplify_eq; left; auto|].
      apply Ballot.ltb_false in Hlt.
      case_bool_decide as Heq; simplify_eq; [left; auto|right].
      exists top. split; [done|]. split; [done|]. intros l Hsl.
      unfold leader_or_default in Hlt. simpl in *. rewrite Hsl in Hlt, Heq. simpl in Hlt.
      apply Ballot.le_neq_lt; [done|congruence].
    + apply bind_Some in H as ([s2 e2] & Hr & [= <- <-]).
      apply mple_new_hb_round_frame in Hr as (Hl & Ha). left. simpl. auto.
  - destruct m; simpl in H; try done; [case_match; simplify_eq; by left; auto| |].
    + destruct (stopped s); [simplify_eq; by left; auto|].
      apply (inj Some) in H. unfold handle_heartbeat_reply in H. simpl in H.
      case_bool_decide; [simplify_eq; by left; auto|].
      destruct (_ =? _); [|simplify_eq; by left; auto].
      destruct (Ballot.ltb _ _) eqn:Hlt; simplify_eq; [|by left; auto].
      right. eexists. split; [done|]. split; [done|]. intros l Hsl.
      apply Ballot.ltb_spec in Hlt. unfold leader_or_default in Hlt. simpl in Hlt.
      by rewrite Hsl in Hlt.
    + handler_inv H; by left; auto.
  - destruct (mple_receive_local_quiet s p) as (Ha & Hl). apply (inj Some) in H.
    rewrite H in Ha, Hl. left. auto.
  - apply bind_Some in H as (l & _ & [= <- <-]). left. auto.
  - apply bind_Some in H as ([l e] & _ & [= <- <-]). left. rewrite announced_lag. auto.
  - simplify_eq. left. auto.
Qed.

End mple.
Arguments t : clear implicits.
Arguments input : clear implicits.

(** Process 1 of three hears of leader (5, 3), loses it, and then hears of an older
    leader from a peer. *)
Definition old_leader_inputs : list (input nat) :=
  [HbTimeout; Receive 2%nat (HbReplyMp 1 (Ballot.with_ 0 2) (Ballot.with_ 5 3)); HbTimeout;
   Receive 2%nat (HbReplyMp 2 (Ballot.with_ 0 2) (Ballot.with_ 2 2))].

Lemma mple_step_leader_witness :
  let s := with_ [2%nat; 3%nat] 1 100 false None 10 in
  exists s' effs, step s HbTimeout = Some (s', effs) /\ announced_leaders effs = [].
Proof.
  intros s. destruct (step s HbTimeout) as [[s' effs]|] eqn:H; [|vm_compute in H; discriminate H].
  exists s', effs. split; [reflexivity|].
  destruct (mple_step_leader s s' HbTimeout effs H) as [[Ha _]|(b & _ & Hb & _)]; [exact Ha|].
  vm_compute in H. injection H as <- <-. discriminate Hb.
Defined.


End MpLe.
