(* ===== verification/Wire.v ===== *)
(** Byte buffers and deserialisers.

    [serialise] writes to a [BufMut] and [deserialise] reads from a [Buf], both of
    the [bytes] crate, which is a parameter here: the class [BufOps] has the
    operations the serialisers call, with their documented behaviour that reading
    undoes writing.  A deserialiser returns [Ok], a [SerError], or panics (a read
    past the end of the buffer, [unimplemented!], [panic!]). *)

From Stdlib Require Import Strings.Byte.
From S2P Require Import Prelude.

(** ** The bytes crate *)

Class BufOps := {
  put_u8 : Z -> bytes;
  put_u32 : Z -> bytes;
  put_u64 : Z -> bytes;
  put_slice : bytes -> bytes;
  get_u8 : bytes -> option (Z * bytes);
  get_u32 : bytes -> option (Z * bytes);
  get_u64 : bytes -> option (Z * bytes);
  (** [vec![0; len]] filled by [copy_to_slice]. *)
  copy_to_slice : nat -> bytes -> option (bytes * bytes);
  get_put_u8 v rest : 0 <= v < 2 ^ 8 -> get_u8 (put_u8 v ++ rest) = Some (v, rest);
  get_put_u32 v rest : in_u32 v -> get_u32 (put_u32 v ++ rest) = Some (v, rest);
  get_put_u64 v rest : in_u64 v -> get_u64 (put_u64 v ++ rest) = Some (v, rest);
  copy_put_slice d rest : copy_to_slice (length d) (put_slice d ++ rest) = Some (d, rest) }.

(** ** Results of deserialisers *)

Inductive outcome (A : Type) :=
| Ok (a : A) (rest : bytes)
| SerErr
| Panic.
Arguments Ok {A} a rest.
Arguments SerErr {A}.
Arguments Panic {A}.

Definition Dec (A : Type) : Type := bytes -> outcome A.

Definition dec_ret {A} (a : A) : Dec A := fun b => Ok a b.
Definition dec_err {A} : Dec A := fun _ => SerErr.
Definition dec_panic {A} : Dec A := fun _ => Panic.
Definition dec_bind {A B} (d : Dec A) (k : A -> Dec B) : Dec B :=
  fun b => match d b with
           | Ok a rest => k a rest
           | SerErr => SerErr
           | Panic => Panic
           end.

Declare Scope dec_scope.
Delimit Scope dec_scope with dec.
Notation "x <- d ;; k" := (dec_bind d (fun x => k))
  (at level 100, d at next level, right associativity) : dec_scope.

(** Lengths are written with [as u32]. *)
Definition as_u32 (z : Z) : Z := z mod 2 ^ 32.
Definition len_u32 {A} (l : list A) : Z := as_u32 (Z.of_nat (length l)).

(** A value whose encoding [e] a deserialiser [d] undoes. *)
Definition decodes {A} (d : Dec A) (e : bytes) (a : A) : Prop :=
  forall rest, d (e ++ rest) = Ok a rest.

Section wire.
Context `{BufOps}.

Definition lift {A} (r : option (A * bytes)) : outcome A :=
  match r with Some (a, rest) => Ok a rest | None => Panic end.

Definition read_u8 : Dec Z := fun b => lift (get_u8 b).
Definition read_u32 : Dec Z := fun b => lift (get_u32 b).
Definition read_u64 : Dec Z := fun b => lift (get_u64 b).
Definition read_slice (len : Z) : Dec bytes := fun b => lift (copy_to_slice (Z.to_nat len) b).

(** [for _ in 0..len { v.push(d) }] *)
Fixpoint read_n {A} (len : nat) (d : Dec A) : Dec (list A) :=
  match len with
  | O => dec_ret []
  | S len => dec_bind d (fun a => dec_bind (read_n len d) (fun l => dec_ret (a :: l)))
  end.

Definition read_many {A} (len : Z) (d : Dec A) : Dec (list A) := read_n (Z.to_nat len) d.

(** [buf.put_u32(data.len() as u32); buf.put_slice(data)], and its inverse. *)
Definition write_data (data : bytes) : bytes := put_u32 (len_u32 data) ++ put_slice data.
Definition read_data : Dec bytes := dec_bind read_u32 read_slice.

(** [buf.put_u32(l.len() as u32); for x in l { .. }], and its inverse. *)
Definition write_list {A} (enc : A -> bytes) (l : list A) : bytes :=
  put_u32 (len_u32 l) ++ (l ≫= enc).
Definition read_list {A} (d : Dec A) : Dec (list A) :=
  dec_bind read_u32 (fun len => read_many len d).

(** ** Round trips *)

Lemma decodes_u8 v : 0 <= v < 2 ^ 8 -> decodes read_u8 (put_u8 v) v.
Proof. intros Hv rest. unfold read_u8. by rewrite get_put_u8. Qed.

Lemma decodes_u32 v : in_u32 v -> decodes read_u32 (put_u32 v) v.
Proof. intros Hv rest. unfold read_u32. by rewrite get_put_u32. Qed.

Lemma decodes_u64 v : in_u64 v -> decodes read_u64 (put_u64 v) v.
Proof. intros Hv rest. unfold read_u64. by rewrite get_put_u64. Qed.

Lemma decodes_ret {A} (a : A) : decodes (dec_ret a) [] a.
Proof. by intros rest. Qed.

Lemma decodes_ret_eq {A} (a b : A) : a = b -> decodes (dec_ret a) [] b.
Proof. intros <-. apply decodes_ret. Qed.

Lemma decodes_bind {A B} (d : Dec A) (k : A -> Dec B) e1 e2 a b :
  decodes d e1 a -> decodes (k a) e2 b -> decodes (dec_bind d k) (e1 ++ e2) b.
Proof. intros H1 H2 rest. unfold dec_bind. by rewrite <- app_assoc, H1. Qed.

(** The last read of a deserialiser is followed by a [dec_ret]. *)
Lemma decodes_bind_ret {A B} (d : Dec A) (k : A -> Dec B) e a b :
  decodes d e a -> decodes (k a) [] b -> decodes (dec_bind d k) e b.
Proof. intros H1 H2. rewrite <- (app_nil_r e). by eapply decodes_bind. Qed.

Lemma len_u32_small {A} (l : list A) :
  Z.of_nat (length l) < 2 ^ 32 -> len_u32 l = Z.of_nat (length l).
Proof. intros. unfold len_u32, as_u32. apply Z.mod_small. lia. Qed.

Lemma decodes_len {A} (l : list A) :
  Z.of_nat (length l) < 2 ^ 32 ->
  decodes read_u32 (put_u32 (len_u32 l)) (Z.of_nat (length l)).
Proof.
  intros Hl. rewrite len_u32_small by done. apply decodes_u32. unfold in_u32. lia.
Qed.

Lemma decodes_data data :
  Z.of_nat (length data) < 2 ^ 32 -> decodes read_data (write_data data) data.
Proof.
  intros Hl. eapply decodes_bind; [by apply decodes_len|].
  intros rest. unfold read_slice. by rewrite Nat2Z.id, copy_put_slice.
Qed.

Lemma decodes_list {A} (enc : A -> bytes) (d : Dec A) l :
  Z.of_nat (length l) < 2 ^ 32 -> Forall (fun a => decodes d (enc a) a) l ->
  decodes (read_list d) (write_list enc l) l.
Proof.
  intros Hl Hf. eapply decodes_bind; [by apply decodes_len|].
  unfold read_many. rewrite Nat2Z.id. clear Hl.
  induction Hf as [|a l Ha Hf IH]; simpl; [apply decodes_ret|].
  eapply decodes_bind; [exact Ha|]. eapply decodes_bind_ret; [exact IH|]. apply decodes_ret.
Qed.
End wire.

(** [wire] solves [decodes] goals of a sequence of reads: it splits the encoding
    at its writes and closes each read with a round-trip lemma. *)
#[export] Hint Resolve decodes_ret : wire.
#[export] Hint Extern 2 (decodes read_u8 _ _) => apply decodes_u8; split; vm_compute; congruence : wire.
#[export] Hint Extern 2 (decodes read_u32 _ _) => apply decodes_u32; assumption : wire.
#[export] Hint Extern 2 (decodes read_u64 _ _) => apply decodes_u64; assumption : wire.
#[export] Hint Extern 2 (decodes read_data _ _) => apply decodes_data; assumption : wire.

Ltac wire_step :=
  match goal with
  | |- decodes (dec_bind _ _) (_ ++ _) _ => eapply decodes_bind; [solve [eauto with wire]|cbv beta]
  | |- decodes (dec_bind _ _) _ _ =>
      eapply decodes_bind_ret; [solve [eauto with wire]|cbv beta]
  | |- decodes (dec_ret _) [] _ => apply decodes_ret
  end.
Ltac wire := repeat wire_step; try solve [eauto with wire].

(** ** A big-endian buffer

    The instance of the class by which examples are evaluated: integers in
    network byte order, slices as they are. *)

Module BigEndian.

Definition byte_of (z : Z) : byte := default x00 (Byte.of_N (Z.to_N (z mod 256))).
Definition of_byte (b : byte) : Z := Z.of_N (Byte.to_N b).

Fixpoint put (k : nat) (z : Z) : bytes :=
  match k with
  | O => []
  | S k => put k (z / 256) ++ [byte_of z]
  end.

Fixpoint get (k : nat) (acc : Z) (b : bytes) : option (Z * bytes) :=
  match k, b with
  | O, _ => Some (acc, b)
  | S k, x :: b => get k (acc * 256 + of_byte x) b
  | S _, [] => None
  end.

Definition copy (len : nat) (b : bytes) : option (bytes * bytes) :=
  if (len <=? length b)%nat then Some (take len b, drop len b) else None.

Lemma of_byte_of z : of_byte (byte_of z) = z mod 256.
Proof.
  unfold of_byte, byte_of. pose proof (Z.mod_pos_bound z 256 ltac:(lia)).
  destruct (Byte.of_N (Z.to_N (z mod 256))) as [b|] eqn:E.
  - simpl. apply Byte.to_of_N in E. rewrite E. lia.
  - apply Byte.of_N_None_iff in E. lia.
Qed.

Lemma length_put k z : length (put k z) = k.
Proof.
  revert z. induction k as [|k IH]; intros z; simpl; [done|].
  rewrite length_app, IH. simpl. lia.
Qed.

Lemma get_app k1 k2 acc b1 b2 v :
  length b1 = k1 -> get k1 acc b1 = Some (v, []) ->
  get (k1 + k2) acc (b1 ++ b2) = get k2 v b2.
Proof.
  revert acc b1. induction k1 as [|k1 IH]; intros acc [|x b1] Hl Hg; simpl in *; try done.
  - by simplify_eq.
  - apply IH; [lia|done].
Qed.

Lemma get_put_acc k acc z :
  0 <= z < 256 ^ Z.of_nat k -> get k acc (put k z) = Some (acc * 256 ^ Z.of_nat k + z, []).
Proof.
  revert acc z. induction k as [|k IH]; intros acc z Hz.
  - simpl in *. f_equal. f_equal. lia.
  - rewrite Nat2Z.inj_succ, Z.pow_succ_r in * by lia. simpl put.
    replace (S k) with (k + 1)%nat by lia.
    pose proof (Z.div_mod z 256 ltac:(lia)). pose proof (Z.mod_pos_bound z 256 ltac:(lia)).
    rewrite (get_app k 1 acc (put k (z / 256)) _ (acc * 256 ^ Z.of_nat k + z / 256)).
    + simpl. rewrite of_byte_of. f_equal. f_equal. nia.
    + apply length_put.
    + apply IH. split; [apply Z.div_pos; lia|]. apply Z.div_lt_upper_bound; lia.
Qed.

Lemma get_put_be k z rest : 0 <= z < 256 ^ Z.of_nat k -> get k 0 (put k z ++ rest) = Some (z, rest).
Proof.
  intros Hz. pose proof (get_put_acc k 0 z Hz) as Hg. rewrite Z.mul_0_l, Z.add_0_l in Hg.
  replace k with (k + 0)%nat at 1 by lia. by rewrite (get_app k 0 0 _ rest z (length_put k z) Hg).
Qed.

Lemma copy_spec d rest : copy (length d) (d ++ rest) = Some (d, rest).
Proof.
  unfold copy. rewrite length_app, (proj2 (Nat.leb_le _ _)) by lia.
  by rewrite take_app_length, drop_app_length.
Qed.

#[export] Instance big_endian : BufOps := {
  put_u8 := put 1;
  put_u32 := put 4;
  put_u64 := put 8;
  put_slice := id;
  get_u8 := get 1 0;
  get_u32 := get 4 0;
  get_u64 := get 8 0;
  copy_to_slice := copy;
  get_put_u8 v rest := get_put_be 1 v rest;
  get_put_u32 v rest := get_put_be 4 v rest;
  get_put_u64 v rest := get_put_be 8 v rest;
  copy_put_slice := copy_spec }.

End BigEndian.
