(* ===== verification/MpWire.v ===== *)
(** The wire format of the Multi-Paxos messages ([multi_paxos/serializers.rs]) and
    of [Ping] ([messages.rs]): one serialiser and one deserialiser per message
    type, and their round trips for every value whose fields fit the wire. *)

From Stdlib Require Import Strings.Byte.
From S2P Require Import Prelude MpMessages Wire.

Open Scope dec_scope.

Module MpWire.

Definition LI_P1B : Z := 0.
Definition LI_NACK : Z := 1.
Definition LI_CW : Z := 2.
Definition LI_R : Z := 3.
Definition LI_CRB : Z := 4.
Definition LI_LIRB : Z := 5.
Definition AI_P1A : Z := 0.
Definition AI_P2A : Z := 1.
Definition BI_NLP : Z := 0.
Definition BI_LIRB : Z := 1.
Definition PI_P2A : Z := 0.
Definition PI_P2B : Z := 1.

Section serializers.
Context `{BufOps}.

Definition serialise_command_batch_or_noop (c : CommandBatchOrNoop) : bytes :=
  match c with
  | CommandBatch batch => put_u8 1 ++ write_list write_data batch
  | Noop => put_u8 0
  end.

(** An unexpected tag is an [unimplemented!]. *)
Definition deserialise_command_batch_or_noop : Dec CommandBatchOrNoop :=
  tag <- read_u8;;
  if tag =? 0 then dec_ret Noop
  else if tag =? 1 then batch <- read_list read_data;; dec_ret (CommandBatch batch)
  else dec_panic.

Definition serialise_phase1b_slot_info (i : Phase1bSlotInfo) : bytes :=
  put_u64 (info_slot i) ++ put_u64 (info_vote_round i) ++
  serialise_command_batch_or_noop (info_vote_value i).

Definition deserialise_phase1b_slot_info : Dec Phase1bSlotInfo :=
  slot <- read_u64;;
  vote_round <- read_u64;;
  vote_value <- deserialise_command_batch_or_noop;;
  dec_ret (mkPhase1bSlotInfo slot vote_round vote_value).

Definition write_proposal (p : Proposal) : bytes := write_data (proposal_data p).
Definition read_proposal : Dec Proposal := data <- read_data;; dec_ret (mkProposal data).

Definition serialise_leader (m : LeaderInbound) : bytes :=
  match m with
  | LI_Phase1b p1b =>
      put_u8 LI_P1B ++ put_u64 (p1b_round p1b) ++ put_u64 (p1b_acceptor_index p1b) ++
      write_list serialise_phase1b_slot_info (p1b_info p1b)
  | LI_Nack round => put_u8 LI_NACK ++ put_u64 round
  | LI_ChosenWatermark slot => put_u8 LI_CW ++ put_u64 slot
  | LI_Recover slot => put_u8 LI_R ++ put_u64 slot
  | LI_ClientRequestBatch c => put_u8 LI_CRB ++ write_list write_proposal c
  | LI_LeaderInfoRequestBatcher src => put_u8 LI_LIRB ++ put_u64 src
  end.

Definition deserialise_leader : Dec LeaderInbound :=
  tag <- read_u8;;
  if tag =? LI_P1B then
    round <- read_u64;;
    acceptor_index <- read_u64;;
    info <- read_list deserialise_phase1b_slot_info;;
    dec_ret (LI_Phase1b (mkPhase1b acceptor_index round info))
  else if tag =? LI_NACK then round <- read_u64;; dec_ret (LI_Nack round)
  else if tag =? LI_CW then slot <- read_u64;; dec_ret (LI_ChosenWatermark slot)
  else if tag =? LI_R then slot <- read_u64;; dec_ret (LI_Recover slot)
  else if tag =? LI_CRB then
    proposals <- read_list read_proposal;; dec_ret (LI_ClientRequestBatch proposals)
  else if tag =? LI_LIRB then src <- read_u64;; dec_ret (LI_LeaderInfoRequestBatcher src)
  else dec_err.

Definition serialise_acceptor (m : AcceptorInbound) : bytes :=
  match m with
  | AI_Phase1a p1a =>
      put_u8 AI_P1A ++ put_u64 (p1a_src p1a) ++ put_u64 (p1a_round p1a) ++
      put_u64 (p1a_chosen_watermark p1a)
  | AI_Phase2a p2a =>
      put_u8 AI_P2A ++ put_u64 (p2a_src p2a) ++ put_u64 (p2a_round p2a) ++
      put_u64 (p2a_slot p2a) ++ serialise_command_batch_or_noop (p2a_value p2a)
  end.

Definition deserialise_acceptor : Dec AcceptorInbound :=
  tag <- read_u8;;
  if tag =? AI_P1A then
    src <- read_u64;;
    round <- read_u64;;
    chosen_watermark <- read_u64;;
    dec_ret (AI_Phase1a (mkPhase1a src round chosen_watermark))
  else if tag =? AI_P2A then
    src <- read_u64;;
    round <- read_u64;;
    slot <- read_u64;;
    command_batch_or_noop <- deserialise_command_batch_or_noop;;
    dec_ret (AI_Phase2a (mkPhase2a src slot round command_batch_or_noop))
  else dec_err.

Definition serialise_replica (m : ReplicaInbound) : bytes :=
  match m with
  | RI_Chosen c =>
      put_u64 (chosen_slot c) ++ serialise_command_batch_or_noop (chosen_value c)
  end.

Definition deserialise_replica : Dec ReplicaInbound :=
  slot <- read_u64;;
  command_batch_or_noop <- deserialise_command_batch_or_noop;;
  dec_ret (RI_Chosen (mkChosen slot command_batch_or_noop)).

Definition serialise_batcher (m : BatcherInbound) : bytes :=
  match m with
  | BI_NotLeaderBatcher proposals => put_u8 BI_NLP ++ write_list write_proposal proposals
  | BI_LeaderInfoReplyBatcher l => put_u8 BI_LIRB ++ put_u64 l
  end.

Definition deserialise_batcher : Dec BatcherInbound :=
  tag <- read_u8;;
  if tag =? BI_NLP then
    proposals <- read_list read_proposal;; dec_ret (BI_NotLeaderBatcher proposals)
  else if tag =? BI_LIRB then round <- read_u64;; dec_ret (BI_LeaderInfoReplyBatcher round)
  else dec_err.

Definition serialise_proxy_leader (m : ProxyLeaderInbound) : bytes :=
  match m with
  | PI_Phase2a p2a =>
      put_u8 PI_P2A ++ put_u64 (p2a_src p2a) ++ put_u64 (p2a_slot p2a) ++
      put_u64 (p2a_round p2a) ++ serialise_command_batch_or_noop (p2a_value p2a)
  | PI_Phase2b p2b =>
      put_u8 PI_P2B ++ put_u64 (p2b_slot p2b) ++ put_u64 (p2b_round p2b) ++
      put_u64 (p2b_acceptor_index p2b)
  end.

Definition deserialise_proxy_leader : Dec ProxyLeaderInbound :=
  tag <- read_u8;;
  if tag =? PI_P2A then
    src <- read_u64;;
    slot <- read_u64;;
    round <- read_u64;;
    command_batch_or_noop <- deserialise_command_batch_or_noop;;
    dec_ret (PI_Phase2a (mkPhase2a src slot round command_batch_or_noop))
  else if tag =? PI_P2B then
    slot <- read_u64;;
    round <- read_u64;;
    acceptor_index <- read_u64;;
    dec_ret (PI_Phase2b (mkPhase2b acceptor_index slot round))
  else dec_err.

Definition serialise_ping (p : Ping) : bytes :=
  put_u64 (ping_round p) ++ put_u64 (ping_leader_index p).

Definition deserialise_ping : Dec Ping :=
  round <- read_u64;;
  leader_index <- read_u64;;
  dec_ret (mkPing round leader_index).

(** ** Values that fit the wire *)

Definition len_fits {A} (l : list A) : Prop := Z.of_nat (length l) < 2 ^ 32.

Definition command_fits (c : CommandBatchOrNoop) : Prop :=
  match c with
  | CommandBatch batch => len_fits batch /\ Forall len_fits batch
  | Noop => True
  end.

Definition slot_info_fits (i : Phase1bSlotInfo) : Prop :=
  in_u64 (info_slot i) /\ in_u64 (info_vote_round i) /\ command_fits (info_vote_value i).

Definition proposals_fit (l : list Proposal) : Prop :=
  len_fits l /\ Forall (fun p => len_fits (proposal_data p)) l.

Definition phase2a_fits (p : Phase2a) : Prop :=
  in_u64 (p2a_src p) /\ in_u64 (p2a_slot p) /\ in_u64 (p2a_round p) /\
  command_fits (p2a_value p).

Definition leader_fits (m : LeaderInbound) : Prop :=
  match m with
  | LI_Phase1b p => in_u64 (p1b_round p) /\ in_u64 (p1b_acceptor_index p) /\
      len_fits (p1b_info p) /\ Forall slot_info_fits (p1b_info p)
  | LI_Nack z | LI_ChosenWatermark z | LI_Recover z | LI_LeaderInfoRequestBatcher z => in_u64 z
  | LI_ClientRequestBatch c => proposals_fit c
  end.

Definition acceptor_fits (m : AcceptorInbound) : Prop :=
  match m with
  | AI_Phase1a p => in_u64 (p1a_src p) /\ in_u64 (p1a_round p) /\
      in_u64 (p1a_chosen_watermark p)
  | AI_Phase2a p => phase2a_fits p
  end.

Definition replica_fits (m : ReplicaInbound) : Prop :=
  match m with RI_Chosen c => in_u64 (chosen_slot c) /\ command_fits (chosen_value c) end.

Definition batcher_fits (m : BatcherInbound) : Prop :=
  match m with
  | BI_NotLeaderBatcher l => proposals_fit l
  | BI_LeaderInfoReplyBatcher z => in_u64 z
  end.

Definition proxy_leader_fits (m : ProxyLeaderInbound) : Prop :=
  match m with
  | PI_Phase2a p => phase2a_fits p
  | PI_Phase2b p => in_u64 (p2b_slot p) /\ in_u64 (p2b_round p) /\ in_u64 (p2b_acceptor_index p)
  end.

(** ** Round trips *)

Lemma decodes_command c :
  command_fits c ->
  decodes deserialise_command_batch_or_noop (serialise_command_batch_or_noop c) c.
Proof.
  unfold deserialise_command_batch_or_noop.
  destruct c as [batch|]; simpl; [intros [Hl Hf]|intros _].
  - wire_step; simpl. eapply decodes_bind_ret; [|apply decodes_ret].
    apply decodes_list; [done|]. eapply Forall_impl; [exact Hf|].
    intros d Hd. by apply decodes_data.
  - wire_step. simpl. apply decodes_ret.
Qed.

Lemma decodes_proposals l :
  proposals_fit l -> decodes (read_list read_proposal) (write_list write_proposal l) l.
Proof.
  intros [Hl Hf]. apply decodes_list; [done|]. eapply Forall_impl; [exact Hf|].
  intros [d] Hd. unfold read_proposal, write_proposal. simpl in *.
  eapply decodes_bind_ret; [by apply decodes_data|apply decodes_ret].
Qed.

Lemma decodes_slot_info i :
  slot_info_fits i -> decodes deserialise_phase1b_slot_info (serialise_phase1b_slot_info i) i.
Proof.
  destruct i as [s r v]. intros (Hs & Hr & Hv). simpl in *.
  unfold deserialise_phase1b_slot_info, serialise_phase1b_slot_info. simpl.
  do 2 wire_step. eapply decodes_bind_ret; [by apply decodes_command|apply decodes_ret].
Qed.

Hint Resolve decodes_command decodes_proposals decodes_slot_info : wire.

Lemma decodes_leader m : leader_fits m -> decodes deserialise_leader (serialise_leader m) m.
Proof.
  unfold deserialise_leader.
  destruct m as [[a r info]|z|z|z|c|z]; simpl; intros Hm; destruct_and?;
    (wire_step; simpl; repeat wire_step).
  eapply decodes_bind_ret; [|apply decodes_ret]. apply decodes_list; [done|].
  eapply Forall_impl; [eassumption|]. intros i. apply decodes_slot_info.
Qed.

Lemma decodes_acceptor m :
  acceptor_fits m -> decodes deserialise_acceptor (serialise_acceptor m) m.
Proof.
  unfold deserialise_acceptor.
  destruct m as [[s r w]|[s sl r v]]; simpl; unfold phase2a_fits; simpl; intros Hm;
    destruct_and?; wire_step; simpl; repeat wire_step.
Qed.

Lemma decodes_replica m : replica_fits m -> decodes deserialise_replica (serialise_replica m) m.
Proof.
  unfold deserialise_replica. destruct m as [[s v]]. simpl. intros [? ?]. repeat wire_step.
Qed.

Lemma decodes_batcher m : batcher_fits m -> decodes deserialise_batcher (serialise_batcher m) m.
Proof.
  unfold deserialise_batcher.
  destruct m as [l|z]; simpl; intros Hm; wire_step; simpl; repeat wire_step.
Qed.

Lemma decodes_proxy_leader m :
  proxy_leader_fits m -> decodes deserialise_proxy_leader (serialise_proxy_leader m) m.
Proof.
  unfold deserialise_proxy_leader.
  destruct m as [[s sl r v]|[a sl r]]; simpl; unfold phase2a_fits; simpl; intros Hm;
    destruct_and?; wire_step; simpl; repeat wire_step.
Qed.

Lemma decodes_ping p :
  in_u64 (ping_round p) -> in_u64 (ping_leader_index p) ->
  decodes deserialise_ping (serialise_ping p) p.
Proof.
  unfold deserialise_ping, serialise_ping. destruct p as [r l]. simpl. intros. repeat wire_step.
Qed.

(** C38: every Multi-Paxos message whose numbers are 64-bit and whose lists are
    shorter than [2^32] is read back exactly, and the bytes after it are left in
    the buffer. *)
Theorem multi_paxos_roundtrip (rest : bytes) :
  (forall m, leader_fits m -> deserialise_leader (serialise_leader m ++ rest) = Ok m rest) /\
  (forall m, acceptor_fits m ->
     deserialise_acceptor (serialise_acceptor m ++ rest) = Ok m rest) /\
  (forall m, replica_fits m -> deserialise_replica (serialise_replica m ++ rest) = Ok m rest) /\
  (forall m, batcher_fits m -> deserialise_batcher (serialise_batcher m ++ rest) = Ok m rest) /\
  (forall m, proxy_leader_fits m ->
     deserialise_proxy_leader (serialise_proxy_leader m ++ rest) = Ok m rest) /\
  (forall p, in_u64 (ping_round p) -> in_u64 (ping_leader_index p) ->
     deserialise_ping (serialise_ping p ++ rest) = Ok p rest).
Proof.
  split_and!; intros m; intros.
  - by apply decodes_leader.
  - by apply decodes_acceptor.
  - by apply decodes_replica.
  - by apply decodes_batcher.
  - by apply decodes_proxy_leader.
  - by apply decodes_ping.
Qed.

Lemma read_tag {A} (k : Z -> Dec A) t rest :
  0 <= t < 2 ^ 8 -> dec_bind read_u8 k (put_u8 t ++ rest) = k t rest.
Proof. intros Ht. unfold dec_bind. by rewrite (decodes_u8 t Ht rest). Qed.

(** A message with an unknown id is rejected with an error, but an unknown tag
    of a command batch, in whatever message it occurs, panics the receiver. *)
Theorem multi_paxos_unknown_ids (t : Z) (rest : bytes) :
  2 <= t < 2 ^ 8 ->
  (6 <= t -> deserialise_leader (put_u8 t ++ rest) = SerErr) /\
  deserialise_acceptor (put_u8 t ++ rest) = SerErr /\
  deserialise_batcher (put_u8 t ++ rest) = SerErr /\
  deserialise_proxy_leader (put_u8 t ++ rest) = SerErr /\
  forall slot, in_u64 slot -> deserialise_replica (put_u64 slot ++ put_u8 t ++ rest) = Panic.
Proof.
  intros Ht.
  assert (forall k, k < t -> (t =? k) = false) as Hne by (intros k Hk; apply Z.eqb_neq; lia).
  unfold deserialise_leader, deserialise_acceptor, deserialise_batcher,
    deserialise_proxy_leader, deserialise_replica, deserialise_command_batch_or_noop.
  split_and!.
  - intros H6. rewrite read_tag by lia.
    by rewrite !Hne by (unfold LI_P1B, LI_NACK, LI_CW, LI_R, LI_CRB, LI_LIRB; lia).
  - rewrite read_tag by lia. by rewrite !Hne by (unfold AI_P1A, AI_P2A; lia).
  - rewrite read_tag by lia. by rewrite !Hne by (unfold BI_NLP, BI_LIRB; lia).
  - rewrite read_tag by lia. by rewrite !Hne by (unfold PI_P2A, PI_P2B; lia).
  - intros slot Hs. unfold dec_bind at 1. rewrite (decodes_u64 slot Hs).
    unfold dec_bind at 1. rewrite read_tag by lia. by rewrite !Hne by lia.
Qed.
End serializers.

(** A promise of a voted slot, on the big-endian buffer. *)
Definition example_promise : LeaderInbound :=
  LI_Phase1b (mkPhase1b 2 7 [mkPhase1bSlotInfo 3 4 (CommandBatch [[x2a; x2b]; []]);
                             mkPhase1bSlotInfo 5 6 Noop]).

Lemma multi_paxos_roundtrip_witness :
  length (serialise_leader (H := BigEndian.big_endian) example_promise) = 69%nat /\
  deserialise_leader (H := BigEndian.big_endian)
    (serialise_leader (H := BigEndian.big_endian) example_promise ++ [x01]) =
    Ok example_promise [x01].
Proof.
  split; [reflexivity|].
  apply (multi_paxos_roundtrip (H := BigEndian.big_endian) [x01]).
  repeat (constructor || (vm_compute; congruence)).
Defined.

Lemma multi_paxos_unknown_ids_witness :
  deserialise_leader (H := BigEndian.big_endian)
    (put_u8 (BufOps := BigEndian.big_endian) 9 ++ []) = SerErr.
Proof.
  apply (multi_paxos_unknown_ids (H := BigEndian.big_endian) 9 []);
    [split; [discriminate|reflexivity]|discriminate].
Defined.

End MpWire.
