(* ===== verification/PaxosWire.v ===== *)
(** The wire format of the Omni-Paxos and reconfiguration messages
    ([messages.rs], module [paxos]).

    The message types of the [omnipaxos] crate are the data the serialisers read,
    field by field; the crate's constructor functions [with] are parameters, with
    the documented behaviour that they store their arguments. *)

From Stdlib Require Import Strings.Byte.
From S2P Require Import Prelude Wire Election.

Open Scope dec_scope.

(** ** Data of the omnipaxos crate *)

Module Omni.

Record Leader := mkLeader { leader_pid : Z; leader_round : Ballot.t }.

Record StopSign := mkStopSign {
  ss_config_id : Z;
  ss_nodes : list Z;
  ss_skip_prepare_use_leader : option Leader }.

Inductive Entry :=
| Normal (d : bytes)
| StopSignEntry (ss : StopSign).

Record Prepare := mkPrepare {
  prepare_n : Ballot.t; prepare_ld : Z; prepare_n_accepted : Ballot.t; prepare_la : Z }.
Record Promise := mkPromise {
  promise_n : Ballot.t; promise_n_accepted : Ballot.t; promise_sfx : list Entry;
  promise_ld : Z; promise_la : Z }.
Record AcceptSync := mkAcceptSync {
  acc_sync_n : Ballot.t; acc_sync_entries : list Entry; acc_sync_idx : Z }.
Record FirstAccept := mkFirstAccept { first_n : Ballot.t; first_entries : list Entry }.
Record AcceptDecide := mkAcceptDecide {
  accdec_n : Ballot.t; accdec_ld : Z; accdec_entries : list Entry }.
Record Accepted := mkAccepted { accepted_n : Ballot.t; accepted_la : Z }.
Record Decide := mkDecide { decide_ld : Z; decide_n : Ballot.t }.

Inductive PaxosMsg :=
| PrepareReq
| PrepareMsg (p : Prepare)
| PromiseMsg (p : Promise)
| AcceptSyncMsg (a : AcceptSync)
| FirstAcceptMsg (f : FirstAccept)
| AcceptDecideMsg (a : AcceptDecide)
| AcceptedMsg (a : Accepted)
| DecideMsg (d : Decide)
| ProposalForward (entries : list Entry).

Record Message := mkMessage { msg_from : Z; msg_to : Z; msg : PaxosMsg }.

(** The constructor functions, in the argument order of their call sites. *)
Class Constructors := {
  leader_with : Z -> Ballot.t -> Leader;
  stopsign_with : Z -> list Z -> option Leader -> StopSign;
  prepare_with : Ballot.t -> Z -> Ballot.t -> Z -> Prepare;
  promise_with : Ballot.t -> Ballot.t -> list Entry -> Z -> Z -> Promise;
  accept_sync_with : Ballot.t -> list Entry -> Z -> AcceptSync;
  first_accept_with : Ballot.t -> list Entry -> FirstAccept;
  accept_decide_with : Ballot.t -> Z -> list Entry -> AcceptDecide;
  accepted_with : Ballot.t -> Z -> Accepted;
  decide_with : Z -> Ballot.t -> Decide;
  message_with : Z -> Z -> PaxosMsg -> Message;
  leader_with_spec l : leader_with (leader_pid l) (leader_round l) = l;
  stopsign_with_spec s :
    stopsign_with (ss_config_id s) (ss_nodes s) (ss_skip_prepare_use_leader s) = s;
  prepare_with_spec p :
    prepare_with (prepare_n p) (prepare_ld p) (prepare_n_accepted p) (prepare_la p) = p;
  promise_with_spec p :
    promise_with (promise_n p) (promise_n_accepted p) (promise_sfx p) (promise_ld p)
      (promise_la p) = p;
  accept_sync_with_spec a :
    accept_sync_with (acc_sync_n a) (acc_sync_entries a) (acc_sync_idx a) = a;
  first_accept_with_spec f : first_accept_with (first_n f) (first_entries f) = f;
  accept_decide_with_spec a :
    accept_decide_with (accdec_n a) (accdec_ld a) (accdec_entries a) = a;
  accepted_with_spec a : accepted_with (accepted_n a) (accepted_la a) = a;
  decide_with_spec d : decide_with (decide_ld d) (decide_n d) = d;
  message_with_spec m : message_with (msg_from m) (msg_to m) (msg m) = m }.

(** Constructors that store their arguments exist. *)
#[export] Instance plain : Constructors.
Proof.
  refine {| leader_with := mkLeader; stopsign_with := mkStopSign; prepare_with := mkPrepare;
    promise_with := mkPromise; accept_sync_with := mkAcceptSync;
    first_accept_with := mkFirstAccept; accept_decide_with := mkAcceptDecide;
    accepted_with := mkAccepted; decide_with := mkDecide; message_with := mkMessage |};
  by intros [].
Defined.

End Omni.

(** ** Data of the reconfiguration protocol *)

Module PaxosWire.
Import Omni.

Record SegmentIndex := mkSegmentIndex { seg_from : Z; seg_to : Z }.

Record SequenceSegment := mkSequenceSegment { seg_idx : SegmentIndex; seg_entries : list Entry }.

Definition get_index (s : SequenceSegment) : SegmentIndex := seg_idx s.
Definition get_from_idx (s : SequenceSegment) : Z := seg_from (seg_idx s).
Definition get_to_idx (s : SequenceSegment) : Z := seg_to (seg_idx s).

Record SequenceMetaData := mkSequenceMetaData { meta_config_id : Z; meta_len : Z }.

Record SegmentTransfer := mkSegmentTransfer {
  st_config_id : Z; st_succeeded : bool; st_metadata : SequenceMetaData;
  st_segment : SequenceSegment }.

Record SegmentRequest := mkSegmentRequest {
  sr_config_id : Z; sr_idx : SegmentIndex; sr_requestor_pid : Z }.

Record Reconfig := mkReconfig { continued_nodes : list Z; new_nodes : list Z }.

Definition get_peers_of (r : Reconfig) (pid : Z) : list Z :=
  filter (fun p => p <> pid) (continued_nodes r ++ new_nodes r).

Record ReconfigInit := mkReconfigInit {
  ri_config_id : Z; ri_nodes : Reconfig; ri_seq_metadata : SequenceMetaData; ri_from : Z;
  ri_skip_prepare_use_leader : option Leader }.

Inductive ReconfigurationMsg :=
| Init (r : ReconfigInit)
| SegmentRequestMsg (sr : SegmentRequest)
| SegmentTransferMsg (st : SegmentTransfer).

Definition PREPARE_ID : Z := 1.
Definition PROMISE_ID : Z := 2.
Definition ACCEPTSYNC_ID : Z := 3.
Definition ACCEPTDECIDE_ID : Z := 4.
Definition ACCEPTED_ID : Z := 5.
Definition DECIDE_ID : Z := 6.
Definition PROPOSALFORWARD_ID : Z := 7.
Definition FIRSTACCEPT_ID : Z := 8.
Definition PREPAREREQ_ID : Z := 9.
Definition NORMAL_ENTRY_ID : Z := 1.
Definition SS_ENTRY_ID : Z := 2.
Definition RECONFIG_INIT_ID : Z := 1.
Definition SEQ_REQ_ID : Z := 2.
Definition SEQ_TRANSFER_ID : Z := 3.

Section serialisers.
Context `{BufOps, Constructors}.

Definition serialise_ballot (b : Ballot.t) : bytes :=
  put_u32 (Ballot.n b) ++ put_u64 (Ballot.pid b).

Definition deserialise_ballot : Dec Ballot.t :=
  n <- read_u32;; pid <- read_u64;; dec_ret (Ballot.with_ n pid).

(** [Option<Leader<Ballot>>], as written in a stop sign and in a [ReconfigInit]. *)
Definition serialise_leader (o : option Leader) : bytes :=
  match o with
  | Some l => put_u8 1 ++ put_u64 (leader_pid l) ++ serialise_ballot (leader_round l)
  | None => put_u8 0
  end.

Definition deserialise_leader : Dec (option Leader) :=
  tag <- read_u8;;
  if tag =? 1 then
    pid <- read_u64;;
    ballot <- deserialise_ballot;;
    dec_ret (Some (leader_with pid ballot))
  else dec_ret None.

Definition serialise_entry (e : Entry) : bytes :=
  match e with
  | Normal d => put_u8 NORMAL_ENTRY_ID ++ write_data d
  | StopSignEntry ss =>
      put_u8 SS_ENTRY_ID ++ put_u32 (ss_config_id ss) ++ write_list put_u64 (ss_nodes ss) ++
      serialise_leader (ss_skip_prepare_use_leader ss)
  end.

Definition deserialise_entry : Dec Entry :=
  tag <- read_u8;;
  if tag =? NORMAL_ENTRY_ID then data <- read_data;; dec_ret (Normal data)
  else if tag =? SS_ENTRY_ID then
    config_id <- read_u32;;
    nodes <- read_list read_u64;;
    skip_prepare_use_leader <- deserialise_leader;;
    dec_ret (StopSignEntry (stopsign_with config_id nodes skip_prepare_use_leader))
  else dec_panic.

Definition serialise_entries (l : list Entry) : bytes := write_list serialise_entry l.
Definition deserialise_entries : Dec (list Entry) := read_list deserialise_entry.

Definition serialise_paxos_msg (m : PaxosMsg) : bytes :=
  match m with
  | PrepareReq => put_u8 PREPAREREQ_ID
  | PrepareMsg p =>
      put_u8 PREPARE_ID ++ put_u64 (prepare_ld p) ++ put_u64 (prepare_la p) ++
      serialise_ballot (prepare_n p) ++ serialise_ballot (prepare_n_accepted p)
  | PromiseMsg p =>
      put_u8 PROMISE_ID ++ put_u64 (promise_ld p) ++ put_u64 (promise_la p) ++
      serialise_ballot (promise_n p) ++ serialise_ballot (promise_n_accepted p) ++
      serialise_entries (promise_sfx p)
  | AcceptSyncMsg a =>
      put_u8 ACCEPTSYNC_ID ++ put_u64 (acc_sync_idx a) ++ serialise_ballot (acc_sync_n a) ++
      serialise_entries (acc_sync_entries a)
  | FirstAcceptMsg f =>
      put_u8 FIRSTACCEPT_ID ++ serialise_ballot (first_n f) ++
      serialise_entries (first_entries f)
  | AcceptDecideMsg a =>
      put_u8 ACCEPTDECIDE_ID ++ put_u64 (accdec_ld a) ++ serialise_ballot (accdec_n a) ++
      serialise_entries (accdec_entries a)
  | AcceptedMsg a =>
      put_u8 ACCEPTED_ID ++ serialise_ballot (accepted_n a) ++ put_u64 (accepted_la a)
  | DecideMsg d => put_u8 DECIDE_ID ++ serialise_ballot (decide_n d) ++ put_u64 (decide_ld d)
  | ProposalForward l => put_u8 PROPOSALFORWARD_ID ++ serialise_entries l
  end.

(** [PaxosMsgWrapper::serialise]. *)
Definition serialise_message (m : Message) : bytes :=
  put_u64 (msg_from m) ++ put_u64 (msg_to m) ++ serialise_paxos_msg (msg m).

Definition deserialise_message : Dec Message :=
  from <- read_u64;;
  to <- read_u64;;
  tag <- read_u8;;
  if tag =? PREPAREREQ_ID then dec_ret (message_with from to PrepareReq)
  else if tag =? PREPARE_ID then
    ld <- read_u64;;
    la <- read_u64;;
    n <- deserialise_ballot;;
    n_accepted <- deserialise_ballot;;
    dec_ret (message_with from to (PrepareMsg (prepare_with n ld n_accepted la)))
  else if tag =? PROMISE_ID then
    ld <- read_u64;;
    la <- read_u64;;
    n <- deserialise_ballot;;
    n_accepted <- deserialise_ballot;;
    sfx <- deserialise_entries;;
    dec_ret (message_with from to (PromiseMsg (promise_with n n_accepted sfx ld la)))
  else if tag =? ACCEPTSYNC_ID then
    sync_idx <- read_u64;;
    n <- deserialise_ballot;;
    sfx <- deserialise_entries;;
    dec_ret (message_with from to (AcceptSyncMsg (accept_sync_with n sfx sync_idx)))
  else if tag =? ACCEPTDECIDE_ID then
    ld <- read_u64;;
    n <- deserialise_ballot;;
    entries <- deserialise_entries;;
    dec_ret (message_with from to (AcceptDecideMsg (accept_decide_with n ld entries)))
  else if tag =? ACCEPTED_ID then
    n <- deserialise_ballot;;
    ld <- read_u64;;
    dec_ret (message_with from to (AcceptedMsg (accepted_with n ld)))
  else if tag =? DECIDE_ID then
    n <- deserialise_ballot;;
    ld <- read_u64;;
    dec_ret (message_with from to (DecideMsg (decide_with ld n)))
  else if tag =? PROPOSALFORWARD_ID then
    entries <- deserialise_entries;;
    dec_ret (message_with from to (ProposalForward entries))
  else if tag =? FIRSTACCEPT_ID then
    n <- deserialise_ballot;;
    entries <- deserialise_entries;;
    dec_ret (message_with from to (FirstAcceptMsg (first_accept_with n entries)))
  else dec_err.

Definition serialise_reconfiguration (m : ReconfigurationMsg) : bytes :=
  match m with
  | Init r =>
      put_u8 RECONFIG_INIT_ID ++ put_u32 (ri_config_id r) ++ put_u64 (ri_from r) ++
      put_u32 (meta_config_id (ri_seq_metadata r)) ++ put_u64 (meta_len (ri_seq_metadata r)) ++
      write_list put_u64 (continued_nodes (ri_nodes r)) ++
      write_list put_u64 (new_nodes (ri_nodes r)) ++
      serialise_leader (ri_skip_prepare_use_leader r)
  | SegmentRequestMsg sr =>
      put_u8 SEQ_REQ_ID ++ put_u32 (sr_config_id sr) ++ put_u64 (seg_from (sr_idx sr)) ++
      put_u64 (seg_to (sr_idx sr)) ++ put_u64 (sr_requestor_pid sr)
  | SegmentTransferMsg st =>
      put_u8 SEQ_TRANSFER_ID ++ put_u32 (st_config_id st) ++
      put_u8 (if st_succeeded st then 1 else 0) ++ put_u64 (get_from_idx (st_segment st)) ++
      put_u64 (get_to_idx (st_segment st)) ++ put_u32 (meta_config_id (st_metadata st)) ++
      put_u64 (meta_len (st_metadata st)) ++ serialise_entries (seg_entries (st_segment st))
  end.

Definition deserialise_reconfiguration : Dec ReconfigurationMsg :=
  tag <- read_u8;;
  if tag =? RECONFIG_INIT_ID then
    config_id <- read_u32;;
    from <- read_u64;;
    seq_metadata_config_id <- read_u32;;
    seq_metadata_len <- read_u64;;
    continued <- read_list read_u64;;
    new <- read_list read_u64;;
    skip_prepare_use_leader <- deserialise_leader;;
    dec_ret (Init (mkReconfigInit config_id (mkReconfig continued new)
      (mkSequenceMetaData seq_metadata_config_id seq_metadata_len) from
      skip_prepare_use_leader))
  else if tag =? SEQ_REQ_ID then
    config_id <- read_u32;;
    from_idx <- read_u64;;
    to_idx <- read_u64;;
    requestor_pid <- read_u64;;
    dec_ret (SegmentRequestMsg
      (mkSegmentRequest config_id (mkSegmentIndex from_idx to_idx) requestor_pid))
  else if tag =? SEQ_TRANSFER_ID then
    config_id <- read_u32;;
    succeeded <- read_u8;;
    from_idx <- read_u64;;
    to_idx <- read_u64;;
    metadata_config_id <- read_u32;;
    metadata_seq_len <- read_u64;;
    entries <- deserialise_entries;;
    dec_ret (SegmentTransferMsg (mkSegmentTransfer config_id (succeeded =? 1)
      (mkSequenceMetaData metadata_config_id metadata_seq_len)
      (mkSequenceSegment (mkSegmentIndex from_idx to_idx) entries)))
  else dec_err.

(** ** Values that fit the wire *)

Definition ballot_fits (b : Ballot.t) : Prop := in_u32 (Ballot.n b) /\ in_u64 (Ballot.pid b).

Definition leader_fits (o : option Leader) : Prop :=
  match o with
  | Some l => in_u64 (leader_pid l) /\ ballot_fits (leader_round l)
  | None => True
  end.

Definition list_fits {A} (P : A -> Prop) (l : list A) : Prop :=
  Z.of_nat (length l) < 2 ^ 32 /\ Forall P l.

Definition entry_fits (e : Entry) : Prop :=
  match e with
  | Normal d => Z.of_nat (length d) < 2 ^ 32
  | StopSignEntry ss => in_u32 (ss_config_id ss) /\ list_fits in_u64 (ss_nodes ss) /\
      leader_fits (ss_skip_prepare_use_leader ss)
  end.

Definition paxos_msg_fits (m : PaxosMsg) : Prop :=
  match m with
  | PrepareReq => True
  | PrepareMsg p => in_u64 (prepare_ld p) /\ in_u64 (prepare_la p) /\
      ballot_fits (prepare_n p) /\ ballot_fits (prepare_n_accepted p)
  | PromiseMsg p => in_u64 (promise_ld p) /\ in_u64 (promise_la p) /\
      ballot_fits (promise_n p) /\ ballot_fits (promise_n_accepted p) /\
      list_fits entry_fits (promise_sfx p)
  | AcceptSyncMsg a => in_u64 (acc_sync_idx a) /\ ballot_fits (acc_sync_n a) /\
      list_fits entry_fits (acc_sync_entries a)
  | FirstAcceptMsg f => ballot_fits (first_n f) /\ list_fits entry_fits (first_entries f)
  | AcceptDecideMsg a => in_u64 (accdec_ld a) /\ ballot_fits (accdec_n a) /\
      list_fits entry_fits (accdec_entries a)
  | AcceptedMsg a => ballot_fits (accepted_n a) /\ in_u64 (accepted_la a)
  | DecideMsg d => ballot_fits (decide_n d) /\ in_u64 (decide_ld d)
  | ProposalForward l => list_fits entry_fits l
  end.

Definition message_fits (m : Message) : Prop :=
  in_u64 (msg_from m) /\ in_u64 (msg_to m) /\ paxos_msg_fits (msg m).

Definition reconfiguration_fits (m : ReconfigurationMsg) : Prop :=
  match m with
  | Init r => in_u32 (ri_config_id r) /\ in_u64 (ri_from r) /\
      in_u32 (meta_config_id (ri_seq_metadata r)) /\ in_u64 (meta_len (ri_seq_metadata r)) /\
      list_fits in_u64 (continued_nodes (ri_nodes r)) /\
      list_fits in_u64 (new_nodes (ri_nodes r)) /\ leader_fits (ri_skip_prepare_use_leader r)
  | SegmentRequestMsg sr => in_u32 (sr_config_id sr) /\ in_u64 (seg_from (sr_idx sr)) /\
      in_u64 (seg_to (sr_idx sr)) /\ in_u64 (sr_requestor_pid sr)
  | SegmentTransferMsg st => in_u32 (st_config_id st) /\
      in_u64 (get_from_idx (st_segment st)) /\ in_u64 (get_to_idx (st_segment st)) /\
      in_u32 (meta_config_id (st_metadata st)) /\ in_u64 (meta_len (st_metadata st)) /\
      list_fits entry_fits (seg_entries (st_segment st))
  end.

(** ** Round trips *)

(** Ends a sequence of reads at the constructor call that rebuilds the value. *)
Ltac rebuild_eq :=
  rewrite ?leader_with_spec, ?stopsign_with_spec, ?prepare_with_spec, ?promise_with_spec,
    ?accept_sync_with_spec, ?first_accept_with_spec, ?accept_decide_with_spec,
    ?accepted_with_spec, ?decide_with_spec.
Ltac rebuild := apply decodes_ret_eq; rebuild_eq; try done.

Lemma decodes_ballot b : ballot_fits b -> decodes deserialise_ballot (serialise_ballot b) b.
Proof.
  intros [? ?]. unfold deserialise_ballot, serialise_ballot. repeat wire_step.
  apply decodes_ret_eq. by destruct b.
Qed.

Lemma decodes_numbers l :
  list_fits in_u64 l -> decodes (read_list read_u64) (write_list put_u64 l) l.
Proof.
  intros [Hl Hf]. apply decodes_list; [done|]. eapply Forall_impl; [exact Hf|].
  intros z. apply decodes_u64.
Qed.

Hint Resolve decodes_ballot decodes_numbers : wire.

Lemma decodes_optional_leader o :
  leader_fits o -> decodes deserialise_leader (serialise_leader o) o.
Proof.
  unfold deserialise_leader. destruct o as [l|]; simpl.
  - intros (? & ?). wire_step. simpl. repeat wire_step. rebuild.
  - intros _. wire_step. simpl. rebuild.
Qed.

Hint Resolve decodes_optional_leader : wire.

Lemma decodes_entry e : entry_fits e -> decodes deserialise_entry (serialise_entry e) e.
Proof.
  unfold deserialise_entry. destruct e as [d|ss]; simpl; intros He.
  - wire_step. simpl. repeat wire_step.
  - destruct He as (? & ? & ?). wire_step. simpl. repeat wire_step. rebuild.
Qed.

Lemma decodes_entries l :
  list_fits entry_fits l -> decodes deserialise_entries (serialise_entries l) l.
Proof.
  intros [Hl Hf]. apply decodes_list; [done|]. eapply Forall_impl; [exact Hf|].
  intros e. apply decodes_entry.
Qed.

Hint Resolve decodes_entries : wire.

Lemma decodes_message m :
  message_fits m -> decodes deserialise_message (serialise_message m) m.
Proof.
  destruct m as [f t m]. intros (Hf & Ht & Hm). simpl in *.
  unfold deserialise_message, serialise_message. simpl.
  do 2 wire_step.
  assert (forall m', m' = m -> message_with f t m' = mkMessage f t m) as Hwith
    by (intros m' ->; apply (message_with_spec (mkMessage f t m))).
  destruct m; simpl in *; destruct_and?; wire_step; simpl; repeat wire_step;
    apply decodes_ret_eq, Hwith; by rebuild_eq.
Qed.

Lemma decodes_reconfiguration m :
  reconfiguration_fits m ->
  decodes deserialise_reconfiguration (serialise_reconfiguration m) m.
Proof.
  unfold deserialise_reconfiguration.
  destruct m as [r|sr|st]; simpl; intros Hm; destruct_and?; wire_step; simpl.
  - repeat wire_step. apply decodes_ret_eq. by destruct r as [? [] [] ? ?].
  - repeat wire_step. apply decodes_ret_eq. by destruct sr as [? [] ?].
  - wire_step. eapply (decodes_bind _ _ _ _ (if st_succeeded st then 1 else 0)).
    { apply decodes_u8. destruct (st_succeeded st); lia. }
    repeat wire_step. apply decodes_ret_eq. destruct st as [? [] [] [[] ?]]; simpl; done.
Qed.

(** C39: every Omni-Paxos message whose fields fit the wire is read back exactly,
    and the bytes after it are left in the buffer. *)
Theorem paxos_roundtrip (m : Message) (rest : bytes) :
  message_fits m -> deserialise_message (serialise_message m ++ rest) = Ok m rest.
Proof. intros Hm. by apply decodes_message. Qed.

(** The same for the messages of the reconfiguration protocol. *)
Theorem reconfiguration_roundtrip (m : ReconfigurationMsg) (rest : bytes) :
  reconfiguration_fits m ->
  deserialise_reconfiguration (serialise_reconfiguration m ++ rest) = Ok m rest.
Proof. intros Hm. by apply decodes_reconfiguration. Qed.
End serialisers.

Definition example_entries : list Entry :=
  [Normal [x01; x02];
   StopSignEntry (mkStopSign 2 [1; 2; 3] (Some (mkLeader 1 (Ballot.with_ 4 1))))].

Definition example_message : Message :=
  mkMessage 1 2 (PromiseMsg (mkPromise (Ballot.with_ 3 1) (Ballot.with_ 2 2) example_entries 5 6)).

Definition example_transfer : ReconfigurationMsg :=
  SegmentTransferMsg (mkSegmentTransfer 1 true (mkSequenceMetaData 1 10)
    (mkSequenceSegment (mkSegmentIndex 0 2) example_entries)).

Lemma paxos_roundtrip_witness :
  deserialise_message (H := BigEndian.big_endian) (H0 := plain)
    (serialise_message (H := BigEndian.big_endian) example_message ++ [x0a]) =
    Ok example_message [x0a].
Proof.
  apply (paxos_roundtrip (H := BigEndian.big_endian) (H0 := plain) example_message [x0a]).
  repeat (constructor || (vm_compute; congruence)).
Defined.

Lemma reconfiguration_roundtrip_witness :
  deserialise_reconfiguration (H := BigEndian.big_endian) (H0 := plain)
    (serialise_reconfiguration (H := BigEndian.big_endian) example_transfer ++ [x0a]) =
    Ok example_transfer [x0a].
Proof.
  apply (reconfiguration_roundtrip (H := BigEndian.big_endian) (H0 := plain)
    example_transfer [x0a]).
  repeat (constructor || (vm_compute; congruence)).
Defined.

End PaxosWire.
