(* ===== verification/MsgWire.v ===== *)
(** The remaining messages of [messages.rs]: the heartbeats of the elections, the
    client protocol, the stop and partitioning messages, with their wire formats;
    and the choice of a new configuration. *)

From Stdlib Require Import Strings.Byte.
From S2P Require Import Prelude MpMessages Wire Election.

Open Scope dec_scope.

Module MsgWire.

(** ** Data *)

(** [ballot_leader_election::HeartbeatMsg]. *)
Inductive BleHeartbeat :=
| BleRequest (round : Z)
| BleReply (round : Z) (ballot : Ballot.t) (candidate : bool).

(** [mp_leader_election::HeartbeatMsg]. *)
Inductive MpHeartbeat :=
| MpRequest (round : Z)
| MpReply (round : Z) (ballot current_leader : Ballot.t).

Inductive VRMsg :=
| VrStartViewChange (b : Ballot.t) (from : Z)
| VrDoViewChange (b : Ballot.t) (from : Z).

Inductive ReconfigurationPolicy := ReplaceLeader | ReplaceFollower.

Record ReconfigurationProposal := mkReconfigurationProposal {
  rp_policy : ReconfigurationPolicy;
  rp_new_nodes : list Z }.

Record ReconfigurationResp := mkReconfigurationResp {
  rr_latest_leader : Z;
  rr_leader_round : Z;
  rr_current_configuration : list Z }.

Inductive AtomicBroadcastMsg :=
| ABProposal (p : Proposal)
| ABReconfigurationProposal (rp : ReconfigurationProposal)
| ABProposalResp (pr : ProposalResp)
| ABReconfigurationResp (rr : ReconfigurationResp)
| ABLeader (pid round : Z).

Inductive StopMsg := StopPeer (pid : Z) | StopClient.

Inductive PartitioningExpMsg :=
| DisconnectPeers (peers : list Z) (delay : bool) (lagging_peer : option Z)
| RecoverPeers.

Definition HB_REQ_ID : Z := 1.
Definition HB_REP_ID : Z := 2.
Definition START_VIEWCHANGE_ID : Z := 1.
Definition DO_VIEWCHANGE_ID : Z := 2.
Definition PROPOSAL_ID : Z := 1.
Definition PROPOSALRESP_ID : Z := 2.
Definition LEADER_ID : Z := 3.
Definition RECONFIGPROP_ID : Z := 4.
Definition RECONFIGRESP_ID : Z := 5.
Definition REPLACELEADER_ID : Z := 1.
Definition REPLACEFOLLOWER_ID : Z := 2.
Definition PEER_STOP_ID : Z := 1.
Definition CLIENT_STOP_ID : Z := 2.
Definition DISCONNECT_ID : Z := 1.
Definition RECOVER_ID : Z := 2.

Section serialisers.
Context `{BufOps}.

(** ** Elections *)

Definition write_ballot (b : Ballot.t) : bytes := put_u32 (Ballot.n b) ++ put_u64 (Ballot.pid b).
Definition read_ballot : Dec Ballot.t :=
  n <- read_u32;; pid <- read_u64;; dec_ret (Ballot.with_ n pid).

Definition serialise_ble (m : BleHeartbeat) : bytes :=
  match m with
  | BleRequest round => put_u8 HB_REQ_ID ++ put_u32 round
  | BleReply round ballot candidate =>
      put_u8 HB_REP_ID ++ put_u32 round ++ write_ballot ballot ++
      put_u8 (if candidate then 1 else 0)
  end.

Definition deserialise_ble : Dec BleHeartbeat :=
  tag <- read_u8;;
  if tag =? HB_REQ_ID then round <- read_u32;; dec_ret (BleRequest round)
  else if tag =? HB_REP_ID then
    round <- read_u32;;
    ballot <- read_ballot;;
    candidate <- read_u8;;
    dec_ret (BleReply round ballot (if candidate <? 1 then false else true))
  else dec_err.

Definition serialise_mp (m : MpHeartbeat) : bytes :=
  match m with
  | MpRequest round => put_u8 HB_REQ_ID ++ put_u32 round
  | MpReply round ballot current_leader =>
      put_u8 HB_REP_ID ++ put_u32 round ++ write_ballot ballot ++ write_ballot current_leader
  end.

Definition deserialise_mp : Dec MpHeartbeat :=
  tag <- read_u8;;
  if tag =? HB_REQ_ID then round <- read_u32;; dec_ret (MpRequest round)
  else if tag =? HB_REP_ID then
    round <- read_u32;;
    ballot <- read_ballot;;
    current_leader <- read_ballot;;
    dec_ret (MpReply round ballot current_leader)
  else dec_err.

Definition serialise_vr (m : VRMsg) : bytes :=
  match m with
  | VrStartViewChange b from => put_u8 START_VIEWCHANGE_ID ++ write_ballot b ++ put_u64 from
  | VrDoViewChange b from => put_u8 DO_VIEWCHANGE_ID ++ write_ballot b ++ put_u64 from
  end.

Definition deserialise_vr : Dec VRMsg :=
  tag <- read_u8;;
  if tag =? START_VIEWCHANGE_ID then
    b <- read_ballot;; from <- read_u64;; dec_ret (VrStartViewChange b from)
  else if tag =? DO_VIEWCHANGE_ID then
    b <- read_ballot;; from <- read_u64;; dec_ret (VrDoViewChange b from)
  else dec_err.

(** ** Clients *)

Definition serialise_policy (p : ReconfigurationPolicy) : bytes :=
  put_u8 (match p with
          | ReplaceFollower => REPLACEFOLLOWER_ID
          | ReplaceLeader => REPLACELEADER_ID
          end).

Definition deserialise_policy : Dec ReconfigurationPolicy :=
  tag <- read_u8;;
  if tag =? REPLACEFOLLOWER_ID then dec_ret ReplaceFollower
  else if tag =? REPLACELEADER_ID then dec_ret ReplaceLeader
  else dec_err.

Definition serialise_ab (m : AtomicBroadcastMsg) : bytes :=
  match m with
  | ABProposal p => put_u8 PROPOSAL_ID ++ write_data (proposal_data p)
  | ABReconfigurationProposal rp =>
      put_u8 RECONFIGPROP_ID ++ serialise_policy (rp_policy rp) ++
      write_list put_u64 (rp_new_nodes rp)
  | ABProposalResp pr =>
      put_u8 PROPOSALRESP_ID ++ put_u64 (resp_latest_leader pr) ++
      put_u64 (resp_leader_round pr) ++ write_data (resp_data pr)
  | ABReconfigurationResp rr =>
      put_u8 RECONFIGRESP_ID ++ put_u64 (rr_latest_leader rr) ++
      put_u64 (rr_leader_round rr) ++ write_list put_u64 (rr_current_configuration rr)
  | ABLeader pid round => put_u8 LEADER_ID ++ put_u64 pid ++ put_u64 round
  end.

Definition deserialise_ab : Dec AtomicBroadcastMsg :=
  tag <- read_u8;;
  if tag =? PROPOSAL_ID then data <- read_data;; dec_ret (ABProposal (mkProposal data))
  else if tag =? RECONFIGPROP_ID then
    policy <- deserialise_policy;;
    new_nodes <- read_list read_u64;;
    dec_ret (ABReconfigurationProposal (mkReconfigurationProposal policy new_nodes))
  else if tag =? PROPOSALRESP_ID then
    latest_leader <- read_u64;;
    leader_round <- read_u64;;
    data <- read_data;;
    dec_ret (ABProposalResp (mkProposalResp data latest_leader leader_round))
  else if tag =? LEADER_ID then
    pid <- read_u64;; round <- read_u64;; dec_ret (ABLeader pid round)
  else if tag =? RECONFIGRESP_ID then
    latest_leader <- read_u64;;
    leader_round <- read_u64;;
    current_config <- read_list read_u64;;
    dec_ret (ABReconfigurationResp
      (mkReconfigurationResp latest_leader leader_round current_config))
  else dec_err.

(** ** Stop and partitioning *)

Definition serialise_stop (m : StopMsg) : bytes :=
  match m with
  | StopPeer pid => put_u8 PEER_STOP_ID ++ put_u64 pid
  | StopClient => put_u8 CLIENT_STOP_ID
  end.

Definition deserialise_stop : Dec StopMsg :=
  tag <- read_u8;;
  if tag =? PEER_STOP_ID then pid <- read_u64;; dec_ret (StopPeer pid)
  else if tag =? CLIENT_STOP_ID then dec_ret StopClient
  else dec_err.

(** A missing lagging peer is written as pid 0. *)
Definition serialise_partitioning (m : PartitioningExpMsg) : bytes :=
  match m with
  | DisconnectPeers peers delay lagging_peer =>
      put_u8 DISCONNECT_ID ++ put_u8 (if delay then 1 else 0) ++ write_list put_u64 peers ++
      put_u64 (match lagging_peer with Some lp => lp | None => 0 end)
  | RecoverPeers => put_u8 RECOVER_ID
  end.

Definition deserialise_partitioning : Dec PartitioningExpMsg :=
  tag <- read_u8;;
  if tag =? DISCONNECT_ID then
    delay <- read_u8;;
    peers <- read_list read_u64;;
    dp <- read_u64;;
    dec_ret (DisconnectPeers peers (if 0 <? delay then true else false)
               (if 0 <? dp then Some dp else None))
  else if tag =? RECOVER_ID then dec_ret RecoverPeers
  else dec_err.

(** ** Values that fit the wire *)

Definition ballot_fits (b : Ballot.t) : Prop := in_u32 (Ballot.n b) /\ in_u64 (Ballot.pid b).
Definition numbers_fit (l : list Z) : Prop :=
  Z.of_nat (length l) < 2 ^ 32 /\ Forall in_u64 l.

Definition ble_fits (m : BleHeartbeat) : Prop :=
  match m with
  | BleRequest r => in_u32 r
  | BleReply r b _ => in_u32 r /\ ballot_fits b
  end.

Definition mp_fits (m : MpHeartbeat) : Prop :=
  match m with
  | MpRequest r => in_u32 r
  | MpReply r b l => in_u32 r /\ ballot_fits b /\ ballot_fits l
  end.

Definition vr_fits (m : VRMsg) : Prop :=
  match m with
  | VrStartViewChange b from | VrDoViewChange b from => ballot_fits b /\ in_u64 from
  end.

Definition ab_fits (m : AtomicBroadcastMsg) : Prop :=
  match m with
  | ABProposal p => Z.of_nat (length (proposal_data p)) < 2 ^ 32
  | ABReconfigurationProposal rp => numbers_fit (rp_new_nodes rp)
  | ABProposalResp pr => in_u64 (resp_latest_leader pr) /\ in_u64 (resp_leader_round pr) /\
      Z.of_nat (length (resp_data pr)) < 2 ^ 32
  | ABReconfigurationResp rr => in_u64 (rr_latest_leader rr) /\ in_u64 (rr_leader_round rr) /\
      numbers_fit (rr_current_configuration rr)
  | ABLeader pid round => in_u64 pid /\ in_u64 round
  end.

Definition stop_fits (m : StopMsg) : Prop :=
  match m with StopPeer pid => in_u64 pid | StopClient => True end.

Definition partitioning_fits (m : PartitioningExpMsg) : Prop :=
  match m with
  | DisconnectPeers peers _ lp => numbers_fit peers /\
      match lp with Some p => in_u64 p /\ p <> 0 | None => True end
  | RecoverPeers => True
  end.

(** ** Round trips *)

Lemma decodes_read_ballot b : ballot_fits b -> decodes read_ballot (write_ballot b) b.
Proof.
  intros [? ?]. unfold read_ballot, write_ballot. repeat wire_step.
  apply decodes_ret_eq. by destruct b.
Qed.

Lemma decodes_pids l :
  numbers_fit l -> decodes (read_list read_u64) (write_list put_u64 l) l.
Proof.
  intros [Hl Hf]. apply decodes_list; [done|]. eapply Forall_impl; [exact Hf|].
  intros z. apply decodes_u64.
Qed.

Hint Resolve decodes_read_ballot decodes_pids : wire.

Lemma decodes_flag (c : bool) : decodes read_u8 (put_u8 (if c then 1 else 0)) (if c then 1 else 0).
Proof. apply decodes_u8. by destruct c. Qed.

Hint Resolve decodes_flag : wire.

Lemma decodes_ble m : ble_fits m -> decodes deserialise_ble (serialise_ble m) m.
Proof.
  unfold deserialise_ble. destruct m as [r|r b c]; simpl; intros Hm; destruct_and?;
    wire_step; simpl; repeat wire_step. apply decodes_ret_eq. by destruct c.
Qed.

Lemma decodes_mp m : mp_fits m -> decodes deserialise_mp (serialise_mp m) m.
Proof.
  unfold deserialise_mp. destruct m as [r|r b l]; simpl; intros Hm; destruct_and?;
    wire_step; simpl; repeat wire_step.
Qed.

Lemma decodes_vr m : vr_fits m -> decodes deserialise_vr (serialise_vr m) m.
Proof.
  unfold deserialise_vr. destruct m as [b f|b f]; simpl; intros Hm; destruct_and?;
    wire_step; simpl; repeat wire_step.
Qed.

Lemma decodes_policy p : decodes deserialise_policy (serialise_policy p) p.
Proof.
  unfold deserialise_policy, serialise_policy. destruct p; wire_step; simpl; apply decodes_ret.
Qed.

Hint Resolve decodes_policy : wire.

Lemma decodes_ab m : ab_fits m -> decodes deserialise_ab (serialise_ab m) m.
Proof.
  unfold deserialise_ab. destruct m as [[d]|[p l]|[d l r]|[l r c]|p r]; simpl; intros Hm;
    destruct_and?; wire_step; simpl; repeat wire_step.
Qed.

Lemma decodes_stop m : stop_fits m -> decodes deserialise_stop (serialise_stop m) m.
Proof.
  unfold deserialise_stop. destruct m as [p|]; simpl; intros Hm;
    wire_step; simpl; repeat wire_step.
Qed.

Lemma decodes_partitioning m :
  partitioning_fits m -> decodes deserialise_partitioning (serialise_partitioning m) m.
Proof.
  unfold deserialise_partitioning. destruct m as [ps d lp|]; simpl; intros Hm;
    [|wire_step; simpl; repeat wire_step].
  destruct Hm as [Hps Hlp]. wire_step. simpl.
  assert (in_u64 (match lp with Some p => p | None => 0 end)) as Hdp.
  { destruct lp as [p|]; [by destruct Hlp|]. unfold in_u64. lia. }
  repeat wire_step. apply decodes_ret_eq. f_equal; [by destruct d|].
  destruct lp as [p|]; [|done]. destruct Hlp as [[? ?] ?].
  by destruct (Z.ltb_spec 0 p); [|lia].
Qed.

(** C40: every message of the elections, of the clients, of the stop protocol and
    of the partitioning experiment whose fields fit the wire is read back exactly,
    and the bytes after it are left in the buffer.  For a lagging peer this needs a
    pid other than 0. *)
Theorem messages_roundtrip (rest : bytes) :
  (forall m, ble_fits m -> deserialise_ble (serialise_ble m ++ rest) = Ok m rest) /\
  (forall m, mp_fits m -> deserialise_mp (serialise_mp m ++ rest) = Ok m rest) /\
  (forall m, vr_fits m -> deserialise_vr (serialise_vr m ++ rest) = Ok m rest) /\
  (forall m, ab_fits m -> deserialise_ab (serialise_ab m ++ rest) = Ok m rest) /\
  (forall m, stop_fits m -> deserialise_stop (serialise_stop m ++ rest) = Ok m rest) /\
  (forall m, partitioning_fits m ->
     deserialise_partitioning (serialise_partitioning m ++ rest) = Ok m rest).
Proof.
  split_and!; intros m Hm.
  - by apply decodes_ble.
  - by apply decodes_mp.
  - by apply decodes_vr.
  - by apply decodes_ab.
  - by apply decodes_stop.
  - by apply decodes_partitioning.
Qed.
End serialisers.

Lemma messages_roundtrip_witness :
  deserialise_ab (H := BigEndian.big_endian)
    (serialise_ab (H := BigEndian.big_endian)
       (ABReconfigurationProposal (mkReconfigurationProposal ReplaceLeader [4; 5])) ++ [x01]) =
    Ok (ABReconfigurationProposal (mkReconfigurationProposal ReplaceLeader [4; 5])) [x01].
Proof.
  apply (messages_roundtrip (H := BigEndian.big_endian) [x01]).
  repeat (constructor || (vm_compute; congruence)).
Defined.

(** ** The new configuration *)

(** [nodes.remove(rnd)] for every removal; [rnds] are the indices drawn with
    [gen_range(0, nodes.len())], which panics on an empty range. *)
Fixpoint remove_random (num_remove : nat) (rnds : list nat) (nodes : list Z)
    : option (list Z) :=
  match num_remove with
  | O => Some nodes
  | S num_remove =>
      match rnds with
      | rnd :: rnds =>
          if (rnd <? length nodes)%nat then remove_random num_remove rnds (delete rnd nodes)
          else None
      | [] => None
      end
  end.

(** [usize] subtraction wraps around below zero. *)
Definition usize_sub (a b : Z) : Z := (a - b) mod 2 ^ 64.

Definition get_new_configuration (rp : ReconfigurationProposal) (leader_pid : Z)
    (current_configuration : list Z) (rnds : list nat) : option (list Z) :=
  let nodes := filter (fun pid => pid <> leader_pid) current_configuration in
  let num_remove :=
    match rp_policy rp with
    | ReplaceFollower => Z.of_nat (length (rp_new_nodes rp))
    | ReplaceLeader => usize_sub (Z.of_nat (length (rp_new_nodes rp))) 1
    end in
  (* more removals than followers panic whatever is drawn *)
  if Z.of_nat (length nodes) <? num_remove then None
  else
    nodes ← remove_random (Z.to_nat num_remove) rnds nodes;
    let nodes := nodes ++ rp_new_nodes rp in
    Some (match rp_policy rp with
          | ReplaceFollower => nodes ++ [leader_pid]
          | ReplaceLeader => nodes
          end).

Lemma remove_random_spec k rnds nodes nodes' :
  remove_random k rnds nodes = Some nodes' ->
  length nodes = (length nodes' + k)%nat /\ (forall p, p ∈ nodes' -> p ∈ nodes) /\
  (NoDup nodes -> NoDup nodes').
Proof.
  revert rnds nodes. induction k as [|k IH]; intros rnds nodes Hr; simpl in Hr.
  - simplify_eq. split; [lia|done].
  - destruct rnds as [|rnd rnds]; [done|]. destruct (Nat.ltb_spec rnd (length nodes)); [|done].
    apply IH in Hr as (Hl & Hin & Hnd). split; [|split].
    + rewrite length_delete in Hl by by apply lookup_lt_is_Some_2. lia.
    + intros p Hp%Hin. eapply elem_of_sublist; [exact Hp|apply sublist_delete].
    + intros Hd. apply Hnd. eapply sublist_NoDup; [exact Hd|apply sublist_delete].
Qed.

Lemma length_without (l : list Z) p :
  NoDup l -> p ∈ l -> S (length (filter (fun q => q <> p) l)) = length l.
Proof.
  induction 1 as [|x l Hx Hd IH]; intros Hp; [by apply not_elem_of_nil in Hp|].
  rewrite filter_cons. case_decide as Hxp; simpl.
  - rewrite IH; [done|]. apply elem_of_cons in Hp as [->|]; done.
  - subst x. f_equal. clear -Hx. induction l as [|y l IH]; [done|].
    rewrite filter_cons. apply not_elem_of_cons in Hx as [Hne Hx].
    rewrite decide_True by done. simpl. by rewrite IH.
Qed.

(** A reconfiguration keeps the size of the configuration, contains all the new
    nodes, keeps the leader exactly when the policy replaces followers, has no
    other node that was not in the old configuration, and no duplicates, whichever
    followers are drawn for removal. *)
Theorem new_configuration (rp : ReconfigurationProposal) (leader : Z) (current : list Z)
    (rnds : list nat) (nodes : list Z) :
  NoDup current -> leader ∈ current -> NoDup (rp_new_nodes rp) ->
  (forall p, p ∈ rp_new_nodes rp -> p ∉ current) ->
  Z.of_nat (length current) < 2 ^ 64 -> Z.of_nat (length (rp_new_nodes rp)) < 2 ^ 64 ->
  get_new_configuration rp leader current rnds = Some nodes ->
  length nodes = length current /\ NoDup nodes /\
  (forall p, p ∈ rp_new_nodes rp -> p ∈ nodes) /\
  (forall p, p ∈ nodes -> p ∈ current \/ p ∈ rp_new_nodes rp) /\
  (leader ∈ nodes <-> rp_policy rp = ReplaceFollower).
Proof.
  intros Hnd Hleader Hnew Hdis Hsz Hsz' H. unfold get_new_configuration in H.
  pose proof (length_without current leader Hnd Hleader) as Hlen.
  set (followers := filter _ _) in *.
  destruct (Z.of_nat (length followers) <? _) eqn:Hle; [done|].
  apply bind_Some in H as (kept & Hr & [= <-]).
  apply remove_random_spec in Hr as (Hk & Hin & Hd). bool_to_prop.
  assert (forall p, p ∈ kept -> p ∈ current /\ p <> leader) as Hkept.
  { intros p Hp%Hin. by apply list_elem_of_filter in Hp as [? ?]. }
  assert (leader ∉ rp_new_nodes rp) as Hln by (intros Hl; by apply (Hdis leader)).
  assert (NoDup (kept ++ rp_new_nodes rp)) as Hnd2.
  { apply NoDup_app. split; [by apply Hd, NoDup_filter|]. split; [|done].
    intros p Hp Hp'. apply (Hdis p Hp'). by apply Hkept. }
  destruct (rp_policy rp).
  - assert (length (rp_new_nodes rp) <> 0)%nat as Hne.
    { intros Hz. rewrite Hz in Hle. unfold usize_sub in Hle.
      change ((Z.of_nat 0 - 1) mod 2 ^ 64) with (2 ^ 64 - 1) in Hle. lia. }
    unfold usize_sub in Hk, Hle. rewrite Z.mod_small in Hk, Hle by lia.
    split; [rewrite length_app; lia|]. split; [done|].
    split; [set_solver|]. split; [set_solver|]. split; [|done].
    intros [Hl|Hl]%elem_of_app; [by destruct (Hkept _ Hl)|done].
  - rewrite Nat2Z.id in Hk. split; [rewrite !length_app; simpl; lia|].
    split; [|split; [set_solver|split; [set_solver|split; [done|set_solver]]]].
    apply NoDup_app. split; [done|]. split; [|by apply NoDup_singleton].
    intros p [Hp|Hp]%elem_of_app ->%list_elem_of_singleton; [by destruct (Hkept _ Hp)|done].
Qed.

Lemma new_configuration_witness :
  exists nodes,
    get_new_configuration (mkReconfigurationProposal ReplaceLeader [4; 5]) 1 [1; 2; 3] [1%nat]
      = Some nodes /\ length nodes = 3%nat /\ NoDup nodes /\ 1 ∉ nodes.
Proof.
  destruct (get_new_configuration (mkReconfigurationProposal ReplaceLeader [4; 5]) 1 [1; 2; 3]
    [1%nat]) as [nodes|] eqn:H; [|vm_compute in H; discriminate H].
  exists nodes. split; [reflexivity|].
  destruct (new_configuration (mkReconfigurationProposal ReplaceLeader [4; 5]) 1 [1; 2; 3]
    [1%nat] nodes) as (Hl & Hd & _ & _ & Hlead).
  - by apply (bool_decide_unpack _), I.
  - by apply (bool_decide_unpack _), I.
  - by apply (bool_decide_unpack _), I.
  - intros p. simpl. rewrite !elem_of_cons. intros [->|[->|Hp]];
      [by apply (bool_decide_unpack _), I..|by apply not_elem_of_nil in Hp].
  - reflexivity.
  - reflexivity.
  - exact H.
  - split; [exact Hl|]. split; [exact Hd|]. intros Hin. by apply Hlead in Hin.
Defined.

End MsgWire.
