(* ===== verification/WireTyped.v ===== *)
(** Received messages are well formed.

    The round trips of the wire formats hold for values that fit the wire.  Here is the
    other direction: whatever bytes arrive, a message that a deserialiser returns fits, so
    every message that was received can be sent on and is read back as it was. *)

From Stdlib Require Import Strings.Byte.
From S2P Require Import Prelude MpMessages Wire Election MpWire PaxosWire MsgWire.

(** ** Values of a deserialiser *)

(** The reads of the [bytes] crate return values of their integer types, and as many bytes
    as were asked for. *)
Class BufRange (B : BufOps) := {
  get_u8_range b v rest : get_u8 b = Some (v, rest) -> 0 <= v < 2 ^ 8;
  get_u32_range b v rest : get_u32 b = Some (v, rest) -> in_u32 v;
  get_u64_range b v rest : get_u64 b = Some (v, rest) -> in_u64 v;
  copy_to_slice_length n b d rest : copy_to_slice n b = Some (d, rest) -> length d = n }.

(** Every value that [d] returns satisfies [P]. *)
Definition yields {A} (d : Dec A) (P : A -> Prop) : Prop :=
  forall b a rest, d b = Ok a rest -> P a.

Section yields.
Context `{BR : BufRange}.

Lemma yields_ret {A} (a : A) (P : A -> Prop) : P a -> yields (dec_ret a) P.
Proof. by intros Ha b a' rest [= <- _]. Qed.

Lemma yields_err {A} (P : A -> Prop) : yields dec_err P.
Proof. by intros b a rest. Qed.

Lemma yields_panic {A} (P : A -> Prop) : yields dec_panic P.
Proof. by intros b a rest. Qed.

Lemma yields_bind {A C} (d : Dec A) (k : A -> Dec C) P Q :
  yields d P -> (forall a, P a -> yields (k a) Q) -> yields (dec_bind d k) Q.
Proof.
  intros Hd Hk b c rest. unfold dec_bind.
  destruct (d b) as [a r| |] eqn:Ha; [|done..]. intros Hc. exact (Hk a (Hd _ _ _ Ha) _ _ _ Hc).
Qed.

Lemma yields_if {A} (c : bool) (d1 d2 : Dec A) P :
  yields d1 P -> yields d2 P -> yields (if c then d1 else d2) P.
Proof. by destruct c. Qed.

Lemma yields_impl {A} (d : Dec A) (P Q : A -> Prop) :
  yields d P -> (forall a, P a -> Q a) -> yields d Q.
Proof. intros Hd Hi b a rest Ha. exact (Hi a (Hd _ _ _ Ha)). Qed.

Lemma yields_u8 : yields read_u8 (fun v => 0 <= v < 2 ^ 8).
Proof.
  intros b a rest. unfold read_u8, lift. destruct (get_u8 b) as [[v r]|] eqn:E; [|done].
  intros [= <- <-]. by eapply get_u8_range.
Qed.

Lemma yields_u32 : yields read_u32 in_u32.
Proof.
  intros b a rest. unfold read_u32, lift. destruct (get_u32 b) as [[v r]|] eqn:E; [|done].
  intros [= <- <-]. by eapply get_u32_range.
Qed.

Lemma yields_u64 : yields read_u64 in_u64.
Proof.
  intros b a rest. unfold read_u64, lift. destruct (get_u64 b) as [[v r]|] eqn:E; [|done].
  intros [= <- <-]. by eapply get_u64_range.
Qed.

Lemma yields_data : yields read_data (fun d => Z.of_nat (length d) < 2 ^ 32).
Proof.
  eapply yields_bind; [apply yields_u32|]. intros len Hlen b d rest.
  unfold read_slice, lift. destruct (copy_to_slice _ b) as [[d' r]|] eqn:E; [|done].
  intros [= <- <-]. apply copy_to_slice_length in E. unfold in_u32 in Hlen. lia.
Qed.

Lemma yields_n {A} n (d : Dec A) P :
  yields d P -> yields (read_n n d) (fun l => length l = n /\ Forall P l).
Proof.
  intros Hd. induction n as [|n IH]; [by apply yields_ret|].
  eapply yields_bind; [exact Hd|]. intros a Ha. eapply yields_bind; [exact IH|].
  intros l [Hl Hf]. apply yields_ret. split; [simpl; lia|by constructor].
Qed.

Lemma yields_list {A} (d : Dec A) P :
  yields d P -> yields (read_list d) (fun l => Z.of_nat (length l) < 2 ^ 32 /\ Forall P l).
Proof.
  intros Hd. eapply yields_bind; [apply yields_u32|]. intros len Hlen.
  eapply yields_impl; [by apply yields_n|]. intros l [Hl Hf]. unfold in_u32 in Hlen.
  split; [lia|done].
Qed.
End yields.

Create HintDb typed.
#[export] Hint Resolve yields_err yields_panic yields_u8 yields_u32 yields_u64 yields_data
  yields_list : typed.

(** [typed] proves [yields] goals of a sequence of reads: it follows the reads and the
    branches and leaves the facts about the fields for the last value. *)
Ltac typed_step :=
  match goal with
  | |- yields (if _ then _ else _) _ => apply yields_if
  | |- yields (dec_bind _ _) _ =>
      eapply yields_bind; [solve [eauto with typed]|cbv beta; intros ? ?]
  | |- yields (dec_ret _) _ => apply yields_ret
  | |- yields _ _ => solve [eauto with typed]
  end.
Ltac typed :=
  repeat typed_step; simpl;
  try solve [auto | repeat match goal with H : _ /\ _ |- _ => destruct H end; by split_and!].

(** ** The constructors of the omnipaxos crate

    The laws of the constructor functions determine them. *)

Section constructors.
Context `{Omni.Constructors}.

Lemma leader_with_eq p b : Omni.leader_with p b = Omni.mkLeader p b.
Proof. exact (Omni.leader_with_spec (Omni.mkLeader p b)). Qed.

Lemma stopsign_with_eq i l o : Omni.stopsign_with i l o = Omni.mkStopSign i l o.
Proof. exact (Omni.stopsign_with_spec (Omni.mkStopSign i l o)). Qed.

Lemma prepare_with_eq n ld na la : Omni.prepare_with n ld na la = Omni.mkPrepare n ld na la.
Proof. exact (Omni.prepare_with_spec (Omni.mkPrepare n ld na la)). Qed.

Lemma promise_with_eq n na sfx ld la : Omni.promise_with n na sfx ld la = Omni.mkPromise n na sfx ld la.
Proof. exact (Omni.promise_with_spec (Omni.mkPromise n na sfx ld la)). Qed.

Lemma accept_sync_with_eq n l i : Omni.accept_sync_with n l i = Omni.mkAcceptSync n l i.
Proof. exact (Omni.accept_sync_with_spec (Omni.mkAcceptSync n l i)). Qed.

Lemma first_accept_with_eq n l : Omni.first_accept_with n l = Omni.mkFirstAccept n l.
Proof. exact (Omni.first_accept_with_spec (Omni.mkFirstAccept n l)). Qed.

Lemma accept_decide_with_eq n ld l : Omni.accept_decide_with n ld l = Omni.mkAcceptDecide n ld l.
Proof. exact (Omni.accept_decide_with_spec (Omni.mkAcceptDecide n ld l)). Qed.

Lemma accepted_with_eq n la : Omni.accepted_with n la = Omni.mkAccepted n la.
Proof. exact (Omni.accepted_with_spec (Omni.mkAccepted n la)). Qed.

Lemma decide_with_eq ld n : Omni.decide_with ld n = Omni.mkDecide ld n.
Proof. exact (Omni.decide_with_spec (Omni.mkDecide ld n)). Qed.

Lemma message_with_eq f t m : Omni.message_with f t m = Omni.mkMessage f t m.
Proof. exact (Omni.message_with_spec (Omni.mkMessage f t m)). Qed.

End constructors.

(** ** The messages of the programs *)

Section messages.
Context `{BR : BufRange} `{Omni.Constructors}.

(** *** Multi-Paxos *)

Lemma typed_command :
  yields MpWire.deserialise_command_batch_or_noop MpWire.command_fits.
Proof. unfold MpWire.deserialise_command_batch_or_noop. typed. Qed.
#[local] Hint Resolve typed_command : typed.

Lemma typed_slot_info : yields MpWire.deserialise_phase1b_slot_info MpWire.slot_info_fits.
Proof. unfold MpWire.deserialise_phase1b_slot_info. typed. Qed.
#[local] Hint Resolve typed_slot_info : typed.

Lemma typed_proposal :
  yields MpWire.read_proposal (fun p => MpWire.len_fits (proposal_data p)).
Proof. unfold MpWire.read_proposal. typed. Qed.
#[local] Hint Resolve typed_proposal : typed.

Lemma typed_leader : yields MpWire.deserialise_leader MpWire.leader_fits.
Proof. unfold MpWire.deserialise_leader. typed. Qed.

Lemma typed_acceptor : yields MpWire.deserialise_acceptor MpWire.acceptor_fits.
Proof. unfold MpWire.deserialise_acceptor. typed. Qed.

Lemma typed_replica : yields MpWire.deserialise_replica MpWire.replica_fits.
Proof. unfold MpWire.deserialise_replica. typed. Qed.

Lemma typed_batcher : yields MpWire.deserialise_batcher MpWire.batcher_fits.
Proof. unfold MpWire.deserialise_batcher. typed. Qed.

Lemma typed_proxy_leader : yields MpWire.deserialise_proxy_leader MpWire.proxy_leader_fits.
Proof. unfold MpWire.deserialise_proxy_leader. typed. Qed.

(** *** Omni-Paxos *)

Lemma typed_ballot : yields PaxosWire.deserialise_ballot PaxosWire.ballot_fits.
Proof. unfold PaxosWire.deserialise_ballot. typed. Qed.
#[local] Hint Resolve typed_ballot : typed.

Lemma typed_optional_leader : yields PaxosWire.deserialise_leader PaxosWire.leader_fits.
Proof.
  unfold PaxosWire.deserialise_leader. typed.
  rewrite leader_with_eq. by split.
Qed.
#[local] Hint Resolve typed_optional_leader : typed.

Lemma typed_entry : yields PaxosWire.deserialise_entry PaxosWire.entry_fits.
Proof.
  unfold PaxosWire.deserialise_entry. typed.
  rewrite stopsign_with_eq. by split_and!.
Qed.
#[local] Hint Resolve typed_entry : typed.

Lemma typed_entries :
  yields PaxosWire.deserialise_entries (PaxosWire.list_fits PaxosWire.entry_fits).
Proof. unfold PaxosWire.deserialise_entries. typed. Qed.
#[local] Hint Resolve typed_entries : typed.

Lemma typed_message : yields PaxosWire.deserialise_message PaxosWire.message_fits.
Proof.
  unfold PaxosWire.deserialise_message. typed;
    rewrite message_with_eq, ?prepare_with_eq, ?promise_with_eq, ?accept_sync_with_eq,
      ?first_accept_with_eq, ?accept_decide_with_eq, ?accepted_with_eq, ?decide_with_eq;
    by split_and!.
Qed.

Lemma typed_reconfiguration :
  yields PaxosWire.deserialise_reconfiguration PaxosWire.reconfiguration_fits.
Proof. unfold PaxosWire.deserialise_reconfiguration. typed. Qed.

(** *** Elections, clients, stop and partitioning *)

Lemma typed_read_ballot : yields MsgWire.read_ballot MsgWire.ballot_fits.
Proof. unfold MsgWire.read_ballot. typed. Qed.
#[local] Hint Resolve typed_read_ballot : typed.

Lemma typed_ble : yields MsgWire.deserialise_ble MsgWire.ble_fits.
Proof. unfold MsgWire.deserialise_ble. typed. Qed.

Lemma typed_mp : yields MsgWire.deserialise_mp MsgWire.mp_fits.
Proof. unfold MsgWire.deserialise_mp. typed. Qed.

Lemma typed_vr : yields MsgWire.deserialise_vr MsgWire.vr_fits.
Proof. unfold MsgWire.deserialise_vr. typed. Qed.

Lemma typed_policy : yields MsgWire.deserialise_policy (fun _ => True).
Proof. unfold MsgWire.deserialise_policy. typed. Qed.
#[local] Hint Resolve typed_policy : typed.

Lemma typed_ab : yields MsgWire.deserialise_ab MsgWire.ab_fits.
Proof. unfold MsgWire.deserialise_ab. typed. Qed.

Lemma typed_stop : yields MsgWire.deserialise_stop MsgWire.stop_fits.
Proof. unfold MsgWire.deserialise_stop. typed. Qed.

Lemma typed_partitioning : yields MsgWire.deserialise_partitioning MsgWire.partitioning_fits.
Proof.
  unfold MsgWire.deserialise_partitioning. typed. split; [done|].
  destruct (Z.ltb_spec 0 a2); [|done]. split; [done|lia].
Qed.

End messages.

(** ** The big-endian buffer *)

Lemma of_byte_range x : 0 <= BigEndian.of_byte x < 256.
Proof.
  unfold BigEndian.of_byte. pose proof (Byte.to_N_bounded x). lia.
Qed.

Lemma get_range k acc b v rest :
  0 <= acc -> BigEndian.get k acc b = Some (v, rest) ->
  0 <= v < (acc + 1) * 256 ^ Z.of_nat k.
Proof.
  revert acc b. induction k as [|k IH]; intros acc b Hacc Hg.
  - destruct b; injection Hg as <- _; simpl; lia.
  - destruct b as [|x b]; [done|]. pose proof (of_byte_range x).
    simpl in Hg. apply IH in Hg; [|lia]. rewrite Nat2Z.inj_succ, Z.pow_succ_r by lia. nia.
Qed.

#[export] Instance big_endian_range : BufRange BigEndian.big_endian.
Proof.
  split; simpl.
  - intros b v rest Hg%(get_range 1); [|lia]. lia.
  - intros b v rest Hg%(get_range 4); [|lia]. unfold in_u32. lia.
  - intros b v rest Hg%(get_range 8); [|lia]. unfold in_u64. lia.
  - intros n b d rest. unfold BigEndian.copy. destruct (Nat.leb_spec n (length b)); [|done].
    intros [= <- _]. rewrite length_take. lia.
Qed.

