(* ===== verification/PaxosStorage.v ===== *)
(** The storage of an Omni-Paxos replica ([storage.rs], module [paxos]).

    [MemorySequence] and [MemoryState] implement the two storage traits the
    replica is written against.  The contract of a sequence is the class
    [Sequence]: its operations, with their behaviour stated on the list of
    entries it holds; the components that keep sequences are verified against
    the class, and [MemorySequence] is an instance. *)

From Stdlib Require Import Strings.Byte.
From S2P Require Import Prelude Wire Election PaxosWire.

Import Omni.

(** ** The contract of a sequence

    [get_entries] panics ([None]) unless [from <= to <= len]; [get_suffix] of an
    index beyond the end is empty; [append_on_prefix] cuts the sequence at an
    index before it appends. *)

Definition entries_between (l : list Entry) (from to : Z) : option (list Entry) :=
  if (0 <=? from) && (from <=? to) && (to <=? Z.of_nat (length l))
  then Some (take (Z.to_nat (to - from)) (drop (Z.to_nat from) l)) else None.

Definition is_stopsign (e : Entry) : bool :=
  match e with StopSignEntry _ => true | Normal _ => false end.

Class Sequence (S : Type) := {
  entries_of : S -> list Entry;
  seq_new : S;
  new_with_sequence : list Entry -> S;
  append_entry : S -> Entry -> S;
  append_sequence : S -> list Entry -> S;
  append_on_prefix : S -> Z -> list Entry -> S;
  get_entries : S -> Z -> Z -> option (list Entry);
  get_suffix : S -> Z -> list Entry;
  get_sequence_len : S -> Z;
  seq_stopped : S -> bool;
  seq_new_spec : entries_of seq_new = [];
  new_with_sequence_spec l : entries_of (new_with_sequence l) = l;
  append_entry_spec s e : entries_of (append_entry s e) = entries_of s ++ [e];
  append_sequence_spec s l : entries_of (append_sequence s l) = entries_of s ++ l;
  append_on_prefix_spec s from l :
    entries_of (append_on_prefix s from l) = take (Z.to_nat from) (entries_of s) ++ l;
  get_entries_spec s from to : get_entries s from to = entries_between (entries_of s) from to;
  get_suffix_spec s from : get_suffix s from = drop (Z.to_nat from) (entries_of s);
  get_sequence_len_spec s : get_sequence_len s = Z.of_nat (length (entries_of s));
  seq_stopped_spec s :
    seq_stopped s = match last (entries_of s) with Some e => is_stopsign e | None => false end }.

(** ** [MemorySequence] *)

Module MemorySequence.

Record t := mk { sequence : list Entry }.

Definition new : t := mk [].
Definition new_with_sequence (seq : list Entry) : t := mk seq.
Definition append_entry (s : t) (entry : Entry) : t := mk (sequence s ++ [entry]).
Definition append_sequence (s : t) (seq : list Entry) : t := mk (sequence s ++ seq).

(** [Vec::truncate] keeps a vector that is already shorter. *)
Definition truncate (l : list Entry) (len : Z) : list Entry :=
  if len <? Z.of_nat (length l) then take (Z.to_nat len) l else l.

Definition append_on_prefix (s : t) (from_idx : Z) (seq : list Entry) : t :=
  mk (truncate (sequence s) from_idx ++ seq).

(** [Vec::get] of the range [from..to]; [None] is the [panic!]. *)
Definition get_entries (s : t) (from to : Z) : option (list Entry) :=
  if to <? from then None
  else if (from <? 0) || (Z.of_nat (length (sequence s)) <? to) then None
  else Some (take (Z.to_nat to - Z.to_nat from) (drop (Z.to_nat from) (sequence s))).

(** [Vec::get] of the range [from..]. *)
Definition get_suffix (s : t) (from : Z) : list Entry :=
  if Z.of_nat (length (sequence s)) <? from then [] else drop (Z.to_nat from) (sequence s).

Definition get_sequence_len (s : t) : Z := Z.of_nat (length (sequence s)).

Definition stopped (s : t) : bool :=
  match last (sequence s) with
  | Some entry => is_stopsign entry
  | None => false
  end.

Lemma truncate_take l len : truncate l len = take (Z.to_nat len) l.
Proof.
  unfold truncate. destruct (Z.ltb_spec len (Z.of_nat (length l))); [done|].
  by rewrite take_ge by lia.
Qed.

Lemma get_entries_between s from to :
  get_entries s from to = entries_between (sequence s) from to.
Proof.
  unfold get_entries, entries_between.
  destruct (Z.ltb_spec to from), (Z.leb_spec from to), (Z.ltb_spec from 0), (Z.leb_spec 0 from),
    (Z.ltb_spec (Z.of_nat (length (sequence s))) to),
    (Z.leb_spec to (Z.of_nat (length (sequence s)))); simpl; try lia; try done.
  do 2 f_equal. lia.
Qed.

Lemma get_suffix_drop s from : get_suffix s from = drop (Z.to_nat from) (sequence s).
Proof.
  unfold get_suffix. destruct (Z.ltb_spec (Z.of_nat (length (sequence s))) from); [|done].
  by rewrite drop_ge by lia.
Qed.

End MemorySequence.

#[export] Instance memory_sequence : Sequence MemorySequence.t.
Proof.
  refine {| entries_of := MemorySequence.sequence; seq_new := MemorySequence.new;
    new_with_sequence := MemorySequence.new_with_sequence;
    append_entry := MemorySequence.append_entry;
    append_sequence := MemorySequence.append_sequence;
    append_on_prefix := MemorySequence.append_on_prefix;
    get_entries := MemorySequence.get_entries; get_suffix := MemorySequence.get_suffix;
    get_sequence_len := MemorySequence.get_sequence_len;
    seq_stopped := MemorySequence.stopped |}; try done.
  - intros s from l. unfold MemorySequence.append_on_prefix. simpl.
    by rewrite MemorySequence.truncate_take.
  - apply MemorySequence.get_entries_between.
  - apply MemorySequence.get_suffix_drop.
Defined.

(** ** [MemoryState] *)

Module MemoryState.

Record t := mk { n_prom : Ballot.t; acc_round : Ballot.t; ld : Z }.

Definition new : t :=
  let ballot := Ballot.with_ 0 0 in mk ballot ballot 0.

Definition set_promise (s : t) (nprom : Ballot.t) : t := mk nprom (acc_round s) (ld s).
Definition set_decided_len (s : t) (ld : Z) : t := mk (n_prom s) (acc_round s) ld.
Definition set_accepted_round (s : t) (na : Ballot.t) : t := mk (n_prom s) na (ld s).
Definition get_accepted_round (s : t) : Ballot.t := acc_round s.
Definition get_decided_len (s : t) : Z := ld s.
Definition get_promise (s : t) : Ballot.t := n_prom s.

End MemoryState.

(** ** Facts on ranges *)

Lemma entries_between_length l from to ents :
  entries_between l from to = Some ents -> Z.of_nat (length ents) = to - from.
Proof.
  unfold entries_between. intros H. handler_inv H.
  rewrite length_take, length_drop. lia.
Qed.

(** Adjacent ranges concatenate. *)
Lemma entries_between_app l i j k e1 e2 :
  entries_between l i j = Some e1 -> entries_between l j k = Some e2 ->
  entries_between l i k = Some (e1 ++ e2).
Proof.
  unfold entries_between. intros H1 H2. handler_inv H1. handler_inv H2.
  rewrite !(proj2 (Z.leb_le _ _)) by lia. simpl. f_equal.
  replace (Z.to_nat (k - i)) with (Z.to_nat (j - i) + Z.to_nat (k - j))%nat by lia.
  rewrite <- take_take_drop, drop_drop. do 3 f_equal. lia.
Qed.

Lemma entries_between_prefix l n :
  0 <= n <= Z.of_nat (length l) -> entries_between l 0 n = Some (take (Z.to_nat n) l).
Proof.
  intros Hn. unfold entries_between. rewrite !(proj2 (Z.leb_le _ _)) by lia. simpl.
  by rewrite Z.sub_0_r.
Qed.

Lemma entries_between_is_Some l from to :
  0 <= from <= to -> to <= Z.of_nat (length l) -> is_Some (entries_between l from to).
Proof. intros. unfold entries_between. by rewrite !(proj2 (Z.leb_le _ _)) by lia. Qed.

(** [MemorySequence] implements the contract of a sequence on every call
    sequence that cuts and appends: after [append_on_prefix] at a decided index the
    entries before the index are kept, the suffix from it is what was appended,
    reads inside the bounds succeed, and [stopped] tells whether the last entry is
    a stop sign. *)
Theorem memory_sequence_prefix (s : MemorySequence.t) (from : Z) (seq : list Entry) (i j : Z) :
  0 <= from <= MemorySequence.get_sequence_len s ->
  let s' := MemorySequence.append_on_prefix s from seq in
  MemorySequence.get_sequence_len s' = from + Z.of_nat (length seq) /\
  MemorySequence.get_suffix s' from = seq /\
  (0 <= i <= j -> j <= from ->
     MemorySequence.get_entries s' i j = MemorySequence.get_entries s i j /\
     is_Some (MemorySequence.get_entries s i j)) /\
  (seq <> [] -> MemorySequence.stopped s' =
     match last seq with Some e => is_stopsign e | None => false end).
Proof.
  intros Hf s'. unfold MemorySequence.get_sequence_len in Hf.
  assert (MemorySequence.sequence s' =
    take (Z.to_nat from) (MemorySequence.sequence s) ++ seq) as Hs.
  { unfold s', MemorySequence.append_on_prefix. simpl.
    by rewrite MemorySequence.truncate_take. }
  split_and!.
  - unfold MemorySequence.get_sequence_len. rewrite Hs, length_app, length_take. lia.
  - rewrite MemorySequence.get_suffix_drop, Hs. apply drop_app_length'. rewrite length_take. lia.
  - intros Hij Hj. rewrite !MemorySequence.get_entries_between, Hs. unfold entries_between.
    rewrite length_app, length_take, !(proj2 (Z.leb_le _ _)) by lia. simpl. split; [|done].
    f_equal. rewrite drop_app_le by (rewrite length_take; lia).
    rewrite take_app_le by (rewrite length_drop, length_take; lia).
    rewrite !take_drop_commute, take_take. do 2 f_equal. lia.
  - intros Hne. unfold MemorySequence.stopped. rewrite Hs.
    destruct (last seq) as [e|] eqn:Hl; [|by apply last_None in Hl].
    by rewrite last_app, Hl.
Qed.

Lemma memory_sequence_prefix_witness :
  let s := MemorySequence.mk [Normal []; Normal [x01]] in
  let ss := StopSignEntry (mkStopSign 2 [1; 2] None) in
  MemorySequence.get_suffix (MemorySequence.append_on_prefix s 1 [ss]) 1 = [ss] /\
  MemorySequence.stopped (MemorySequence.append_on_prefix s 1 [ss]) = true.
Proof.
  intros s ss. destruct (memory_sequence_prefix s 1 [ss] 0 0) as (_ & H1 & _ & H2);
    [vm_compute; split; congruence|].
  split; [exact H1|]. apply H2. discriminate.
Defined.
