(* ===== verification/Communicator.v ===== *)
(** Actor paths, network data and the communicator of Omni-Paxos and Raft
    ([communicator.rs]).

    A replica talks to its peers through the [Communicator] of its configuration:
    requests on the [CommunicationPort] become network messages to the
    communicators of the peers or to the client, and network messages become
    indications on the port.  Simulated partitions drop messages here, in both
    directions. *)

From S2P Require Import Prelude MpMessages Partition Wire Election PaxosWire MsgWire.

Import Omni PaxosWire MsgWire.

(** ** Actor paths

    A node's components are registered under the aliases
    ["ble<pid>,<config>-<iteration>"] and ["communicator<pid>,<config>-<iteration>"],
    in Raft ["communicator<pid>-<iteration>"], on the system (protocol, address, port) of the node. *)

Inductive Alias :=
| ANode
| AClient
| ABle (pid config_id iteration_id : Z)
| ACommunicator (pid config_id iteration_id : Z)
| ARaftCommunicator (pid iteration_id : Z).

Inductive Path :=
| Named (system : Z) (alias : Alias)
| Unique (system id : Z).

#[global] Instance Alias_eq_dec : EqDecision Alias.
Proof. solve_decision. Defined.
#[global] Instance Path_eq_dec : EqDecision Path.
Proof. solve_decision. Defined.

Definition path_system (p : Path) : Z :=
  match p with Named s _ | Unique s _ => s end.

(** ** Messages

    The Raft messages are those of the external crate; of them the code here
    reads the sender and the receiver. *)

Class RaftMessage := {
  raft_message : Type;
  raft_from : raft_message -> Z;
  raft_to : raft_message -> Z }.

Section communicator.
Context `{RaftMessage}.

(** The serialised data of a network message. *)
Inductive NetData :=
| DRaft (m : raft_message)
| DPaxos (m : Message)
| DAtomicBroadcast (m : AtomicBroadcastMsg)
| DReconfiguration (m : ReconfigurationMsg)
| DStop (m : StopMsg).

Inductive AtomicBroadcastCompMsg :=
| InRawRaftMsg (m : raft_message)
| InRawPaxosMsg (m : Message)
| InStopMsg (pid : Z).

Inductive CommunicatorMsg :=
| OutRawRaftMsg (m : raft_message)
| OutRawPaxosMsg (m : Message)
| ProposalResponse (pr : ProposalResp)
| ReconfigurationResponse (rr : ReconfigurationResp)
| SendStop (my_pid : Z) (ack_client : bool).

(** [CIndicate] is a trigger on the provided port. *)
Inductive CommEffect :=
| CTell (dst : Path) (data : NetData)
| CIndicate (m : AtomicBroadcastCompMsg)
| CSchedule (t : Timer).

Record Comm := mkComm {
  comm_peers : gmap Z Path;
  comm_client : Path;
  comm_links : Links }.

Definition set_comm_peers (c : Comm) (x : gmap Z Path) : Comm :=
  mkComm x (comm_client c) (comm_links c).
Definition set_comm_links (c : Comm) (x : Links) : Comm :=
  mkComm (comm_peers c) (comm_client c) x.

Definition comm_with (peers : gmap Z Path) (client : Path) : Comm :=
  mkComm peers client links_init.

Definition comm_set_lagging_delay (c : Comm) (d : Z) : Comm :=
  set_comm_links c (links_set_lagging_delay d (comm_links c)).

(** [None] is the [panic!] on an unknown peer. *)
Definition comm_get_actorpath (c : Comm) (id : Z) : option Path := comm_peers c !! id.

Definition comm_lag_effects (effs : list Effect) : list CommEffect :=
  omap (fun e => match e with Schedule t => Some (CSchedule t) | _ => None end) effs.

Definition comm_disconnect_peers (c : Comm) (peers : list Z) (delay : bool)
    (lagging_peer : option Z) : option (Comm * list CommEffect) :=
  '(l, effs) ← links_disconnect peers delay lagging_peer (comm_links c);
  Some (set_comm_links c l, comm_lag_effects effs).

Definition comm_recover_peers (c : Comm) : Comm :=
  set_comm_links c (links_recover (comm_links c)).

Definition comm_disconnected (c : Comm) (pid : Z) : bool :=
  bool_decide (pid ∈ disconnected_peers (comm_links c)).

(** Requests on the [CommunicationPort]. *)
Definition comm_handle (c : Comm) (msg : CommunicatorMsg) : option (Comm * list CommEffect) :=
  match msg with
  | OutRawRaftMsg rm =>
      if comm_disconnected c (raft_to rm) then Some (c, [])
      else
        receiver ← comm_get_actorpath c (raft_to rm);
        Some (c, [CTell receiver (DRaft rm)])
  | OutRawPaxosMsg pm =>
      if comm_disconnected c (msg_to pm) then Some (c, [])
      else
        receiver ← comm_get_actorpath c (msg_to pm);
        Some (c, [CTell receiver (DPaxos pm)])
  | ProposalResponse pr =>
      Some (c, [CTell (comm_client c) (DAtomicBroadcast (ABProposalResp pr))])
  | ReconfigurationResponse rr =>
      Some (c, [CTell (comm_client c) (DAtomicBroadcast (ABReconfigurationResp rr))])
  | SendStop my_pid ack_client =>
      let c := comm_recover_peers c in
      let peers := map (fun kv : Z * Path => CTell kv.2 (DStop (StopPeer my_pid)))
                       (map_to_list (comm_peers c)) in
      let ack := if ack_client then [CTell (comm_client c) (DStop (StopPeer my_pid))] else [] in
      Some (c, peers ++ ack)
  end.

(** [None] is the [unimplemented!] on other data. *)
Definition comm_receive_network (c : Comm) (data : NetData) : option (Comm * list CommEffect) :=
  match data with
  | DRaft r =>
      if comm_disconnected c (raft_from r) then Some (c, [])
      else Some (c, [CIndicate (InRawRaftMsg r)])
  | DPaxos p =>
      if comm_disconnected c (msg_from p) then Some (c, [])
      else Some (c, [CIndicate (InRawPaxosMsg p)])
  | DStop (StopPeer pid) => Some (c, [CIndicate (InStopMsg pid)])
  | DStop _ => Some (c, [])
  | _ => None
  end.

(** ** The channel between two replicas *)

Fixpoint comm_handle_all (c : Comm) (msgs : list CommunicatorMsg)
    : option (Comm * list CommEffect) :=
  match msgs with
  | [] => Some (c, [])
  | m :: msgs =>
      '(c, effs) ← comm_handle c m;
      '(c, effs') ← comm_handle_all c msgs;
      Some (c, effs ++ effs')
  end.

Fixpoint comm_receive_all (c : Comm) (data : list NetData) : option (Comm * list CommEffect) :=
  match data with
  | [] => Some (c, [])
  | d :: data =>
      '(c, effs) ← comm_receive_network c d;
      '(c, effs') ← comm_receive_all c data;
      Some (c, effs ++ effs')
  end.

(** What arrives at [path], if the network delivers in order. *)
Definition told (path : Path) (effs : list CommEffect) : list NetData :=
  omap (fun e => match e with
                 | CTell dst d => if decide (dst = path) then Some d else None
                 | _ => None
                 end) effs.

Lemma handle_all_outgoing c pb path msgs :
  (forall m, m ∈ msgs -> msg_to m = pb) -> comm_peers c !! pb = Some path ->
  comm_handle_all c (map OutRawPaxosMsg msgs) =
    Some (c, if comm_disconnected c pb then [] else map (fun m => CTell path (DPaxos m)) msgs).
Proof.
  intros Hto Hp. induction msgs as [|m msgs IH]; simpl; [by destruct (comm_disconnected c pb)|].
  rewrite (Hto m) by set_solver. unfold comm_get_actorpath. rewrite Hp.
  destruct (comm_disconnected c pb) eqn:Hd; simpl; rewrite IH by set_solver; done.
Qed.

Lemma receive_all_incoming c pa msgs :
  (forall m, m ∈ msgs -> msg_from m = pa) ->
  comm_receive_all c (map DPaxos msgs) =
    Some (c, if comm_disconnected c pa then []
             else map (fun m => CIndicate (InRawPaxosMsg m)) msgs).
Proof.
  intros Hfrom. induction msgs as [|m msgs IH]; simpl; [by destruct (comm_disconnected c pa)|].
  rewrite (Hfrom m) by set_solver.
  destruct (comm_disconnected c pa) eqn:Hd; simpl; rewrite IH by set_solver; done.
Qed.

Lemma told_tells path msgs :
  told path (map (fun m => CTell path (DPaxos m)) msgs) = map DPaxos msgs.
Proof.
  unfold told. induction msgs as [|m msgs IH]; csimpl; [done|].
  rewrite decide_True by done. f_equal. exact IH.
Qed.

(** The communicators of two replicas are a channel: what replica [pa] hands
    to its communicator for [pb] is indicated at [pb] completely, once and in
    order, unless either side has the other disconnected; then nothing is. *)
Theorem communicator_link (a b : Comm) (pa pb : Z) (path : Path) (msgs : list Message) :
  (forall m, m ∈ msgs -> msg_from m = pa /\ msg_to m = pb) ->
  comm_peers a !! pb = Some path ->
  exists effs,
    comm_handle_all a (map OutRawPaxosMsg msgs) = Some (a, effs) /\
    comm_receive_all b (told path effs) =
      Some (b, if comm_disconnected a pb || comm_disconnected b pa then []
               else map (fun m => CIndicate (InRawPaxosMsg m)) msgs).
Proof.
  intros Hm Hp. eexists. split; [apply (handle_all_outgoing a pb path); [|done]|].
  - intros m Hin. by apply Hm.
  - destruct (comm_disconnected a pb); [done|]. simpl. rewrite told_tells.
    apply receive_all_incoming. intros m Hin. by apply Hm.
Qed.
End communicator.

Lemma communicator_link_witness :
  let H := Build_RaftMessage (Z * Z) fst snd in
  let path := Named 2 (ACommunicator 2 1 1) in
  let a := comm_with {[2 := path]} (Named 9 AClient) in
  let b := comm_with {[1 := Named 1 (ACommunicator 1 1 1)]} (Named 9 AClient) in
  let m := mkMessage 1 2 PrepareReq in
  exists effs, comm_handle_all a [OutRawPaxosMsg m] = Some (a, effs) /\
    comm_receive_all b (told path effs) = Some (b, [CIndicate (InRawPaxosMsg m)]).
Proof.
  intros H path a b m.
  destruct (communicator_link a b 1 2 path [m]) as (effs & H1 & H2).
  - intros m' ->%list_elem_of_singleton. split; reflexivity.
  - reflexivity.
  - exists effs. split; [exact H1|exact H2].
Defined.
