(* ===== verification/PaxosReplica.v ===== *)
(** One configuration's replica of Omni-Paxos ([paxos.rs], [PaxosReplica]).

    The component drives the Omni-Paxos core of the external crate: it hands it
    proposals, messages and leaders, and on a timer collects decided entries and
    outgoing messages.  The core is a parameter of the model, the class
    [PaxosCore]; everything around it is translated. *)

From Stdlib Require Import Strings.Byte.
From S2P Require Import Prelude MpMessages Partition Wire Election PaxosWire MsgWire.
From S2P Require Import PaxosStorage Communicator.

Import Omni PaxosWire MsgWire.

(** ** The Omni-Paxos core

    [Err] of a proposal is returned as [Some]; [get_decided_entries] moves the
    read position of the core. *)

Inductive ProposeErr :=
| NormalErr (data : bytes)
| ReconfigurationErr (nodes : list Z).

Class PaxosCore (S P : Type) := {
  paxos_with : Z -> Z -> list Z -> S * MemoryState.t -> option Leader -> P;
  propose_normal : P -> bytes -> P * option ProposeErr;
  paxos_propose_reconfiguration : P -> list Z -> option Ballot.t -> P * option ProposeErr;
  paxos_handle : P -> Message -> P;
  paxos_handle_leader : P -> Leader -> P;
  get_outgoing_msgs : P -> P * list Message;
  paxos_get_promise : P -> Ballot.t;
  paxos_get_current_leader : P -> Z;
  get_decided_entries : P -> P * list Entry;
  get_chosen_entries : P -> Z -> Z -> list Entry;
  stop_and_get_sequence : P -> P * S;
  paxos_stopped : P -> bool;
  reconnected : P -> Z -> P }.

(** ** Messages between the replica and its supervisor *)

Record FinalMsg {S : Type} := mkFinalMsg {
  fm_config_id : Z;
  fm_nodes : Reconfig;
  fm_final_sequence : S;
  fm_skip_prepare_use_leader : option Leader }.
Arguments FinalMsg : clear implicits.

Inductive PaxosCompMsg {S : Type} :=
| CompLeader (config_id pid round : Z)
| CompPendingReconfig (data : bytes)
| CompReconfig (r : FinalMsg S)
| CompKillComponents.
Arguments PaxosCompMsg : clear implicits.

Inductive PaxosReplicaMsg :=
| Propose (p : Proposal)
| ProposeReconfiguration (rp : ReconfigurationProposal)
| LocalSegmentReq (requestor : Path) (sr : SegmentRequest) (meta : SequenceMetaData)
| StopReplica (ack_client : bool).

Module PaxosReplica.
Section replica.
Context {Sq P : Type} `{RaftMessage} `{PaxosCore Sq P}.

(** The constant [prio_start_round] of the configuration file. *)
Context (prio_start_round : Z).

(** [ReplyStop] is the reply to the pending ask of the supervisor. *)
Inductive ReplicaEffect :=
| ToSupervisor (m : PaxosCompMsg Sq)
| ToCommunicator (m : CommunicatorMsg)
| ToRequestor (dst : Path) (m : ReconfigurationMsg)
| StartTimer
| CancelTimer
| ReplyStop.

Record t := mk {
  peers : list Z;
  paxos : P;
  config_id : Z;
  pid : Z;
  current_leader : Z;
  leader_ballot : Ballot.t;
  timer : bool;
  stopped : bool;
  stopped_peers : gset Z;
  stop_ask : option bool }.

Definition set_peers (r : t) (x : list Z) : t :=
  mk x (paxos r) (config_id r) (pid r) (current_leader r) (leader_ballot r) (timer r)
     (stopped r) (stopped_peers r) (stop_ask r).
Definition set_paxos (r : t) (x : P) : t :=
  mk (peers r) x (config_id r) (pid r) (current_leader r) (leader_ballot r) (timer r)
     (stopped r) (stopped_peers r) (stop_ask r).
Definition set_leader (r : t) (pid' : Z) (b : Ballot.t) : t :=
  mk (peers r) (paxos r) (config_id r) (pid r) pid' b (timer r)
     (stopped r) (stopped_peers r) (stop_ask r).
Definition set_timer (r : t) (x : bool) : t :=
  mk (peers r) (paxos r) (config_id r) (pid r) (current_leader r) (leader_ballot r) x
     (stopped r) (stopped_peers r) (stop_ask r).
Definition set_stop (r : t) (st : bool) (ps : gset Z) (ask : option bool) : t :=
  mk (peers r) (paxos r) (config_id r) (pid r) (current_leader r) (leader_ballot r) (timer r)
     st ps ask.

Definition with_ (peers : option (list Z)) (config_id pid : Z) (paxos : P) : t :=
  mk (default [] peers) paxos config_id pid 0 Ballot.default false false ∅ None.

Definition start_timer (r : t) : t * list ReplicaEffect := (set_timer r true, [StartTimer]).

Definition stop_timer (r : t) : t * list ReplicaEffect :=
  if timer r then (set_timer r false, [CancelTimer]) else (r, []).

Definition send_outgoing (r : t) : t * list ReplicaEffect :=
  let '(px, msgs) := get_outgoing_msgs (paxos r) in
  (set_paxos r px, map (fun m => ToCommunicator (OutRawPaxosMsg m)) msgs).

(** [Iterator::partition] keeps the order on both sides. *)
Definition in_configuration (r : t) (p : Z) : bool :=
  (p =? pid r) || bool_decide (p ∈ peers r).

Definition handle_stopsign (r : t) (ss : StopSign) : t * list ReplicaEffect :=
  let '(px, final_seq) := stop_and_get_sequence (paxos r) in
  let r := set_paxos r px in
  let continued_nodes := filter (fun p => in_configuration r p = true) (ss_nodes ss) in
  let new_nodes := filter (fun p => in_configuration r p = false) (ss_nodes ss) in
  let leader := match ss_skip_prepare_use_leader ss with
                | Some l => leader_pid l
                | None => 0
                end in
  let final := mkFinalMsg Sq (ss_config_id ss) (mkReconfig continued_nodes new_nodes) final_seq
                 (ss_skip_prepare_use_leader ss) in
  let rr := mkReconfigurationResp leader (Ballot.n (leader_ballot r)) (ss_nodes ss) in
  (r, [ToSupervisor (CompReconfig final); ToCommunicator (ReconfigurationResponse rr)]).

(** The loop of a leader over the decided entries. *)
Fixpoint handle_decided (r : t) (promise : Ballot.t) (decided : list Entry)
    : t * list ReplicaEffect :=
  match decided with
  | [] => (r, [])
  | e :: decided =>
      let '(r, effs) :=
        match e with
        | Normal data =>
            (r, [ToCommunicator
                   (ProposalResponse (mkProposalResp data (pid r) (Ballot.n promise)))])
        | StopSignEntry ss => handle_stopsign r ss
        end in
      let '(r, effs') := handle_decided r promise decided in
      (r, effs ++ effs')
  end.

Definition get_decided (r : t) : t * list ReplicaEffect :=
  let promise := paxos_get_promise (paxos r) in
  let '(r, notified) :=
    if Ballot.ltb (leader_ballot r) promise then
      let r := set_leader r (paxos_get_current_leader (paxos r)) promise in
      (r, [ToSupervisor (CompLeader (config_id r) (current_leader r) (Ballot.n promise))])
    else (r, []) in
  let '(px, decided_entries) := get_decided_entries (paxos r) in
  let r := set_paxos r px in
  let '(r, effs) :=
    if current_leader r =? pid r then handle_decided r promise decided_entries
    else match last decided_entries with
         | Some (StopSignEntry ss) => handle_stopsign r ss
         | _ => (r, [])
         end in
  (r, notified ++ effs).

(** The closure of [start_timer]. *)
Definition outgoing_timeout (r : t) : t * list ReplicaEffect :=
  let '(r, e1) := get_decided r in
  let '(r, e2) := send_outgoing r in
  (r, e1 ++ e2).

(** [None] is a panic: [unreachable!], a failed [expect], or the random choice
    among no followers; [rnds] are the indices drawn. *)
Definition receive_local (r : t) (msg : PaxosReplicaMsg) (rnds : list nat)
    : option (t * list ReplicaEffect) :=
  match msg with
  | Propose p =>
      let '(px, err) := propose_normal (paxos r) (proposal_data p) in
      let r := set_paxos r px in
      match err with
      | None => Some (r, [])
      | Some (NormalErr data) => Some (r, [ToSupervisor (CompPendingReconfig data)])
      | Some (ReconfigurationErr _) => None
      end
  | ProposeReconfiguration rp =>
      let current_config := peers r ++ [pid r] in
      new_config ← get_new_configuration rp (current_leader r) current_config rnds;
      let n := prio_start_round mod 2 ^ 32 in
      let '(px, err) := paxos_propose_reconfiguration (paxos r) new_config
                          (Some (Ballot.with_ n 0)) in
      match err with
      | None => Some (set_paxos r px, [])
      | Some _ => None
      end
  | LocalSegmentReq requestor seq_req prev_seq_metadata =>
      let segment_idx := sr_idx seq_req in
      let entries := get_chosen_entries (paxos r) (seg_from segment_idx) (seg_to segment_idx) in
      let succeeded := negb (bool_decide (entries = [])) in
      let segment := mkSequenceSegment segment_idx entries in
      let st := mkSegmentTransfer (sr_config_id seq_req) succeeded prev_seq_metadata segment in
      Some (r, [ToRequestor requestor (SegmentTransferMsg st)])
  | StopReplica ack_client =>
      let sent := [ToCommunicator (SendStop (pid r) ack_client)] in
      let '(r, cancelled) := stop_timer r in
      if bool_decide (size (stopped_peers r) = length (peers r)) then
        Some (set_stop r true (stopped_peers r) (stop_ask r), sent ++ cancelled ++ [ReplyStop])
      else Some (set_stop r true (stopped_peers r) (Some ack_client), sent ++ cancelled)
  end.

Definition on_start (r : t) : t * list ReplicaEffect :=
  match peers r with
  | [] => (r, [])
  | _ => start_timer r
  end.

Definition on_kill (r : t) : t * list ReplicaEffect := stop_timer r.

(** Indications of the [CommunicationPort]; [None] is the [assert!] on a duplicate
    stop or a missing ask. *)
Definition handle_communication (r : t) (msg : AtomicBroadcastCompMsg)
    : option (t * list ReplicaEffect) :=
  match msg with
  | InRawPaxosMsg pm =>
      if stopped r then Some (r, []) else Some (set_paxos r (paxos_handle (paxos r) pm), [])
  | InStopMsg p =>
      if bool_decide (p ∈ stopped_peers r) then None
      else
        let r := set_stop r (stopped r) ({[p]} ∪ stopped_peers r) (stop_ask r) in
        if stopped r && bool_decide (size (stopped_peers r) = length (peers r)) then
          _ ← stop_ask r;
          Some (set_stop r (stopped r) (stopped_peers r) None, [ReplyStop])
        else Some (r, [])
  | InRawRaftMsg _ => Some (r, [])
  end.

(** Indications of the [BallotLeaderElection] port. *)
Definition handle_leader (r : t) (l : Leader) : t * list ReplicaEffect :=
  let r := set_paxos r (paxos_handle_leader (paxos r) l) in
  if Ballot.ltb (leader_ballot r) (leader_round l) && negb (paxos_stopped (paxos r)) then
    let r := set_leader r (leader_pid l) (leader_round l) in
    (r, [ToSupervisor (CompLeader (config_id r) (leader_pid l) (Ballot.n (leader_round l)))])
  else (r, []).

(** What can happen to a started replica. *)
Inductive input :=
| OutgoingTimeout
| Local (m : PaxosReplicaMsg) (rnds : list nat)
| Communication (m : AtomicBroadcastCompMsg)
| LeaderElected (l : Leader).

Definition step (r : t) (i : input) : option (t * list ReplicaEffect) :=
  match i with
  | OutgoingTimeout => Some (outgoing_timeout r)
  | Local m rnds => receive_local r m rnds
  | Communication m => handle_communication r m
  | LeaderElected l => Some (handle_leader r l)
  end.

(** ** The leader it reports *)

Definition leader_notes (effs : list ReplicaEffect) : list (PaxosCompMsg Sq) :=
  omap (fun e => match e with
                 | ToSupervisor (CompLeader c p n) => Some (CompLeader c p n)
                 | _ => None
                 end) effs.

Definition is_reply (e : ReplicaEffect) : bool := match e with ReplyStop => true | _ => false end.
Definition replies (effs : list ReplicaEffect) : nat := length (filter (fun e => is_reply e = true) effs).

Lemma leader_notes_app e1 e2 : leader_notes (e1 ++ e2) = leader_notes e1 ++ leader_notes e2.
Proof. apply omap_app. Qed.

Lemma replies_app e1 e2 : replies (e1 ++ e2) = (replies e1 + replies e2)%nat.
Proof. unfold replies. by rewrite filter_app, length_app. Qed.

(** Two replicas that differ in nothing but the core and the leader. *)
Definition same_frame (r r' : t) : Prop :=
  peers r' = peers r /\ config_id r' = config_id r /\ pid r' = pid r /\ timer r' = timer r /\
  stopped r' = stopped r /\ stopped_peers r' = stopped_peers r /\ stop_ask r' = stop_ask r.

(** Steps that neither report a leader nor answer a stop. *)
Definition silent (r r' : t) (effs : list ReplicaEffect) : Prop :=
  same_frame r r' /\ current_leader r' = current_leader r /\ leader_ballot r' = leader_ballot r /\
  leader_notes effs = [] /\ replies effs = 0%nat.

Lemma silent_refl r : silent r r [].
Proof. done. Qed.

Lemma silent_app r1 r2 r3 e1 e2 :
  silent r1 r2 e1 -> silent r2 r3 e2 -> silent r1 r3 (e1 ++ e2).
Proof.
  unfold silent, same_frame. rewrite leader_notes_app, replies_app.
  intros (? & ? & ? & -> & ->) (? & ? & ? & -> & ->). destruct_and!. split_and!; first [congruence|done].
Qed.

Lemma silent_outgoing r : silent r (send_outgoing r).1 (send_outgoing r).2.
Proof.
  unfold send_outgoing. destruct (get_outgoing_msgs (paxos r)) as [px msgs]. simpl.
  split_and!; try done; induction msgs; done.
Qed.

Lemma silent_stopsign r ss : silent r (handle_stopsign r ss).1 (handle_stopsign r ss).2.
Proof. unfold handle_stopsign. by destruct (stop_and_get_sequence (paxos r)). Qed.

Lemma silent_decided r promise l :
  silent r (handle_decided r promise l).1 (handle_decided r promise l).2.
Proof.
  revert r. induction l as [|e l IH]; intros r; simpl; [apply silent_refl|].
  set (x := match e with Normal _ => _ | StopSignEntry ss => _ end).
  assert (silent r x.1 x.2) as Hx.
  { unfold x. destruct e; [done|apply silent_stopsign]. }
  destruct x as [r1 e1]. specialize (IH r1). destruct (handle_decided r1 promise l) as [r2 e2].
  by eapply silent_app.
Qed.

(** How a step may move the reported leader. *)
Definition reports (r r' : t) (effs : list ReplicaEffect) : Prop :=
  (leader_notes effs = [] /\ current_leader r' = current_leader r /\
   leader_ballot r' = leader_ballot r) \/
  (Ballot.lt (leader_ballot r) (leader_ballot r') /\
   leader_notes effs =
     [CompLeader (config_id r) (current_leader r') (Ballot.n (leader_ballot r'))]).

Lemma reports_silent r1 r2 r3 e1 e2 : reports r1 r2 e1 -> silent r2 r3 e2 -> reports r1 r3 (e1 ++ e2).
Proof.
  intros Hr (_ & Hl & Hb & Hn & _). unfold reports. rewrite leader_notes_app, Hn, app_nil_r, Hl, Hb.
  exact Hr.
Qed.

(** The first half of [get_decided]: adopting the promised leader. *)
Lemma adopt_promise r :
  let promise := paxos_get_promise (paxos r) in
  let x := if Ballot.ltb (leader_ballot r) promise then
             let r := set_leader r (paxos_get_current_leader (paxos r)) promise in
             (r, [ToSupervisor (CompLeader (config_id r) (current_leader r) (Ballot.n promise))])
           else (r, []) in
  reports r x.1 x.2 /\ same_frame r x.1 /\ paxos x.1 = paxos r /\ replies x.2 = 0%nat.
Proof.
  intros promise x. unfold x. destruct (Ballot.ltb _ promise) eqn:Hlt; simpl.
  - split_and!; try done. right. split; [by apply Ballot.ltb_spec|done].
  - split_and!; try done. by left.
Qed.

Lemma get_decided_reports r :
  reports r (get_decided r).1 (get_decided r).2 /\ same_frame r (get_decided r).1 /\
  replies (get_decided r).2 = 0%nat.
Proof.
  unfold get_decided. cbv zeta. destruct (adopt_promise r) as (Hr & Hf & _ & Hn).
  cbv zeta in Hr, Hf, Hn. destruct (if Ballot.ltb _ _ then _ else _) as [r1 e1]. simpl in Hr, Hf, Hn.
  destruct (get_decided_entries (paxos r1)) as [px l].
  set (x := if _ =? _ then _ else _).
  assert (silent r1 x.1 x.2) as Hx.
  { unfold x. destruct (_ =? _).
    - apply (silent_decided (set_paxos r1 px)).
    - destruct (last l) as [[d|ss]|]; try done. apply (silent_stopsign (set_paxos r1 px)). }
  destruct x as [r2 e2]. simpl in Hx |- *. split; [by eapply reports_silent|].
  destruct Hx as (Hf2 & _ & _ & _ & Hn2). rewrite replies_app, Hn, Hn2. split; [|done].
  unfold same_frame in *. destruct_and!. split_and!; congruence.
Qed.

Lemma outgoing_reports r :
  reports r (outgoing_timeout r).1 (outgoing_timeout r).2 /\
  same_frame r (outgoing_timeout r).1 /\ replies (outgoing_timeout r).2 = 0%nat.
Proof.
  unfold outgoing_timeout. destruct (get_decided_reports r) as (Hr & Hf & Hn).
  destruct (get_decided r) as [r1 e1]. pose proof (silent_outgoing r1) as Hs.
  destruct (send_outgoing r1) as [r2 e2]. simpl in *. split; [by eapply reports_silent|].
  destruct Hs as (Hf2 & _ & _ & _ & Hn2). rewrite replies_app, Hn, Hn2. split; [|done].
  unfold same_frame in *. destruct_and!. split_and!; congruence.
Qed.

Lemma silent_reports r r' effs :
  current_leader r' = current_leader r -> leader_ballot r' = leader_ballot r ->
  leader_notes effs = [] -> reports r r' effs.
Proof. intros. by left. Qed.

(** The leader a replica reports to its supervisor: in every step the ballot it
    follows stays the same and nothing is reported, or it becomes strictly larger
    and exactly one report is sent, with the new leader and its round; no other
    step changes the leader. *)
Theorem replica_reports_leader (r r' : t) (i : input) (effs : list ReplicaEffect) :
  step r i = Some (r', effs) -> reports r r' effs.
Proof.
  intros Hs. destruct i as [|m rnds|m|l]; simpl in Hs.
  - injection Hs as Hs. pose proof (proj1 (outgoing_reports r)) as Hr. by rewrite Hs in Hr.
  - unfold receive_local, stop_timer in Hs.
    destruct m, (timer r); handler_inv Hs; by apply silent_reports.
  - unfold handle_communication in Hs. destruct m; handler_inv Hs; by apply silent_reports.
  - unfold handle_leader in Hs. simpl in Hs.
    destruct (Ballot.ltb (leader_ballot r) (leader_round l)) eqn:Hlt; simpl in Hs;
      [|simplify_eq; by apply silent_reports].
    destruct (paxos_stopped _); simpl in Hs; simplify_eq; [by apply silent_reports|].
    right. split; [by apply Ballot.ltb_spec|done].
Qed.

(** ** What it does with decided entries *)

Definition responses (effs : list ReplicaEffect) : list bytes :=
  omap (fun e => match e with
                 | ToCommunicator (ProposalResponse pr) => Some (resp_data pr)
                 | _ => None
                 end) effs.

Definition finals (effs : list ReplicaEffect) : list (FinalMsg Sq) :=
  omap (fun e => match e with ToSupervisor (CompReconfig f) => Some f | _ => None end) effs.

Definition normal_data (e : Entry) : option bytes :=
  match e with Normal d => Some d | StopSignEntry _ => None end.
Definition stopsign_of (e : Entry) : option StopSign :=
  match e with Normal _ => None | StopSignEntry ss => Some ss end.

(** The handover announced for a decided stop sign: its nodes are divided into the
    ones of the current configuration and the new ones. *)
Definition announces (r : t) (ss : StopSign) (f : FinalMsg Sq) : Prop :=
  fm_config_id f = ss_config_id ss /\
  fm_skip_prepare_use_leader f = ss_skip_prepare_use_leader ss /\
  continued_nodes (fm_nodes f) ++ new_nodes (fm_nodes f) ≡ₚ ss_nodes ss /\
  (forall p, p ∈ continued_nodes (fm_nodes f) -> p = pid r \/ p ∈ peers r) /\
  (forall p, p ∈ new_nodes (fm_nodes f) -> p <> pid r /\ p ∉ peers r).

Lemma responses_app e1 e2 : responses (e1 ++ e2) = responses e1 ++ responses e2.
Proof. apply omap_app. Qed.
Lemma finals_app e1 e2 : finals (e1 ++ e2) = finals e1 ++ finals e2.
Proof. apply omap_app. Qed.

Lemma partition_Permutation (f : Z -> bool) (l : list Z) :
  filter (fun p => f p = true) l ++ filter (fun p => f p = false) l ≡ₚ l.
Proof.
  induction l as [|x l IH]; [done|]. rewrite !filter_cons.
  destruct (f x); simpl; [by constructor|].
  rewrite <- Permutation_middle. by constructor.
Qed.

Lemma in_configuration_spec r p : in_configuration r p = true <-> p = pid r \/ p ∈ peers r.
Proof.
  unfold in_configuration. by rewrite orb_true_iff, Z.eqb_eq, bool_decide_eq_true.
Qed.

Lemma handle_stopsign_spec r ss :
  responses (handle_stopsign r ss).2 = [] /\
  exists f, finals (handle_stopsign r ss).2 = [f] /\ announces r ss f.
Proof.
  unfold handle_stopsign. destruct (stop_and_get_sequence (paxos r)) as [px seq].
  split; [done|]. eexists. split; [done|]. unfold announces. simpl. split_and!; [done..| | |].
  - apply partition_Permutation.
  - intros p [Hp _]%list_elem_of_filter. by apply (in_configuration_spec r).
  - intros p [Hp _]%list_elem_of_filter. unfold in_configuration in Hp. simpl in Hp.
    by apply orb_false_iff in Hp as [?%Z.eqb_neq ?%bool_decide_eq_false].
Qed.

Lemma announces_frame r r' ss f :
  peers r' = peers r -> pid r' = pid r -> announces r' ss f -> announces r ss f.
Proof. unfold announces. by intros -> ->. Qed.

Lemma handle_decided_spec r promise l :
  responses (handle_decided r promise l).2 = omap normal_data l /\
  Forall2 (announces r) (omap stopsign_of l) (finals (handle_decided r promise l).2).
Proof.
  revert r. induction l as [|e l IH]; intros r; csimpl; [by split|].
  destruct e as [d|ss]; csimpl.
  - specialize (IH r). destruct (handle_decided r promise l) as [r2 e2]. csimpl.
    destruct IH as [IH1 IH2]. split; [by f_equal|done].
  - destruct (handle_stopsign_spec r ss) as (Hr & f & Hf & Ha).
    destruct (silent_stopsign r ss) as ((Hp & _ & Hpid & _) & _).
    destruct (handle_stopsign r ss) as [r1 e1]. specialize (IH r1).
    destruct (handle_decided r1 promise l) as [r2 e2]. simpl in *. destruct IH as [IH1 IH2].
    rewrite responses_app, finals_app, Hr, Hf. split; [done|]. constructor; [done|].
    eapply Forall2_impl; [exact IH2|]. intros ss' f'. by apply announces_frame.
Qed.

(** C14: what a replica does with the entries decided since the last time: the
    leader answers the client for every normal entry, once and in order, and hands
    over for every stop sign; a follower answers nothing and hands over when the
    last entry is a stop sign.  A handover names the configuration and leader of
    the stop sign and divides its nodes exactly into those that continue and those
    that are new. *)
Theorem get_decided_spec (r r' : t) (effs : list ReplicaEffect) (px : P) (l : list Entry) :
  get_decided_entries (paxos r) = (px, l) -> get_decided r = (r', effs) ->
  responses effs = (if current_leader r' =? pid r then omap normal_data l else []) /\
  Forall2 (announces r)
    (if current_leader r' =? pid r then omap stopsign_of l
     else match last l with Some (StopSignEntry ss) => [ss] | _ => [] end)
    (finals effs).
Proof.
  intros Hl Hg. unfold get_decided in Hg. cbv zeta in Hg.
  destruct (adopt_promise r) as (_ & Hf & Hpx & _). cbv zeta in Hf, Hpx.
  destruct (if Ballot.ltb _ _ then _ else _) as [r1 e1] eqn:He1. simpl in Hf, Hpx.
  assert (responses e1 = [] /\ finals e1 = []) as [He1r He1f].
  { destruct (Ballot.ltb _ _); by simplify_eq. }
  destruct Hf as (Hpe & _ & Hpid & _). rewrite Hpx, Hl in Hg.
  destruct (current_leader r1 =? pid r1) eqn:Hlead; simpl in Hg; rewrite Hlead in Hg.
  - pose proof (handle_decided_spec (set_paxos r1 px) (paxos_get_promise (paxos r)) l) as [Hr Ha].
    pose proof (silent_decided (set_paxos r1 px) (paxos_get_promise (paxos r)) l)
      as (_ & Hcl & _).
    destruct (handle_decided _ _ _) as [r2 e2]. simplify_eq. simpl in *.
    rewrite responses_app, finals_app, He1r, He1f, Hcl, <- Hpid, Hlead. split; [done|].
    eapply Forall2_impl; [exact Ha|]. intros ss f. by apply announces_frame.
  - assert (current_leader r' = current_leader r1 /\
      responses effs = [] /\ Forall2 (announces r)
        (match last l with Some (StopSignEntry ss) => [ss] | _ => [] end) (finals effs))
      as (Hcl & Hr & Ha).
    { destruct (last l) as [[d|ss]|].
      - simplify_eq. rewrite responses_app, finals_app, He1r, He1f. by split_and!.
      - destruct (handle_stopsign_spec (set_paxos r1 px) ss) as (Hr & f & Hf & Ha).
        destruct (silent_stopsign (set_paxos r1 px) ss) as (_ & Hcl & _).
        destruct (handle_stopsign _ ss) as [r2 e2]. simplify_eq. simpl in *.
        rewrite responses_app, finals_app, He1r, He1f, Hr, Hf. split_and!; [done..|].
        constructor; [|done]. by eapply announces_frame; [| |exact Ha].
      - simplify_eq. rewrite responses_app, finals_app, He1r, He1f. by split_and!. }
    rewrite Hcl, <- Hpid, Hlead. by split.
Qed.

(** ** The stop protocol *)

Fixpoint steps (r : t) (inputs : list input) : option (t * list ReplicaEffect) :=
  match inputs with
  | [] => Some (r, [])
  | i :: inputs =>
      '(r, effs) ← step r i;
      '(r, effs') ← steps r inputs;
      Some (r, effs ++ effs')
  end.

Definition is_stop (i : input) : bool :=
  match i with Local (StopReplica _) _ => true | _ => false end.
Definition stop_pid (i : input) : option Z :=
  match i with Communication (InStopMsg p) => Some p | _ => None end.
Definition stop_requests (inputs : list input) : nat :=
  length (filter (fun i => is_stop i = true) inputs).

(** After [n] stop requests, [k] of them answered, and stops from [seen]. *)
Definition stop_inv (peers0 : list Z) (r : t) (n k : nat) (seen : gset Z) : Prop :=
  peers r = peers0 /\ stopped_peers r = seen /\ seen ⊆ list_to_set peers0 /\
  match n with
  | O => stopped r = false /\ stop_ask r = None /\ k = 0%nat
  | _ => stopped r = true /\
         if decide (size seen = length peers0) then stop_ask r = None /\ k = 1%nat
         else is_Some (stop_ask r) /\ k = 0%nat
  end.

Lemma stop_inv_frame peers0 r r' n k seen :
  same_frame r r' -> stop_inv peers0 r n k seen -> stop_inv peers0 r' n k seen.
Proof.
  unfold same_frame, stop_inv. intros (-> & _ & _ & _ & -> & -> & ->). done.
Qed.

(** A step that is neither a stop request nor the stop of a peer. *)
Lemma other_step_frame r r' i effs :
  is_stop i = false -> stop_pid i = None -> step r i = Some (r', effs) ->
  same_frame r r' /\ replies effs = 0%nat.
Proof.
  intros H1 H2 Hs. destruct i as [|m rnds|m|l]; simpl in Hs, H1, H2.
  - injection Hs as Hs. pose proof (outgoing_reports r) as (_ & Hf & Hn). by rewrite Hs in Hf, Hn.
  - unfold receive_local in Hs. destruct m; try done; handler_inv Hs; done.
  - unfold handle_communication in Hs. destruct m; try done; handler_inv Hs; done.
  - injection Hs as Hs. unfold handle_leader in Hs. simpl in Hs.
    destruct (_ && _); by simplify_eq.
Qed.

Lemma stop_step peers0 r i r' effs n k seen :
  stop_inv peers0 r n k seen -> (n + (if is_stop i then 1 else 0) <= 1)%nat ->
  (forall p, stop_pid i = Some p -> p ∈ peers0) -> NoDup peers0 ->
  step r i = Some (r', effs) ->
  stop_inv peers0 r' (n + if is_stop i then 1 else 0) (k + replies effs)
    (match stop_pid i with Some p => {[p]} ∪ seen | None => seen end).
Proof.
  intros Hinv Hn Hp Hnd Hs.
  destruct (is_stop i) eqn:Hi; [|destruct (stop_pid i) as [p|] eqn:Hpid].
  - destruct i as [|[| | |ack] rnds|m|l]; try done. simpl.
    destruct n; [|lia]. destruct Hinv as (Hpe & Hse & Hsub & Hst & Hask & ->).
    unfold step, receive_local, stop_timer in Hs.
    destruct (timer r); cbn [set_timer peers stopped_peers stop_ask] in Hs;
      rewrite Hse, Hpe in Hs; case_bool_decide as Hsz; simplify_eq;
      (split_and!; [done|done|done|]); simpl; (split; [done|]);
      first [rewrite decide_True by done; done|rewrite decide_False by done; by split].
  - destruct i as [|m rnds|[| |q]|l]; try done. injection Hpid as ->. rewrite Nat.add_0_r.
    destruct Hinv as (Hpe & Hse & Hsub & Hinv). simpl in Hs. rewrite Hse in Hs.
    case_bool_decide as Hin; [done|]. specialize (Hp p eq_refl).
    assert (size ({[p]} ∪ seen) = S (size seen)) as Hsz.
    { rewrite size_union by set_solver. by rewrite size_singleton. }
    assert (S (size seen) <= length peers0)%nat as Hle.
    { rewrite <- Hsz, <- (size_list_to_set (C := gset Z) peers0) by done.
      apply subseteq_size. set_solver. }
    rewrite Hpe, Hsz in Hs. unfold stop_inv. rewrite Hsz.
    destruct n; simpl in Hs.
    + destruct Hinv as (Hst & Hask & ->). rewrite Hst in Hs. simplify_eq. simpl.
      split_and!; try done; set_solver.
    + destruct Hinv as [Hst Hinv]. rewrite Hst in Hs. simpl in Hs.
      rewrite decide_False in Hinv by lia. destruct Hinv as [[ask Hask] ->].
      case_bool_decide as Hfull.
      * rewrite Hask in Hs. simplify_eq. simpl. rewrite decide_True by done.
        split_and!; try done; set_solver.
      * simplify_eq. simpl. rewrite decide_False by done. rewrite Hask.
        split_and!; try done; set_solver.
  - destruct (other_step_frame _ _ _ _ Hi Hpid Hs) as [Hf ->]. rewrite !Nat.add_0_r.
    by eapply stop_inv_frame.
Qed.

Lemma stop_requests_cons i inputs :
  stop_requests (i :: inputs) = ((if is_stop i then 1 else 0) + stop_requests inputs)%nat.
Proof. unfold stop_requests. rewrite filter_cons. by destruct (is_stop i). Qed.

Lemma seen_cons i inputs (seen : gset Z) :
  list_to_set (omap stop_pid (i :: inputs)) ∪ seen =
  list_to_set (omap stop_pid inputs) ∪
    match stop_pid i with Some p => {[p]} ∪ seen | None => seen end.
Proof. csimpl. destruct (stop_pid i); csimpl; set_solver. Qed.

Lemma stop_steps peers0 inputs r r' effs n k seen :
  stop_inv peers0 r n k seen -> (n + stop_requests inputs <= 1)%nat ->
  (forall p, p ∈ omap stop_pid inputs -> p ∈ peers0) -> NoDup peers0 ->
  steps r inputs = Some (r', effs) ->
  stop_inv peers0 r' (n + stop_requests inputs) (k + replies effs)
    (list_to_set (omap stop_pid inputs) ∪ seen).
Proof.
  revert r effs n k seen. induction inputs as [|i inputs IH];
    intros r effs n k seen Hinv Hn Hp Hnd Hs; simpl in Hs.
  - simplify_eq. csimpl. by rewrite !Nat.add_0_r, union_empty_l_L.
  - apply bind_Some in Hs as ([r1 e1] & H1 & Hs). apply bind_Some in Hs as ([r2 e2] & H2 & Hs).
    simplify_eq. rewrite stop_requests_cons in Hn |- *.
    rewrite seen_cons, replies_app, !Nat.add_assoc.
    eapply IH; [eapply stop_step; [exact Hinv|lia| |done|exact H1]|lia| |done|exact H2].
    + intros p Hin. apply Hp. csimpl. rewrite Hin. set_solver.
    + intros p Hin. apply Hp. csimpl. destruct (stop_pid i); set_solver.
Qed.

(** The stop protocol of a replica: if it is asked to stop at most once and only
    its peers announce their stop, then it answers the ask at most once, and it has
    answered exactly when it was asked and every peer announced its stop, in
    whatever order this happened. *)
Theorem replica_stop_protocol (ps : option (list Z)) (config_id pid : Z) (px : P)
    (inputs : list input) (r' : t) (effs : list ReplicaEffect) :
  NoDup (default [] ps) -> (stop_requests inputs <= 1)%nat ->
  (forall p, p ∈ omap stop_pid inputs -> p ∈ default [] ps) ->
  steps (with_ ps config_id pid px) inputs = Some (r', effs) ->
  (replies effs <= 1)%nat /\
  (replies effs = 1%nat <->
   stop_requests inputs = 1%nat /\ forall p, p ∈ default [] ps -> p ∈ omap stop_pid inputs).
Proof.
  intros Hnd Hn Hp Hs.
  assert (stop_inv (default [] ps) (with_ ps config_id pid px) 0 0 ∅) as Hinv by done.
  eapply stop_steps in Hs as (_ & _ & Hsub & Hk); [|exact Hinv|done|done|done].
  rewrite union_empty_r_L in Hsub, Hk. simpl in Hk.
  destruct (stop_requests inputs) as [|[|n]] eqn:E; [|clear Hn|lia].
  - destruct Hk as (_ & _ & ->). split; [lia|]. split; [done|]. by intros [? _].
  - destruct Hk as [_ Hk]. set (seen := list_to_set (omap stop_pid inputs) : gset Z) in *.
    assert (size seen = length (default [] ps) <->
            forall p, p ∈ default [] ps -> p ∈ omap stop_pid inputs) as Hall.
    { rewrite <- (size_list_to_set (C := gset Z) (default [] ps)) by done. split.
      - intros Hsz p Hin. apply (elem_of_list_to_set (C := gset Z)). fold seen.
        apply set_subseteq_size_eq in Hsub; [|by rewrite Hsz].
        rewrite Hsub. by apply elem_of_list_to_set.
      - intros Hin. f_equal. apply set_eq. intros p. unfold seen.
        rewrite !elem_of_list_to_set. split; [apply Hp|apply Hin]. }
    destruct (decide _) as [Hd|Hd]; destruct Hk as [_ ->].
    + split; [lia|]. split; [|done]. intros _. split; [done|]. by apply Hall.
    + split; [lia|]. split; [done|]. intros [_ Hin]. by apply Hall in Hin.
Qed.
End replica.

(** ** An instance of the core

    A core that decides every proposal at once; the examples evaluate on it. *)
Definition instant_core : PaxosCore MemorySequence.t (Ballot.t * list Entry).
Proof.
  refine {|
    paxos_with := fun _ _ _ st _ => (Ballot.default, entries_of st.1);
    propose_normal := fun p d => ((p.1, p.2 ++ [Normal d]), None);
    paxos_propose_reconfiguration := fun p nodes _ =>
      ((p.1, p.2 ++ [StopSignEntry (mkStopSign 2 nodes None)]), None);
    paxos_handle := fun p _ => p;
    paxos_handle_leader := fun p l => (leader_round l, p.2);
    get_outgoing_msgs := fun p => (p, []);
    paxos_get_promise := fst;
    paxos_get_current_leader := fun p => Ballot.pid p.1;
    get_decided_entries := fun p => ((p.1, []), p.2);
    get_chosen_entries := fun p from to => default [] (entries_between p.2 from to);
    stop_and_get_sequence := fun p => (p, MemorySequence.mk p.2);
    paxos_stopped := fun _ => false;
    reconnected := fun p _ => p |}.
Defined.

Definition no_raft : RaftMessage := Build_RaftMessage unit (fun _ => 0) (fun _ => 0).

Definition example_replica : t (P := Ballot.t * list Entry) :=
  with_ (Some [2; 3]) 1 1 (Ballot.with_ 4 1, [Normal [x2a]; StopSignEntry (mkStopSign 2 [1; 3; 4] None)]).

Lemma replica_reports_leader_witness :
  let R := no_raft in let C := instant_core in
  exists r' effs, step 0 example_replica (LeaderElected (mkLeader 1 (Ballot.with_ 5 1))) =
    Some (r', effs) /\ reports example_replica r' effs /\ leader_ballot r' = Ballot.with_ 5 1.
Proof.
  intros R C.
  destruct (step 0 example_replica (LeaderElected (mkLeader 1 (Ballot.with_ 5 1))))
    as [[r' effs]|] eqn:H; [|vm_compute in H; discriminate H].
  exists r', effs. split; [reflexivity|]. split.
  - apply (replica_reports_leader 0 example_replica r' _ effs H).
  - vm_compute in H. injection H as <- _. reflexivity.
Defined.

Lemma get_decided_spec_witness :
  let R := no_raft in let C := instant_core in
  exists r' effs f, get_decided example_replica = (r', effs) /\
    responses effs = [[x2a]] /\ finals effs = [f] /\
    continued_nodes (fm_nodes f) ++ new_nodes (fm_nodes f) ≡ₚ [1; 3; 4].
Proof.
  intros R C. destruct (get_decided example_replica) as [r' effs] eqn:H.
  destruct (get_decided_spec example_replica r' effs (Ballot.with_ 4 1, [])
    [Normal [x2a]; StopSignEntry (mkStopSign 2 [1; 3; 4] None)]) as [Hr Ha];
    [vm_compute; reflexivity|exact H|].
  assert ((current_leader r' =? pid example_replica) = true) as Hl.
  { vm_compute in H. injection H as <- _. reflexivity. }
  rewrite Hl in Hr, Ha. apply Forall2_cons_inv_l in Ha as (f & fs & Hf & Hnil & Heq).
  apply Forall2_nil_inv_l in Hnil. subst fs.
  exists r', effs, f. split; [reflexivity|]. split; [exact Hr|]. split; [exact Heq|].
  apply Hf.
Defined.

Lemma replica_stop_protocol_witness :
  let R := no_raft in let C := instant_core in
  let inputs := [Communication (InStopMsg 3); Local (StopReplica true) [];
                 Communication (InStopMsg 2)] in
  exists r' effs, steps 0 example_replica inputs = Some (r', effs) /\ replies effs = 1%nat.
Proof.
  intros R C inputs. destruct (steps 0 example_replica inputs) as [[r' effs]|] eqn:H;
    [|vm_compute in H; discriminate H].
  exists r', effs. split; [reflexivity|].
  destruct (replica_stop_protocol 0 (Some [2; 3]) 1 1 (paxos example_replica) inputs r' effs)
    as [_ Hiff].
  - apply (bool_decide_unpack _), I.
  - apply (bool_decide_unpack _), I.
  - intros p Hp. vm_compute in Hp |- *. set_solver.
  - exact H.
  - apply Hiff. split; [reflexivity|]. intros p Hp. vm_compute in Hp |- *. set_solver.
Defined.

End PaxosReplica.
