(* ===== verification/KvTrace.v ===== *)
(** Traces of a key-value store and their check ([shared_rust/src/lib.rs], [test_utils]).

    [is_linearizable] searches for an order of the operations of one key; it backtracks on
    a stack of register values which it shares between the branches.  The reference is
    the definition of linearizability: an order of the operations that keeps the order of
    those that do not overlap, and in which every read returns the last write. *)

From S2P Require Import Prelude.

Module Kv.

(** ** Traces *)

Inductive KVOperation := ReadInvokation | ReadResponse | WriteInvokation | WriteResponse.

#[global] Instance KVOperation_eq_dec : EqDecision KVOperation.
Proof. solve_decision. Defined.

Record KVTimestamp := mkKVTimestamp {
  key : Z;
  operation : KVOperation;
  value : option Z;
  time : Z;
  sender : Z }.

#[global] Instance KVTimestamp_eq_dec : EqDecision KVTimestamp.
Proof. solve_decision. Defined.

(** ** The check *)

Fixpoint get_minimal_ops (trace : list KVTimestamp) : list KVTimestamp :=
  match trace with
  | [] => []
  | entry :: trace =>
      match operation entry with
      | ReadInvokation | WriteInvokation => entry :: get_minimal_ops trace
      | _ => []
      end
  end.

Definition get_response_value (invokation : KVTimestamp) (trace : list KVTimestamp) : option Z :=
  match operation invokation with
  | ReadInvokation =>
      match list_find (fun x => operation x = ReadResponse /\ sender x = sender invokation) trace with
      | Some (_, ts) => value ts
      | None => None
      end
  | _ => value invokation
  end.

(** [None] is the failed [assert!]. *)
Definition remove_op (entry : KVTimestamp) (trace : list KVTimestamp) : option (list KVTimestamp) :=
  let cloned := filter (fun x => sender x <> sender entry) trace in
  if (length cloned <? length trace)%nat then Some cloned else None.

(** The loop over the minimal operations; [rec] is the recursive call.  The stack [s] is
    passed by reference, so what a failed branch leaves on it is seen by the next one. *)
Fixpoint try_ops (rec : list KVTimestamp -> list Z -> option (bool * list Z))
    (h : list KVTimestamp) (minimal_ops : list KVTimestamp) (s : list Z)
    : option (bool * list Z) :=
  match minimal_ops with
  | [] => Some (false, s)
  | op :: minimal_ops =>
      response_val ← get_response_value op h;
      removed_op_trace ← remove_op op h;
      match operation op with
      | WriteInvokation | WriteResponse =>
          '(found, s) ← rec removed_op_trace (s ++ [response_val]);
          if found : bool then Some (true, s) else try_ops rec h minimal_ops (removelast s)
      | ReadInvokation | ReadResponse =>
          top ← last s;
          if top =? response_val then
            '(found, s) ← rec removed_op_trace s;
            if found : bool then Some (true, s) else try_ops rec h minimal_ops s
          else try_ops rec h minimal_ops s
      end
  end.

(** The fuel bounds the depth of the recursion: every call removes an operation. *)
Fixpoint is_linearizable (fuel : nat) (h : list KVTimestamp) (s : list Z)
    : option (bool * list Z) :=
  match h, fuel with
  | [], _ => Some (true, s)
  | _, O => None
  | _, S fuel => try_ops (is_linearizable fuel) h (get_minimal_ops h) s
  end.

(** [sort_by_key(|x| x.time)], which is stable. *)
Fixpoint insert_by_time (x : KVTimestamp) (l : list KVTimestamp) : list KVTimestamp :=
  match l with
  | [] => [x]
  | y :: l => if time x <? time y then x :: y :: l else y :: insert_by_time x l
  end.

Definition sort_by_time (l : list KVTimestamp) : list KVTimestamp :=
  fold_left (fun sorted x => insert_by_time x sorted) l [].

(** [into_group_map]: the keys, and the entries of a key in their order. *)
Definition keys (timestamps : list KVTimestamp) : list Z := remove_dups (map key timestamps).
Definition group (timestamps : list KVTimestamp) (k : Z) : list KVTimestamp :=
  filter (fun x => key x = k) timestamps.

Fixpoint check_keys (timestamps : list KVTimestamp) (ks : list Z) : option bool :=
  match ks with
  | [] => Some true
  | k :: ks =>
      let trace := sort_by_time (group timestamps k) in
      '(found, _) ← is_linearizable (length trace) trace [0];
      if found : bool then check_keys timestamps ks else Some false
  end.

Definition all_linearizable (timestamps : list KVTimestamp) : option bool :=
  check_keys timestamps (keys timestamps).

(** ** Linearizability *)

Definition is_inv (x : KVTimestamp) : Prop :=
  operation x = ReadInvokation \/ operation x = WriteInvokation.

#[global] Instance is_inv_dec x : Decision (is_inv x).
Proof. unfold is_inv. apply _. Defined.

(** The operations of a trace, by their invocations. *)
Definition invocations (h : list KVTimestamp) : list KVTimestamp := filter is_inv h.

(** [a] ended before [b] began. *)
Definition precedes (h : list KVTimestamp) (a b : KVTimestamp) : Prop :=
  exists h1 h2, h = h1 ++ b :: h2 /\ Exists (fun r => ~ is_inv r /\ sender r = sender a) h1.

(** In the order [l] no operation comes after one that it precedes. *)
Definition respects (h l : list KVTimestamp) : Prop :=
  StronglySorted (fun b a => ~ precedes h a b) l.

(** Every read returns the last written value, [v] at first. *)
Fixpoint legal (h : list KVTimestamp) (v : Z) (l : list KVTimestamp) : Prop :=
  match l with
  | [] => True
  | op :: l =>
      match operation op with
      | WriteInvokation | WriteResponse =>
          exists w, get_response_value op h = Some w /\ legal h w l
      | ReadInvokation | ReadResponse => get_response_value op h = Some v /\ legal h v l
      end
  end.

Definition linearization (h : list KVTimestamp) (v : Z) (l : list KVTimestamp) : Prop :=
  l ≡ₚ invocations h /\ respects h l /\ legal h v l.

Definition linearizable (h : list KVTimestamp) (v : Z) : Prop := exists l, linearization h v l.

(** Every operation has ended, and every process made one. *)
Definition op_of (h : list KVTimestamp) (s : Z) : list KVTimestamp :=
  filter (fun x => sender x = s) h.

Definition complete_op (l : list KVTimestamp) : Prop :=
  match l with
  | [inv; resp] =>
      match operation inv, operation resp with
      | ReadInvokation, ReadResponse => is_Some (value resp)
      | WriteInvokation, WriteResponse => is_Some (value inv)
      | _, _ => False
      end
  | _ => False
  end.

Definition complete (h : list KVTimestamp) : Prop :=
  forall x, x ∈ h -> complete_op (op_of h (sender x)).

(** ** Parts of a trace *)

(** The trace without the operation of a process. *)
Definition without (s : Z) (h : list KVTimestamp) : list KVTimestamp :=
  filter (fun x => sender x <> s) h.

Lemma elem_of_invocations h x : x ∈ invocations h <-> is_inv x /\ x ∈ h.
Proof. unfold invocations. by rewrite list_elem_of_filter. Qed.

Lemma elem_of_without s h x : x ∈ without s h <-> sender x <> s /\ x ∈ h.
Proof. unfold without. by rewrite list_elem_of_filter. Qed.

Lemma elem_of_op_of h s x : x ∈ op_of h s <-> sender x = s /\ x ∈ h.
Proof. unfold op_of. by rewrite list_elem_of_filter. Qed.

Lemma op_of_without s t h : t <> s -> op_of (without s h) t = op_of h t.
Proof.
  intros Ht. unfold op_of, without. rewrite list_filter_filter. apply list_filter_iff.
  intros x. split; [by intros [? _]|]. intros Hx. split; [done|congruence].
Qed.

Lemma find_filter (P Q : KVTimestamp -> Prop) `{!forall x, Decision (P x)}
    `{!forall x, Decision (Q x)} l :
  (forall x, P x -> Q x) -> snd <$> list_find P (filter Q l) = snd <$> list_find P l.
Proof.
  intros Hpq. induction l as [|x l IH]; [done|]. rewrite filter_cons.
  destruct (decide (Q x)) as [Hq|Hq]; simpl.
  - destruct (decide (P x)); [done|]. revert IH.
    destruct (list_find P (filter Q l)) as [[]|], (list_find P l) as [[]|]; simpl; congruence.
  - rewrite decide_False by auto. rewrite IH. by destruct (list_find P l) as [[]|].
Qed.

(** The value of an operation depends on its own entries only. *)
Lemma get_response_value_op_of op h :
  get_response_value op h = get_response_value op (op_of h (sender op)).
Proof.
  unfold get_response_value, op_of. destruct (operation op); try done.
  set (P := fun x => operation x = ReadResponse /\ sender x = sender op).
  pose proof (find_filter P (fun x => sender x = sender op) h) as Hf.
  destruct (list_find P h) as [[]|], (list_find P (filter _ h)) as [[]|];
    specialize (Hf ltac:(by intros x [])); simpl in Hf; congruence.
Qed.

Lemma legal_ext h1 h2 v l :
  (forall a, a ∈ l -> op_of h1 (sender a) = op_of h2 (sender a)) ->
  legal h1 v l -> legal h2 v l.
Proof.
  revert v. induction l as [|op l IH]; intros v Hop; [done|].
  assert (get_response_value op h2 = get_response_value op h1) as Hv.
  { by rewrite get_response_value_op_of, <- Hop, <- get_response_value_op_of by apply list_elem_of_here. }
  simpl. rewrite Hv. pose proof (fun v => IH v (fun a Ha => Hop a (list_elem_of_further _ _ _ Ha))).
  destruct (operation op); naive_solver.
Qed.

Lemma StronglySorted_mono {A} (R S : A -> A -> Prop) l :
  (forall a b, a ∈ l -> b ∈ l -> R a b -> S a b) -> StronglySorted R l -> StronglySorted S l.
Proof.
  intros Hi. induction 1 as [|a l Hs IH Hf]; constructor.
  - apply IH. intros x y Hx Hy. apply Hi; by apply list_elem_of_further.
  - rewrite Forall_forall in *. intros b Hb. apply Hi; [apply list_elem_of_here|by apply list_elem_of_further|auto].
Qed.

Lemma filter_split (P : KVTimestamp -> Prop) `{!forall x, Decision (P x)} h k1 b k2 :
  filter P h = k1 ++ b :: k2 ->
  exists h1 h2, h = h1 ++ b :: h2 /\ filter P h1 = k1.
Proof.
  revert k1. induction h as [|x h IH]; intros k1 Hf; [by destruct k1|].
  rewrite filter_cons in Hf. destruct (decide (P x)) as [Hx|Hx].
  - destruct k1 as [|y k1]; simpl in Hf; injection Hf as -> Hf; [by exists [], h|].
    apply IH in Hf as (h1 & h2 & -> & <-). exists (y :: h1), h2. split; [done|].
    by rewrite filter_cons, decide_True.
  - apply IH in Hf as (h1 & h2 & -> & <-). exists (x :: h1), h2. split; [done|].
    by rewrite filter_cons, decide_False.
Qed.

Lemma precedes_without s h a b :
  sender a <> s -> sender b <> s -> precedes (without s h) a b <-> precedes h a b.
Proof.
  intros Ha Hb. unfold precedes, without. split.
  - intros (k1 & k2 & Hk & Hr). apply filter_split in Hk as (h1 & h2 & -> & <-).
    exists h1, h2. split; [done|]. apply Exists_exists in Hr as (r & Hr & ?).
    apply Exists_exists. exists r. by apply list_elem_of_filter in Hr as [_ ?].
  - intros (h1 & h2 & -> & Hr). eexists (filter _ h1), (filter _ h2). split.
    + rewrite filter_app, filter_cons, decide_True by done. done.
    + apply Exists_exists in Hr as (r & Hr & Hi & Hs). apply Exists_exists. exists r.
      split; [|done]. apply list_elem_of_filter. split; [congruence|done].
Qed.

(** ** Complete traces *)

Lemma complete_cases h x :
  complete h -> x ∈ h ->
  exists i r, op_of h (sender x) = [i; r] /\ is_inv i /\ ~ is_inv r /\
    is_Some (get_response_value i [i; r]).
Proof.
  intros Hc Hx. pose proof (Hc x Hx) as Ho. destruct (op_of h (sender x)) as [|i [|r []]] eqn:E;
    try done.
  exists i, r. split; [done|]. assert (Hs : sender r = sender i).
  { assert (Hi : i ∈ op_of h (sender x)) by (rewrite E; set_solver).
    assert (Hr : r ∈ op_of h (sender x)) by (rewrite E; set_solver).
    apply elem_of_op_of in Hi as [-> _]. by apply elem_of_op_of in Hr as [-> _]. }
  simpl in Ho. unfold is_inv, get_response_value. simpl.
  destruct (operation i) eqn:Ei, (operation r) eqn:Er; try done; split_and!; try tauto;
    try (intros [?|?]; congruence); try done.
  rewrite decide_False by (intros [? _]; congruence).
  by rewrite decide_True by done.
Qed.

Lemma complete_without s h : complete h -> complete (without s h).
Proof.
  intros Hc x [Hs Hx]%elem_of_without. rewrite op_of_without by done. by apply Hc.
Qed.

Lemma complete_once h h1 x h2 : complete h -> h = h1 ++ x :: h2 -> x ∉ h1.
Proof.
  intros Hc Hh Hin. assert (Hx : x ∈ h) by (rewrite Hh; set_solver).
  destruct (complete_cases h x Hc Hx) as (i & r & Ho & Hi & Hr & _).
  rewrite Hh in Ho. unfold op_of in Ho. rewrite filter_app, filter_cons, decide_True in Ho by done.
  assert (Hin1 : x ∈ filter (fun y => sender y = sender x) h1) by by apply list_elem_of_filter.
  destruct (filter _ h1) as [|y [|z l1]]; simpl in Ho; [set_solver| |by destruct l1].
  injection Ho as -> -> _. apply list_elem_of_singleton in Hin1. congruence.
Qed.

Lemma complete_NoDup h : complete h -> NoDup h.
Proof.
  intros Hc. assert (Hs : forall h1 x h2, h = h1 ++ x :: h2 -> x ∉ h1) by (intros; by eapply complete_once).
  clear Hc. induction h as [|x h IH] using rev_ind; [constructor|].
  apply NoDup_app. split_and!; [|intros y Hy ->%list_elem_of_singleton|apply NoDup_singleton].
  - apply IH. intros h1 y h2 ->. apply (Hs h1 y (h2 ++ [x])). by rewrite <- app_assoc.
  - by apply (Hs h x []).
Qed.

Lemma complete_unique h a b :
  complete h -> a ∈ invocations h -> b ∈ invocations h -> sender a = sender b -> a = b.
Proof.
  intros Hc [Ha Hah]%elem_of_invocations [Hb Hbh]%elem_of_invocations Hs.
  destruct (complete_cases h a Hc Hah) as (i & r & Ho & Hi & Hr & _).
  assert (Hain : a ∈ op_of h (sender a)) by by apply elem_of_op_of.
  assert (Hbin : b ∈ op_of h (sender a)) by by apply elem_of_op_of.
  rewrite Ho in Hain, Hbin. set_unfold. naive_solver.
Qed.

Lemma complete_invocation h x :
  complete h -> x ∈ h -> exists i, i ∈ invocations h /\ sender i = sender x.
Proof.
  intros Hc Hx. destruct (complete_cases h x Hc Hx) as (i & r & Ho & Hi & _).
  assert (Hin : i ∈ op_of h (sender x)) by (rewrite Ho; set_solver).
  apply elem_of_op_of in Hin as [Hs Hin]. exists i. split; [by apply elem_of_invocations|done].
Qed.

Lemma complete_value h op :
  complete h -> op ∈ invocations h -> is_Some (get_response_value op h).
Proof.
  intros Hc Hop. pose proof Hop as [Hi Hin]%elem_of_invocations.
  destruct (complete_cases h op Hc Hin) as (i & r & Ho & Hii & Hr & Hv).
  rewrite get_response_value_op_of, Ho.
  assert (Hop' : op ∈ op_of h (sender op)) by by apply elem_of_op_of.
  rewrite Ho in Hop'. set_unfold. naive_solver.
Qed.

(** ** The first operation of a linearization *)

Lemma elem_of_minimal h op :
  op ∈ get_minimal_ops h <->
  is_inv op /\ exists h1 h2, h = h1 ++ op :: h2 /\ Forall is_inv h1.
Proof.
  induction h as [|x h IH]; simpl.
  - split; [by intros ?%not_elem_of_nil|]. intros (_ & [|] & ? & ? & _); done.
  - assert (Hx : get_minimal_ops (x :: h) = if decide (is_inv x) then x :: get_minimal_ops h else []).
    { simpl. case_decide as Hi; unfold is_inv in Hi; destruct (operation x); naive_solver. }
    simpl in Hx. rewrite Hx. case_decide as Hi.
    + rewrite elem_of_cons, IH. split.
      * intros [->|(Ho & h1 & h2 & -> & Hf)]; (split; [done|]); [by exists [], h|].
        exists (x :: h1), h2. split; [done|by constructor].
      * intros (Ho & [|y h1] & h2 & Hh & Hf); injection Hh as -> Hh; [by left|].
        right. split; [done|]. apply Forall_cons in Hf as [_ Hf]. eauto.
    + split; [by intros ?%not_elem_of_nil|].
      intros (Ho & [|y h1] & h2 & Hh & Hf); injection Hh as -> _; [done|].
      by apply Forall_cons in Hf as [? _].
Qed.

(** The operations that the loop tries are those that no operation precedes. *)
Lemma minimal_unpreceded h op :
  complete h -> op ∈ invocations h ->
  op ∈ get_minimal_ops h <-> forall a, a ∈ invocations h -> ~ precedes h a op.
Proof.
  intros Hc [Hi Hin]%elem_of_invocations. rewrite elem_of_minimal. split.
  - intros (_ & h1 & h2 & Hh & Hf) a _ (k1 & k2 & Hk & Hr).
    assert (k1 = h1) as ->.
    { pose proof (complete_once _ _ _ _ Hc Hh). pose proof (complete_once _ _ _ _ Hc Hk).
      rewrite Hh in Hk. apply app_inj_pivot in Hk.
      rewrite <- !list_elem_of_In in Hk. naive_solver. }
    apply Exists_exists in Hr as (r & Hr & Hn & _). rewrite Forall_forall in Hf. by apply Hn, Hf.
  - intros Hp. split; [done|]. apply list_elem_of_split in Hin as (h1 & h2 & Hh).
    exists h1, h2. split; [done|]. apply Forall_forall. intros r Hr.
    destruct (decide (is_inv r)) as [|Hn]; [done|]. exfalso.
    destruct (complete_invocation h r Hc) as (a & Ha & Hs); [rewrite Hh; set_solver|].
    apply (Hp a Ha). exists h1, h2. split; [done|]. apply Exists_exists. by exists r.
Qed.

Lemma not_precedes_self h op : complete h -> op ∈ invocations h -> ~ precedes h op op.
Proof.
  intros Hc [Hi Hin]%elem_of_invocations (h1 & h2 & Hh & Hr).
  destruct (complete_cases h op Hc Hin) as (i & r & Ho & Hii & Hrr & _).
  apply Exists_exists in Hr as (x & Hx & Hn & Hs). rewrite Hh in Ho. unfold op_of in Ho.
  rewrite filter_app, filter_cons, decide_True in Ho by done.
  assert (Hx' : x ∈ filter (fun y => sender y = sender op) h1) by by apply list_elem_of_filter.
  destruct (filter _ h1) as [|y [|z l1]]; simpl in Ho; [set_solver| |by destruct l1].
  injection Ho as -> -> _. apply list_elem_of_singleton in Hx'. congruence.
Qed.

(** Taking the first operation off a linearization. *)
Lemma invocations_without s h : invocations (without s h) = without s (invocations h).
Proof.
  unfold invocations, without. rewrite !list_filter_filter. apply list_filter_iff. tauto.
Qed.

Lemma NoDup_invocations h : complete h -> NoDup (invocations h).
Proof. intros Hc. by apply NoDup_filter, complete_NoDup. Qed.

Lemma invocations_cons h op l :
  complete h -> op ∈ invocations h -> l ≡ₚ invocations (without (sender op) h) ->
  op :: l ≡ₚ invocations h.
Proof.
  intros Hc Hop Hl. rewrite Hl, invocations_without. apply NoDup_Permutation.
  - apply NoDup_cons. split; [by intros [? _]%elem_of_without|].
    by apply NoDup_filter, NoDup_invocations.
  - by apply NoDup_invocations.
  - intros x. rewrite elem_of_cons, elem_of_without. split; [naive_solver|].
    intros Hx. destruct (decide (sender x = sender op)) as [Hs|]; [left|by right].
    by eapply complete_unique.
Qed.

Lemma invocations_tail h op l :
  complete h -> op :: l ≡ₚ invocations h -> l ≡ₚ invocations (without (sender op) h).
Proof.
  intros Hc Hl. apply (Permutation_cons_inv (a := op)). rewrite Hl. symmetry.
  apply invocations_cons; [done| |done]. rewrite <- Hl. apply list_elem_of_here.
Qed.

(** What an order of the other operations means in the trace and in the rest of it. *)
Lemma respects_without h s l :
  Forall (fun a => sender a <> s) l -> respects (without s h) l <-> respects h l.
Proof.
  rewrite Forall_forall. intros Hl. unfold respects.
  split; apply StronglySorted_mono; intros a b Ha Hb; rewrite precedes_without by auto; done.
Qed.

Lemma legal_without h s v l :
  Forall (fun a => sender a <> s) l -> legal (without s h) v l <-> legal h v l.
Proof.
  rewrite Forall_forall. intros Hl.
  split; apply legal_ext; intros a Ha; by rewrite op_of_without by auto.
Qed.

Lemma others h s l :
  l ≡ₚ invocations (without s h) -> Forall (fun a => sender a <> s) l.
Proof.
  intros Hl. apply Forall_forall. intros a Ha. rewrite Hl in Ha.
  by apply elem_of_invocations in Ha as [_ [? _]%elem_of_without].
Qed.

(** The value of the register after an operation, if it is legal at [v]. *)
Definition after (h : list KVTimestamp) (v : Z) (op : KVTimestamp) (w : Z) : Prop :=
  get_response_value op h = Some w /\
  match operation op with
  | WriteInvokation | WriteResponse => True
  | ReadInvokation | ReadResponse => w = v
  end.

Lemma legal_cons h v op l :
  legal h v (op :: l) <-> exists w, after h v op w /\ legal h w l.
Proof. unfold after. simpl. destruct (operation op); naive_solver. Qed.

Lemma linearization_cons h v op l :
  complete h -> linearization h v (op :: l) <->
  op ∈ get_minimal_ops h /\
  exists w, after h v op w /\ linearization (without (sender op) h) w l.
Proof.
  intros Hc. unfold linearization. split.
  - intros (Hp & Hr & (w & Hw & Hl)%legal_cons).
    assert (Hop : op ∈ invocations h) by (rewrite <- Hp; apply list_elem_of_here).
    pose proof (invocations_tail _ _ _ Hc Hp) as Hp'. pose proof (others _ _ _ Hp') as Ho.
    apply StronglySorted_inv in Hr as [Hr Hf]. split.
    + rewrite minimal_unpreceded by done. intros a Ha. rewrite <- Hp in Ha.
      apply elem_of_cons in Ha as [->|Ha]; [|by rewrite Forall_forall in Hf; apply Hf].
      by apply not_precedes_self.
    + exists w. split; [done|]. by rewrite respects_without, legal_without.
  - intros (Hm & w & Hw & Hp & Hr & Hl).
    assert (Hop : op ∈ invocations h).
    { apply elem_of_minimal in Hm as (Hi & h1 & h2 & -> & _). apply elem_of_invocations.
      split; [done|]. set_solver. }
    pose proof (others _ _ _ Hp) as Ho. rewrite respects_without in Hr by done.
    rewrite legal_without in Hl by done. split_and!.
    + by apply invocations_cons.
    + constructor; [done|]. rewrite minimal_unpreceded in Hm by done.
      apply Forall_forall. intros a Ha. apply Hm. rewrite Hp in Ha.
      apply elem_of_invocations in Ha as [? [_ ?]%elem_of_without]. by apply elem_of_invocations.
    + apply legal_cons. eauto.
Qed.

(** ** The search *)

(** The search of a trace whose register holds [v]: it ends, with the stack as it was
    unless it succeeded, and it succeeds exactly if there is a linearization. *)
Definition decides (res : option (bool * list Z)) (s : list Z) (P : Prop) : Prop :=
  exists b s', res = Some (b, s') /\ (b = false -> s' = s) /\ (b = true <-> P).

Lemma remove_op_spec h op :
  op ∈ h -> remove_op op h = Some (without (sender op) h) /\
  (length (without (sender op) h) < length h)%nat.
Proof.
  intros Hin. assert (Hl : (length (without (sender op) h) < length h)%nat).
  { unfold without. apply length_filter_lt with op; [done|]. by intros []. }
  split; [|done]. unfold remove_op. unfold without in *. by rewrite (proj2 (Nat.ltb_lt _ _) Hl).
Qed.

Lemma decides_iff res s P Q : decides res s P -> (P <-> Q) -> decides res s Q.
Proof. intros (b & s' & ? & ? & ?) HPQ. exists b, s'. rewrite <- HPQ. tauto. Qed.

(** One branch of the search, on its stack, and the branches after it. *)
Lemma decides_or res rest s1 s (P Q : Prop) :
  decides res s1 P -> decides (rest s1) s Q ->
  decides ('(found, s') ← res; if found : bool then Some (true, s') else rest s') s (P \/ Q).
Proof.
  intros (b & s' & -> & Hs & Hb) (b2 & s2 & Hr & Hs2 & Hb2). simpl. destruct b.
  - eexists _, _. split_and!; [done|done|]. split; [|done]. intros _. left. by apply Hb.
  - rewrite Hs by done. eexists _, _. split_and!; [exact Hr|done|].
    assert (~ P) by (intros ?%Hb; done). tauto.
Qed.

Lemma try_ops_decides rec h ops s v :
  complete h -> last s = Some v ->
  (forall op, op ∈ ops -> op ∈ invocations h) ->
  (forall h' s' v', complete h' -> (length h' < length h)%nat -> last s' = Some v' ->
     decides (rec h' s') s' (linearizable h' v')) ->
  decides (try_ops rec h ops s) s
    (exists op, op ∈ ops /\ exists w, after h v op w /\ linearizable (without (sender op) h) w).
Proof.
  intros Hc Hv Hops Hrec. induction ops as [|op ops IH].
  { eexists _, _. split_and!; [done|done|]. split; [done|]. by intros (? & ?%not_elem_of_nil & _). }
  specialize (IH (fun o Ho => Hops o (list_elem_of_further _ _ _ Ho))).
  pose proof (Hops op (list_elem_of_here _ _)) as Hop.
  pose proof Hop as [Hi Hin]%elem_of_invocations.
  destruct (complete_value h op Hc Hop) as [w Hw].
  destruct (remove_op_spec h op Hin) as [Hrem Hlt].
  pose proof (complete_without (sender op) h Hc) as Hc'.
  set (Q := exists o, o ∈ ops /\ exists x, after h v o x /\ linearizable (without (sender o) h) x).
  apply (decides_iff _ _ ((exists x, after h v op x /\ linearizable (without (sender op) h) x) \/ Q));
    [|unfold Q; setoid_rewrite elem_of_cons; naive_solver].
  cbn [try_ops]. rewrite Hw, Hrem. cbn [mbind option_bind]. unfold after at 1. rewrite Hw.
  assert (Hwrite : decides
    ('(found, s') ← rec (without (sender op) h) (s ++ [w]);
     if found : bool then Some (true, s') else try_ops rec h ops (removelast s')) s
    (linearizable (without (sender op) h) w \/ Q)).
  { apply decides_or with (s1 := s ++ [w]) (rest := fun s' => try_ops rec h ops (removelast s')).
    - apply Hrec; [done|done|by rewrite last_snoc].
    - by rewrite removelast_last. }
  assert (Hread : decides
    (top ← last s;
     if top =? w then
       '(found, s') ← rec (without (sender op) h) s;
       if found : bool then Some (true, s') else try_ops rec h ops s'
     else try_ops rec h ops s) s
    ((w = v /\ linearizable (without (sender op) h) w) \/ Q)).
  { rewrite Hv. simpl. destruct (Z.eqb_spec v w) as [<-|Hne].
    - apply (decides_iff _ _ (linearizable (without (sender op) h) v \/ Q)); [|naive_solver].
      apply decides_or with (s1 := s) (rest := fun s' => try_ops rec h ops s'); [by apply Hrec|exact IH].
    - apply (decides_iff _ _ Q); [exact IH|]. clearbody Q. naive_solver. }
  clearbody Q. destruct (operation op);
    (eapply decides_iff; [first [exact Hwrite|exact Hread]|naive_solver]).
Qed.

Lemma is_linearizable_decides fuel h s v :
  complete h -> (length h <= fuel)%nat -> last s = Some v ->
  decides (is_linearizable fuel h s) s (linearizable h v).
Proof.
  revert h s v. induction fuel as [|fuel IH]; intros h s v Hc Hl Hs; destruct h as [|x h'] eqn:Hh;
    try (simpl in Hl; lia).
  1,2: eexists _, _; split_and!; [done|done|]; split; [|done]; intros _; exists [];
    split_and!; [done|constructor|done].
  rewrite <- Hh in *. assert (Hx : x ∈ h) by (rewrite Hh; apply list_elem_of_here).
  replace (is_linearizable (S fuel) h s)
    with (try_ops (is_linearizable fuel) h (get_minimal_ops h) s) by (by rewrite Hh).
  eapply decides_iff; [eapply try_ops_decides; [done|exact Hs| |]|].
  - intros op (Hi & h1 & h2 & -> & _)%elem_of_minimal. apply elem_of_invocations.
    split; [done|]. set_solver.
  - intros k s' v' Hk Hlt Hlast. apply IH; [done|lia|done].
  - unfold linearizable. split.
    + intros (op & Hop & w & Hw & l & Hlin). exists (op :: l). apply linearization_cons; eauto.
    + intros ([|op l] & Hlin).
      * destruct Hlin as [Hp _]. destruct (complete_invocation h x Hc Hx) as (i & Hi & _).
        rewrite <- Hp in Hi. by apply not_elem_of_nil in Hi.
      * apply linearization_cons in Hlin as (? & w & ? & ?); [|done]. eauto 10.
Qed.

(** ** All keys *)

Definition trace_of (timestamps : list KVTimestamp) (k : Z) : list KVTimestamp :=
  sort_by_time (group timestamps k).

Lemma check_keys_spec timestamps ks :
  Forall (fun k => complete (trace_of timestamps k)) ks ->
  exists b, check_keys timestamps ks = Some b /\
    (b = true <-> Forall (fun k => linearizable (trace_of timestamps k) 0) ks).
Proof.
  induction 1 as [|k ks Hk Hks IH]; [by exists true|]. simpl. fold (trace_of timestamps k).
  destruct (is_linearizable_decides (length (trace_of timestamps k)) _ [0] 0 Hk) as (b & s & -> & _ & Hb);
    [lia|done|]. simpl. setoid_rewrite Forall_cons. destruct b.
  - destruct IH as (b & Hck & Hb2). exists b. split; [exact Hck|]. rewrite Hb2. tauto.
  - exists false. split; [done|]. split; [done|]. intros [?%Hb _]. done.
Qed.

(** Sorting is stable and keeps the entries. *)
Lemma insert_by_time_perm x l : insert_by_time x l ≡ₚ x :: l.
Proof.
  induction l as [|y l IH]; [done|]. simpl. destruct (_ <? _); [done|]. rewrite IH. by constructor.
Qed.

Lemma insert_by_time_sorted x l :
  StronglySorted (fun a b => time a <= time b) l ->
  StronglySorted (fun a b => time a <= time b) (insert_by_time x l).
Proof.
  induction 1 as [|y l Hl IH Hf]; simpl; [by repeat constructor|].
  destruct (Z.ltb_spec (time x) (time y)).
  - constructor; [by constructor|]. constructor; [lia|]. eapply Forall_impl; [exact Hf|]. simpl. lia.
  - constructor; [done|]. rewrite insert_by_time_perm. by constructor.
Qed.

Lemma fold_insert_spec l sorted :
  StronglySorted (fun a b => time a <= time b) sorted ->
  let l' := fold_left (fun sorted x => insert_by_time x sorted) l sorted in
  l' ≡ₚ l ++ sorted /\ StronglySorted (fun a b => time a <= time b) l'.
Proof.
  revert sorted. induction l as [|x l IH]; intros sorted Hs; [done|]. simpl.
  destruct (IH (insert_by_time x sorted)) as [Hp Hs']; [by apply insert_by_time_sorted|].
  split; [|done]. rewrite Hp, insert_by_time_perm. by rewrite Permutation_middle.
Qed.

Lemma trace_of_spec timestamps k :
  trace_of timestamps k ≡ₚ group timestamps k /\
  StronglySorted (fun a b => time a <= time b) (trace_of timestamps k).
Proof.
  destruct (fold_insert_spec (group timestamps k) []) as [Hp Hs]; [constructor|].
  rewrite app_nil_r in Hp. done.
Qed.

Lemma no_key timestamps k : k ∉ keys timestamps -> group timestamps k = [].
Proof.
  intros Hk. destruct (group timestamps k) as [|x l] eqn:E; [done|]. exfalso. apply Hk.
  assert (Hx : x ∈ group timestamps k) by (rewrite E; apply list_elem_of_here).
  apply list_elem_of_filter in Hx as [<- Hx]. by apply elem_of_remove_dups, list_elem_of_fmap_2.
Qed.

(** C22: The check of a recorded run of the key-value store is a decision procedure for
    linearizability: on traces in which every operation has ended and every process made
    one operation per key, it ends without a panic, and it accepts exactly if for every
    key there is an order of its operations that keeps the order of those that do not
    overlap in time and in which every read returns the last write, or 0. *)
Theorem all_linearizable_correct timestamps :
  (forall k, complete (trace_of timestamps k)) ->
  exists b, all_linearizable timestamps = Some b /\
    (b = true <-> forall k, linearizable (trace_of timestamps k) 0).
Proof.
  intros Hc. destruct (check_keys_spec timestamps (keys timestamps)) as (b & Hb & Hiff).
  { apply Forall_forall. intros k _. apply Hc. }
  exists b. split; [exact Hb|]. rewrite Hiff, Forall_forall. split; [|naive_solver].
  intros Hl k. destruct (decide (k ∈ keys timestamps)) as [|Hk]; [by apply Hl|].
  exists []. assert (trace_of timestamps k = []) as ->.
  { destruct (trace_of_spec timestamps k) as [Hp _]. apply Permutation_nil_r. rewrite Hp.
    by rewrite no_key. }
  split_and!; [done|constructor|done].
Qed.

(** ** Examples *)

#[export] Instance complete_op_dec l : Decision (complete_op l).
Proof.
  unfold complete_op. destruct l as [|i [|r []]]; try apply _.
  destruct (operation i), (operation r); apply _.
Defined.

Definition all_complete (h : list KVTimestamp) : bool :=
  bool_decide (Forall (fun x => complete_op (op_of h (sender x))) h).

Lemma all_complete_spec h : all_complete h = true -> complete h.
Proof. unfold all_complete. rewrite bool_decide_eq_true. by rewrite Forall_forall. Qed.

Module KvExample.
Definition inv_w k s t v := mkKVTimestamp k WriteInvokation (Some v) t s.
Definition resp_w k s t v := mkKVTimestamp k WriteResponse (Some v) t s.
Definition inv_r k s t := mkKVTimestamp k ReadInvokation None t s.
Definition resp_r k s t v := mkKVTimestamp k ReadResponse (Some v) t s.

(** On key 7 a read that overlaps two writes; on key 8 a read of the initial value. *)
Definition run : list KVTimestamp :=
  [resp_w 7 1 5 10; inv_w 7 1 1 10; inv_r 7 2 2; inv_r 8 3 0; resp_r 7 2 9 20;
   inv_w 7 4 6 20; resp_w 7 4 8 20; resp_r 8 3 3 0].
End KvExample.

Lemma all_linearizable_correct_witness :
  all_linearizable KvExample.run = Some true /\
  linearizable (trace_of KvExample.run 7) 0.
Proof.
  destruct (all_linearizable_correct KvExample.run) as (b & Hb & Hiff).
  - intros k. apply all_complete_spec.
    destruct (decide (k = 7)) as [->|H7]; [reflexivity|].
    destruct (decide (k = 8)) as [->|H8]; [reflexivity|].
    unfold trace_of. rewrite no_key; [reflexivity|].
    intros Hk. vm_compute in Hk. apply elem_of_cons in Hk as [?|Hk]; [by apply H7|].
    apply list_elem_of_singleton in Hk. by apply H8.
  - assert (Hr : all_linearizable KvExample.run = Some true) by reflexivity.
    split; [exact Hr|]. rewrite Hb in Hr. injection Hr as ->. by apply Hiff.
Defined.

(** A stale read is rejected. *)
Example stale_read :
  all_linearizable [KvExample.inv_w 7 1 1 10; KvExample.resp_w 7 1 2 10; KvExample.inv_r 7 2 3;
                    KvExample.resp_r 7 2 4 0] = Some false.
Proof. reflexivity. Qed.

(** [remove_op] takes all operations of a process with the first one, so the second
    operation of a process on a key is never checked: here a read of a value that was
    never written is accepted. *)
Example second_operation_unchecked :
  all_linearizable [KvExample.inv_w 7 1 1 10; KvExample.resp_w 7 1 2 10; KvExample.inv_r 7 1 3;
                    KvExample.resp_r 7 1 4 99] = Some true.
Proof. reflexivity. Qed.

End Kv.
