(* ===== verification/PaxosComp.v ===== *)
(** The Omni-Paxos node ([paxos.rs], [PaxosComp]).

    The node owns, for every configuration it takes part in, a replica, a leader
    election component and a communicator.  It routes client proposals, hands a
    finished configuration over to the next one, and transfers the final sequences
    of finished configurations to nodes that join.  It reaches into its children
    ([on_definition]), so their states are part of its state. *)

From Stdlib Require Import Strings.Byte.
From S2P Require Import KvTrace.
From S2P Require Import Prelude MpMessages Partition Wire Election Ble VrLe MpLe.
From S2P Require Import PaxosWire MsgWire PaxosStorage Communicator PaxosReplica.

Import Omni PaxosWire MsgWire.

#[global] Instance SegmentIndex_eq_dec : EqDecision SegmentIndex.
Proof. solve_decision. Defined.
#[global] Instance SegmentRequest_eq_dec : EqDecision SegmentRequest.
Proof. solve_decision. Defined.

Module PaxosComp.
Section comp.
Context {Sq P : Type} `{RaftMessage} `{BufOps} `{Sequence Sq} `{PaxosCore Sq P}.

Abbreviation Replica := (PaxosReplica.t (P := P)).

Record ConfigMeta := mkConfigMeta {
  meta_id : Z;
  meta_leader : Z;
  meta_pending_reconfig : bool }.

Definition config_meta_new (id : Z) : ConfigMeta := mkConfigMeta id 0 false.

(** A client's message as it arrived, with its sender. *)
Record NetMessage := mkNetMessage { nm_sender : Path; nm_data : AtomicBroadcastMsg }.

Record HoldBackProposals := mkHoldBack {
  hb_deserialised : list Proposal;
  hb_serialised : list NetMessage }.

Definition hb_empty : HoldBackProposals := mkHoldBack [] [].
Definition hb_is_empty (h : HoldBackProposals) : bool :=
  match hb_serialised h, hb_deserialised h with [], [] => true | _, _ => false end.

Inductive LeaderElectionComp :=
| LeBle (c : Ble.t Path)
| LeVr (c : VrLe.t Path)
| LeMultiPaxos (c : MpLe.t Path).

Inductive LeaderElection := BLE | VR | MultiPaxos.

(** The experiment parameters the node reads. *)
Record ExperimentParams := mkExperimentParams {
  election_timeout_ms : Z;
  initial_election_factor : Z;
  preloaded_log_size : nat }.

Record t := mk {
  pid : Z;
  initial_configuration : list Z;
  is_reconfig_exp : bool;
  leader_election : LeaderElection;
  paxos_replicas : list Replica;
  le_comps : list LeaderElectionComp;
  communicator_comps : list Comm;
  active_config : ConfigMeta;
  nodes : list Path;
  prev_sequences : gmap Z Sq;
  stopped : bool;
  iteration_id : Z;
  next_config_id : option Z;
  pending_segments : gmap Z (list SegmentIndex);
  received_segments : gmap Z (list SequenceSegment);
  active_config_ready_peers : list Z;
  handled_seq_requests : list SegmentRequest;
  cached_client : option Path;
  hb_proposals : HoldBackProposals;
  experiment_params : ExperimentParams;
  first_config_id : Z;
  removed : bool;
  disconnected_peers : list Z }.

Definition set_pid (c : t) (x : Z) : t :=
  mk x (initial_configuration c) (is_reconfig_exp c) (leader_election c)
     (paxos_replicas c) (le_comps c) (communicator_comps c) (active_config c) (nodes c)
     (prev_sequences c) (stopped c) (iteration_id c) (next_config_id c)
     (pending_segments c) (received_segments c) (active_config_ready_peers c)
     (handled_seq_requests c) (cached_client c) (hb_proposals c) (experiment_params c)
     (first_config_id c) (removed c) (disconnected_peers c).

Definition set_paxos_replicas (c : t) (x : list Replica) : t :=
  mk (pid c) (initial_configuration c) (is_reconfig_exp c) (leader_election c) x
     (le_comps c) (communicator_comps c) (active_config c) (nodes c) (prev_sequences c)
     (stopped c) (iteration_id c) (next_config_id c) (pending_segments c)
     (received_segments c) (active_config_ready_peers c) (handled_seq_requests c)
     (cached_client c) (hb_proposals c) (experiment_params c) (first_config_id c)
     (removed c) (disconnected_peers c).

Definition set_le_comps (c : t) (x : list LeaderElectionComp) : t :=
  mk (pid c) (initial_configuration c) (is_reconfig_exp c) (leader_election c)
     (paxos_replicas c) x (communicator_comps c) (active_config c) (nodes c)
     (prev_sequences c) (stopped c) (iteration_id c) (next_config_id c)
     (pending_segments c) (received_segments c) (active_config_ready_peers c)
     (handled_seq_requests c) (cached_client c) (hb_proposals c) (experiment_params c)
     (first_config_id c) (removed c) (disconnected_peers c).

Definition set_communicator_comps (c : t) (x : list Comm) : t :=
  mk (pid c) (initial_configuration c) (is_reconfig_exp c) (leader_election c)
     (paxos_replicas c) (le_comps c) x (active_config c) (nodes c) (prev_sequences c)
     (stopped c) (iteration_id c) (next_config_id c) (pending_segments c)
     (received_segments c) (active_config_ready_peers c) (handled_seq_requests c)
     (cached_client c) (hb_proposals c) (experiment_params c) (first_config_id c)
     (removed c) (disconnected_peers c).

Definition set_active_config (c : t) (x : ConfigMeta) : t :=
  mk (pid c) (initial_configuration c) (is_reconfig_exp c) (leader_election c)
     (paxos_replicas c) (le_comps c) (communicator_comps c) x (nodes c)
     (prev_sequences c) (stopped c) (iteration_id c) (next_config_id c)
     (pending_segments c) (received_segments c) (active_config_ready_peers c)
     (handled_seq_requests c) (cached_client c) (hb_proposals c) (experiment_params c)
     (first_config_id c) (removed c) (disconnected_peers c).

Definition set_nodes (c : t) (x : list Path) : t :=
  mk (pid c) (initial_configuration c) (is_reconfig_exp c) (leader_election c)
     (paxos_replicas c) (le_comps c) (communicator_comps c) (active_config c) x
     (prev_sequences c) (stopped c) (iteration_id c) (next_config_id c)
     (pending_segments c) (received_segments c) (active_config_ready_peers c)
     (handled_seq_requests c) (cached_client c) (hb_proposals c) (experiment_params c)
     (first_config_id c) (removed c) (disconnected_peers c).

Definition set_prev_sequences (c : t) (x : gmap Z Sq) : t :=
  mk (pid c) (initial_configuration c) (is_reconfig_exp c) (leader_election c)
     (paxos_replicas c) (le_comps c) (communicator_comps c) (active_config c) (nodes c)
     x (stopped c) (iteration_id c) (next_config_id c) (pending_segments c)
     (received_segments c) (active_config_ready_peers c) (handled_seq_requests c)
     (cached_client c) (hb_proposals c) (experiment_params c) (first_config_id c)
     (removed c) (disconnected_peers c).

Definition set_stopped (c : t) (x : bool) : t :=
  mk (pid c) (initial_configuration c) (is_reconfig_exp c) (leader_election c)
     (paxos_replicas c) (le_comps c) (communicator_comps c) (active_config c) (nodes c)
     (prev_sequences c) x (iteration_id c) (next_config_id c) (pending_segments c)
     (received_segments c) (active_config_ready_peers c) (handled_seq_requests c)
     (cached_client c) (hb_proposals c) (experiment_params c) (first_config_id c)
     (removed c) (disconnected_peers c).

Definition set_iteration_id (c : t) (x : Z) : t :=
  mk (pid c) (initial_configuration c) (is_reconfig_exp c) (leader_election c)
     (paxos_replicas c) (le_comps c) (communicator_comps c) (active_config c) (nodes c)
     (prev_sequences c) (stopped c) x (next_config_id c) (pending_segments c)
     (received_segments c) (active_config_ready_peers c) (handled_seq_requests c)
     (cached_client c) (hb_proposals c) (experiment_params c) (first_config_id c)
     (removed c) (disconnected_peers c).

Definition set_next_config_id (c : t) (x : option Z) : t :=
  mk (pid c) (initial_configuration c) (is_reconfig_exp c) (leader_election c)
     (paxos_replicas c) (le_comps c) (communicator_comps c) (active_config c) (nodes c)
     (prev_sequences c) (stopped c) (iteration_id c) x (pending_segments c)
     (received_segments c) (active_config_ready_peers c) (handled_seq_requests c)
     (cached_client c) (hb_proposals c) (experiment_params c) (first_config_id c)
     (removed c) (disconnected_peers c).

Definition set_pending_segments (c : t) (x : gmap Z (list SegmentIndex)) : t :=
  mk (pid c) (initial_configuration c) (is_reconfig_exp c) (leader_election c)
     (paxos_replicas c) (le_comps c) (communicator_comps c) (active_config c) (nodes c)
     (prev_sequences c) (stopped c) (iteration_id c) (next_config_id c) x
     (received_segments c) (active_config_ready_peers c) (handled_seq_requests c)
     (cached_client c) (hb_proposals c) (experiment_params c) (first_config_id c)
     (removed c) (disconnected_peers c).

Definition set_received_segments (c : t) (x : gmap Z (list SequenceSegment)) : t :=
  mk (pid c) (initial_configuration c) (is_reconfig_exp c) (leader_election c)
     (paxos_replicas c) (le_comps c) (communicator_comps c) (active_config c) (nodes c)
     (prev_sequences c) (stopped c) (iteration_id c) (next_config_id c)
     (pending_segments c) x (active_config_ready_peers c) (handled_seq_requests c)
     (cached_client c) (hb_proposals c) (experiment_params c) (first_config_id c)
     (removed c) (disconnected_peers c).

Definition set_active_config_ready_peers (c : t) (x : list Z) : t :=
  mk (pid c) (initial_configuration c) (is_reconfig_exp c) (leader_election c)
     (paxos_replicas c) (le_comps c) (communicator_comps c) (active_config c) (nodes c)
     (prev_sequences c) (stopped c) (iteration_id c) (next_config_id c)
     (pending_segments c) (received_segments c) x (handled_seq_requests c)
     (cached_client c) (hb_proposals c) (experiment_params c) (first_config_id c)
     (removed c) (disconnected_peers c).

Definition set_handled_seq_requests (c : t) (x : list SegmentRequest) : t :=
  mk (pid c) (initial_configuration c) (is_reconfig_exp c) (leader_election c)
     (paxos_replicas c) (le_comps c) (communicator_comps c) (active_config c) (nodes c)
     (prev_sequences c) (stopped c) (iteration_id c) (next_config_id c)
     (pending_segments c) (received_segments c) (active_config_ready_peers c) x
     (cached_client c) (hb_proposals c) (experiment_params c) (first_config_id c)
     (removed c) (disconnected_peers c).

Definition set_cached_client (c : t) (x : option Path) : t :=
  mk (pid c) (initial_configuration c) (is_reconfig_exp c) (leader_election c)
     (paxos_replicas c) (le_comps c) (communicator_comps c) (active_config c) (nodes c)
     (prev_sequences c) (stopped c) (iteration_id c) (next_config_id c)
     (pending_segments c) (received_segments c) (active_config_ready_peers c)
     (handled_seq_requests c) x (hb_proposals c) (experiment_params c)
     (first_config_id c) (removed c) (disconnected_peers c).

Definition set_hb_proposals (c : t) (x : HoldBackProposals) : t :=
  mk (pid c) (initial_configuration c) (is_reconfig_exp c) (leader_election c)
     (paxos_replicas c) (le_comps c) (communicator_comps c) (active_config c) (nodes c)
     (prev_sequences c) (stopped c) (iteration_id c) (next_config_id c)
     (pending_segments c) (received_segments c) (active_config_ready_peers c)
     (handled_seq_requests c) (cached_client c) x (experiment_params c)
     (first_config_id c) (removed c) (disconnected_peers c).

Definition set_first_config_id (c : t) (x : Z) : t :=
  mk (pid c) (initial_configuration c) (is_reconfig_exp c) (leader_election c)
     (paxos_replicas c) (le_comps c) (communicator_comps c) (active_config c) (nodes c)
     (prev_sequences c) (stopped c) (iteration_id c) (next_config_id c)
     (pending_segments c) (received_segments c) (active_config_ready_peers c)
     (handled_seq_requests c) (cached_client c) (hb_proposals c) (experiment_params c)
     x (removed c) (disconnected_peers c).

Definition set_removed (c : t) (x : bool) : t :=
  mk (pid c) (initial_configuration c) (is_reconfig_exp c) (leader_election c)
     (paxos_replicas c) (le_comps c) (communicator_comps c) (active_config c) (nodes c)
     (prev_sequences c) (stopped c) (iteration_id c) (next_config_id c)
     (pending_segments c) (received_segments c) (active_config_ready_peers c)
     (handled_seq_requests c) (cached_client c) (hb_proposals c) (experiment_params c)
     (first_config_id c) x (disconnected_peers c).

Definition set_disconnected_peers (c : t) (x : list Z) : t :=
  mk (pid c) (initial_configuration c) (is_reconfig_exp c) (leader_election c)
     (paxos_replicas c) (le_comps c) (communicator_comps c) (active_config c) (nodes c)
     (prev_sequences c) (stopped c) (iteration_id c) (next_config_id c)
     (pending_segments c) (received_segments c) (active_config_ready_peers c)
     (handled_seq_requests c) (cached_client c) (hb_proposals c) (experiment_params c)
     (first_config_id c) (removed c) x.

(** What the node does: messages, forwards with the original sender, messages to
    the child with an index, starts of children, and effects of the children's own
    operations. *)
Inductive CompEffect :=
| CeTell (dst : Path) (data : NetData)
| CeForward (dst : Path) (m : NetMessage)
| CeInitAck (dst : Path) (iteration_id : Z)
| CeReplica (idx : nat) (m : PaxosReplicaMsg)
| CeStart (idx : nat)
| CeStopLe (idx : nat) (pid : Z)
| CeLe (idx : nat) (e : LeEffect Path)
| CeCommunicator (idx : nat) (e : CommEffect)
| CeRetry (config_id : Z)
| CeKilled.

Definition with_ (initial_configuration : list Z) (is_reconfig_exp : bool)
    (params : ExperimentParams) (le : LeaderElection) : t :=
  mk 0 initial_configuration is_reconfig_exp le [] [] [] (config_meta_new 0) [] ∅ false 0 None
     ∅ ∅ [] [] None hb_empty params 0 false [].

(** [pid as usize - 1]; [None] is the [panic!]. *)
Definition get_actorpath (c : t) (pid : Z) : option Path := vec_get (nodes c) (pid -u64 1).

Definition ble_path (system : Z) (pid config_id iteration_id : Z) : Path :=
  Named system (ABle pid config_id iteration_id).
Definition communicator_path (system : Z) (pid config_id iteration_id : Z) : Path :=
  Named system (ACommunicator pid config_id iteration_id).

Definition derive_ble_actorpath (c : t) (pid config_id : Z) : option Path :=
  actorpath ← get_actorpath c pid;
  Some (ble_path (path_system actorpath) pid config_id (iteration_id c)).

(** The loop of [derive_actorpaths]; a path that is not named is only logged. *)
Fixpoint derive_actorpaths (c : t) (config_id : Z) (peers : list Z)
    : option (list Path * gmap Z Path) :=
  match peers with
  | [] => Some ([], ∅)
  | p :: peers =>
      actorpath ← get_actorpath c p;
      '(ble_peers, communicator_peers) ← derive_actorpaths c config_id peers;
      Some (match actorpath with
            | Named sys _ =>
                (ble_path sys p config_id (iteration_id c) :: ble_peers,
                 <[p := communicator_path sys p config_id (iteration_id c)]> communicator_peers)
            | Unique _ _ => (ble_peers, communicator_peers)
            end)
  end.

(** [create_raw_proposal] of [client.rs]: the payload after the id is empty. *)
Definition create_raw_proposal (id : Z) : bytes := put_u64 id.

Definition create_raw_paxos (c : t) (config_id : Z) (raw_peers : option (list Z))
    (skip_prepare_use_leader : option Leader) : P :=
  let reconfig_replica := match raw_peers with None => true | Some _ => false end in
  let initial_log :=
    if is_reconfig_exp c && negb reconfig_replica then
      map (fun id => Normal (create_raw_proposal id))
          (seqZ 1 (Z.of_nat (preloaded_log_size (experiment_params c))))
    else [] in
  paxos_with config_id (pid c) (default [1] raw_peers)
    (new_with_sequence initial_log, MemoryState.new) skip_prepare_use_leader.

Definition leader_pair (l : Leader) : Z * Ballot.t := (leader_pid l, leader_round l).

Definition le_set_lagging_delay (le : LeaderElectionComp) (d : Z) : LeaderElectionComp :=
  match le with
  | LeBle ble => LeBle (Ble.set_lagging_delay ble d)
  | LeVr vr => LeVr (VrLe.set_lagging_delay vr d)
  | LeMultiPaxos mp => LeMultiPaxos (MpLe.set_lagging_delay mp d)
  end.

Definition LAGGING_DELAY_FACTOR : Z := 2.

(** The three new components; [None] is a panic: a pid without a path, no client,
    or a view-change election without views. *)
Definition create_replica (c : t) (config_id : Z) (initial_nodes : option (list Z))
    (ble_quick_start : bool) (skip_prepare_n : option Leader) : option t :=
  let nodes := default [] initial_nodes in
  let peers := filter (fun p => p <> pid c) nodes in
  '(ble_peers, communicator_peers) ← derive_actorpaths c config_id peers;
  let raw_paxos_peers := match peers with [] => None | _ => Some peers end in
  let raw_paxos := create_raw_paxos c config_id raw_paxos_peers skip_prepare_n in
  let paxos := PaxosReplica.with_ raw_paxos_peers config_id (pid c) raw_paxos in
  client ← cached_client c;
  let communicator := comm_with communicator_peers client in
  let election_timeout := election_timeout_ms (experiment_params c) in
  let factor := initial_election_factor (experiment_params c) in
  le_comp ←
    match leader_election c with
    | BLE => Some (LeBle (Ble.with_ ble_peers (pid c) election_timeout ble_quick_start
                            (leader_pair <$> skip_prepare_n) factor))
    | VR =>
        views ← mapM (fun p => path ← derive_ble_actorpath c p config_id; Some (p, path)) nodes;
        vr ← VrLe.with_ views (pid c) election_timeout ble_quick_start factor;
        Some (LeVr vr)
    | MultiPaxos => Some (LeMultiPaxos (MpLe.with_ ble_peers (pid c) election_timeout
                            ble_quick_start (leader_pair <$> skip_prepare_n) factor))
    end;
  let lagging_delay := election_timeout / LAGGING_DELAY_FACTOR in
  let c := set_paxos_replicas c (paxos_replicas c ++ [paxos]) in
  let c := set_le_comps c (le_comps c ++ [le_set_lagging_delay le_comp lagging_delay]) in
  Some (set_communicator_comps c
          (communicator_comps c ++ [comm_set_lagging_delay communicator lagging_delay])).

(** [(config_id - self.first_config_id) as usize]. *)
Definition config_idx (c : t) (config_id : Z) : Z := config_id -u32 first_config_id c.

Definition ble_set_peers (ble : Ble.t Path) (peers : list Path) : Ble.t Path :=
  Ble.mk (Ble.pid ble) peers (Ble.hb_round ble) (Ble.ballots ble) (Ble.current_ballot ble)
    (Ble.candidate ble) (Ble.leader ble) (Ble.hb_delay ble) (length peers / 2 + 1)%nat
    (Ble.timer ble) (Ble.stopped ble) (Ble.stopped_peers ble) (Ble.stop_ask ble)
    (Ble.quick_timeout ble) (Ble.initial_election_factor ble) (Ble.links ble).

(** [None] is a panic: no component at the index, an election other than [BLE], or
    an initial leader that was set before. *)
Definition set_initial_replica_state_after_reconfig (c : t) (config_id : Z)
    (skip_prepare_use_leader : option Leader) (peers : list Z)
    : option (t * list CompEffect) :=
  let idx := config_idx c config_id in
  let n := Z.to_nat idx in
  paxos ← vec_get (paxos_replicas c) idx;
  '(ble_peers, communicator_peers) ← derive_actorpaths c config_id peers;
  let core := paxos_with config_id (pid c) peers (seq_new, MemoryState.new)
                skip_prepare_use_leader in
  let c := set_paxos_replicas c
             (<[n := PaxosReplica.set_paxos (PaxosReplica.set_peers paxos peers) core]>
                (paxos_replicas c)) in
  le ← vec_get (le_comps c) idx;
  '(le, effs) ←
    match le with
    | LeBle ble =>
        let ble := ble_set_peers ble ble_peers in
        match skip_prepare_use_leader with
        | Some l =>
            '(ble, effs) ← Ble.set_initial_leader ble (leader_pid l) (leader_round l);
            Some (LeBle ble, effs)
        | None => Some (LeBle ble, [])
        end
    | _ => None
    end;
  let c := set_le_comps c (<[n := le]> (le_comps c)) in
  communicator ← vec_get (communicator_comps c) idx;
  let c := set_communicator_comps c
             (<[n := set_comm_peers communicator communicator_peers]> (communicator_comps c)) in
  Some (c, map (CeLe n) effs).

Definition start_replica (c : t) (config_id : Z) : option (t * list CompEffect) :=
  let idx := config_idx c config_id in
  _ ← vec_get (paxos_replicas c) idx;
  _ ← vec_get (le_comps c) idx;
  _ ← vec_get (communicator_comps c) idx;
  let c := set_active_config c (config_meta_new config_id) in
  Some (set_next_config_id c None, [CeStart (Z.to_nat idx)]).
(** ** Stopping and killing *)

(** The children are asked to stop, the last replica with an acknowledgement to the
    client; a replica that was not started is started, so that it can answer.
    [None] is the failed [assert!] or [expect]. *)
Definition stop_components (c : t) : option (t * list CompEffect) :=
  let c := set_stopped c true in
  let num_configs := Z.of_nat (length (paxos_replicas c)) mod 2 ^ 32 in
  let stopping_before_started := meta_id (active_config c) <? num_configs in
  let les := map (fun i => CeStopLe i (pid c)) (seq 0 (length (le_comps c))) in
  match length (paxos_replicas c) with
  | O => None
  | S rest =>
      let replicas := map (fun i => CeReplica i (StopReplica false)) (seq 0 rest) ++
                      [CeReplica rest (StopReplica true)] in
      '(c, started) ←
        (if stopping_before_started then
           let unstarted_replica :=
             if meta_id (active_config c) =? 0 then first_config_id c else num_configs in
           start_replica c unstarted_replica
         else Some (c, []));
      Some (c, les ++ replicas ++ started)
  end.

Definition kill_components (c : t) : t * list CompEffect :=
  let c := set_le_comps c [] in
  let c := set_paxos_replicas c [] in
  (set_communicator_comps c [], [CeKilled]).

(** ** Proposals *)

(** [None] is the failed [expect]. *)
Definition to_active_replica (c : t) (m : PaxosReplicaMsg) : option (list CompEffect) :=
  let idx := config_idx c (meta_id (active_config c)) in
  _ ← vec_get (paxos_replicas c) idx;
  Some [CeReplica (Z.to_nat idx) m].

Definition propose (c : t) (p : Proposal) : option (list CompEffect) :=
  to_active_replica c (Propose p).

Definition propose_reconfiguration (c : t) (rp : ReconfigurationProposal)
    : option (list CompEffect) :=
  to_active_replica c (ProposeReconfiguration rp).

Definition deserialise_and_propose (c : t) (m : NetMessage) : option (list CompEffect) :=
  match nm_data m with
  | ABProposal p => propose c p
  | ABReconfigurationProposal rp => propose_reconfiguration c rp
  | _ => Some []
  end.

Definition propose_hb_proposals (c : t) : option (t * list CompEffect) :=
  let hb := hb_proposals c in
  let c := set_hb_proposals c hb_empty in
  ser ← mapM (deserialise_and_propose c) (hb_serialised hb);
  deser ← mapM (propose c) (hb_deserialised hb);
  Some (c, concat ser ++ concat deser).

Definition forward_hb_proposals (c : t) (pid : Z) : option (t * list CompEffect) :=
  let hb := hb_proposals c in
  let c := set_hb_proposals c hb_empty in
  receiver ← get_actorpath c pid;
  Some (c, map (CeForward receiver) (hb_serialised hb) ++
           map (fun p => CeTell receiver (DAtomicBroadcast (ABProposal p)))
               (hb_deserialised hb)).

(** ** Transfer of sequences *)

(** [None] is the division by zero. *)
Definition get_node_segment_idx (seq_len : Z) (from_nodes : list Z)
    : option (list (Z * SegmentIndex)) :=
  offset ← u64_div seq_len (Z.of_nat (length from_nodes));
  Some (imap (fun i pid =>
          let from_idx := Z.of_nat i *u64 offset in
          let to_idx := if seq_len <? from_idx +u64 offset then seq_len
                        else from_idx +u64 offset in
          (pid, mkSegmentIndex from_idx to_idx)) from_nodes).

Definition request_segment (c : t) (config_id : Z) (node : Z * SegmentIndex)
    : option CompEffect :=
  receiver ← get_actorpath c node.1;
  Some (CeTell receiver (DReconfiguration
          (SegmentRequestMsg (mkSegmentRequest config_id node.2 (pid c))))).

Definition pull_sequence (c : t) (config_id seq_len : Z) (from_nodes : list Z)
    : option (t * list CompEffect) :=
  indices ← get_node_segment_idx seq_len from_nodes;
  requests ← mapM (request_segment c config_id) indices;
  Some (set_pending_segments c (<[config_id := indices.*2]> (pending_segments c)),
        requests ++ [CeRetry config_id]).

(** The peer asked again for the [i]-th remaining segment; [None] is the remainder
    by zero. *)
Definition retry_peer (peers : list Z) (i : nat) : option Z :=
  let num_active_peers := length peers in
  if (i <? num_active_peers)%nat then peers !! (num_active_peers - 1 - i)%nat
  else if (num_active_peers =? 0)%nat then None
  else peers !! (num_active_peers - 1 - i mod num_active_peers)%nat.

Definition retry_pending_segments (c : t) (config_id : Z) : option (t * list CompEffect) :=
  requests ←
    match pending_segments c !! config_id with
    | Some remaining =>
        mapM (fun ix : nat * SegmentIndex =>
                p ← retry_peer (active_config_ready_peers c) ix.1;
                request_segment c config_id (p, ix.2)) (imap pair remaining)
    | None => Some []
    end;
  Some (c, requests ++ [CeRetry config_id]).

Definition get_sequence_metadata (c : t) (config_id : Z) : SequenceMetaData :=
  mkSequenceMetaData config_id
    (match prev_sequences c !! config_id with
     | Some prev_seq => get_sequence_len prev_seq
     | None => 0
     end).

(** [None] is the failed [expect]. *)
Definition handle_segment (c : t) (config_id : Z) (s : SequenceSegment) : option t :=
  let segments := default [] (received_segments c !! config_id) in
  let c := set_received_segments c (<[config_id := segments ++ [s]]> (received_segments c)) in
  pending ← pending_segments c !! config_id;
  let pending := filter (fun idx => idx <> PaxosWire.get_index s) pending in
  Some (set_pending_segments c (<[config_id := pending]> (pending_segments c))).

(** The stable [sort_by_key]. *)
Fixpoint insert_segment (s : SequenceSegment) (l : list SequenceSegment)
    : list SequenceSegment :=
  match l with
  | [] => [s]
  | x :: l' => if get_from_idx s <=? get_from_idx x then s :: l else x :: insert_segment s l'
  end.
Definition sort_segments (l : list SequenceSegment) : list SequenceSegment :=
  foldr insert_segment [] l.

Definition handle_completed_sequence_transfer (c : t) (config_id : Z)
    : option (t * list CompEffect) :=
  received ← received_segments c !! config_id;
  let c := set_received_segments c (delete config_id (received_segments c)) in
  let all_segments := sort_segments received in
  _ ← last all_segments;
  let sequence := concat (map seg_entries all_segments) in
  let c := set_prev_sequences c
             (<[config_id := new_with_sequence sequence]> (prev_sequences c)) in
  let c := set_pending_segments c (delete config_id (pending_segments c)) in
  next ← next_config_id c;
  if Z.of_nat (size (prev_sequences c)) + 1 =? next then start_replica c next
  else Some (c, []).

Definition handle_segment_request (c : t) (sr : SegmentRequest) (requestor : Path)
    : option (t * list CompEffect) :=
  if (meta_leader (active_config c) =? sr_requestor_pid sr)
     || bool_decide (sr ∈ handled_seq_requests c) then Some (c, [])
  else
    let prev_seq_metadata := get_sequence_metadata c (sr_config_id sr -u32 1) in
    let reply succeeded entries :=
      CeTell requestor (DReconfiguration (SegmentTransferMsg
        (mkSegmentTransfer (sr_config_id sr) succeeded prev_seq_metadata
           (mkSequenceSegment (sr_idx sr) entries)))) in
    match prev_sequences c !! sr_config_id sr with
    | Some seq =>
        entries ← get_entries seq (seg_from (sr_idx sr)) (seg_to (sr_idx sr));
        Some (set_handled_seq_requests c (handled_seq_requests c ++ [sr]),
              [reply true entries])
    | None =>
        if meta_id (active_config c) =? sr_config_id sr then
          effs ← to_active_replica c (LocalSegmentReq requestor sr prev_seq_metadata);
          Some (c, effs)
        else Some (c, [reply false []])
    end.

Definition has_handled_segment (c : t) (config_id : Z) (idx : SegmentIndex) : bool :=
  let already_handled :=
    match received_segments c !! config_id with
    | Some segments => existsb (fun s => bool_decide (PaxosWire.get_index s = idx)) segments
    | None => false
    end in
  already_handled || (config_id <=? meta_id (active_config c))
  || bool_decide (is_Some (prev_sequences c !! config_id)).

(** [rnd mod n] stands for the index drawn among the [n] ready peers. *)
Definition handle_segment_transfer (c : t) (st : SegmentTransfer) (rnd : nat)
    : option (t * list CompEffect) :=
  let idx := PaxosWire.get_index (st_segment st) in
  let config_id := st_config_id st in
  if has_handled_segment c config_id idx then Some (c, [])
  else
    let prev_config_id := meta_config_id (st_metadata st) in
    let prev_seq_len := meta_len (st_metadata st) in
    '(c, pulled) ←
      (if negb (prev_config_id =? 0)
          && negb (bool_decide (is_Some (prev_sequences c !! prev_config_id)))
          && negb (bool_decide (is_Some (pending_segments c !! prev_config_id)))
       then pull_sequence c prev_config_id prev_seq_len (active_config_ready_peers c)
       else Some (c, []));
    if st_succeeded st then
      c ← handle_segment c config_id (st_segment st);
      pending ← pending_segments c !! config_id;
      match pending with
      | [] =>
          '(c, effs) ← handle_completed_sequence_transfer c config_id;
          Some (c, pulled ++ effs)
      | _ => Some (c, pulled)
      end
    else
      match active_config_ready_peers c with
      | [] => Some (c, pulled)
      | peers =>
          p ← peers !! (rnd mod length peers)%nat;
          request ← request_segment c config_id (p, idx);
          Some (c, pulled ++ [request])
      end.

Definition reset_state (c : t) : t :=
  mk 0 (initial_configuration c) (is_reconfig_exp c) (leader_election c) [] [] []
     (config_meta_new 0) [] ∅ false 0 None ∅ ∅ [] [] None hb_empty (experiment_params c)
     0 false (disconnected_peers c).

(** ** Messages of the replicas *)

Definition receive_leader (c : t) (config_id leader round : Z) : option (t * list CompEffect) :=
  if meta_id (active_config c) =? config_id then
    let c := set_active_config c
               (mkConfigMeta (meta_id (active_config c)) leader
                  (meta_pending_reconfig (active_config c))) in
    if leader =? pid c then
      client ← cached_client c;
      '(c, effs) ← propose_hb_proposals c;
      Some (c, CeTell client (DAtomicBroadcast (ABLeader leader round)) :: effs)
    else if negb (hb_is_empty (hb_proposals c)) then forward_hb_proposals c leader
    else Some (c, [])
  else Some (c, []).

Definition receive_reconfig (c : t) (r : FinalMsg Sq) : option (t * list CompEffect) :=
  let prev_config_id := meta_id (active_config c) in
  let seq_metadata := mkSequenceMetaData prev_config_id
                        (get_sequence_len (fm_final_sequence r)) in
  let c := set_prev_sequences c
             (<[prev_config_id := fm_final_sequence r]> (prev_sequences c)) in
  '(c, effs) ←
    (if bool_decide (pid c ∈ continued_nodes (fm_nodes r)) then
       let peers := get_peers_of (fm_nodes r) (pid c) in
       '(c, e1) ← set_initial_replica_state_after_reconfig c (fm_config_id r)
                    (fm_skip_prepare_use_leader r) peers;
       '(c, e2) ← start_replica c (fm_config_id r);
       inits ← mapM (fun p =>
                 actorpath ← get_actorpath c p;
                 Some (CeTell actorpath (DReconfiguration (Init
                   (mkReconfigInit (fm_config_id r) (fm_nodes r) seq_metadata (pid c)
                      (fm_skip_prepare_use_leader r))))))
               (new_nodes (fm_nodes r));
       Some (c, e1 ++ e2 ++ inits)
     else Some (set_removed c true, []));
  if negb (hb_is_empty (hb_proposals c)) then
    receiver ←
      match fm_skip_prepare_use_leader r with
      | Some l => Some (leader_pid l)
      | None =>
          match continued_nodes (fm_nodes r) with
          | p :: _ => Some p
          | [] => head (new_nodes (fm_nodes r))
          end
      end;
    '(c, fwd) ← forward_hb_proposals c receiver;
    Some (c, effs ++ fwd)
  else Some (c, effs).

Definition receive_local (c : t) (msg : PaxosCompMsg Sq) : option (t * list CompEffect) :=
  match msg with
  | CompLeader config_id leader round => receive_leader c config_id leader round
  | CompPendingReconfig data =>
      let c := set_active_config c
                 (mkConfigMeta (meta_id (active_config c)) (meta_leader (active_config c)) true) in
      Some (set_hb_proposals c
              (mkHoldBack (hb_deserialised (hb_proposals c) ++ [mkProposal data])
                 (hb_serialised (hb_proposals c))), [])
  | CompReconfig r => receive_reconfig c r
  | CompKillComponents => Some (kill_components c)
  end.

(** ** Messages from the network *)

(** [init_data] is the serialised path of the client. *)
Record ActorInit := mkActorInit {
  init_pid : Z;
  init_id : Z;
  init_nodes : list Path;
  init_data : option bytes }.

Inductive PartitioningActorMsg :=
| ActorInitMsg (init : ActorInit)
| ActorInitAck (init_id : Z)
| ActorRun
| ActorDone
| ActorTestDone (timestamps : list Kv.KVTimestamp)
| ActorStop
| ActorStopAck.

Inductive Incoming :=
| InAtomicBroadcast (m : AtomicBroadcastMsg)
| InPartitioningExp (p : PartitioningExpMsg)
| InPartitioningActor (p : PartitioningActorMsg)
| InReconfiguration (rm : ReconfigurationMsg)
| InStop (s : StopMsg).

Definition receive_atomic_broadcast (c : t) (m : NetMessage) : option (t * list CompEffect) :=
  let hold_back :=
    Some (set_hb_proposals c
            (mkHoldBack (hb_deserialised (hb_proposals c))
               (hb_serialised (hb_proposals c) ++ [m])), []) in
  if stopped c then Some (c, [])
  else if removed c then
    client ← cached_client c;
    Some (c, [CeForward client m])
  else if meta_pending_reconfig (active_config c) then hold_back
  else
    let leader := meta_leader (active_config c) in
    if leader =? 0 then hold_back
    else if leader =? pid c then
      effs ← deserialise_and_propose c m;
      Some (c, effs)
    else
      path ← get_actorpath c leader;
      Some (c, [CeForward path m]).

(** An operation on every child of a vector, which may panic. *)
Fixpoint on_children {A : Type} (f : nat -> A -> option (A * list CompEffect)) (i : nat)
    (l : list A) : option (list A * list CompEffect) :=
  match l with
  | [] => Some ([], [])
  | x :: l =>
      '(x, e1) ← f i x;
      '(l, e2) ← on_children f (S i) l;
      Some (x :: l, e1 ++ e2)
  end.

Definition le_disconnect_peers (le : LeaderElectionComp) (peers : list Z) (delay : bool)
    (lagging_peer : option Z) : option (LeaderElectionComp * list (LeEffect Path)) :=
  match le with
  | LeBle ble => '(s, e) ← Ble.disconnect_peers ble peers delay lagging_peer; Some (LeBle s, e)
  | LeVr vr => '(s, e) ← VrLe.disconnect_peers vr peers delay lagging_peer; Some (LeVr s, e)
  | LeMultiPaxos mp =>
      '(s, e) ← MpLe.disconnect_peers mp peers delay lagging_peer; Some (LeMultiPaxos s, e)
  end.

Definition le_recover_peers (le : LeaderElectionComp) : LeaderElectionComp :=
  match le with
  | LeBle ble => LeBle (Ble.recover_peers ble)
  | LeVr vr => LeVr (VrLe.recover_peers vr)
  | LeMultiPaxos mp => LeMultiPaxos (MpLe.recover_peers mp)
  end.

Definition receive_partitioning (c : t) (p : PartitioningExpMsg) : option (t * list CompEffect) :=
  match p with
  | DisconnectPeers peers delay lagging_peer =>
      '(comms, e1) ← on_children (fun i comm =>
          '(comm, e) ← comm_disconnect_peers comm peers delay lagging_peer;
          Some (comm, map (CeCommunicator i) e)) 0 (communicator_comps c);
      '(les, e2) ← on_children (fun i le =>
          '(le, e) ← le_disconnect_peers le peers delay lagging_peer;
          Some (le, map (CeLe i) e)) 0 (le_comps c);
      let c := set_le_comps (set_communicator_comps c comms) les in
      Some (set_disconnected_peers c
              (peers ++ match lagging_peer with Some lp => [lp] | None => [] end), e1 ++ e2)
  | RecoverPeers =>
      let reconnect r :=
        PaxosReplica.set_paxos r
          (foldl reconnected (PaxosReplica.paxos r) (disconnected_peers c)) in
      let c := set_paxos_replicas c (map reconnect (paxos_replicas c)) in
      let c := set_communicator_comps c (map comm_recover_peers (communicator_comps c)) in
      let c := set_le_comps c (map le_recover_peers (le_comps c)) in
      Some (set_disconnected_peers c [], [])
  end.

(** The deserialisation of a path is the middleware's. *)
Context (deserialise_path : bytes -> option Path).

Definition receive_actor_init (c : t) (sender : Path) (init : ActorInit)
    : option (t * list CompEffect) :=
  let c := reset_state c in
  let c := set_nodes c (init_nodes init) in
  let c := set_pid c (init_pid init) in
  let c := set_iteration_id c (init_id init) in
  ser_client ← init_data init;
  client ← deserialise_path ser_client;
  let c := set_cached_client c (Some client) in
  c ←
    (if bool_decide (pid c ∈ initial_configuration c) then
       let c := set_next_config_id c (Some 1) in
       c ← create_replica c 1 (Some (initial_configuration c)) true None;
       Some (set_first_config_id c 1)
     else Some c);
  c ←
    (if is_reconfig_exp c then
       c ← create_replica c 2 None false None;
       Some (if first_config_id c =? 1 then c else set_first_config_id c 2)
     else Some c);
  Some (c, [CeInitAck sender (iteration_id c)]).

Definition receive_actor (c : t) (sender : Path) (p : PartitioningActorMsg)
    : option (t * list CompEffect) :=
  match p with
  | ActorInitMsg init => receive_actor_init c sender init
  | ActorRun =>
      match next_config_id c with
      | Some config_id => start_replica c config_id
      | None => Some (c, [])
      end
  | _ => None
  end.

(** A node that already stopped answers an [Init] with its stop; a map of peers is
    walked in some order. *)
Definition receive_reconfig_init (c : t) (r : ReconfigInit) : option (t * list CompEffect) :=
  if stopped c then
    let peers := continued_nodes (ri_nodes r) ++ new_nodes (ri_nodes r) in
    '(ble_peers, communicator_peers) ← derive_actorpaths c (ri_config_id r) peers;
    Some (c, map (fun p => CeTell p (DStop (StopPeer (pid c)))) ble_peers ++
             map (fun kp : Z * Path => CeTell kp.2 (DStop (StopPeer (pid c))))
                 (map_to_list communicator_peers))
  else if ri_config_id r <=? meta_id (active_config c) then Some (c, [])
  else
    let from_continued := bool_decide (ri_from r ∈ continued_nodes (ri_nodes r)) in
    let ready c := set_active_config_ready_peers c (active_config_ready_peers c ++ [ri_from r]) in
    match next_config_id c with
    | None =>
        let c := set_next_config_id c (Some (ri_config_id r)) in
        let peers := get_peers_of (ri_nodes r) (pid c) in
        '(c, e1) ← set_initial_replica_state_after_reconfig c (ri_config_id r)
                     (ri_skip_prepare_use_leader r) peers;
        let c := if from_continued then ready c else c in
        let metadata := ri_seq_metadata r in
        if (meta_len metadata =? 1) && (meta_config_id metadata =? 1) then
          let c := set_prev_sequences c
                     (<[meta_config_id metadata := new_with_sequence []]> (prev_sequences c)) in
          '(c, e2) ← start_replica c (ri_config_id r);
          Some (c, e1 ++ e2)
        else
          '(c, e2) ← pull_sequence c (meta_config_id metadata) (meta_len metadata)
                       (continued_nodes (ri_nodes r));
          Some (c, e1 ++ e2)
    | Some next_config_id =>
        if (next_config_id =? ri_config_id r) && from_continued then Some (ready c, [])
        else Some (c, [])
    end.

Definition receive_reconfiguration (c : t) (sender : Path) (rm : ReconfigurationMsg) (rnd : nat)
    : option (t * list CompEffect) :=
  match rm with
  | Init r => receive_reconfig_init c r
  | SegmentRequestMsg sr => if stopped c then Some (c, []) else handle_segment_request c sr sender
  | SegmentTransferMsg st => if stopped c then Some (c, []) else handle_segment_transfer c st rnd
  end.

Definition receive_network (c : t) (sender : Path) (m : Incoming) (rnd : nat)
    : option (t * list CompEffect) :=
  match m with
  | InAtomicBroadcast m => receive_atomic_broadcast c (mkNetMessage sender m)
  | InPartitioningExp p => receive_partitioning c p
  | InPartitioningActor p => receive_actor c sender p
  | InReconfiguration rm => receive_reconfiguration c sender rm rnd
  | InStop StopClient => stop_components c
  | InStop (StopPeer _) => Some (c, [])
  end.

(** What can happen to the node. *)
Inductive input :=
| Local (m : PaxosCompMsg Sq)
| Network (sender : Path) (m : Incoming) (rnd : nat)
| RetryTimeout (config_id : Z).

Definition step (c : t) (i : input) : option (t * list CompEffect) :=
  match i with
  | Local m => receive_local c m
  | Network sender m rnd => receive_network c sender m rnd
  | RetryTimeout config_id => retry_pending_segments c config_id
  end.

Fixpoint steps (c : t) (inputs : list input) : option (t * list CompEffect) :=
  match inputs with
  | [] => Some (c, [])
  | i :: inputs =>
      '(c, e1) ← step c i;
      '(c, e2) ← steps c inputs;
      Some (c, e1 ++ e2)
  end.
End comp.
End PaxosComp.
