(* ===== verification/MpNode.v ===== *)
(** The Multi-Paxos node as an actor of the harness ([multi_paxos/multipaxos.rs],
    [MultiPaxosComp]).

    The node keeps its six components in options: the [Init] of an iteration resets the node
    and creates them, [Run] starts them, [KillComponents] takes them away.  A cluster of such
    nodes, set up by the partitioning actor, is the cluster of [MpSystem]: what is proved there
    holds for every iteration of an experiment. *)

From Stdlib Require Import Strings.Byte.
From S2P Require Import Prelude MpMessages Partition MpUtil.
From S2P Require Import MpAcceptor MpProxyLeader MpLeader MpReplica MpBatcher MpParticipant.
From S2P Require Import MpSystem MpInv MpSafety MpBoot MpTheorems.
From S2P Require Import Wire MsgWire Communicator PaxosComp.

Import MsgWire.
Import PaxosComp(PartitioningActorMsg(..), ActorInit(..)).

Module MultiPaxosComp.

(** ** The node *)

(** [config] holds the experiment parameters and the [multipaxos] section of the system's
    configuration. *)
Record t := mk {
  config : MpConfig;
  pid : Z;
  initial_nodes : list Z;
  nodes : list Path;
  leader_comp : option Leader.t;
  acceptor_comp : option Acceptor.t;
  replica_comp : option Replica.t;
  participant_comp : option Participant.t;
  proxy_leader_comp : option ProxyLeader.t;
  batcher_comp : option Batcher.t;
  iteration_id : Z;
  stopped : bool;
  partitioning_actor : option Path;
  cached_client : option Path;
  current_leader : Z }.

Definition with_ (initial_nodes : list Z) (config : MpConfig) : t :=
  mk config 0 initial_nodes [] None None None None None None 0 false None None 0.

Definition set_partitioning_actor (c : t) (x : option Path) : t :=
  mk (config c) (pid c) (initial_nodes c) (nodes c) (leader_comp c) (acceptor_comp c)
     (replica_comp c) (participant_comp c) (proxy_leader_comp c) (batcher_comp c)
     (iteration_id c) (stopped c) x (cached_client c) (current_leader c).

Definition set_batcher (c : t) (x : option Batcher.t) : t :=
  mk (config c) (pid c) (initial_nodes c) (nodes c) (leader_comp c) (acceptor_comp c)
     (replica_comp c) (participant_comp c) (proxy_leader_comp c) x
     (iteration_id c) (stopped c) (partitioning_actor c) (cached_client c) (current_leader c).

(** The components, if all of them are there. *)
Definition node_of (c : t) : option Node :=
  pa ← participant_comp c; ba ← batcher_comp c; le ← leader_comp c; pr ← proxy_leader_comp c;
  ac ← acceptor_comp c; re ← replica_comp c;
  Some (mkNode pa ba le pr ac re).

Definition set_node (c : t) (nd : Node) : t :=
  mk (config c) (pid c) (initial_nodes c) (nodes c) (Some (MpSystem.leader_comp nd))
     (Some (MpSystem.acceptor_comp nd)) (Some (MpSystem.replica_comp nd))
     (Some (MpSystem.participant_comp nd)) (Some (MpSystem.proxy_leader_comp nd))
     (Some (MpSystem.batcher_comp nd)) (iteration_id c) (stopped c) (partitioning_actor c)
     (cached_client c) (current_leader c).

(** The proxy leader and the batcher stay, until [create_components] replaces them. *)
Definition reset_state (c : t) : t :=
  mk (config c) 0 (initial_nodes c) [] None None None None (proxy_leader_comp c)
     (batcher_comp c) 0 false None None 0.

(** What the node does besides changing its state: effects of its components under their own
    names, messages, a timer, and the components it kills. *)
Inductive CompEffect :=
| McComponents (effs : list (component_name * list Effect))
| McInitAck (dst : Path) (iteration_id : Z)
| McAtomicBroadcast (dst : Path) (m : AtomicBroadcastMsg)
| McStop (dst : Path) (m : StopMsg)
| McScheduleLeader (delay : Z)
| McKill (comp : component_name).

(** The path of node [pid] is an [ActorPath::Named]. *)
Definition is_named (nodes : list Path) (pid : Z) : bool :=
  match vec_get nodes (pid - 1) with Some (Named _ _) => true | _ => false end.

(** [None] is a failed [expect], or a node without a path; the acknowledgement is sent when all
    components are registered. *)
Definition create_components (c : t) : option (t * list CompEffect) :=
  _ ← cached_client c;
  nd ← MpSystem.create_components (config c) (is_named (nodes c)) (iteration_id c) (pid c)
         (length (nodes c)) (initial_nodes c);
  let c := set_node c nd in
  partitioning_actor ← partitioning_actor c;
  Some (set_partitioning_actor c None, [McInitAck partitioning_actor (iteration_id c)]).

Definition start_components (c : t) (rnd : Z) : option (t * list CompEffect) :=
  nd ← node_of c;
  '(nd, effs) ← MpSystem.start_components nd rnd;
  Some (set_node c nd, [McComponents effs]).

(** The question is dropped without an answer. *)
Definition kill_components (c : t) : t * list CompEffect :=
  let kill {A} (name : component_name) (x : option A) :=
    match x with Some _ => [McKill name] | None => [] end in
  (mk (config c) (pid c) (initial_nodes c) (nodes c) None None None None None None
      (iteration_id c) (stopped c) (partitioning_actor c) (cached_client c) (current_leader c),
   kill PARTICIPANT (participant_comp c) ++ kill BATCHER (batcher_comp c) ++
   kill PROXY_LEADER (proxy_leader_comp c) ++ kill LEADER (leader_comp c) ++
   kill ACCEPTOR (acceptor_comp c) ++ kill REPLICA (replica_comp c)).

(** ** Messages *)

Inductive Incoming :=
| InAtomicBroadcast (m : AtomicBroadcastMsg)
| InPartitioningExp (p : PartitioningExpMsg)
| InPartitioningActor (p : PartitioningActorMsg)
| InStop (m : StopMsg).

Section handlers.
Context (deserialise_path : bytes -> option Path).

Definition receive_atomic_broadcast (c : t) (m : AtomicBroadcastMsg) : option (t * list CompEffect) :=
  match m with
  | ABProposal p =>
      batcher ← batcher_comp c; Some (set_batcher c (Some (Batcher.receive_local batcher p)), [])
  | ABReconfigurationProposal _ => None
  | _ => Some (c, [])
  end.

(** Every component is unwrapped. *)
Definition receive_partitioning (c : t) (p : PartitioningExpMsg) : option (t * list CompEffect) :=
  match p with
  | DisconnectPeers peers delay lagging_peer =>
      nd ← node_of c;
      '(nd, effs) ← node_disconnect nd peers delay lagging_peer;
      Some (set_node c nd, [McComponents effs])
  | RecoverPeers => nd ← node_of c; Some (set_node c (node_recover nd), [])
  end.

Definition receive_actor_init (c : t) (sender : Path) (init : ActorInit)
    : option (t * list CompEffect) :=
  let c := reset_state c in
  ser_client ← PaxosComp.init_data init;
  client ← deserialise_path ser_client;
  create_components
    (mk (config c) (PaxosComp.init_pid init) (initial_nodes c) (PaxosComp.init_nodes init)
        (leader_comp c) (acceptor_comp c) (replica_comp c) (participant_comp c)
        (proxy_leader_comp c) (batcher_comp c) (PaxosComp.init_id init) false (Some sender)
        (Some client) (current_leader c)).

(** The node with the highest pid tells the client that it leads, three seconds later. *)
Definition receive_actor (c : t) (sender : Path) (p : PartitioningActorMsg) (rnd : Z)
    : option (t * list CompEffect) :=
  match p with
  | ActorInitMsg init => receive_actor_init c sender init
  | ActorRun =>
      '(c, effs) ← start_components c rnd;
      Some (c, effs ++ if pid c =? Z.of_nat (length (nodes c)) then [McScheduleLeader 3000] else [])
  | _ => Some (c, [])
  end.

Definition receive_network (c : t) (sender : Path) (m : Incoming) (rnd : Z)
    : option (t * list CompEffect) :=
  match m with
  | InAtomicBroadcast m => receive_atomic_broadcast c m
  | InPartitioningExp p => receive_partitioning c p
  | InPartitioningActor p => receive_actor c sender p rnd
  | InStop StopClient => Some (c, [McStop sender (StopPeer (pid c))])
  | InStop (StopPeer _) => Some (c, [])
  end.

(** The closure that [Run] schedules. *)
Definition leader_timeout (c : t) : option (t * list CompEffect) :=
  client ← cached_client c; Some (c, [McAtomicBroadcast client (ABLeader (pid c) 0)]).

(** A message or a timeout of one of the components. *)
Definition receive_component (c : t) (comp : component_name) (sender : ActorPath) (m : NetMsg)
    (rnd : Z) : option (t * list Effect) :=
  nd ← node_of c; '(nd, effs) ← node_receive nd comp sender m rnd; Some (set_node c nd, effs).

Definition component_timeout (c : t) (comp : component_name) (timer : Timer) (rnd : Z)
    : option (t * list Effect) :=
  nd ← node_of c; '(nd, effs) ← node_timeout nd comp timer rnd; Some (set_node c nd, effs).

(** ** A cluster of nodes *)

Record Cluster := mkCluster {
  comps : gmap Z t;
  packets : list Packet;
  pending : list (ActorPath * Timer) }.

(** The cluster of their components. *)
Definition sys_of (cl : Cluster) : Sys := mkSys (omap node_of (comps cl)) (packets cl) (pending cl).

(** The effects of [MpSystem] on the packets and timers. *)
Definition with_effects (cl : Cluster) (self : ActorPath) (effs : list Effect) : Cluster :=
  mkCluster (comps cl) (packets cl ++ (effs ≫= effect_packets self))
    (foldl (effect_timers self) (pending cl) effs).

Definition with_comp (cl : Cluster) (pid : Z) (c : t) : Cluster :=
  mkCluster (<[pid := c]> (comps cl)) (packets cl) (pending cl).

(** Of the effects of a node, those of its components reach the network. *)
Definition comp_effect (it pid : Z) (cl : Cluster) (e : CompEffect) : Cluster :=
  match e with
  | McComponents effs => foldl (fun cl '(n, e) => with_effects cl (mkPath n pid it) e) cl effs
  | _ => cl
  end.

Definition comp_step (cl : Cluster) (pid : Z) (f : t -> option (t * list CompEffect))
    : option Cluster :=
  c ← comps cl !! pid;
  '(c', effs) ← f c;
  Some (foldl (comp_effect (iteration_id c') pid) (with_comp cl pid c') effs).

(** The client and the partitioning actor, who send messages to the nodes. *)
Context (client actor : Path).

Definition cluster_step (cl : Cluster) (e : event) : option Cluster :=
  match e with
  | EvDeliver i rnd =>
      p ← packets cl !! i;
      let dst := pkt_dst p in
      c ← comps cl !! ap_pid dst;
      '(c', effs) ← receive_component c (ap_component dst) (pkt_src p) (pkt_msg p) rnd;
      Some (with_effects (with_comp cl (ap_pid dst) c') dst effs)
  | EvTimer i rnd =>
      '(path, timer) ← pending cl !! i;
      c ← comps cl !! ap_pid path;
      '(c', effs) ← component_timeout c (ap_component path) timer rnd;
      let cl := if is_periodic timer then cl
                else mkCluster (comps cl) (packets cl) (delete i (pending cl)) in
      Some (with_effects (with_comp cl (ap_pid path) c') path effs)
  | EvPropose pid p =>
      comp_step cl pid (fun c => receive_network c client (InAtomicBroadcast (ABProposal p)) 0)
  | EvDisconnect pid peers delay lagging_peer =>
      comp_step cl pid (fun c => receive_network c client
        (InPartitioningExp (DisconnectPeers peers delay lagging_peer)) 0)
  | EvRecoverPeers pid =>
      comp_step cl pid (fun c => receive_network c client (InPartitioningExp RecoverPeers) 0)
  end.

Fixpoint cluster_run (cl : Cluster) (evs : list event) : option Cluster :=
  match evs with
  | [] => Some cl
  | e :: evs => cl' ← cluster_step cl e; cluster_run cl' evs
  end.

(** The handshake of an iteration: [Init] at every node, and then [Run]. *)
Definition init_msg (it : Z) (ns : list Path) (data : bytes) (pid : Z) : Incoming :=
  InPartitioningActor (ActorInitMsg (PaxosComp.mkActorInit pid it ns (Some data))).

Fixpoint tell_all (msg : Z -> Incoming) (pids : list Z) (cl : Cluster) : option Cluster :=
  match pids with
  | [] => Some cl
  | pid :: pids =>
      cl ← comp_step cl pid (fun c => receive_network c actor (msg pid) 0);
      tell_all msg pids cl
  end.

Definition start_iteration (it : Z) (ns : list Path) (data : bytes) (old : gmap Z t)
    : option Cluster :=
  let pids := seqZ 1 (Z.of_nat (length ns)) in
  cl ← tell_all (init_msg it ns data) pids (mkCluster old [] []);
  tell_all (fun _ => InPartitioningActor ActorRun) pids cl.
End handlers.

(** ** The components of a node *)

Lemma node_set c nd : node_of (set_node c nd) = Some nd.
Proof. by destruct nd. Qed.

Lemma node_set_batcher c nd b :
  node_of c = Some nd -> node_of (set_batcher c (Some b)) = Some (MpSystem.set_batcher nd b).
Proof. unfold node_of. intros H. handler_inv H. simpl. by rewrite Hx, Hx1, Hx2, Hx3, Hx4. Qed.

Lemma node_batcher c nd : node_of c = Some nd -> batcher_comp c = Some (MpSystem.batcher_comp nd).
Proof. unfold node_of. intros H. by handler_inv H. Qed.

(** ** The cluster *)

(** All nodes are set up for the iteration. *)
Definition ready (it : Z) (cl : Cluster) : Prop :=
  forall pid c, comps cl !! pid = Some c -> is_Some (node_of c) /\ iteration_id c = it.

Lemma nodes_sys_of cl pid : MpSystem.nodes (sys_of cl) !! pid = comps cl !! pid ≫= node_of.
Proof. apply lookup_omap. Qed.

Lemma sys_with_comp cl pid c nd :
  node_of c = Some nd -> sys_of (with_comp cl pid c) = update_node (sys_of cl) pid nd.
Proof. intros Hc. unfold sys_of, update_node. simpl. by rewrite (omap_insert_Some _ _ _ _ _ Hc). Qed.

Lemma sys_with_effects cl self effs : sys_of (with_effects cl self effs) = apply_effects (sys_of cl) self effs.
Proof. done. Qed.

Lemma sys_component_effects it pid effs : forall cl,
  sys_of (foldl (fun cl '(n, e) => with_effects cl (mkPath n pid it) e) cl effs) =
  apply_component_effects it pid (sys_of cl) effs.
Proof. induction effs as [|[n e] effs IH]; intros cl; [done|]. simpl. by rewrite IH. Qed.

Lemma same_component_effects it pid effs : forall cl s,
  net s = packets cl -> timers s = pending cl ->
  let cl' := foldl (fun cl '(n, e) => with_effects cl (mkPath n pid it) e) cl effs in
  let s' := apply_component_effects it pid s effs in
  MpSystem.nodes s' = MpSystem.nodes s /\ net s' = packets cl' /\ timers s' = pending cl'.
Proof.
  induction effs as [|[n e] effs IH]; intros cl s Hp Ht; [done|]. simpl.
  apply (IH (with_effects cl (mkPath n pid it) e) (apply_effects s (mkPath n pid it) e));
    simpl; by rewrite ?Hp, ?Ht.
Qed.

Lemma comps_component_effects it pid effs : forall cl,
  comps (foldl (fun cl '(n, e) => with_effects cl (mkPath n pid it) e) cl effs) = comps cl.
Proof. induction effs as [|[n e] effs IH]; intros cl; [done|]. simpl. by rewrite IH. Qed.

Lemma comps_effects it pid effs : forall cl, comps (foldl (comp_effect it pid) cl effs) = comps cl.
Proof.
  induction effs as [|e effs IH]; intros cl; [done|]. simpl. rewrite IH.
  destruct e; try done. apply comps_component_effects.
Qed.

Lemma ready_with_comp it cl cl' pid c nd :
  comps cl' = <[pid := c]> (comps cl) -> node_of c = Some nd -> iteration_id c = it ->
  ready it cl -> ready it cl'.
Proof.
  intros Hcl Hnd Hit Hr p c'. rewrite Hcl, lookup_insert. case_decide; [|apply Hr].
  intros [= <-]. split; [by eexists|done].
Qed.

Section refinement.
Context {iter : IterationId} (deserialise_path : bytes -> option Path) (client actor : Path).
Local Abbreviation cluster_step := (cluster_step deserialise_path client).
Local Abbreviation cluster_run := (cluster_run deserialise_path client).

(** A step of the cluster is a step of the system of its components, a panic is a panic, and
    all nodes stay set up. *)
Lemma cluster_step_refines cl e :
  ready ITERATION cl ->
  sys_of <$> cluster_step cl e = step (sys_of cl) e /\
  forall cl', cluster_step cl e = Some cl' -> ready ITERATION cl'.
Proof.
  intros Hr. destruct e as [i rnd|i rnd|pid p|pid peers delay lagging|pid]; simpl.
  - destruct (packets cl !! i) as [p|]; [|done]. simpl. rewrite lookup_omap.
    destruct (comps cl !! ap_pid (pkt_dst p)) as [c|] eqn:Hc; [|done].
    destruct (Hr _ _ Hc) as [[nd Hnd] Hit]. unfold receive_component. simpl. rewrite Hnd. simpl.
    destruct (node_receive nd _ _ _ rnd) as [[nd' effs]|]; [|done]. simpl. split.
    + f_equal. by rewrite sys_with_effects, (sys_with_comp _ _ _ nd' (node_set c nd')).
    + intros cl' [= <-]. eapply ready_with_comp; [done|apply node_set|done|done].
  - destruct (pending cl !! i) as [[path timer]|]; [|done]. simpl. rewrite lookup_omap.
    destruct (comps cl !! ap_pid path) as [c|] eqn:Hc; [|done].
    destruct (Hr _ _ Hc) as [[nd Hnd] Hit]. unfold component_timeout. simpl. rewrite Hnd. simpl.
    destruct (node_timeout nd _ _ rnd) as [[nd' effs]|]; [|done]. simpl. split.
    + f_equal. rewrite sys_with_effects, (sys_with_comp _ _ _ nd' (node_set c nd')).
      by destruct (is_periodic timer).
    + intros cl' [= <-]. eapply (ready_with_comp _ cl _ _ (set_node c nd')); [|apply node_set|done|done].
      by destruct (is_periodic timer).
  - unfold comp_step. rewrite lookup_omap. destruct (comps cl !! pid) as [c|] eqn:Hc; [|done].
    destruct (Hr _ _ Hc) as [[nd Hnd] Hit]. simpl. rewrite (node_batcher _ _ Hnd), Hnd. simpl. split.
    + by rewrite (sys_with_comp _ _ _ _ (node_set_batcher _ _ _ Hnd)).
    + intros cl' [= <-]. eapply (ready_with_comp _ cl); [done|by apply node_set_batcher|done|done].
  - unfold comp_step. rewrite lookup_omap. destruct (comps cl !! pid) as [c|] eqn:Hc; [|done].
    destruct (Hr _ _ Hc) as [[nd Hnd] Hit]. simpl. rewrite Hnd. simpl.
    destruct (node_disconnect nd peers delay lagging) as [[nd' effs]|]; [|done]. simpl. split.
    + rewrite sys_component_effects, (sys_with_comp _ _ _ nd' (node_set c nd')). by rewrite Hit.
    + intros cl' [= <-]. eapply (ready_with_comp _ cl _ _ (set_node c nd')); [|apply node_set|done|done].
      by rewrite comps_component_effects.
  - unfold comp_step. rewrite lookup_omap. destruct (comps cl !! pid) as [c|] eqn:Hc; [|done].
    destruct (Hr _ _ Hc) as [[nd Hnd] Hit]. simpl. rewrite Hnd. simpl. split.
    + by rewrite (sys_with_comp _ _ _ _ (node_set c _)).
    + intros cl' [= <-]. eapply (ready_with_comp _ cl _ _ (set_node c _)); [done|apply node_set|done|done].
Qed.

Lemma cluster_run_refines evs : forall cl,
  ready ITERATION cl -> sys_of <$> cluster_run cl evs = run (sys_of cl) evs.
Proof.
  induction evs as [|e evs IH]; intros cl Hr; [done|]. simpl.
  destruct (cluster_step_refines cl e Hr) as [<- Hr'].
  destruct (cluster_step cl e) as [cl'|]; [|done]. simpl. apply IH. by apply Hr'.
Qed.

(** *** The start of an iteration *)

(** A node after its [Init]; it does not depend on what the node was before. *)
Definition initialised (c : MpConfig) (initial_nodes : list Z) (ns : list Path) (client : Path)
    (pid it : Z) (nd : Node) : t :=
  mk c pid initial_nodes ns (Some (MpSystem.leader_comp nd)) (Some (MpSystem.acceptor_comp nd))
     (Some (MpSystem.replica_comp nd)) (Some (MpSystem.participant_comp nd))
     (Some (MpSystem.proxy_leader_comp nd)) (Some (MpSystem.batcher_comp nd)) it false None
     (Some client) 0.

Lemma init_spec c it ns data pid rnd :
  receive_network deserialise_path c actor (init_msg it ns data pid) rnd =
    client ← deserialise_path data;
    nd ← MpSystem.create_components (config c) (is_named ns) it pid (length ns) (initial_nodes c);
    Some (initialised (config c) (initial_nodes c) ns client pid it nd, [McInitAck actor it]).
Proof. done. Qed.

Lemma derive_named named it self num nodes acc :
  Forall (fun pid => named pid = true) nodes ->
  derive_actorpaths_loop named it self num nodes acc =
  derive_actorpaths_loop (fun _ => true) it self num nodes acc.
Proof.
  intros Hn. revert acc. induction Hn as [|pid nodes Hp _ IH]; intros acc; [done|]. simpl. rewrite Hp.
  destruct (get_node_actorpath num pid); [|done]. simpl. apply IH.
Qed.

Definition named (p : Path) : Prop := match p with Named _ _ => True | _ => False end.

Lemma all_named ns :
  Forall named ns -> Forall (fun pid => is_named ns pid = true) (seqZ 1 (Z.of_nat (length ns))).
Proof.
  intros Hns. apply Forall_forall. intros pid Hpid%elem_of_seqZ. unfold is_named.
  destruct (proj2 (vec_get_is_Some ns (pid - 1))) as [p Hp]; [lia|]. rewrite Hp.
  apply vec_get_Some in Hp as [_ Hp]. rewrite Forall_forall in Hns.
  specialize (Hns p ltac:(by eapply list_elem_of_lookup_2)). by destruct p.
Qed.

Section iteration.
Context (c : MpConfig) (ns : list Path) (data : bytes).
Context (Hnamed : Forall named ns) (Hdata : deserialise_path data = Some client).
Local Abbreviation all := (seqZ 1 (Z.of_nat (length ns))).

Definition created (pid : Z) : option Node :=
  MpSystem.create_components c (fun _ => true) ITERATION pid (length ns) all.
Definition inited (pid : Z) (nd : Node) : t := initialised c all ns client pid ITERATION nd.

(** The nodes that take part, whatever happened to them before. *)
Definition deployed (x : t) : Prop := config x = c /\ initial_nodes x = all.

Lemma init_node x pid rnd :
  deployed x ->
  receive_network deserialise_path x actor (init_msg ITERATION ns data pid) rnd =
    nd ← created pid; Some (inited pid nd, [McInitAck actor ITERATION]).
Proof.
  intros [Hc Hi]. rewrite init_spec, Hdata, Hc, Hi. simpl. unfold created, MpSystem.create_components, derive_actorpaths.
  by rewrite derive_named by by apply all_named.
Qed.

Lemma tell_inits todo : forall cl,
  NoDup todo -> (forall pid, pid ∈ todo -> exists x, comps cl !! pid = Some x /\ deployed x) ->
  match tell_all deserialise_path actor (init_msg ITERATION ns data) todo cl with
  | Some cl' =>
      packets cl' = packets cl /\ pending cl' = pending cl /\
      (forall pid, pid ∈ todo -> exists nd, created pid = Some nd /\ comps cl' !! pid = Some (inited pid nd)) /\
      (forall pid, pid ∉ todo -> comps cl' !! pid = comps cl !! pid)
  | None => exists pid, pid ∈ todo /\ created pid = None
  end.
Proof.
  induction todo as [|pid todo IH]; intros cl Hnd Hall.
  { split_and!; try done. by intros pid ?%not_elem_of_nil. }
  apply NoDup_cons in Hnd as [Hni Hnd]. destruct (Hall pid ltac:(left)) as (x & Hx & Hd).
  cbn [tell_all]. unfold comp_step. rewrite Hx. cbn [mbind option_bind]. rewrite init_node by done.
  destruct (created pid) as [nd|] eqn:Hcr; simpl; [|exists pid; split; [left|done]].
  set (cl1 := with_comp cl pid _).
  assert (Hcomp : forall q, q ∈ todo -> exists x, comps cl1 !! q = Some x /\ deployed x).
  { intros q Hq. simpl. rewrite lookup_insert_ne by (by intros ->). apply Hall. by right. }
  specialize (IH cl1 Hnd Hcomp). destruct (tell_all _ _ _ todo cl1) as [cl'|].
  - destruct IH as (Hp & Ht & Hin & Hout). split_and!; [done|done|..].
    + intros q [->|Hq]%elem_of_cons; [|by apply Hin]. exists nd. split; [done|].
      rewrite Hout by done. simpl. by rewrite lookup_insert_eq.
    + intros q [Hne Hq]%not_elem_of_cons. rewrite Hout by done. simpl. by rewrite lookup_insert_ne.
  - destruct IH as (q & Hq & Hn). exists q. split; [by right|done].
Qed.

Definition run_msg (pid : Z) : Incoming := InPartitioningActor ActorRun.

Lemma run_node cl pid nd :
  comps cl !! pid = Some (inited pid nd) ->
  comp_step cl pid (fun x => receive_network deserialise_path x actor (run_msg pid) 0) =
    '(nd', effs) ← MpSystem.start_components nd 0;
    Some (foldl (fun cl '(n, e) => with_effects cl (mkPath n pid ITERATION) e)
            (with_comp cl pid (set_node (inited pid nd) nd')) effs).
Proof.
  intros Hc. unfold comp_step. rewrite Hc. cbn [mbind option_bind receive_network run_msg receive_actor].
  unfold start_components. change (node_of (inited pid nd)) with (Some (mkNode
    (MpSystem.participant_comp nd) (MpSystem.batcher_comp nd) (MpSystem.leader_comp nd)
    (MpSystem.proxy_leader_comp nd) (MpSystem.acceptor_comp nd) (MpSystem.replica_comp nd))).
  cbn [mbind option_bind]. assert (Hnd : mkNode (MpSystem.participant_comp nd) (MpSystem.batcher_comp nd)
    (MpSystem.leader_comp nd) (MpSystem.proxy_leader_comp nd) (MpSystem.acceptor_comp nd)
    (MpSystem.replica_comp nd) = nd) by (by destruct nd). rewrite Hnd.
  destruct (MpSystem.start_components nd 0) as [[nd' effs]|]; [|done]. cbn [mbind option_bind].
  rewrite foldl_app. simpl. by destruct (_ =? _).
Qed.

(** [Run] at initialised nodes is the start of the nodes that [boot] creates. *)
Lemma tell_runs todo : forall cl s,
  NoDup todo ->
  (forall pid, pid ∈ todo -> exists nd, created pid = Some nd /\ comps cl !! pid = Some (inited pid nd)) ->
  net s = packets cl -> timers s = pending cl ->
  match boot_nodes c (length ns) todo all s, tell_all deserialise_path actor run_msg todo cl with
  | Some s', Some cl' =>
      net s' = packets cl' /\ timers s' = pending cl' /\
      (forall pid, pid ∈ todo -> exists x nd, comps cl' !! pid = Some x /\ node_of x = Some nd /\
         iteration_id x = ITERATION /\ MpSystem.nodes s' !! pid = Some nd) /\
      (forall pid, pid ∉ todo ->
         comps cl' !! pid = comps cl !! pid /\ MpSystem.nodes s' !! pid = MpSystem.nodes s !! pid)
  | None, None => True
  | _, _ => False
  end.
Proof.
  induction todo as [|pid todo IH]; intros cl s Hnd Hall Hp Ht.
  { split_and!; try done. by intros pid ?%not_elem_of_nil. }
  apply NoDup_cons in Hnd as [Hni Hnd]. destruct (Hall pid ltac:(left)) as (nd & Hcr & Hc).
  cbn [boot_nodes tell_all]. change (MpSystem.create_components c _ ITERATION pid _ _) with (created pid).
  rewrite run_node with (nd := nd) by done. rewrite Hcr. cbn [mbind option_bind].
  destruct (MpSystem.start_components nd 0) as [[nd' effs]|]; [|done]. cbn [mbind option_bind].
  set (cl1 := foldl _ _ effs). set (s1 := apply_component_effects _ _ _ effs).
  assert (Hcomps : comps cl1 = <[pid := set_node (inited pid nd) nd']> (comps cl))
    by apply comps_component_effects.
  destruct (same_component_effects ITERATION pid effs (with_comp cl pid (set_node (inited pid nd) nd'))
    (update_node s pid nd') Hp Ht) as (Hn1 & Hp1 & Ht1). fold cl1 in Hp1, Ht1. fold s1 in Hn1, Hp1, Ht1.
  assert (Hall1 : forall q, q ∈ todo -> exists nd, created q = Some nd /\ comps cl1 !! q = Some (inited q nd)).
  { intros q Hq. rewrite Hcomps, lookup_insert_ne by (by intros ->). apply Hall. by right. }
  specialize (IH cl1 s1 Hnd Hall1 Hp1 Ht1).
  destruct (boot_nodes _ _ _ _ s1) as [s'|], (tell_all _ _ _ _ cl1) as [cl'|]; try done.
  destruct IH as (Hp' & Ht' & Hin & Hout). split_and!; [done|done|..].
  - intros q [->|Hq]%elem_of_cons; [|by apply Hin]. exists (set_node (inited pid nd) nd'), nd'.
    destruct (Hout pid Hni) as [-> ->]. rewrite Hcomps, Hn1. simpl. rewrite !lookup_insert_eq.
    split_and!; try done. apply node_set.
  - intros q [Hne Hq]%not_elem_of_cons. destruct (Hout q Hq) as [-> ->]. rewrite Hcomps, Hn1. simpl.
    by rewrite !lookup_insert_ne.
Qed.

(** The handshake of an iteration boots the cluster, and panics where [boot] does. *)
Lemma start_iteration_boots (old : gmap Z t) :
  (forall pid, pid ∈ all <-> is_Some (old !! pid)) ->
  (forall pid x, old !! pid = Some x -> deployed x) ->
  sys_of <$> start_iteration deserialise_path actor ITERATION ns data old = boot c (length ns) /\
  forall cl, start_iteration deserialise_path actor ITERATION ns data old = Some cl -> ready ITERATION cl.
Proof.
  intros Hdom Hdep. assert (Hnd : NoDup all) by apply NoDup_seqZ.
  assert (Hold : forall pid, pid ∈ all -> exists x, comps (mkCluster old [] []) !! pid = Some x /\ deployed x).
  { intros pid Hpid. apply Hdom in Hpid as [x Hx]. exists x. split; [done|by eapply Hdep]. }
  unfold start_iteration, boot. fold run_msg.
  pose proof (tell_inits all _ Hnd Hold) as Hinit.
  destruct (tell_all _ _ _ all (mkCluster old [] [])) as [cl1|]; cbn [mbind option_bind].
  - destruct Hinit as (Hp & Ht & Hin & Hout).
    pose proof (tell_runs all cl1 (mkSys ∅ [] []) Hnd Hin (eq_sym Hp) (eq_sym Ht)) as Hrun.
    destruct (boot_nodes _ _ _ _ _) as [s'|], (tell_all _ _ _ _ cl1) as [cl'|]; try done.
    destruct Hrun as (Hp' & Ht' & Hin' & Hout').
    assert (Hready : forall pid x, comps cl' !! pid = Some x -> pid ∈ all).
    { intros pid x Hx. destruct (decide (pid ∈ all)) as [|Hn]; [done|].
      destruct (Hout' pid Hn) as [E _]. rewrite E, Hout in Hx by done. apply Hdom. by exists x. }
    split.
    + simpl. f_equal. destruct s' as [nds nt tm]. unfold sys_of. simpl in *. subst nt tm. f_equal.
      apply map_eq. intros pid. rewrite lookup_omap. destruct (decide (pid ∈ all)) as [Hpid|Hn].
      * destruct (Hin' pid Hpid) as (x & nd & -> & Hx & _ & ->). done.
      * destruct (Hout' pid Hn) as [-> ->]. rewrite Hout by done. rewrite lookup_empty.
        destruct (old !! pid) as [x|] eqn:Hx; simpl; rewrite ?Hx; [|done]. exfalso. apply Hn, Hdom. by exists x.
    + intros ? [= <-] pid x Hx. destruct (Hin' pid (Hready _ _ Hx)) as (x' & nd & Hx' & Hnode & Hit & _).
      rewrite Hx in Hx'. injection Hx' as <-. split; [by exists nd|done].
  - split; [|done]. destruct Hinit as (pid & Hpid & Hcr). simpl. symmetry.
    assert (Hnone : forall todo s, pid ∈ todo -> boot_nodes c (length ns) todo all s = None).
    { induction todo as [|q todo IH]; intros s Hq; [by apply not_elem_of_nil in Hq|].
      cbn [boot_nodes]. change (MpSystem.create_components c _ ITERATION q _ _) with (created q).
      apply elem_of_cons in Hq as [<-|Hq]; [by rewrite Hcr|].
      destruct (created q) as [nd|]; [|done]. cbn [mbind option_bind].
      destruct (MpSystem.start_components nd 0) as [[nd' effs]|]; [|done]. by apply IH. }
    by apply Hnone.
Qed.
End iteration.
End refinement.

(** C7: an iteration of an experiment on Multi-Paxos nodes.  Whatever state the previous
    iterations left the nodes in, if the partitioning actor sends every node its [Init], with
    the named paths of all nodes, and then [Run], the components of the nodes are those of the
    cluster that [boot] builds for this iteration; from then on the nodes pass every message,
    timeout, proposal and simulated partition to them as [step] does, with the same packets
    and timers, and panic exactly where it has no step.  So the nodes of every iteration agree
    on the chosen values, on every run that avoids the two hazards of the leader. *)
Theorem iteration_refines_system (deserialise_path : bytes -> option Path) (client actor : Path)
    (it : IterationId) (c : MpConfig) (ns : list Path) (data : bytes) (old : gmap Z t)
    (evs : list event) :
  Forall named ns -> deserialise_path data = Some client ->
  (forall pid, pid ∈ seqZ 1 (Z.of_nat (length ns)) <-> is_Some (old !! pid)) ->
  (forall pid x, old !! pid = Some x -> deployed c ns x) ->
  let result :=
    cl ← start_iteration deserialise_path actor it ns data old;
    cluster_run deserialise_path client cl evs in
  sys_of <$> result = (s ← boot c (length ns); run s evs) /\
  forall cl slot v v',
    (0 < length ns)%nat -> Z.of_nat (length ns) < 2 ^ 61 -> result = Some cl ->
    is_Some (s ← boot c (length ns); safe_run s evs) ->
    v ∈ chosen_values (sys_of cl) slot -> v' ∈ chosen_values (sys_of cl) slot -> v = v'.
Proof.
  intros Hnamed Hdata Hdom Hdep result.
  destruct (start_iteration_boots deserialise_path client actor c ns data Hnamed Hdata old Hdom Hdep)
    as [Hboot Hready].
  assert (Hrun : sys_of <$> result = s ← boot c (length ns); run s evs).
  { unfold result. rewrite <- Hboot.
    destruct (start_iteration _ _ _ _ _ _) as [cl0|] eqn:Hst; [|done]. simpl.
    apply cluster_run_refines. by apply Hready. }
  split; [exact Hrun|]. intros cl slot v v' Hpos Hn Hres [s Hsafe] Hv%elem_of_chosen_values Hv'%elem_of_chosen_values.
  apply bind_Some in Hsafe as (s0 & Hb & Hsafe). rewrite Hres, Hb in Hrun. simpl in Hrun.
  rewrite (safe_run_run _ _ _ Hsafe) in Hrun. injection Hrun as Hs. rewrite Hs in Hv, Hv'.
  eapply (chosen_unique (length ns)); [|done..].
  apply (inv_safe_run (length ns) Hn evs s0 s); [|done]. apply boot_inv; [by eapply boot_boot_ok|lia].
Qed.

(** ** The end of an iteration *)

(** After [KillComponents] the node has no component; a second question finds nothing to kill,
    and a proposal that arrives late is a panic. *)
Lemma killed c :
  let c' := (kill_components c).1 in
  node_of c' = None /\ (kill_components c').2 = [] /\
  forall p, receive_atomic_broadcast c' (ABProposal p) = None.
Proof. by split_and!. Qed.

(** A node that is set up kills all six components. *)
Lemma kills_all c nd :
  node_of c = Some nd ->
  (kill_components c).2 =
    map McKill [PARTICIPANT; BATCHER; PROXY_LEADER; LEADER; ACCEPTOR; REPLICA].
Proof. unfold node_of, kill_components. intros H. handler_inv H. simpl. by rewrite Hx, Hx0, Hx1, Hx2, Hx3, Hx4. Qed.

(** ** Examples *)

Module NodeExample.
Definition path (i : Z) : Path := Named i ANode.
Definition client : Path := Named 9 AClient.
Definition actor : Path := Named 8 ANode.
Definition ns : list Path := map path [1; 2; 3].
Definition read (b : bytes) : option Path := match b with [x09] => Some client | _ => None end.
Definition fresh : t := with_ [1; 2; 3] example_config.

(** Node 2 has been through another iteration, and its components were not killed. *)
Definition used : t :=
  default fresh (fst <$> receive_network read fresh actor (init_msg 4 ns [x09] 2) 0).
Definition old : gmap Z t := {[ 1 := fresh; 2 := used; 3 := fresh ]}.
End NodeExample.

Lemma three_nodes {A} (a b : A) pid x :
  ({[ 1 := a; 2 := b; 3 := a ]} : gmap Z A) !! pid = Some x ->
  (pid = 1 \/ pid = 2 \/ pid = 3) /\ (x = a \/ x = b).
Proof.
  rewrite !lookup_insert, lookup_singleton. intros H. repeat case_decide; simplify_eq; auto.
Qed.

Lemma takeover_in_fifth_iteration :
  (s ← boot (iter := 5) example_config 3; s ← safe_run (iter := 5) s takeover_events;
   Some (chosen_values s 0)) = Some [command].
Proof. vm_compute. reflexivity. Qed.

Lemma iteration_refines_system_witness :
  exists cl, (cl ← start_iteration NodeExample.read NodeExample.actor 5 NodeExample.ns [x09] NodeExample.old;
    cluster_run NodeExample.read NodeExample.client cl takeover_events) = Some cl /\
    command ∈ chosen_values (sys_of cl) 0 /\
    forall v, v ∈ chosen_values (sys_of cl) 0 -> v = command.
Proof.
  pose proof takeover_in_fifth_iteration as Hrun.
  apply bind_Some in Hrun as (s0 & Hb & (s & Hs & Hc)%bind_Some). injection Hc as Hc.
  destruct (iteration_refines_system NodeExample.read NodeExample.client NodeExample.actor 5 example_config
    NodeExample.ns [x09] NodeExample.old takeover_events) as [Heq Hagree].
  - repeat constructor.
  - reflexivity.
  - intros pid. split.
    + intros Hpid%elem_of_seqZ. simpl in Hpid. assert (pid = 1 \/ pid = 2 \/ pid = 3) as [->|[->| ->]] by lia.
      * by exists NodeExample.fresh.
      * by exists NodeExample.used.
      * by exists NodeExample.fresh.
    + intros [x Hx]. apply elem_of_seqZ. simpl. apply three_nodes in Hx as [Hpid _]. lia.
  - intros pid x Hx. apply three_nodes in Hx as [_ [->| ->]]; (split; vm_compute; reflexivity).
  - change (length NodeExample.ns) with 3%nat in Heq, Hagree. rewrite Hb in Heq, Hagree.
    cbn [mbind option_bind] in Heq, Hagree.
    rewrite (safe_run_run _ _ _ Hs) in Heq. rewrite Hs in Hagree.
    destruct (_ ≫= _) as [cl|] eqn:Hcl; [|done]. injection Heq as Heq.
    assert (Hin : command ∈ chosen_values (sys_of cl) 0) by (rewrite Heq, Hc; left).
    exists cl. split; [done|]. split; [exact Hin|]. intros v Hv.
    apply (Hagree cl 0 v command); [lia|reflexivity|done|by eexists|done|done].
Defined.
End MultiPaxosComp.
