(* ===== verification/PartitioningActor.v ===== *)
(** The partitioning actor ([partitioning_actor.rs]): the handshake by which the benchmark
    master prepares, runs and stops the nodes of an iteration, and the wire format of its
    messages, which are those of [PaxosComp]. *)

From Stdlib Require Import Strings.Byte.
From S2P Require Import Prelude Wire WireTyped Communicator KvTrace PaxosComp.

Import Kv PaxosComp.

Open Scope dec_scope.

(** ** The external crates *)

(** [CountdownEvent] of the crate synchronoise: [decrement] is an error on an event that
    is already set, and one that waits for one count can be counted down. *)
Class Latch := {
  latch : Type;
  latch_new : Z -> latch;
  decrement : latch -> option latch;
  decrement_new : is_Some (decrement (latch_new 1)) }.

(** [put_i64] and [get_i64] of the crate bytes. *)
Class I64Ops `{BufOps} := {
  put_i64 : Z -> bytes;
  get_i64 : bytes -> option (Z * bytes);
  get_put_i64 v rest :
    - 2 ^ 63 <= v < 2 ^ 63 -> get_i64 (put_i64 v ++ rest) = Some (v, rest) }.

(** The serialiser of actor paths of the middleware. *)
Class PathSer := {
  put_path : Path -> bytes;
  read_path : Dec Path;
  decodes_path p : decodes read_path (put_path p) p }.

(** Paths are keys of maps. *)

#[global] Instance Alias_countable : Countable Alias.
Proof.
  refine (inj_countable'
    (fun a => match a with
              | ANode => inl (inl false) | AClient => inl (inl true)
              | ABle p c i => inl (inr (p, c, i))
              | ACommunicator p c i => inr (inl (p, c, i))
              | ARaftCommunicator p i => inr (inr (p, i))
              end)
    (fun a => match a with
              | inl (inl false) => ANode | inl (inl true) => AClient
              | inl (inr (p, c, i)) => ABle p c i
              | inr (inl (p, c, i)) => ACommunicator p c i
              | inr (inr (p, i)) => ARaftCommunicator p i
              end) _).
  by intros [].
Defined.

#[global] Instance Path_countable : Countable Path.
Proof.
  refine (inj_countable'
    (fun p => match p with Named s a => inl (s, a) | Unique s i => inr (s, i) end)
    (fun p => match p with inl (s, a) => Named s a | inr (s, i) => Unique s i end) _).
  by intros [].
Defined.

Module PartitioningActor.

Inductive IterationControlMsg :=
| Prepare (init_data : option bytes)
| Run
| Stop.

(** What the actor does besides changing its state: [PaReplyStop] answers the stop ask. *)
Inductive PaEffect :=
| PaTell (node : Path) (m : PartitioningActorMsg)
| PaPrepared
| PaFinished
| PaFulfil (results : list KVTimestamp)
| PaReplyStop.

Section actor.
Context `{Latch}.

(** [pid_map] is a [HashMap], in the order of its iteration; of the ask and of the promise
    only their presence matters. *)
Record t := mk {
  prepare_latch : latch;
  finished_latch : option latch;
  reply_stop : bool;
  stop_ack_count : Z;
  init_id : Z;
  n : Z;
  nodes : list Path;
  init_ack_count : Z;
  done_count : Z;
  pid_map : option (list (Path * Z));
  test_promise : bool;
  test_results : list KVTimestamp }.

Definition set_prepare_latch (c : t) (x : latch) : t :=
  mk x (finished_latch c) (reply_stop c) (stop_ack_count c) (init_id c) (n c) (nodes c)
     (init_ack_count c) (done_count c) (pid_map c) (test_promise c) (test_results c).

Definition set_finished_latch (c : t) (x : option latch) : t :=
  mk (prepare_latch c) x (reply_stop c) (stop_ack_count c) (init_id c) (n c) (nodes c)
     (init_ack_count c) (done_count c) (pid_map c) (test_promise c) (test_results c).

Definition set_reply_stop (c : t) (x : bool) : t :=
  mk (prepare_latch c) (finished_latch c) x (stop_ack_count c) (init_id c) (n c) (nodes c)
     (init_ack_count c) (done_count c) (pid_map c) (test_promise c) (test_results c).

Definition set_stop_ack_count (c : t) (x : Z) : t :=
  mk (prepare_latch c) (finished_latch c) (reply_stop c) x (init_id c) (n c) (nodes c)
     (init_ack_count c) (done_count c) (pid_map c) (test_promise c) (test_results c).

Definition set_n (c : t) (x : Z) : t :=
  mk (prepare_latch c) (finished_latch c) (reply_stop c) (stop_ack_count c) (init_id c) x
     (nodes c) (init_ack_count c) (done_count c) (pid_map c) (test_promise c)
     (test_results c).

Definition set_init_ack_count (c : t) (x : Z) : t :=
  mk (prepare_latch c) (finished_latch c) (reply_stop c) (stop_ack_count c) (init_id c) (n c)
     (nodes c) x (done_count c) (pid_map c) (test_promise c) (test_results c).

Definition set_done_count (c : t) (x : Z) : t :=
  mk (prepare_latch c) (finished_latch c) (reply_stop c) (stop_ack_count c) (init_id c) (n c)
     (nodes c) (init_ack_count c) x (pid_map c) (test_promise c) (test_results c).

Definition set_test_promise (c : t) (x : bool) : t :=
  mk (prepare_latch c) (finished_latch c) (reply_stop c) (stop_ack_count c) (init_id c) (n c)
     (nodes c) (init_ack_count c) (done_count c) (pid_map c) x (test_results c).

Definition set_test_results (c : t) (x : list KVTimestamp) : t :=
  mk (prepare_latch c) (finished_latch c) (reply_stop c) (stop_ack_count c) (init_id c) (n c)
     (nodes c) (init_ack_count c) (done_count c) (pid_map c) (test_promise c) x.

Definition with_ (prepare_latch : latch) (finished_latch : option latch) (init_id : Z)
    (nodes : list Path) (pid_map : option (list (Path * Z))) (test_promise : bool) : t :=
  mk prepare_latch finished_latch false 0 init_id 0 nodes 0 0 pid_map test_promise [].

(** ** Control messages *)

Definition init_msg (c : t) (init_data : option bytes) (node : Path) (pid : Z) : PaEffect :=
  PaTell node (ActorInitMsg (mkActorInit pid (init_id c) (nodes c) init_data)).

Definition prepare (c : t) (init_data : option bytes) : t * list PaEffect :=
  let c := set_n c (len_u32 (nodes c)) in
  (c, match pid_map c with
      | Some pid_map => map (fun kv : Path * Z => init_msg c init_data kv.1 kv.2) pid_map
      | None => imap (fun r node => init_msg c init_data node (as_u32 (Z.of_nat r) +u32 1)) (nodes c)
      end).

Definition receive_local (c : t) (msg : IterationControlMsg) : t * list PaEffect :=
  match msg with
  | Prepare init_data => prepare c init_data
  | Run => (c, map (fun node => PaTell node ActorRun) (nodes c))
  | Stop => (set_reply_stop c true, map (fun node => PaTell node ActorStop) (nodes c))
  end.

(** ** Answers of the nodes *)

Definition handle_init_ack (c : t) : option (t * list PaEffect) :=
  let c := set_init_ack_count c (init_ack_count c +u32 1) in
  if init_ack_count c =? n c then
    latch ← decrement (prepare_latch c);
    Some (set_prepare_latch c latch, [PaPrepared])
  else Some (c, []).

Definition handle_done (c : t) : option (t * list PaEffect) :=
  let c := set_done_count c (done_count c +u32 1) in
  if done_count c =? n c then
    finished ← finished_latch c;
    latch ← decrement finished;
    Some (set_finished_latch c (Some latch), [PaFinished])
  else Some (c, []).

Definition handle_test_done (c : t) (td : list KVTimestamp) : option (t * list PaEffect) :=
  let c := set_done_count c (done_count c +u32 1) in
  let c := set_test_results c (test_results c ++ td) in
  if done_count c =? n c then
    if test_promise c then Some (set_test_promise c false, [PaFulfil (test_results c)]) else None
  else Some (c, []).

Definition handle_stop_ack (c : t) : option (t * list PaEffect) :=
  let c := set_stop_ack_count c (stop_ack_count c +u32 1) in
  if stop_ack_count c =? n c then
    if reply_stop c then Some (set_reply_stop c false, [PaReplyStop]) else None
  else Some (c, []).

(** Other messages are logged. *)
Definition receive_network (c : t) (p : PartitioningActorMsg) : option (t * list PaEffect) :=
  match p with
  | ActorInitAck _ => handle_init_ack c
  | ActorDone => handle_done c
  | ActorTestDone td => handle_test_done c td
  | ActorStopAck => handle_stop_ack c
  | _ => Some (c, [])
  end.

(** A message of the master, or of a node. *)
Inductive input :=
| Local (msg : IterationControlMsg)
| Network (sender : Path) (p : PartitioningActorMsg).

Definition step (c : t) (i : input) : option (t * list PaEffect) :=
  match i with
  | Local msg => Some (receive_local c msg)
  | Network _ p => receive_network c p
  end.

Fixpoint steps (c : t) (inputs : list input) : option (t * list PaEffect) :=
  match inputs with
  | [] => Some (c, [])
  | i :: inputs =>
      '(c, e1) ← step c i;
      '(c, e2) ← steps c inputs;
      Some (c, e1 ++ e2)
  end.
End actor.

(** ** Wire format *)

Definition INIT_ID : Z := 1.
Definition INITACK_ID : Z := 2.
Definition RUN_ID : Z := 3.
Definition DONE_ID : Z := 4.
Definition TESTDONE_ID : Z := 5.
Definition STOP_ID : Z := 6.
Definition STOP_ACK_ID : Z := 13.
Definition READ_INV : Z := 8.
Definition READ_RESP : Z := 9.
Definition WRITE_INV : Z := 10.
Definition WRITE_RESP : Z := 11.

Section wire.
Context `{I64Ops} `{PathSer}.

Definition read_i64 : Dec Z := fun b => lift (get_i64 b).

Definition write_byte (b : byte) : bytes := put_u8 (BigEndian.of_byte b).
Definition read_byte : Dec byte := v <- read_u8;; dec_ret (BigEndian.byte_of v).

Definition write_init_data (init_data : option bytes) : bytes :=
  match init_data with
  | Some data => put_u64 (Z.of_nat (length data)) ++ (data ≫= write_byte)
  | None => put_u64 0
  end.

Definition read_init_data : Dec (option bytes) :=
  data_len <- read_u64;;
  if data_len =? 0 then dec_ret None
  else data <- read_many data_len read_byte;; dec_ret (Some data).

Definition serialise_init (i : ActorInit) : bytes :=
  put_u8 INIT_ID ++ put_u32 (init_pid i) ++ put_u32 (PaxosComp.init_id i) ++
  write_init_data (init_data i) ++ write_list put_path (init_nodes i).

(** [None] is the panic of [ts.value.unwrap()]. *)
Definition serialise_timestamp (ts : KVTimestamp) : option bytes :=
  op ← match operation ts with
       | ReadInvokation => Some (put_u8 READ_INV)
       | ReadResponse => v ← value ts; Some (put_u8 READ_RESP ++ put_u32 v)
       | WriteInvokation => v ← value ts; Some (put_u8 WRITE_INV ++ put_u32 v)
       | WriteResponse => v ← value ts; Some (put_u8 WRITE_RESP ++ put_u32 v)
       end;
  Some (put_u64 (key ts) ++ op ++ put_i64 (time ts) ++ put_u32 (sender ts)).

Definition serialise (m : PartitioningActorMsg) : option bytes :=
  match m with
  | ActorInitMsg i => Some (serialise_init i)
  | ActorInitAck id => Some (put_u8 INITACK_ID ++ put_u32 id)
  | ActorRun => Some (put_u8 RUN_ID)
  | ActorDone => Some (put_u8 DONE_ID)
  | ActorTestDone timestamps =>
      l ← mapM serialise_timestamp timestamps;
      Some (put_u8 TESTDONE_ID ++ put_u32 (len_u32 timestamps) ++ concat l)
  | ActorStop => Some (put_u8 STOP_ID)
  | ActorStopAck => Some (put_u8 STOP_ACK_ID)
  end.

Definition deserialise_init : Dec ActorInit :=
  pid <- read_u32;;
  init_id <- read_u32;;
  init_data <- read_init_data;;
  nodes <- read_list read_path;;
  dec_ret (mkActorInit pid init_id nodes init_data).

Definition deserialise_timestamp : Dec KVTimestamp :=
  key <- read_u64;;
  tag <- read_u8;;
  ov <- (if tag =? READ_INV then dec_ret (ReadInvokation, None)
         else if tag =? READ_RESP then v <- read_u32;; dec_ret (ReadResponse, Some v)
         else if tag =? WRITE_INV then v <- read_u32;; dec_ret (WriteInvokation, Some v)
         else if tag =? WRITE_RESP then v <- read_u32;; dec_ret (WriteResponse, Some v)
         else dec_panic);;
  time <- read_i64;;
  sender <- read_u32;;
  dec_ret (mkKVTimestamp key ov.1 ov.2 time sender).

Definition deserialise : Dec PartitioningActorMsg :=
  tag <- read_u8;;
  if tag =? INIT_ID then init <- deserialise_init;; dec_ret (ActorInitMsg init)
  else if tag =? INITACK_ID then init_id <- read_u32;; dec_ret (ActorInitAck init_id)
  else if tag =? RUN_ID then dec_ret ActorRun
  else if tag =? DONE_ID then dec_ret ActorDone
  else if tag =? TESTDONE_ID then
    timestamps <- read_list deserialise_timestamp;; dec_ret (ActorTestDone timestamps)
  else if tag =? STOP_ID then dec_ret ActorStop
  else if tag =? STOP_ACK_ID then dec_ret ActorStopAck
  else dec_err.

(** *** Round trips *)

Definition init_fits (i : ActorInit) : Prop :=
  in_u32 (init_pid i) /\ in_u32 (PaxosComp.init_id i) /\
  Z.of_nat (length (init_nodes i)) < 2 ^ 32 /\
  match init_data i with
  | Some data => data <> [] /\ Z.of_nat (length data) < 2 ^ 64
  | None => True
  end.

Definition timestamp_fits (ts : KVTimestamp) : Prop :=
  in_u64 (key ts) /\ - 2 ^ 63 <= time ts < 2 ^ 63 /\ in_u32 (sender ts) /\
  match operation ts, value ts with
  | ReadInvokation, None => True
  | ReadInvokation, Some _ | _, None => False
  | _, Some v => in_u32 v
  end.

Definition fits (m : PartitioningActorMsg) : Prop :=
  match m with
  | ActorInitMsg i => init_fits i
  | ActorInitAck id => in_u32 id
  | ActorTestDone l => Z.of_nat (length l) < 2 ^ 32 /\ Forall timestamp_fits l
  | _ => True
  end.

Lemma byte_of_of_byte b : BigEndian.byte_of (BigEndian.of_byte b) = b.
Proof.
  unfold BigEndian.byte_of, BigEndian.of_byte. pose proof (Byte.to_N_bounded b).
  rewrite Z.mod_small by lia. by rewrite N2Z.id, Byte.of_to_N.
Qed.

Lemma decodes_byte b : decodes read_byte (write_byte b) b.
Proof.
  unfold read_byte, write_byte. eapply decodes_bind_ret; [apply decodes_u8, of_byte_range|].
  apply decodes_ret_eq, byte_of_of_byte.
Qed.

Lemma decodes_i64 v : - 2 ^ 63 <= v < 2 ^ 63 -> decodes read_i64 (put_i64 v) v.
Proof. intros Hv rest. unfold read_i64. by rewrite get_put_i64. Qed.
#[local] Hint Extern 2 (decodes read_i64 _ _) => apply decodes_i64; assumption : wire.

Lemma decodes_many {A} (enc : A -> bytes) (d : Dec A) l :
  Forall (fun a => decodes d (enc a) a) l ->
  decodes (read_many (Z.of_nat (length l)) d) (l ≫= enc) l.
Proof.
  unfold read_many. rewrite Nat2Z.id.
  induction 1 as [|a l Ha Hf IH]; simpl; [apply decodes_ret|].
  eapply decodes_bind; [exact Ha|]. eapply decodes_bind_ret; [exact IH|]. apply decodes_ret.
Qed.

Lemma decodes_init_data o :
  match o with Some data => data <> [] /\ Z.of_nat (length data) < 2 ^ 64 | None => True end ->
  decodes read_init_data (write_init_data o) o.
Proof.
  unfold read_init_data, write_init_data. destruct o as [data|].
  - intros [Hd Hl]. assert (length data <> 0%nat) by by destruct data.
    eapply decodes_bind; [apply decodes_u64; unfold in_u64; lia|].
    destruct (Z.eqb_spec (Z.of_nat (length data)) 0); [lia|].
    eapply decodes_bind_ret; [|apply decodes_ret]. apply decodes_many, Forall_forall.
    intros b _. apply decodes_byte.
  - intros _. eapply decodes_bind_ret; [apply decodes_u64; unfold in_u64; lia|]. apply decodes_ret.
Qed.

Lemma decodes_paths l :
  Z.of_nat (length l) < 2 ^ 32 -> decodes (read_list read_path) (write_list put_path l) l.
Proof. intros Hl. apply decodes_list; [done|]. apply Forall_forall. intros p _. apply decodes_path. Qed.
#[local] Hint Resolve decodes_init_data decodes_paths : wire.

Lemma decodes_timestamp ts :
  timestamp_fits ts ->
  exists b, serialise_timestamp ts = Some b /\ decodes deserialise_timestamp b ts.
Proof.
  destruct ts as [k o v z s]. intros (Hk & Hz & Hs & Hv). simpl in *.
  unfold serialise_timestamp, deserialise_timestamp. simpl.
  destruct o, v as [v|]; try done; (eexists; split; [reflexivity|]);
    (eapply decodes_bind; [by apply decodes_u64|]);
    rewrite <- ?app_assoc; (eapply decodes_bind; [apply decodes_u8; split; vm_compute; congruence|]);
    simpl.
  2-4: eapply decodes_bind; [eapply decodes_bind_ret; [by apply decodes_u32|apply decodes_ret]|].
  1: rewrite <- (app_nil_l (put_i64 z ++ _)); eapply decodes_bind; [apply decodes_ret|].
  all: repeat wire_step.
Qed.

Lemma decodes_timestamps l :
  Forall timestamp_fits l ->
  exists bs, mapM serialise_timestamp l = Some bs /\
    decodes (read_many (Z.of_nat (length l)) deserialise_timestamp) (concat bs) l.
Proof.
  unfold read_many. rewrite Nat2Z.id.
  induction 1 as [|ts l (b & Hb & Hd)%decodes_timestamp Hf (bs & Hbs & IH)].
  - exists []. split; [done|apply decodes_ret].
  - exists (b :: bs). split; [cbn [mapM]; by rewrite Hb, Hbs|]. simpl.
    eapply decodes_bind; [exact Hd|]. eapply decodes_bind_ret; [exact IH|apply decodes_ret].
Qed.

(** Every message between the partitioning actor and the nodes whose numbers and
    lengths fit the wire is serialised without a panic and read back exactly, and the bytes
    after it are left in the buffer.  The data of an [Init] must not be the empty vector,
    and only the invocation of a read may have no value. *)
Theorem partitioning_actor_roundtrip (m : PartitioningActorMsg) (rest : bytes) :
  fits m -> exists b, serialise m = Some b /\ deserialise (b ++ rest) = Ok m rest.
Proof.
  intros Hf. assert (exists b, serialise m = Some b /\ decodes deserialise b m) as (b & Hb & Hd);
    [|exists b; split; [done|apply Hd]].
  unfold deserialise. destruct m as [[pid id ns d]|id| | |l| |]; simpl in *;
    try (eexists; split; [reflexivity|]; wire_step; simpl; repeat wire_step).
  - destruct Hf as (Hp & Hi & Hn & Hd). simpl in *.
    eexists. split; [reflexivity|]. unfold serialise_init. simpl. wire_step. simpl.
    unfold deserialise_init. eapply decodes_bind_ret; [|apply decodes_ret]. repeat wire_step.
  - destruct Hf as [Hl Hf]. destruct (decodes_timestamps l Hf) as (bs & Hbs & Hdl).
    rewrite Hbs. eexists. split; [reflexivity|]. wire_step. simpl.
    eapply decodes_bind_ret; [|apply decodes_ret].
    eapply decodes_bind; [by apply decodes_len|]. exact Hdl.
Qed.

(** The empty vector is read back as no data. *)
Lemma empty_init_data : decodes read_init_data (write_init_data (Some [])) None.
Proof.
  unfold read_init_data, write_init_data. simpl. rewrite app_nil_r.
  eapply decodes_bind_ret; [apply decodes_u64; unfold in_u64; lia|apply decodes_ret].
Qed.
End wire.

(** ** The handshake *)

Section handshake.
Context `{Latch}.

(** The nodes that answered their [Init], and the number of answers to the stop. *)
Definition acks (inputs : list input) : list Path :=
  omap (fun i => match i with Network s (ActorInitAck _) => Some s | _ => None end) inputs.

Definition stop_acks (inputs : list input) : list Path :=
  omap (fun i => match i with Network s ActorStopAck => Some s | _ => None end) inputs.

(** The iteration is prepared once; nodes of a broadcast benchmark are never done; they
    answer a stop after it was sent. *)
Fixpoint allowed (asked : bool) (inputs : list input) : Prop :=
  match inputs with
  | [] => True
  | Local (Prepare _) :: _ => False
  | Local Stop :: inputs => allowed true inputs
  | Network _ ActorDone :: _ | Network _ (ActorTestDone _) :: _ => False
  | Network _ ActorStopAck :: inputs => asked = true /\ allowed asked inputs
  | _ :: inputs => allowed asked inputs
  end.

Fixpoint prepared (effs : list PaEffect) : nat :=
  match effs with
  | [] => 0
  | PaPrepared :: effs => S (prepared effs)
  | _ :: effs => prepared effs
  end.

Fixpoint stop_replies (effs : list PaEffect) : nat :=
  match effs with
  | [] => 0
  | PaReplyStop :: effs => S (stop_replies effs)
  | _ :: effs => stop_replies effs
  end.

Definition inits (effs : list PaEffect) : list (Path * ActorInit) :=
  omap (fun e => match e with PaTell node (ActorInitMsg i) => Some (node, i) | _ => None end) effs.

Lemma prepared_app e1 e2 : prepared (e1 ++ e2) = (prepared e1 + prepared e2)%nat.
Proof. induction e1 as [|[] e1 IH]; simpl; lia. Qed.

Lemma stop_replies_app e1 e2 : stop_replies (e1 ++ e2) = (stop_replies e1 + stop_replies e2)%nat.
Proof. induction e1 as [|[] e1 IH]; simpl; lia. Qed.

Lemma inits_effs_app e1 e2 : inits (e1 ++ e2) = inits e1 ++ inits e2.
Proof. apply omap_app. Qed.

(** Effects that are sends only, of [Init]s or not. *)
Definition tells (effs : list PaEffect) : Prop :=
  Forall (fun e => match e with PaTell _ _ => True | _ => False end) effs.

Lemma tells_counts effs : tells effs -> prepared effs = 0%nat /\ stop_replies effs = 0%nat.
Proof. induction 1 as [|[] effs Hx Hf [IH1 IH2]]; by simpl. Qed.

(** One when the count [a] passes [n] within the next [k] answers. *)
Definition crossed (n a : Z) (k : nat) : nat :=
  if (a <? n) && (n <=? a + Z.of_nat k) then 1 else 0.

Lemma crossed_step n a k : crossed n a (S k) = (crossed n a 1 + crossed n (a + 1) k)%nat.
Proof.
  unfold crossed. destruct (Z.ltb_spec a n), (Z.ltb_spec (a + 1) n),
    (Z.leb_spec n (a + Z.of_nat (S k))), (Z.leb_spec n (a + Z.of_nat 1)),
    (Z.leb_spec n (a + 1 + Z.of_nat k)); simpl; lia.
Qed.

Lemma crossed_0 n a : crossed n a 0 = 0%nat.
Proof. unfold crossed. destruct (Z.ltb_spec a n), (Z.leb_spec n (a + Z.of_nat 0)); simpl; lia. Qed.

(** The state of an actor that counts answers. *)
Record counting (asked : bool) (len a b : Z) (c : t) : Prop := {
  co_n : n c = len;
  co_init : init_ack_count c = a;
  co_stop : stop_ack_count c = b;
  co_init_pos : 0 <= a;
  co_stop_pos : 0 <= b;
  co_latch : a < len -> is_Some (decrement (prepare_latch c));
  co_asked : asked = true -> b < len -> reply_stop c = true }.

Lemma init_ack_spec asked len a b c :
  counting asked len a b c -> a + 1 < 2 ^ 32 ->
  exists c' e, handle_init_ack c = Some (c', e) /\ counting asked len (a + 1) b c' /\
    prepared e = crossed len a 1 /\ stop_replies e = 0%nat /\ inits e = [].
Proof.
  intros [] Ha. unfold handle_init_ack. simpl. rewrite co_init0, u32_add_small by lia.
  unfold crossed. destruct (Z.eqb_spec (a + 1) (n c)) as [He|He].
  - destruct co_latch0 as [l Hl]; [lia|]. rewrite Hl. simpl. eexists _, _. split; [reflexivity|].
    split_and!; try done; [constructor; simpl; try done; lia|].
    destruct (Z.ltb_spec a len), (Z.leb_spec len (a + Z.of_nat 1)); simpl; lia.
  - eexists _, _. split; [reflexivity|]. split_and!; try done.
    + constructor; simpl; try done; [lia|]. intros ?. apply co_latch0. lia.
    + destruct (Z.ltb_spec a len), (Z.leb_spec len (a + Z.of_nat 1)); simpl; lia.
Qed.

Lemma stop_ack_spec len a b c :
  counting true len a b c -> b + 1 < 2 ^ 32 ->
  exists c' e, handle_stop_ack c = Some (c', e) /\ counting true len a (b + 1) c' /\
    prepared e = 0%nat /\ stop_replies e = crossed len b 1 /\ inits e = [].
Proof.
  intros [] Hb. unfold handle_stop_ack. simpl. rewrite co_stop0, u32_add_small by lia.
  unfold crossed. destruct (Z.eqb_spec (b + 1) (n c)) as [He|He].
  - rewrite co_asked0 by lia. eexists _, _. split; [reflexivity|]. split_and!; try done.
    + constructor; simpl; try done; lia.
    + destruct (Z.ltb_spec b len), (Z.leb_spec len (b + Z.of_nat 1)); simpl; lia.
  - eexists _, _. split; [reflexivity|]. split_and!; try done.
    + constructor; simpl; try done; [lia|]. intros ??. apply co_asked0; [done|lia].
    + destruct (Z.ltb_spec b len), (Z.leb_spec len (b + Z.of_nat 1)); simpl; lia.
Qed.

Lemma tells_map (l : list Path) m : tells (map (fun node => PaTell node m) l).
Proof. apply Forall_forall. by intros e (p & -> & _)%list_elem_of_fmap. Qed.

Lemma inits_tells (l : list Path) m :
  match m with ActorInitMsg _ => False | _ => True end ->
  inits (map (fun node => PaTell node m) l) = [].
Proof. intros Hm. induction l as [|p l IH]; [done|]. simpl. by destruct m. Qed.

Lemma counting_steps inputs asked len a b c :
  counting asked len a b c -> allowed asked inputs ->
  a + Z.of_nat (length inputs) < 2 ^ 32 -> b + Z.of_nat (length inputs) < 2 ^ 32 ->
  exists c' e, steps c inputs = Some (c', e) /\
    prepared e = crossed len a (length (acks inputs)) /\
    stop_replies e = crossed len b (length (stop_acks inputs)) /\ inits e = [].
Proof.
  revert asked a b c. induction inputs as [|i inputs IH]; intros asked a b c Hc Hal Ha Hb.
  - eexists _, _. simpl. by rewrite !crossed_0.
  - cbn [length] in *.
    assert (Hother : forall asked' c1 e1, step c i = Some (c1, e1) -> counting asked' len a b c1 ->
      allowed asked' inputs -> tells e1 -> inits e1 = [] ->
      acks (i :: inputs) = acks inputs -> stop_acks (i :: inputs) = stop_acks inputs ->
      exists c' e, steps c (i :: inputs) = Some (c', e) /\
        prepared e = crossed len a (length (acks (i :: inputs))) /\
        stop_replies e = crossed len b (length (stop_acks (i :: inputs))) /\ inits e = []).
    { intros asked' c1 e1 Hst Hc1 Hal1 [Ht1 Ht2]%tells_counts Hi1 E1 E2.
      destruct (IH asked' a b c1 Hc1 Hal1) as (c2 & e2 & Hs & Hp & Hr & Hi); [lia..|].
      rewrite E1, E2. cbn [steps]. rewrite Hst. simpl. rewrite Hs. simpl. eexists _, _.
      split; [reflexivity|]. rewrite prepared_app, stop_replies_app, inits_effs_app, Hi1, Hi, Ht1, Ht2.
      by split_and!. }
    destruct i as [[d| |]|s [i|id| | |td| |]]; try done.
    + eapply Hother; [reflexivity|exact Hc|exact Hal|apply tells_map|by apply inits_tells|done..].
    + eapply (Hother true); [reflexivity| |exact Hal|apply tells_map|by apply inits_tells|done..].
      destruct Hc. by constructor.
    + by eapply Hother; [reflexivity|exact Hc|exact Hal|constructor|..].
    + destruct (init_ack_spec asked len a b c Hc) as (c1 & e1 & Hst & Hc1 & Hp1 & Hr1 & Hi1); [lia|].
      destruct (IH asked (a + 1) b c1 Hc1 Hal) as (c2 & e2 & Hs & Hp & Hr & Hi); [lia..|].
      cbn [steps step receive_network]. rewrite Hst. simpl. rewrite Hs. simpl. eexists _, _.
      split; [reflexivity|]. rewrite crossed_step, prepared_app, stop_replies_app, inits_effs_app.
      rewrite Hp1, Hp, Hr1, Hr, Hi1, Hi. by split_and!.
    + by eapply Hother; [reflexivity|exact Hc|exact Hal|constructor|..].
    + by eapply Hother; [reflexivity|exact Hc|exact Hal|constructor|..].
    + destruct Hal as [-> Hal].
      destruct (stop_ack_spec len a b c Hc) as (c1 & e1 & Hst & Hc1 & Hp1 & Hr1 & Hi1); [lia|].
      destruct (IH true a (b + 1) c1 Hc1 Hal) as (c2 & e2 & Hs & Hp & Hr & Hi); [lia..|].
      cbn [steps step receive_network]. rewrite Hst. simpl. rewrite Hs. simpl. eexists _, _.
      split; [reflexivity|]. rewrite crossed_step, prepared_app, stop_replies_app, inits_effs_app.
      rewrite Hp1, Hp, Hr1, Hr, Hi1, Hi. by split_and!.
Qed.
(** The [Init]s that the actor has to send: by the map of pids, or numbered from 1. *)
Definition announced (ns : list Path) (pm : option (list (Path * Z))) (id : Z)
    (d : option bytes) : list (Path * ActorInit) :=
  match pm with
  | Some pm => map (fun kv : Path * Z => (kv.1, mkActorInit kv.2 id ns d)) pm
  | None => imap (fun r node => (node, mkActorInit (Z.of_nat r + 1) id ns d)) ns
  end.

Lemma inits_pid_map c d pm :
  inits (map (fun kv : Path * Z => init_msg c d kv.1 kv.2) pm) =
  map (fun kv : Path * Z => (kv.1, mkActorInit kv.2 (init_id c) (nodes c) d)) pm.
Proof. induction pm as [|[p z] pm IH]; [done|]. simpl. by rewrite <- IH. Qed.

Lemma inits_enumerate c d (l : list Path) (k : nat) :
  Z.of_nat (k + length l) < 2 ^ 32 ->
  inits (imap (fun r node => init_msg c d node (as_u32 (Z.of_nat (k + r)) +u32 1)) l) =
  imap (fun r node => (node, mkActorInit (Z.of_nat (k + r) + 1) (init_id c) (nodes c) d)) l.
Proof.
  revert k. induction l as [|p l IH]; intros k Hk; [done|]. simpl in Hk |- *. f_equal.
  - unfold as_u32. rewrite Z.mod_small by lia. by rewrite u32_add_small by lia.
  - setoid_rewrite (imap_ext _ (fun r node => init_msg c d node (as_u32 (Z.of_nat (S k + r)) +u32 1)));
      [|intros r x _; simpl; by rewrite Nat.add_succ_r].
    rewrite IH by lia. apply imap_ext. intros r x _. simpl. by rewrite Nat.add_succ_r.
Qed.

Lemma prepare_tells c d : tells (prepare c d).2.
Proof.
  unfold prepare, tells. simpl. destruct (pid_map c) as [pm|]; apply Forall_forall.
  - by intros e (kv & -> & _)%list_elem_of_fmap.
  - intros e (r & node & -> & _)%elem_of_lookup_imap. done.
Qed.

(** The handshake of an iteration, from a fresh actor. *)
Definition fresh (id : Z) (ns : list Path) (pm : option (list (Path * Z))) : t :=
  with_ (latch_new 1) None id ns pm false.

(** C28: the partitioning actor never panics in an iteration; it sends an [Init] with its
    pid to every node, once; it opens the prepare latch of the master once, exactly when
    as many answers arrived as there are nodes, that is, if the answers come from the nodes
    and no node answers twice, exactly when all nodes are initialised; and it answers the
    stop once, exactly when as many nodes answered it. *)
Theorem iteration_handshake id ns pm d inputs :
  ns <> [] -> Z.of_nat (length ns) < 2 ^ 32 -> Z.of_nat (length inputs) < 2 ^ 32 ->
  allowed false inputs ->
  exists c effs, steps (fresh id ns pm) (Local (Prepare d) :: inputs) = Some (c, effs) /\
    inits effs = announced ns pm id d /\
    prepared effs = (if (length ns <=? length (acks inputs))%nat then 1 else 0)%nat /\
    (NoDup ns -> NoDup (acks inputs) -> acks inputs ⊆ ns ->
     prepared effs = 1%nat <-> forall p, p ∈ ns -> p ∈ acks inputs) /\
    stop_replies effs = (if (length ns <=? length (stop_acks inputs))%nat then 1 else 0)%nat.
Proof.
  intros Hne Hn Hl Hal. assert (length ns <> 0%nat) by by destruct ns.
  set (c0 := set_n (fresh id ns pm) (len_u32 ns)).
  assert (Hc0 : counting false (Z.of_nat (length ns)) 0 0 c0).
  { constructor; simpl; try done; [by apply len_u32_small|]. intros _. apply decrement_new. }
  destruct (counting_steps inputs false _ 0 0 c0 Hc0 Hal) as (c & e & Hs & Hp & Hr & Hi); [lia..|].
  destruct (tells_counts _ (prepare_tells (fresh id ns pm) d)) as [Hp0 Hr0].
  assert (Hin : inits (prepare (fresh id ns pm) d).2 = announced ns pm id d).
  { unfold prepare, announced. simpl. destruct pm as [pm|]; [apply inits_pid_map|].
    apply (inits_enumerate c0 d ns 0). done. }
  assert (Hcr : forall k, crossed (Z.of_nat (length ns)) 0 k = (if (length ns <=? k)%nat then 1 else 0)%nat).
  { intros k. unfold crossed. destruct (Z.ltb_spec 0 (Z.of_nat (length ns))),
      (Z.leb_spec (Z.of_nat (length ns)) (0 + Z.of_nat k)), (Nat.leb_spec (length ns) k); simpl; lia. }
  rewrite Hcr in Hp, Hr. exists c, ((prepare (fresh id ns pm) d).2 ++ e).
  split.
  { cbn [steps step receive_local]. rewrite (surjective_pairing (prepare _ _)).
    change (prepare (fresh id ns pm) d).1 with c0. simpl. by rewrite Hs. }
  rewrite prepared_app, stop_replies_app, inits_effs_app, Hp0, Hr0, Hi, app_nil_r, Hin, Hp, Hr.
  split_and!; try done. intros Hnd Hna Hsub. destruct (Nat.leb_spec (length ns) (length (acks inputs))).
  - split; [|done]. intros _ p Hpin.
    assert (Hperm : acks inputs ≡ₚ ns).
    { apply submseteq_length_Permutation; [|done]. by apply NoDup_submseteq. }
    by rewrite Hperm.
  - split; [done|]. intros Hall. apply NoDup_submseteq in Hall; [|done].
    apply submseteq_length in Hall. lia.
Qed.
End handshake.

(** ** Examples *)

#[export] Instance counting_latch : Latch.
Proof.
  refine {| latch := Z; latch_new := fun z => z;
            decrement := fun l => if l =? 0 then None else Some (l - 1) |}.
  by eexists.
Defined.

Module PaExample.
Definition node (i : Z) : Path := Named i ANode.
Definition ack (i : Z) : input := Network (node i) (ActorInitAck 1).
Definition inputs : list input :=
  [ack 2; ack 1; Local Run; Local Stop; Network (node 1) ActorStopAck; Network (node 2) ActorStopAck].
End PaExample.

Lemma iteration_handshake_witness :
  exists c effs,
    steps (fresh 1 [PaExample.node 1; PaExample.node 2] None)
      (Local (Prepare None) :: PaExample.inputs) = Some (c, effs) /\
    prepared effs = 1%nat /\ stop_replies effs = 1%nat.
Proof.
  destruct (iteration_handshake 1 [PaExample.node 1; PaExample.node 2] None None PaExample.inputs)
    as (c & effs & Hs & _ & Hp & _ & Hr).
  - discriminate.
  - reflexivity.
  - reflexivity.
  - vm_compute. repeat split.
  - exists c, effs. split; [exact Hs|]. split; [exact Hp|exact Hr].
Defined.

(** The wire on the big-endian buffer: signed numbers in two's complement, and paths by
    the bits of their number in an enumeration. *)
Definition sign64 (z : Z) : Z := if z <? 2 ^ 63 then z else z - 2 ^ 64.

Lemma sign64_mod v : - 2 ^ 63 <= v < 2 ^ 63 -> sign64 (v mod 2 ^ 64) = v.
Proof.
  intros Hv. unfold sign64. destruct (Z.ltb_spec v 0).
  - replace (v mod 2 ^ 64) with (v + 2 ^ 64) by (apply Z.mod_unique with (-1); lia).
    destruct (Z.ltb_spec (v + 2 ^ 64) (2 ^ 63)); lia.
  - rewrite Z.mod_small by lia. destruct (Z.ltb_spec v (2 ^ 63)); lia.
Qed.

#[export] Instance big_endian_i64 : I64Ops (H := BigEndian.big_endian).
Proof.
  refine {| put_i64 := fun v => BigEndian.put 8 (v mod 2 ^ 64);
            get_i64 := fun b => prod_map sign64 id <$> BigEndian.get 8 0 b |}.
  intros v rest Hv. rewrite BigEndian.get_put_be by (apply Z.mod_pos_bound; lia). simpl.
  rewrite sign64_mod by done. done.
Defined.

Fixpoint write_positive (p : positive) : bytes :=
  match p with
  | xH => [x00]
  | xO p => x01 :: write_positive p
  | xI p => x02 :: write_positive p
  end.

Fixpoint read_positive (b : bytes) : option (positive * bytes) :=
  match b with
  | x00 :: b => Some (xH, b)
  | x01 :: b => prod_map xO id <$> read_positive b
  | x02 :: b => prod_map xI id <$> read_positive b
  | _ => None
  end.

Lemma read_write_positive p rest : read_positive (write_positive p ++ rest) = Some (p, rest).
Proof. induction p as [p IH|p IH|]; simpl; [by rewrite IH..|done]. Qed.

#[export] Instance path_ser : PathSer.
Proof.
  refine {| put_path := fun p => write_positive (encode p);
            read_path := fun b => lift ('(x, rest) ← read_positive b; p ← decode x; Some (p, rest)) |}.
  intros p rest. rewrite read_write_positive. simpl. by rewrite decode_encode.
Defined.

(** A recorded read, at a negative time. *)
Definition example_done : PartitioningActorMsg :=
  ActorTestDone [mkKVTimestamp 7 ReadInvokation None (-5) 1;
                 mkKVTimestamp 7 ReadResponse (Some 9) 3 1].

Lemma partitioning_actor_roundtrip_witness :
  exists b, serialise (H := BigEndian.big_endian) example_done = Some b /\
    deserialise (H := BigEndian.big_endian) (b ++ [x01]) = Ok example_done [x01].
Proof.
  apply (partitioning_actor_roundtrip (H := BigEndian.big_endian) example_done [x01]).
  repeat (constructor || (vm_compute; congruence)).
Defined.

(** With a map of pids that has more nodes than the iteration uses, an answer of a node
    that is not used opens the latch although node 2 was not initialised. *)
Example larger_pid_map :
  option_map (fun r : t * list PaEffect => prepared r.2)
    (steps (fresh 1 [PaExample.node 1; PaExample.node 2]
              (Some [(PaExample.node 1, 1); (PaExample.node 3, 3); (PaExample.node 2, 2)]))
       [Local (Prepare None); PaExample.ack 1; PaExample.ack 3]) = Some 1%nat.
Proof. vm_compute. reflexivity. Qed.

End PartitioningActor.
