(* ===== verification/PaxosTransfer.v ===== *)
(** The transfer of a final sequence to a node that joins ([paxos.rs], the segment
    handlers of [PaxosComp]).

    A joining node asks every continued node for one segment of the final sequence
    of the previous configuration and stores the concatenation of the answers.  The
    first part is about the segments alone: how they tile the sequence and how
    sorting puts them together.  The second part follows a session of the node
    through all events that can happen to it. *)

From Stdlib Require Import Strings.Byte Sorting.Sorted.
From stdpp Require Import sorting.
From S2P Require Import Prelude MpMessages Partition Wire Election Ble VrLe MpLe.
From S2P Require Import PaxosWire MsgWire PaxosStorage Communicator PaxosReplica PaxosComp.

Import Omni PaxosWire MsgWire PaxosComp.

(** ** Segments that tile a sequence *)

Definition tile (off : Z) (i : nat) : SegmentIndex :=
  mkSegmentIndex (Z.of_nat i * off) (Z.of_nat i * off + off).
Definition tiling (n : nat) (off : Z) : list SegmentIndex := map (tile off) (seq 0 n).

Lemma tiling_elem n off x : x ∈ tiling n off -> exists i, (i < n)%nat /\ x = tile off i.
Proof.
  intros (i & -> & Hi)%list_elem_of_fmap. exists i. apply elem_of_seq in Hi. split; [lia|done].
Qed.

Lemma tiling_not_nil n off : (0 < n)%nat -> tiling n off <> [].
Proof. by destruct n; [lia|]. Qed.

(** The whole sequence is divided by the number of nodes, without wrap-around. *)
Lemma get_node_segment_idx_tiling len (from_nodes : list Z) :
  from_nodes <> [] -> 0 <= len < 2 ^ 64 ->
  get_node_segment_idx len from_nodes =
    Some (zip_with pair from_nodes
            (tiling (length from_nodes) (len / Z.of_nat (length from_nodes)))).
Proof.
  intros Hne Hlen. unfold get_node_segment_idx, u64_div.
  set (n := Z.of_nat (length from_nodes)).
  assert (0 < n) as Hn by (destruct from_nodes; [done|unfold n; simpl; lia]).
  rewrite (proj2 (Z.eqb_neq _ _)) by lia. simpl. f_equal.
  set (off := len / n). assert (0 <= off) by (apply Z.div_pos; lia).
  assert (n * off <= len) by (apply Z.mul_div_le; lia).
  apply list_eq. intros i. rewrite list_lookup_imap. unfold tiling.
  rewrite lookup_zip_with, list_lookup_fmap.
  destruct (from_nodes !! i) as [p|] eqn:Hi; [|done]. simpl.
  assert ((i < length from_nodes)%nat) as Hlt by by eapply lookup_lt_Some.
  rewrite lookup_seq_lt by done. simpl. unfold tile.
  assert (Z.of_nat i * off + off <= n * off) by nia. assert (0 <= Z.of_nat i * off) by nia.
  unfold u64_mul, u64_add. rewrite !Z.mod_small by (try rewrite Z.mod_small; lia).
  by rewrite (proj2 (Z.ltb_ge _ _)) by lia.
Qed.

(** ** Sorting *)

Definition from_le (x y : SequenceSegment) : Prop := get_from_idx x <= get_from_idx y.

Lemma insert_segment_perm s l : insert_segment s l ≡ₚ s :: l.
Proof.
  induction l as [|x l IH]; simpl; [done|]. destruct (_ <=? _); [done|].
  rewrite IH. apply Permutation_swap.
Qed.

Lemma sort_segments_perm l : sort_segments l ≡ₚ l.
Proof. induction l as [|s l IH]; simpl; [done|]. by rewrite insert_segment_perm, IH. Qed.

Lemma insert_segment_sorted s l :
  StronglySorted from_le l -> StronglySorted from_le (insert_segment s l).
Proof.
  induction 1 as [|x l Hs IH Hx]; simpl; [by repeat constructor|].
  destruct (Z.leb_spec (get_from_idx s) (get_from_idx x)).
  - constructor; [by constructor|]. constructor; [done|].
    eapply Forall_impl; [exact Hx|]. intros y Hy. unfold from_le in *. lia.
  - constructor; [done|]. rewrite insert_segment_perm. constructor; [unfold from_le; lia|done].
Qed.

Lemma sort_segments_sorted l : StronglySorted from_le (sort_segments l).
Proof. induction l; simpl; [constructor|]. by apply insert_segment_sorted. Qed.

Lemma sorted_from l :
  StronglySorted from_le l -> StronglySorted Z.le (map get_from_idx l).
Proof.
  induction 1 as [|x l _ IH Hx]; simpl; constructor; [done|]. by apply Forall_map.
Qed.

Lemma tiling_sorted n off : 0 <= off -> StronglySorted Z.le (map seg_from (tiling n off)).
Proof.
  intros Hoff. unfold tiling. rewrite map_map. simpl.
  generalize 0%nat. induction n as [|n IH]; intros k; simpl; constructor; [apply IH|].
  apply Forall_map, Forall_forall. intros i Hi. apply elem_of_seq in Hi. nia.
Qed.

Lemma tiling_NoDup n off : 0 < off -> NoDup (tiling n off).
Proof.
  intros Hoff. apply NoDup_fmap_2_strong; [|apply NoDup_seq].
  intros i j _ _ Heq. unfold tile in Heq. injection Heq. nia.
Qed.

(** ** Putting the segments together *)

Section assemble.
Context (final : list Entry).

(** A segment that holds what its index says. *)
Definition right_segment (s : SequenceSegment) : Prop :=
  entries_between final (seg_from (get_index s)) (seg_to (get_index s)) = Some (seg_entries s).

Lemma concat_tiles (f : Z -> list Entry) n off :
  (0 <= off) -> Z.of_nat n * off <= Z.of_nat (length final) ->
  (forall i, (i < n)%nat ->
     entries_between final (Z.of_nat i * off) (Z.of_nat i * off + off) = Some (f (Z.of_nat i * off))) ->
  concat (map f (map seg_from (tiling n off))) = take (Z.to_nat (Z.of_nat n * off)) final.
Proof.
  intros Hoff. unfold tiling. induction n as [|n IH]; intros Hlen Hf; [done|].
  rewrite seq_S, !map_app, concat_app. simpl. rewrite app_nil_r, IH; [|lia|].
  - assert (entries_between final 0 (Z.of_nat n * off) =
            Some (take (Z.to_nat (Z.of_nat n * off)) final)) as H1
      by (apply entries_between_prefix; nia).
    pose proof (entries_between_app _ _ _ _ _ _ H1 (Hf n ltac:(lia))) as H2.
    rewrite entries_between_prefix in H2 by nia. injection H2 as <-. do 2 f_equal. lia.
  - intros i Hi. apply Hf. lia.
Qed.

Lemma zero_tiles n x : x ∈ tiling n 0 -> x = mkSegmentIndex 0 0.
Proof. intros (i & _ & ->)%tiling_elem. unfold tile. by rewrite Z.mul_0_r. Qed.

(** Received once each, in whatever order, the segments are put together to the
    part of the sequence they tile. *)
Lemma assemble_segments n off (segs : list SequenceSegment) :
  (0 < n)%nat -> 0 <= off -> Z.of_nat n * off <= Z.of_nat (length final) ->
  NoDup (map get_index segs) -> Forall right_segment segs ->
  (forall x, x ∈ map get_index segs <-> x ∈ tiling n off) ->
  concat (map seg_entries (sort_segments segs)) = take (Z.to_nat (Z.of_nat n * off)) final.
Proof.
  intros Hn Hoff Hlen Hnd Hright Hsame.
  assert (Forall right_segment (sort_segments segs)) as Hs by by rewrite sort_segments_perm.
  destruct (decide (off = 0)) as [->|Hpos].
  - rewrite Z.mul_0_r, take_0.
    apply concat_nil_Forall, Forall_map, Forall_forall. intros s Hin.
    pose proof (proj1 (Forall_forall _ _) Hs _ Hin) as He. unfold right_segment in He.
    rewrite sort_segments_perm in Hin.
    rewrite (zero_tiles n (get_index s)) in He by (apply Hsame, list_elem_of_fmap; eauto).
    simpl in He. apply entries_between_length in He. by destruct (seg_entries s).
  - set (f := fun from => default [] (entries_between final from (from + off))).
    assert (map seg_entries (sort_segments segs) =
            map f (map get_from_idx (sort_segments segs))) as ->.
    { rewrite map_map. apply map_ext_in. intros s Hin%list_elem_of_In.
      pose proof (proj1 (Forall_forall _ _) Hs _ Hin) as He. rewrite sort_segments_perm in Hin.
      assert (get_index s ∈ tiling n off) as Ht by (apply Hsame, list_elem_of_fmap; eauto).
      apply tiling_elem in Ht as (i & _ & Hi). unfold right_segment in He. unfold f, get_from_idx.
      change (seg_idx s) with (get_index s). rewrite Hi in *. simpl in *. by rewrite He. }
    assert (map get_from_idx (sort_segments segs) = map seg_from (tiling n off)) as ->.
    { apply (StronglySorted_unique Z.le); [apply sorted_from, sort_segments_sorted|
        by apply tiling_sorted|]. rewrite sort_segments_perm.
      replace (map get_from_idx segs) with (map seg_from (map get_index segs)) by by rewrite map_map.
      apply Permutation_map, NoDup_Permutation; [done|by apply tiling_NoDup; lia|done]. }
    apply concat_tiles; [done|done|]. intros i Hi. unfold f.
    destruct (entries_between_is_Some final (Z.of_nat i * off) (Z.of_nat i * off + off)) as [e He];
      [nia|nia|by rewrite He].
Qed.
End assemble.

(** ** A session of the joining node

    The node waits for configuration [N] and transfers the final sequence of
    configuration [k], of which the metadata said [len] entries, from the nodes
    [from_nodes]. *)

Section session.
Context {Sq P : Type} `{RaftMessage} `{BufOps} `{Sequence Sq} `{PaxosCore Sq P}.
Context (deserialise_path : bytes -> option Path).
Context (k N len : Z) (final : list Entry) (from_nodes : list Z).

Abbreviation Comp := (PaxosComp.t (Sq := Sq) (P := P)).

Definition offset : Z := len / Z.of_nat (length from_nodes).
Definition tiles : list SegmentIndex := tiling (length from_nodes) offset.
Definition covered : Z := Z.of_nat (length from_nodes) * offset.

Definition transferring (c : Comp) : Prop :=
  exists pend recv,
    prev_sequences c !! k = None /\
    default [] (received_segments c !! k) = recv /\
    pending_segments c !! k = Some pend /\ pend <> [] /\
    (forall x, x ∈ pend <-> x ∈ tiles /\ x ∉ map get_index recv) /\
    (forall x, x ∈ map get_index recv -> x ∈ tiles) /\
    NoDup (map get_index recv) /\ Forall (right_segment final) recv.

Definition transferred (c : Comp) : Prop :=
  exists s, prev_sequences c !! k = Some s /\ entries_of s = take (Z.to_nat covered) final.

Definition waiting (c : Comp) : Prop :=
  stopped c = true \/ next_config_id c = Some N \/
  (next_config_id c = None /\ N <= meta_id (active_config c)).

Definition in_session (c : Comp) : Prop := (transferring c \/ transferred c) /\ waiting c.

(** The answers to the node's requests: a successful one holds what it says, and
    was asked for. *)
Definition honest_transfer (st : SegmentTransfer) : Prop :=
  st_config_id st = k -> st_succeeded st = true ->
  right_segment final (st_segment st) /\ get_index (st_segment st) ∈ tiles.

(** What can happen in a session: anything but a new iteration, a decided
    reconfiguration at this node, or an [Init] of a later configuration. *)
Definition session_input (i : input (Sq := Sq)) : Prop :=
  match i with
  | Local (CompReconfig _) => False
  | Network _ (InPartitioningActor (ActorInitMsg _)) _ => False
  | Network _ (InReconfiguration (Init r)) _ => ri_config_id r <= N
  | Network _ (InReconfiguration (SegmentTransferMsg st)) _ => honest_transfer st
  | _ => True
  end.

(** *** Steps that leave the transfer alone *)

Definition view (c : Comp) :=
  (pending_segments c !! k, received_segments c !! k, prev_sequences c !! k).

Definition quiet (c c' : Comp) : Prop :=
  view c' = view c /\ stopped c' = stopped c /\ next_config_id c' = next_config_id c /\
  meta_id (active_config c') = meta_id (active_config c).

Lemma transferring_view c c' : view c' = view c -> transferring c -> transferring c'.
Proof. unfold view, transferring. intros [= -> -> ->]. done. Qed.

Lemma transferred_view c c' : view c' = view c -> transferred c -> transferred c'.
Proof. unfold view, transferred. intros [= _ _ ->]. done. Qed.

Lemma quiet_session c c' : quiet c c' -> in_session c -> in_session c'.
Proof.
  intros (Hv & Hs & Hn & Ha) [Ht Hw]. split.
  - destruct Ht; [left; by eapply transferring_view|right; by eapply transferred_view].
  - unfold waiting in *. by rewrite Hs, Hn, Ha.
Qed.

Lemma quiet_trans c1 c2 c3 : quiet c1 c2 -> quiet c2 c3 -> quiet c1 c3.
Proof. unfold quiet. intros (-> & -> & -> & ->). done. Qed.

Lemma start_replica_inv (c : Comp) cfg c' e :
  start_replica c cfg = Some (c', e) ->
  c' = set_next_config_id (set_active_config c (config_meta_new cfg)) None /\
  e = [CeStart (Z.to_nat (config_idx c cfg))].
Proof. unfold start_replica. intros H'. by handler_inv H'. Qed.

(** Starting the awaited replica ends the wait. *)
Lemma start_replica_session (c c0 : Comp) cfg c' e :
  start_replica c cfg = Some (c', e) -> next_config_id c0 = Some cfg ->
  stopped c = stopped c0 -> waiting c0 -> view c' = view c /\ waiting c'.
Proof.
  intros [-> _]%start_replica_inv Hn Hs Hw. split; [done|]. unfold waiting in *. simpl.
  rewrite Hs. destruct Hw as [?|[Hw|[Hw _]]]; [by left| |congruence].
  right. right. split; [done|]. assert (cfg = N) by congruence. lia.
Qed.

Lemma quiet_propose_hb c c' e : propose_hb_proposals c = Some (c', e) -> quiet c c'.
Proof. unfold propose_hb_proposals. intros H'. by handler_inv H'. Qed.

Lemma quiet_forward_hb c p c' e : forward_hb_proposals c p = Some (c', e) -> quiet c c'.
Proof. unfold forward_hb_proposals. intros H'. by handler_inv H'. Qed.

Lemma quiet_receive_leader c cfg l r c' e : receive_leader c cfg l r = Some (c', e) -> quiet c c'.
Proof.
  unfold receive_leader. intros H'. handler_inv H'; try done;
    eapply quiet_trans; [|by eapply quiet_propose_hb| |by eapply quiet_forward_hb]; done.
Qed.

Lemma quiet_atomic_broadcast c m c' e :
  receive_atomic_broadcast c m = Some (c', e) -> quiet c c'.
Proof. unfold receive_atomic_broadcast. intros H'. by handler_inv H'. Qed.

Lemma quiet_partitioning c p c' e : receive_partitioning c p = Some (c', e) -> quiet c c'.
Proof. unfold receive_partitioning. intros H'. by handler_inv H'. Qed.

Lemma quiet_request c sr p c' e : handle_segment_request c sr p = Some (c', e) -> quiet c c'.
Proof. unfold handle_segment_request. intros H'. by handler_inv H'. Qed.

Lemma quiet_retry c cfg c' e : retry_pending_segments c cfg = Some (c', e) -> quiet c c'.
Proof. unfold retry_pending_segments. intros H'. by handler_inv H'. Qed.
Lemma stop_session c c' e : stop_components c = Some (c', e) -> in_session c -> in_session c'.
Proof.
  intros H' [Ht Hw].
  assert (view c' = view c /\ stopped c' = true) as [Hv Hs].
  { unfold stop_components in H'. cbv zeta in H'. destruct (length _); [done|].
    apply bind_Some in H' as ([c1 e1] & Hc & [= <- <-]). destruct (_ <? _); [|by simplify_eq].
    by apply start_replica_inv in Hc as [-> _]. }
  split; [|by left].
  destruct Ht; [left; by eapply transferring_view|right; by eapply transferred_view].
Qed.

Lemma run_session c p m c' e :
  receive_actor deserialise_path c p m = Some (c', e) ->
  match m with ActorInitMsg _ => False | _ => True end -> in_session c -> in_session c'.
Proof.
  intros H' Hm [Ht Hw]. destruct m; try done. simpl in H'. handler_inv H'; [|done].
  eapply start_replica_session in H' as [Hv Hw']; [|done|done|done]. split; [|done].
  destruct Ht; [left; by eapply transferring_view|right; by eapply transferred_view].
Qed.

(** A node that waits only notes further [Init]s. *)
Lemma init_session c r c' e :
  receive_reconfig_init c r = Some (c', e) -> ri_config_id r <= N ->
  in_session c -> in_session c'.
Proof.
  intros H' Hr [Ht Hw]. unfold receive_reconfig_init in H'.
  destruct (stopped c) eqn:Hs; [by handler_inv H'|].
  destruct (Z.leb_spec (ri_config_id r) (meta_id (active_config c))) as [|Hlt];
    [by handler_inv H'|].
  destruct Hw as [?|[Hn|[_ ?]]]; [congruence| |lia]. rewrite Hn in H'.
  apply (quiet_session c); [|split; [done|right; by left]].
  by handler_inv H'.
Qed.

(** *** Transfers *)

Lemma pull_inv (c : Comp) cfg l from c' e :
  pull_sequence c cfg l from = Some (c', e) ->
  exists pend, c' = set_pending_segments c (<[cfg := pend]> (pending_segments c)).
Proof. unfold pull_sequence. intros H'. handler_inv H'. eauto. Qed.

Lemma handle_segment_inv (c : Comp) cfg s c' :
  handle_segment c cfg s = Some c' ->
  exists pend, pending_segments c !! cfg = Some pend /\
    c' = set_pending_segments
           (set_received_segments c
              (<[cfg := default [] (received_segments c !! cfg) ++ [s]]> (received_segments c)))
           (<[cfg := filter (fun idx => idx <> get_index s) pend]> (pending_segments c)).
Proof. unfold handle_segment. intros H'. handler_inv H'. eauto. Qed.

Lemma completed_inv (c : Comp) cfg c' e :
  handle_completed_sequence_transfer c cfg = Some (c', e) ->
  exists received next (c0 : Comp),
    received_segments c !! cfg = Some received /\ next_config_id c = Some next /\
    c0 = set_pending_segments
           (set_prev_sequences
              (set_received_segments c (delete cfg (received_segments c)))
              (<[cfg := new_with_sequence (concat (map seg_entries (sort_segments received)))]>
                 (prev_sequences c)))
           (delete cfg (pending_segments c)) /\
    ((Z.of_nat (size (prev_sequences c0)) + 1 = next /\ start_replica c0 next = Some (c', e)) \/
     (Z.of_nat (size (prev_sequences c0)) + 1 <> next /\ c' = c0 /\ e = [])).
Proof.
  unfold handle_completed_sequence_transfer. intros H'. handler_inv H';
    eexists _, _, _; split_and!; try done; [left|right]; split_and!; try done; simpl; lia.
Qed.

(** Completing a transfer stores the sequence and may start the awaited replica. *)
Lemma completed_frame (c : Comp) cfg c' e :
  handle_completed_sequence_transfer c cfg = Some (c', e) -> waiting c ->
  waiting c' /\
  (cfg <> k -> view c' = view c) /\
  (exists received, received_segments c !! cfg = Some received /\
     prev_sequences c' !! cfg =
       Some (new_with_sequence (concat (map seg_entries (sort_segments received))))).
Proof.
  intros (received & next & c0 & Hr & Hn & -> & [[_ Hs]|(_ & -> & _)])%completed_inv Hw.
  - pose proof (start_replica_session _ c _ _ _ Hs Hn eq_refl Hw) as [Hv Hw'].
    apply start_replica_inv in Hs as [-> _]. split_and!; [done| |].
    + intros Hk. rewrite Hv. unfold view. simpl. by rewrite !lookup_delete_ne, lookup_insert_ne.
    + exists received. split; [done|]. simpl. apply lookup_insert_eq.
  - split_and!; [done| |].
    + intros Hk. unfold view. simpl. by rewrite !lookup_delete_ne, lookup_insert_ne.
    + exists received. split; [done|]. simpl. apply lookup_insert_eq.
Qed.

(** The segment that arrives joins the received ones. *)
Lemma handle_segment_transferring (c c' : Comp) s :
  handle_segment c k s = Some c' -> transferring c ->
  right_segment final s -> get_index s ∈ tiles ->
  get_index s ∉ map get_index (default [] (received_segments c !! k)) ->
  prev_sequences c' !! k = None /\
  exists pend recv,
    received_segments c' !! k = Some recv /\ pending_segments c' !! k = Some pend /\
    (forall x, x ∈ pend <-> x ∈ tiles /\ x ∉ map get_index recv) /\
    (forall x, x ∈ map get_index recv -> x ∈ tiles) /\
    NoDup (map get_index recv) /\ Forall (right_segment final) recv.
Proof.
  intros (pend0 & Hp0 & ->)%handle_segment_inv
    (pend & recv & Hprev & Hrecv & Hp & _ & Hiff & Hsub & Hnd & Hright) Hs Hin Hnew.
  assert (pend0 = pend) as -> by congruence. rewrite Hrecv in Hnew. simpl. rewrite Hrecv.
  split; [done|]. eexists _, _. split_and!; [apply lookup_insert_eq..| | | |].
  - intros x. rewrite map_app, list_elem_of_filter, Hiff. set_solver.
  - intros x. rewrite map_app. set_solver.
  - rewrite map_app, NoDup_app. split_and!; [done|set_solver|apply NoDup_singleton].
  - apply Forall_app. by repeat constructor.
Qed.

(** The sequence put together from all segments. *)
Lemma assembled recv :
  from_nodes <> [] -> 0 <= len <= Z.of_nat (length final) ->
  (forall x, x ∈ map get_index recv -> x ∈ tiles) ->
  (forall x, ~ (x ∈ tiles /\ x ∉ map get_index recv)) ->
  NoDup (map get_index recv) -> Forall (right_segment final) recv ->
  concat (map seg_entries (sort_segments recv)) = take (Z.to_nat covered) final.
Proof.
  intros Hne Hlen Hsub Hall Hnd Hright.
  assert (0 < Z.of_nat (length from_nodes)) as Hn by (destruct from_nodes; simpl in *; [done|lia]).
  apply assemble_segments; try done.
  - lia.
  - apply Z.div_pos; lia.
  - pose proof (Z.mul_div_le len _ Hn). unfold offset. lia.
  - intros x. split; [apply Hsub|]. intros Hx.
    destruct (decide (x ∈ map get_index recv)); [done|]. exfalso. by apply (Hall x).
Qed.

(** The pull of an earlier sequence, before the segment itself is handled. *)
Definition pull_previous (c : Comp) (st : SegmentTransfer) : option (Comp * list CompEffect) :=
  let prev_config_id := meta_config_id (st_metadata st) in
  if negb (prev_config_id =? 0)
     && negb (bool_decide (is_Some (prev_sequences c !! prev_config_id)))
     && negb (bool_decide (is_Some (pending_segments c !! prev_config_id)))
  then pull_sequence c prev_config_id (meta_len (st_metadata st)) (active_config_ready_peers c)
  else Some (c, []).

Lemma pull_previous_frame c st c' e :
  pull_previous c st = Some (c', e) -> transferring c \/ transferred c -> quiet c c'.
Proof.
  unfold pull_previous. intros H' Hk. destruct (_ && _) eqn:Hg; [|by simplify_eq].
  apply andb_prop in Hg as [[_ Hp]%andb_prop Hg]. apply negb_true_iff, bool_decide_eq_false in Hg.
  apply negb_true_iff, bool_decide_eq_false in Hp.
  apply pull_inv in H' as [pend ->]. unfold quiet, view. simpl.
  rewrite lookup_insert_ne; [done|]. intros Heq. rewrite Heq in Hg, Hp.
  destruct Hk as [(? & ? & _ & _ & Hk & _)|(? & Hk & _)]; naive_solver.
Qed.

Lemma has_handled_false (c : Comp) cfg idx :
  has_handled_segment c cfg idx = false ->
  idx ∉ map get_index (default [] (received_segments c !! cfg)) /\
  meta_id (active_config c) < cfg /\ prev_sequences c !! cfg = None.
Proof.
  unfold has_handled_segment. intros ([Hr Ha]%orb_false_iff & Hp)%orb_false_iff.
  apply bool_decide_eq_false in Hp. apply Z.leb_gt in Ha.
  split_and!; [|done|by apply eq_None_not_Some].
  destruct (received_segments c !! cfg) as [recv|]; [|set_solver]. simpl.
  intros (s & Hs & Hin)%list_elem_of_fmap.
  assert (existsb (fun s => bool_decide (get_index s = idx)) recv = true); [|congruence].
  apply existsb_exists. exists s. split; [by apply list_elem_of_In|by apply bool_decide_eq_true].
Qed.

Lemma transferred_session (c c' : Comp) st rnd e :
  handle_segment_transfer c st rnd = Some (c', e) -> st_config_id st = k ->
  transferred c -> c' = c.
Proof.
  intros H' Hk (s & Hs & _). unfold handle_segment_transfer in H'.
  destruct (has_handled_segment _ _ _) eqn:Hh; [by simplify_eq|].
  apply has_handled_false in Hh as (_ & _ & Hh). congruence.
Qed.


(** A handled segment is pulled for, put with the others, and may complete them. *)
Lemma transfer_inv c st rnd c' e :
  handle_segment_transfer c st rnd = Some (c', e) ->
  c' = c \/
  exists c1 pulled,
    has_handled_segment c (st_config_id st) (get_index (st_segment st)) = false /\
    pull_previous c st = Some (c1, pulled) /\
    (c' = c1 \/
     exists c2 pend, st_succeeded st = true /\
       handle_segment c1 (st_config_id st) (st_segment st) = Some c2 /\
       pending_segments c2 !! st_config_id st = Some pend /\
       ((pend <> [] /\ c' = c2) \/
        (pend = [] /\ exists effs,
           handle_completed_sequence_transfer c2 (st_config_id st) = Some (c', effs)))).
Proof.
  unfold handle_segment_transfer. destruct (has_handled_segment _ _ _) eqn:Hh;
    [intros [= <- _]; by left|].
  fold (pull_previous c st). intros ([c1 pulled] & Hp & H')%bind_Some.
  right. exists c1, pulled. split; [done|]. split; [done|].
  destruct (st_succeeded st).
  - apply bind_Some in H' as (c2 & Hc2 & (pend & Hpend & H')%bind_Some). right.
    exists c2, pend. split_and!; [done..|]. destruct pend; [|left; by simplify_eq].
    right. split; [done|]. apply bind_Some in H' as ([c3 effs] & Hc3 & [= <- _]). eauto.
  - left. by handler_inv H'.
Qed.

Lemma handle_segment_frame (c : Comp) cfg s c' :
  handle_segment c cfg s = Some c' ->
  (cfg <> k -> quiet c c') /\
  prev_sequences c' = prev_sequences c /\ stopped c' = stopped c /\
  next_config_id c' = next_config_id c /\ active_config c' = active_config c.
Proof.
  intros (pend & _ & ->)%handle_segment_inv. split; [|done]. intros Hk.
  unfold quiet, view. simpl. by rewrite !lookup_insert_ne.
Qed.

(** Segments of other configurations. *)
Lemma transfer_other_session c st rnd c' e :
  handle_segment_transfer c st rnd = Some (c', e) -> st_config_id st <> k ->
  in_session c -> in_session c'.
Proof.
  intros [->|(c1 & pulled & _ & Hp & H')]%transfer_inv Hk Hc; [done|].
  pose proof (quiet_session _ _ (pull_previous_frame _ _ _ _ Hp (proj1 Hc)) Hc) as Hc1.
  destruct H' as [->|(c2 & pend & _ & Hh & _ & H')]; [done|].
  apply handle_segment_frame in Hh as [Hq _]. specialize (Hq Hk).
  apply (quiet_session _ _ Hq) in Hc1 as [Ht Hw].
  destruct H' as [[_ ->]|[_ [effs Hd]]]; [done|].
  apply completed_frame in Hd as (Hw' & Hv & _); [|done]. specialize (Hv Hk).
  split; [|done].
  destruct Ht; [left; by eapply transferring_view|right; by eapply transferred_view].
Qed.

Context (Hnodes : from_nodes <> []) (Hlen : 0 <= len <= Z.of_nat (length final)).

(** Segments of the sequence that is transferred. *)
Lemma transfer_session c st rnd c' e :
  handle_segment_transfer c st rnd = Some (c', e) -> st_config_id st = k ->
  honest_transfer st -> in_session c -> in_session c'.
Proof.
  intros H' Hk Hst [[Ht|Ht] Hw];
    [|rewrite (transferred_session _ _ _ _ _ H' Hk Ht); split; [by right|done]].
  apply transfer_inv in H' as [->|(c1 & pulled & Hh & Hp & H')]; [split; [by left|done]|].
  pose proof (pull_previous_frame _ _ _ _ Hp (or_introl Ht)) as Hq.
  pose proof (quiet_session _ _ Hq (conj (or_introl Ht) Hw)) as [_ Hw1].
  assert (transferring c1) as Ht1 by (eapply transferring_view; [apply Hq|done]).
  destruct H' as [->|(c2 & pend & Hok & Hseg & Hpend & H')]; [split; [by left|done]|].
  rewrite Hk in *. apply has_handled_false in Hh as (Hnew & _ & _).
  destruct (Hst Hk Hok) as [Hright Hin].
  assert (received_segments c1 !! k = received_segments c !! k) as Hrc.
  { destruct Hq as [Hv _]. unfold view in Hv. congruence. }
  pose proof (handle_segment_frame _ _ _ _ Hseg) as (_ & _ & Hs2 & Hn2 & Ha2).
  assert (waiting c2) as Hw2 by (unfold waiting in *; by rewrite Hs2, Hn2, Ha2).
  apply handle_segment_transferring in Hseg as (Hprev & pend' & recv & Hr2 & Hp2 & Hiff & Hsub & Hnd & Hall);
    [|done|done|done|by rewrite Hrc].
  assert (pend' = pend) as -> by congruence.
  destruct H' as [[Hne ->]|[-> [effs Hd]]].
  - split; [left|done]. exists pend, recv. by rewrite Hr2.
  - apply completed_frame in Hd as (Hw' & _ & recv' & Hr' & Hs'); [|done].
    assert (recv' = recv) as -> by congruence. split; [right|done].
    eexists. split; [exact Hs'|]. rewrite new_with_sequence_spec.
    apply assembled; try done. intros x Hx%Hiff. set_solver.
Qed.

Lemma session_step c i c' e :
  step deserialise_path c i = Some (c', e) -> session_input i -> in_session c -> in_session c'.
Proof.
  destruct i as [m|sender m rnd|cfg]; simpl; intros H' Hi Hc.
  - destruct m; simpl in H'; [| |done|].
    + eapply quiet_session; [by eapply quiet_receive_leader|done].
    + injection H' as <- _. by apply (quiet_session c).
    + injection H' as <- _. by apply (quiet_session c).
  - destruct m as [m|p|p|rm|s]; simpl in H'.
    + eapply quiet_session; [by eapply quiet_atomic_broadcast|done].
    + eapply quiet_session; [by eapply quiet_partitioning|done].
    + eapply run_session; [done| |done]. by destruct p.
    + destruct rm as [r|sr|st]; simpl in H'.
      * by eapply init_session.
      * destruct (stopped c); [by simplify_eq|]. eapply quiet_session; [by eapply quiet_request|done].
      * destruct (stopped c); [by simplify_eq|].
        destruct (decide (st_config_id st = k)); [by eapply transfer_session|
          by eapply transfer_other_session].
    + destruct s; [by simplify_eq|by eapply stop_session].
  - eapply quiet_session; [by eapply quiet_retry|done].
Qed.

Lemma session_steps inputs c c' e :
  steps deserialise_path c inputs = Some (c', e) -> Forall session_input inputs ->
  in_session c -> in_session c'.
Proof.
  revert c e. induction inputs as [|i inputs IH]; intros c e H' Hi Hc;
    [by injection H' as <- _|].
  apply Forall_cons in Hi as [Hi His]. simpl in H'.
  apply bind_Some in H' as ([c1 e1] & Hc1 & ([c2 e2] & Hc2 & [= <- _])%bind_Some).
  eapply IH; [done|done|]. by eapply session_step.
Qed.

(** *** Progress *)

(** The node has a replica, an election and a communicator for [N]. *)
Definition has_children (c : Comp) : Prop :=
  is_Some (vec_get (paxos_replicas c) (config_idx c N)) /\
  is_Some (vec_get (le_comps c) (config_idx c N)) /\
  is_Some (vec_get (communicator_comps c) (config_idx c N)).

Definition running (c : Comp) : Prop :=
  stopped c = false /\ has_children c /\ active_config_ready_peers c <> [] /\
  (forall p, p ∈ active_config_ready_peers c -> is_Some (get_actorpath c p)) /\
  ((transferring c /\ next_config_id c = Some N /\ meta_id (active_config c) < k /\
    Z.of_nat (size (prev_sequences c)) + 2 = N) \/
   (transferred c /\ next_config_id c = None /\ meta_id (active_config c) = N)).

(** What the network delivers in a session without failures: answers, repeated
    [Init]s and timeouts.  The configuration has no predecessor of its own. *)
Definition answer_input (valid : Z -> Prop) (i : input (Sq := Sq)) : Prop :=
  match i with
  | Network _ (InReconfiguration (Init r)) _ => ri_config_id r <= N /\ valid (ri_from r)
  | Network _ (InReconfiguration (SegmentTransferMsg st)) _ =>
      st_config_id st = k /\ meta_config_id (st_metadata st) = 0 /\ honest_transfer st
  | RetryTimeout _ => True
  | _ => False
  end.

Definition answered (i : input (Sq := Sq)) : option SegmentIndex :=
  match i with
  | Network _ (InReconfiguration (SegmentTransferMsg st)) _ =>
      if st_succeeded st then Some (get_index (st_segment st)) else None
  | _ => None
  end.

Definition has_segment (c : Comp) (x : SegmentIndex) : Prop :=
  transferred c \/ x ∈ map get_index (default [] (received_segments c !! k)).

Lemma mapM_total {A B} (f : A -> option B) l :
  (forall x, x ∈ l -> is_Some (f x)) -> is_Some (mapM f l).
Proof. intros Hf. apply mapM_is_Some, Forall_forall. exact Hf. Qed.

Lemma retry_peer_total peers i :
  peers <> [] -> exists p, retry_peer peers i = Some p /\ p ∈ peers.
Proof.
  intros Hne. assert (0 < length peers)%nat by (destruct peers; simpl in *; [done|lia]).
  unfold retry_peer. destruct (Nat.ltb_spec i (length peers)).
  - destruct (lookup_lt_is_Some_2 peers (length peers - 1 - i)) as [p Hp]; [lia|].
    exists p. split; [done|]. by eapply list_elem_of_lookup_2.
  - rewrite (proj2 (Nat.eqb_neq _ _)) by lia.
    destruct (lookup_lt_is_Some_2 peers (length peers - 1 - i mod length peers)) as [p Hp]; [lia|].
    exists p. split; [done|]. by eapply list_elem_of_lookup_2.
Qed.

Lemma request_total (c : Comp) cfg node :
  is_Some (get_actorpath c node.1) -> is_Some (request_segment c cfg node).
Proof. unfold request_segment. intros [path ->]. simpl. eauto. Qed.

Lemma start_replica_total c : has_children c -> is_Some (start_replica c N).
Proof. unfold start_replica. intros ([? ->] & [? ->] & [? ->]). simpl. eauto. Qed.

Lemma retry_running c cfg :
  running c -> exists e, retry_pending_segments c cfg = Some (c, e).
Proof.
  intros (_ & _ & Hne & Hp & _). unfold retry_pending_segments.
  destruct (pending_segments c !! cfg) as [pend|]; [|by eexists].
  edestruct (mapM_total (fun ix : nat * SegmentIndex =>
    p ← retry_peer (active_config_ready_peers c) ix.1;
    request_segment c cfg (p, ix.2)) (imap pair pend)) as [reqs ->]; [|by eexists].
  intros [j idx] _. simpl. destruct (retry_peer_total _ j Hne) as (p & -> & Hin). simpl.
  apply request_total, Hp, Hin.
Qed.

Lemma running_ready c p :
  running c -> is_Some (get_actorpath c p) ->
  running (set_active_config_ready_peers c (active_config_ready_peers c ++ [p])).
Proof.
  intros (Hs & Hc & Hne & Hp & Ht) Hpath. split_and!; [done|done| | |done]; simpl.
  - by destruct (active_config_ready_peers c).
  - intros p' [Hin|Hin]%elem_of_app; [by apply Hp|]. by apply list_elem_of_singleton in Hin as ->.
Qed.

Lemma init_running c r :
  running c -> ri_config_id r <= N -> is_Some (get_actorpath c (ri_from r)) ->
  exists c', receive_reconfig_init c r = Some (c', []) /\ running c' /\
    received_segments c' = received_segments c /\ prev_sequences c' = prev_sequences c.
Proof.
  intros Hr Hle Hpath. pose proof Hr as (Hs & _ & _ & _ & Ht). unfold receive_reconfig_init.
  rewrite Hs. destruct (Z.leb_spec (ri_config_id r) (meta_id (active_config c))); [by exists c|].
  destruct Ht as [(_ & -> & _)|(_ & _ & ?)]; [|lia].
  destruct (_ && _); [|by exists c].
  eexists. split; [done|]. split; [by apply running_ready|done].
Qed.

(** What a step of a running session promises. *)
Definition progress (c c' : Comp) (e : list CompEffect) (i : input (Sq := Sq)) : Prop :=
  running c' /\ nodes c' = nodes c /\
  (forall x, answered i = Some x -> has_segment c' x) /\
  (forall x, has_segment c x -> has_segment c' x) /\
  (transferring c -> transferred c' -> exists j, CeStart j ∈ e).

Lemma transferring_not_transferred c : transferring c -> ~ transferred c.
Proof. intros (? & ? & Hp & _) (? & Hp' & _). congruence. Qed.

(** The last segment completes the transfer and starts the replica. *)
Lemma complete_running c c2 s recv :
  running c -> transferring c -> handle_segment c k s = Some c2 ->
  received_segments c2 !! k = Some recv -> recv <> [] ->
  concat (map seg_entries (sort_segments recv)) = take (Z.to_nat covered) final ->
  exists c3 e, handle_completed_sequence_transfer c2 k = Some (c3, e) /\
    running c3 /\ transferred c3 /\ nodes c3 = nodes c /\ exists j, CeStart j ∈ e.
Proof.
  intros (Hs & Hc & Hne & Hp & Ht) Htr (pend & Hpend & ->)%handle_segment_inv Hr Hrecv Hcat.
  destruct Ht as [(_ & Hn & Ha & Hsz)|(Htd & _)];
    [|by apply transferring_not_transferred in Htr].
  destruct Htr as (_ & _ & Hprev & _).
  unfold handle_completed_sequence_transfer. rewrite Hr. simpl.
  assert (is_Some (last (sort_segments recv))) as [l ->].
  { apply last_is_Some. intros Heq. pose proof (sort_segments_perm recv) as Hperm.
    rewrite Heq in Hperm. by apply Permutation_nil in Hperm. }
  simpl. rewrite Hn. simpl. rewrite map_size_insert_None by done.
  rewrite (proj2 (Z.eqb_eq _ _)) by lia.
  set (c3 := set_pending_segments _ _). destruct (start_replica_total c3 Hc) as [[c4 e] Hst].
  rewrite Hst. apply start_replica_inv in Hst as [-> ->].
  eexists _, _. split; [done|].
  match goal with |- running ?c /\ _ => assert (transferred c) as Hd end.
  { eexists. split; [simpl; apply lookup_insert_eq|]. by rewrite new_with_sequence_spec, Hcat. }
  split_and!; [split_and!; try done; by right|done|done|eexists; by apply list_elem_of_singleton].
Qed.

Lemma success_running c s :
  running c -> transferring c -> right_segment final s -> get_index s ∈ tiles ->
  get_index s ∉ map get_index (default [] (received_segments c !! k)) ->
  exists c2 pend,
    handle_segment c k s = Some c2 /\ pending_segments c2 !! k = Some pend /\
    nodes c2 = nodes c /\
    default [] (received_segments c2 !! k) = default [] (received_segments c !! k) ++ [s] /\
    (pend <> [] -> running c2 /\ transferring c2) /\
    (pend = [] -> exists c3 e, handle_completed_sequence_transfer c2 k = Some (c3, e) /\
       running c3 /\ transferred c3 /\ nodes c3 = nodes c /\ exists j, CeStart j ∈ e).
Proof.
  intros Hr Ht Hs Hin Hnew. pose proof Ht as (pend0 & _ & _ & _ & Hp0 & _).
  assert (exists c2, handle_segment c k s = Some c2) as [c2 Hc2].
  { unfold handle_segment. simpl. rewrite Hp0. simpl. eauto. }
  pose proof (handle_segment_transferring _ _ _ Hc2 Ht Hs Hin Hnew)
    as (Hprev & pend & recv & Hr2 & Hp2 & Hiff & Hsub & Hnd & Hall).
  pose proof (handle_segment_inv _ _ _ _ Hc2) as (pend1 & _ & Heq).
  assert (recv = default [] (received_segments c !! k) ++ [s]) as Hrecv.
  { rewrite Heq in Hr2. simpl in Hr2. rewrite lookup_insert_eq in Hr2. congruence. }
  exists c2, pend. split_and!; [done|done|by rewrite Heq|by rewrite Hr2| |].
  - intros Hne. assert (transferring c2) as Ht2 by (exists pend, recv; by rewrite Hr2).
    split; [|done]. destruct Hr as (? & ? & ? & ? & [(_ & Hrest)|[Hd _]]);
      [|by apply transferring_not_transferred in Ht].
    rewrite Heq in Ht2 |- *. split_and!; try done. left. by split.
  - intros ->. eapply complete_running; [done..| |].
    + rewrite Hrecv. by destruct (default _ _).
    + apply assembled; try done. intros x Hx%Hiff. set_solver.
Qed.

(** A failed answer is asked for again at a ready peer. *)
Lemma transfer_running c st rnd (i : input (Sq := Sq)) :
  running c -> st_config_id st = k -> meta_config_id (st_metadata st) = 0 ->
  honest_transfer st ->
  answered i = (if st_succeeded st then Some (get_index (st_segment st)) else None) ->
  exists c' e, handle_segment_transfer c st rnd = Some (c', e) /\ progress c c' e i.
Proof.
  intros Hr Hk Hm Hst Hi. unfold handle_segment_transfer. rewrite Hk.
  destruct (has_handled_segment c k (get_index (st_segment st))) eqn:Hh.
  { exists c, []. split; [done|]. split_and!; [done|done| |done|].
    - intros x Hx. rewrite Hi in Hx. destruct (st_succeeded st); [|done]. injection Hx as <-.
      destruct Hr as (_ & _ & _ & _ & [(Ht & _ & Ha & _)|[Hd _]]); [|by left].
      right. destruct (decide (get_index (st_segment st) ∈
        map get_index (default [] (received_segments c !! k)))) as [|Hnot]; [done|].
      exfalso. destruct Ht as (_ & _ & Hprev & _). revert Hh.
      unfold has_handled_segment. rewrite (proj2 (Z.leb_gt _ _)) by done.
      rewrite (bool_decide_eq_false_2 _), orb_false_r, orb_false_r by (rewrite Hprev; by intros []).
      destruct (received_segments c !! k) as [recv|]; [|done].
      intros (s & Hs%list_elem_of_In & Heq%bool_decide_eq_true)%existsb_exists.
      apply Hnot, list_elem_of_fmap. by exists s.
    - intros Ht Hd. by apply transferring_not_transferred in Ht. }
  apply has_handled_false in Hh as (Hnew & Ha & Hprev).
  rewrite Hm. simpl. pose proof Hr as (_ & _ & Hne & Hp & Ht).
  destruct Ht as [(Ht & _)|[(s & Hs & _) _]]; [|congruence].
  destruct (st_succeeded st) eqn:Hok.
  - destruct (Hst Hk Hok) as [Hright Hin].
    destruct (success_running _ _ Hr Ht Hright Hin Hnew)
      as (c2 & pend & -> & Hpend & Hn2 & Hrecv & Hmore & Hlast). simpl. rewrite Hpend. simpl.
    destruct pend as [|x pend].
    + destruct Hlast as (c3 & e & -> & Hr3 & Hd3 & Hn3 & Hj); [done|]. simpl.
      exists c3, e. split; [done|]. split_and!; [done|done|intros; by left..|done].
    + destruct Hmore as [Hr2 Ht2]; [done|]. exists c2, []. split; [done|].
      split_and!; [done|done| | |by intros _ ?%transferring_not_transferred].
      * rewrite Hi. intros y [= <-]. right. rewrite Hrecv, map_app. set_solver.
      * intros y [Hd|Hy]; [by apply transferring_not_transferred in Ht|].
        right. rewrite Hrecv, map_app. set_solver.
  - destruct (active_config_ready_peers c) as [|p0 ps] eqn:Hps; [done|].
    destruct (lookup_lt_is_Some_2 (p0 :: ps) (rnd mod length (p0 :: ps))) as [p Hlk];
      [by apply Nat.mod_upper_bound|]. simpl in Hlk. rewrite Hlk. simpl.
    destruct (request_total c k (p, get_index (st_segment st))) as [req ->];
      [simpl; eapply Hp, list_elem_of_lookup_2, Hlk|]. simpl.
    eexists _, _. split; [done|]. split_and!; [done|done|by rewrite Hi|done|].
    by intros _ ?%transferring_not_transferred.
Qed.

Lemma get_actorpath_nodes (c c' : Comp) p :
  nodes c' = nodes c -> get_actorpath c' p = get_actorpath c p.
Proof. unfold get_actorpath. by intros ->. Qed.

Lemma answer_step c i :
  running c -> answer_input (fun p => is_Some (get_actorpath c p)) i ->
  exists c' e, step deserialise_path c i = Some (c', e) /\ progress c c' e i.
Proof.
  intros Hr Hi. pose proof Hr as (Hs & _).
  destruct i as [m|sender m rnd|cfg]; [done| |].
  - destruct m as [| | |rm|]; try done. simpl. destruct rm as [r|sr|st]; try done; simpl.
    + destruct Hi as [Hle Hpath].
      destruct (init_running _ _ Hr Hle Hpath) as (c' & Hc' & Hr' & Hrecv & Hprev).
      exists c', []. split; [done|].
      assert (nodes c' = nodes c) as Hn.
      { unfold receive_reconfig_init in Hc'. rewrite Hs in Hc'. handler_inv Hc'; try done;
          by destruct Hr as (_ & _ & _ & _ & [(_ & ? & _)|(_ & _ & ?)]); [congruence|lia]. }
      split_and!; [done|done|done| |].
      * intros x. unfold has_segment, transferred. by rewrite Hrecv, Hprev.
      * intros Ht Hd. exfalso. apply (transferring_not_transferred c Ht).
        unfold transferred in *. by rewrite <- Hprev.
    + destruct Hi as (Hk & Hm & Hst). rewrite Hs. by apply transfer_running.
  - simpl. destruct (retry_running c cfg Hr) as [e ->]. exists c, e. split; [done|].
    split_and!; try done. by intros ? ?%transferring_not_transferred.
Qed.

Lemma answer_steps inputs c :
  running c -> Forall (answer_input (fun p => is_Some (get_actorpath c p))) inputs ->
  exists c' e, steps deserialise_path c inputs = Some (c', e) /\ running c' /\
    (forall x, has_segment c x \/ x ∈ omap answered inputs -> has_segment c' x) /\
    (transferring c -> transferred c' -> exists j, CeStart j ∈ e).
Proof.
  revert c. induction inputs as [|i inputs IH]; intros c Hr Hi.
  { exists c, []. split_and!; [done..| |by intros ? ?%transferring_not_transferred].
    intros x [?|Hx]; [done|]. by apply elem_of_nil in Hx. }
  apply Forall_cons in Hi as [Hi His].
  destruct (answer_step c i Hr Hi) as (c1 & e1 & Hs1 & Hr1 & Hn1 & Ha1 & Hm1 & Hc1).
  destruct (IH c1 Hr1) as (c2 & e2 & Hs2 & Hr2 & Hm2 & Hc2).
  { eapply Forall_impl; [exact His|]. intros j. destruct j as [|? m ?|]; try done.
    destruct m as [| | |rm|]; try done. destruct rm; try done. simpl.
    by rewrite (get_actorpath_nodes c c1). }
  exists c2, (e1 ++ e2). cbn [steps]. rewrite Hs1. simpl. rewrite Hs2. split; [done|].
  split; [done|]. split.
  - intros x Hx. apply Hm2. destruct Hx as [Hx|Hx]; [left; by apply Hm1|].
    simpl in Hx. destruct (answered i) as [y|] eqn:Hy; [|by right].
    apply elem_of_cons in Hx as [->|Hx]; [left; by apply Ha1|by right].
  - intros Ht Hd. pose proof Hr1 as (_ & _ & _ & _ & [(Ht1 & _)|(Hd1 & _)]).
    + destruct (Hc2 Ht1 Hd) as [j Hj]. exists j. set_solver.
    + destruct (Hc1 Ht Hd1) as [j Hj]. exists j. set_solver.
Qed.

(** All segments answered, the transfer is over. *)
Lemma covered_transferred c :
  running c -> (forall x, x ∈ tiles -> has_segment c x) ->
  transferred c /\ meta_id (active_config c) = N.
Proof.
  intros (_ & _ & _ & _ & [(Ht & _)|(Hd & _ & Ha)]) Hall; [|done].
  exfalso. pose proof Ht as (pend & recv & _ & Hr & _ & Hne & Hiff & _).
  destruct pend as [|x pend]; [done|]. destruct (proj1 (Hiff x)) as [Hx Hnot]; [set_solver|].
  destruct (Hall x Hx) as [Hd|Hin]; [by apply transferring_not_transferred in Ht|].
  by rewrite Hr in Hin.
Qed.

(** *** The first [Init] *)

(** A node that can join with the [Init] [r]: it waits for nothing, it created the
    components of [N], elects by [BLE], and knows every node. *)
Definition joinable (c : Comp) (r : ReconfigInit) : Prop :=
  stopped c = false /\ next_config_id c = None /\ meta_id (active_config c) < k /\ k < N /\
  prev_sequences c !! k = None /\ Z.of_nat (size (prev_sequences c)) + 2 = N /\
  received_segments c !! k = None /\ has_children c /\
  (exists ble, vec_get (le_comps c) (config_idx c N) = Some (LeBle ble) /\
               Ble.leader ble = None) /\
  (forall p, p ∈ continued_nodes (ri_nodes r) ++ new_nodes (ri_nodes r) ->
     is_Some (get_actorpath c p)) /\
  (forall p, p ∈ active_config_ready_peers c -> is_Some (get_actorpath c p)).

(** The [Init] of a continued node. *)
Definition first_init (r : ReconfigInit) : Prop :=
  ri_config_id r = N /\ continued_nodes (ri_nodes r) = from_nodes /\
  ri_seq_metadata r = mkSequenceMetaData k len /\ ri_from r ∈ from_nodes /\
  ~ (k = 1 /\ len = 1).

Lemma derive_actorpaths_total (c : Comp) cfg peers :
  (forall p, p ∈ peers -> is_Some (get_actorpath c p)) ->
  is_Some (derive_actorpaths c cfg peers).
Proof.
  induction peers as [|p peers IH]; intros Hp; simpl; [eauto|].
  destruct (Hp p) as [path ->]; [set_solver|]. simpl.
  destruct IH as [[bs cs] ->]; [intros; apply Hp; set_solver|]. simpl. eauto.
Qed.

Lemma set_initial_total (c : Comp) lead peers :
  has_children c -> (forall p, p ∈ peers -> is_Some (get_actorpath c p)) ->
  (exists ble, vec_get (le_comps c) (config_idx c N) = Some (LeBle ble) /\ Ble.leader ble = None) ->
  exists reps les comms e,
    set_initial_replica_state_after_reconfig c N lead peers =
      Some (set_communicator_comps (set_le_comps (set_paxos_replicas c reps) les) comms, e) /\
    length reps = length (paxos_replicas c) /\ length les = length (le_comps c) /\
    length comms = length (communicator_comps c).
Proof.
  intros ([paxos Hp] & _ & [comm Hc]) Hpeers (ble & Hb & Hl).
  unfold set_initial_replica_state_after_reconfig. cbv zeta. rewrite Hp. simpl.
  destruct (derive_actorpaths_total c N peers Hpeers) as [[bs cs] ->]. simpl.
  change (vec_get (le_comps (set_paxos_replicas c ?l)) ?i) with (vec_get (le_comps c) i).
  rewrite Hb. simpl. unfold Ble.set_initial_leader. simpl. rewrite Hl.
  by destruct lead as [l|]; simpl; rewrite Hc; simpl; eexists _, _, _, _; split;
    [done| |done|]; rewrite !length_insert.
Qed.

Lemma has_children_length (c c' : Comp) :
  first_config_id c' = first_config_id c ->
  length (paxos_replicas c') = length (paxos_replicas c) ->
  length (le_comps c') = length (le_comps c) ->
  length (communicator_comps c') = length (communicator_comps c) ->
  has_children c -> has_children c'.
Proof.
  unfold has_children, config_idx. rewrite !vec_get_is_Some. by intros -> -> -> ->.
Qed.

(** The request that goes to the [i]-th node. *)
Definition requested (c : Comp) (e : list CompEffect) : Prop :=
  forall i p, from_nodes !! i = Some p ->
  exists path, get_actorpath c p = Some path /\
    CeTell path (DReconfiguration (SegmentRequestMsg
      (mkSegmentRequest k (tile offset i) (pid c)))) ∈ e.

Lemma pull_total (c : Comp) :
  len < 2 ^ 64 -> (forall p, p ∈ from_nodes -> is_Some (get_actorpath c p)) ->
  exists e, pull_sequence c k len from_nodes =
    Some (set_pending_segments c (<[k := tiles]> (pending_segments c)), e) /\ requested c e.
Proof.
  intros H64 Hp. unfold pull_sequence. rewrite get_node_segment_idx_tiling by (done || lia).
  fold offset. fold tiles. simpl.
  destruct (mapM_total (request_segment c k) (zip_with pair from_nodes tiles)) as [reqs Hreqs].
  { intros [p x] (p' & x' & [= <- <-] & Hin & _)%elem_of_zip_with. apply request_total. by apply Hp. }
  rewrite Hreqs. simpl. assert (length from_nodes = length tiles) as Hl
    by (unfold tiles, tiling; by rewrite length_map, length_seq).
  eexists. split; [rewrite snd_zip by lia; done|].
  intros i p Hi. destruct (Hp p) as [path Hpath]; [by eapply list_elem_of_lookup_2|].
  exists path. split; [done|]. apply elem_of_app. left.
  apply mapM_Some_1 in Hreqs. assert (zip_with pair from_nodes tiles !! i = Some (p, tile offset i)) as Hz.
  { rewrite lookup_zip_with, Hi. simpl. unfold tiles, tiling. rewrite list_lookup_fmap.
    by rewrite lookup_seq_lt by by eapply lookup_lt_Some. }
  destruct (Forall2_lookup_l _ _ _ _ _ Hreqs Hz) as (req & Hreq & Hr).
  unfold request_segment in Hr. simpl in Hr. rewrite Hpath in Hr. simpl in Hr. injection Hr as <-.
  by eapply list_elem_of_lookup_2.
Qed.

(** The first [Init] opens the session. *)
Lemma init_joins c r :
  len < 2 ^ 64 -> first_init r -> joinable c r ->
  exists c' e, receive_reconfig_init c r = Some (c', e) /\
    running c' /\ transferring c' /\ nodes c' = nodes c /\ requested c e.
Proof.
  intros H64 (HN & Hcont & Hmeta & Hfrom & Hshort)
    (Hs & Hn & Ha & HkN & Hprev & Hsz & Hrecv & Hch & Hble & Hpath & Hready).
  unfold receive_reconfig_init. rewrite Hs, HN, Hn, Hcont, Hmeta.
  rewrite (proj2 (Z.leb_gt _ _)) by lia. cbv zeta.
  set (c0 := set_next_config_id c (Some N)).
  destruct (set_initial_total c0 (ri_skip_prepare_use_leader r) (get_peers_of (ri_nodes r) (pid c0)))
    as (reps & les & comms & e1 & -> & Hl1 & Hl2 & Hl3); [done| |done|].
  { intros p [_ Hp]%list_elem_of_filter. by apply Hpath. }
  simpl. rewrite (bool_decide_eq_true_2 (ri_from r ∈ from_nodes)) by done.
  replace ((len =? 1) && (k =? 1)) with false
    by (symmetry; apply andb_false_iff; rewrite !Z.eqb_neq; lia).
  set (c1 := set_active_config_ready_peers _ _).
  assert (forall p, p ∈ from_nodes -> is_Some (get_actorpath c1 p)) as Hp1.
  { intros p Hp. apply (Hpath p). rewrite Hcont. set_solver. }
  destruct (pull_total c1 H64 Hp1) as (e2 & -> & Hreq). simpl.
  eexists _, _. split; [done|].
  match goal with |- running ?c /\ _ => assert (transferring c) as Ht end.
  { eexists tiles, []. simpl. rewrite Hrecv, lookup_insert_eq.
    split_and!; try done; [|set_solver|set_solver|constructor].
    apply tiling_not_nil. destruct from_nodes; simpl; [set_solver|lia]. }
  split_and!; [split_and!; try done|done|done|].
  - by eapply has_children_length; [| | | |exact Hch].
  - simpl. by destruct (active_config_ready_peers c).
  - intros p [Hp|Hp%list_elem_of_singleton]%elem_of_app; [by apply Hready|].
    subst p. by apply Hp1.
  - left. split_and!; try done.
  - intros i p Hi. destruct (Hreq i p Hi) as (path & Hpa & Hin). exists path. split; [done|set_solver].
Qed.

Lemma covered_le : 0 <= covered <= len.
Proof.
  assert (0 < Z.of_nat (length from_nodes)) by (destruct from_nodes; simpl in *; [done|lia]).
  unfold covered, offset. pose proof (Z.mul_div_le len (Z.of_nat (length from_nodes))).
  pose proof (Z.div_pos len (Z.of_nat (length from_nodes))). nia.
Qed.

(** The division loses nothing exactly when it is exact. *)
Lemma covered_complete :
  len = Z.of_nat (length final) ->
  (take (Z.to_nat covered) final = final <-> (Z.of_nat (length from_nodes) | len)).
Proof.
  intros Heq. assert (0 < Z.of_nat (length from_nodes))
    by (destruct from_nodes; simpl in *; [done|lia]).
  pose proof covered_le. split.
  - intros Ht. apply (f_equal length) in Ht. rewrite length_take in Ht.
    exists offset. unfold covered in *. lia.
  - intros [q Hq]. apply take_ge. unfold covered, offset. rewrite Hq, Z.div_mul by lia. lia.
Qed.

(** C10: whatever happens at a node that waits for a configuration - answers in any
    order, duplicated, lost and retried, answers of other transfers, elections,
    client messages, partitions, stops - the sequence it stores for the previous
    configuration is the prefix of the true final sequence that [n] equal segments
    cover; so it is the final sequence exactly when the number of nodes asked
    divides its length, and otherwise the remainder at its end is missing. *)
Theorem transfer_prefix (c c' : Comp) (inputs : list (input (Sq := Sq))) (e : list CompEffect)
    (s : Sq) :
  transferring c -> waiting c -> Forall session_input inputs ->
  steps deserialise_path c inputs = Some (c', e) ->
  prev_sequences c' !! k = Some s ->
  entries_of s `prefix_of` final /\
  get_sequence_len s = Z.of_nat (length from_nodes) * (len / Z.of_nat (length from_nodes)) /\
  (len = Z.of_nat (length final) ->
   entries_of s = final <-> (Z.of_nat (length from_nodes) | Z.of_nat (length final))).
Proof.
  intros Ht Hw Hi Hs Hk.
  destruct (session_steps _ _ _ _ Hs Hi (conj (or_introl Ht) Hw)) as [[Ht'|(s' & Hk' & He)] _].
  { destruct Ht' as (_ & _ & Hnone & _). congruence. }
  assert (s' = s) as -> by congruence. pose proof covered_le. split_and!.
  - rewrite He. apply prefix_take.
  - rewrite get_sequence_len_spec, He, length_take. fold offset. fold covered. lia.
  - intros Hl. rewrite He, <- Hl. by apply covered_complete.
Qed.

(** C11: a node joins: the first [Init] asks the [i]-th continued node for the [i]-th
    segment, and once every segment was answered successfully - in any order, with
    any number of duplicates, failed answers, repeated [Init]s and retry timeouts in
    between - the node has not panicked, has stored the sequence, has started the
    replica of the new configuration, and made it the active one. *)
Theorem joining_node_starts (c : Comp) (r : ReconfigInit) (sender : Path) (rnd : nat)
    (inputs : list (input (Sq := Sq))) :
  len < 2 ^ 64 -> joinable c r -> first_init r ->
  Forall (answer_input (fun p => is_Some (get_actorpath c p))) inputs ->
  (forall i, (i < length from_nodes)%nat -> tile offset i ∈ omap answered inputs) ->
  exists c1 e1 c' e' s,
    step deserialise_path c (Network sender (InReconfiguration (Init r)) rnd) = Some (c1, e1) /\
    requested c e1 /\
    steps deserialise_path c1 inputs = Some (c', e') /\
    prev_sequences c' !! k = Some s /\ entries_of s = take (Z.to_nat covered) final /\
    meta_id (active_config c') = N /\ (exists j, CeStart j ∈ e').
Proof.
  intros H64 Hj Hr Hi Hcov.
  destruct (init_joins c r H64 Hr Hj) as (c1 & e1 & Hs1 & Hr1 & Ht1 & Hn1 & Hreq).
  destruct (answer_steps inputs c1 Hr1) as (c' & e' & Hs' & Hr' & Hm & Hst).
  { eapply Forall_impl; [exact Hi|]. intros j. destruct j as [|? m ?|]; try done.
    destruct m as [| | |rm|]; try done. destruct rm; try done. simpl.
    by rewrite (get_actorpath_nodes c c1). }
  destruct (covered_transferred c' Hr') as [Hd Ha].
  { intros x (i & Hin & ->)%tiling_elem. apply Hm. right. by apply Hcov. }
  pose proof (Hst Ht1 Hd) as Hstart. destruct Hd as (s & Hks & He).
  exists c1, e1, c', e', s. by split_and!.
Qed.
End session.

(** ** An example

    Node 4 is outside the initial configuration [1; 2; 3] and joins configuration 2.
    The final sequence of configuration 1 has four entries; the node asks for three
    segments of one entry, so the stop sign at the end is not transferred. *)
Module Example.

#[local] Existing Instance BigEndian.big_endian.
#[local] Existing Instance PaxosReplica.no_raft.
#[local] Existing Instance PaxosReplica.instant_core.

Definition node (i : Z) : Path := Named i ANode.
Definition example_final : list Entry :=
  [Normal [x01]; Normal [x02]; Normal [x03]; StopSignEntry (mkStopSign 2 [1; 2; 3; 4] None)].
Definition nowhere (b : bytes) : option Path := Some (Named 9 AClient).

Definition fresh : t (Sq := MemorySequence.t) (P := Ballot.t * list Entry) :=
  with_ [1; 2; 3] true (mkExperimentParams 100 2 0) BLE.

Definition joiner : t (Sq := MemorySequence.t) (P := Ballot.t * list Entry) :=
  match receive_actor_init nowhere fresh (node 0)
          (mkActorInit 4 1 [node 1; node 2; node 3; node 4] (Some [])) with
  | Some (c, _) => c
  | None => fresh
  end.

Definition example_init (from : Z) : ReconfigInit :=
  mkReconfigInit 2 (mkReconfig [1; 2; 3] [4]) (mkSequenceMetaData 1 4) from None.

Definition answer (from to : Z) (ok : bool) : input (Sq := MemorySequence.t) :=
  Network (node 1) (InReconfiguration (SegmentTransferMsg (mkSegmentTransfer 1 ok
    (mkSequenceMetaData 0 0)
    (mkSequenceSegment (mkSegmentIndex from to)
       (if ok then default [] (entries_between example_final from to) else []))))) 7.

(** Out of order, with a failure, a duplicate, a second [Init] and a timeout. *)
Definition example_inputs : list (input (Sq := MemorySequence.t)) :=
  [answer 2 3 true; answer 0 1 false;
   Network (node 2) (InReconfiguration (Init (example_init 2))) 0;
   RetryTimeout 1; answer 2 3 true; answer 0 1 true; answer 1 2 true; answer 0 1 true].

Definition joined : t (Sq := MemorySequence.t) (P := Ballot.t * list Entry) :=
  match step nowhere joiner (Network (node 1) (InReconfiguration (Init (example_init 1))) 0) with
  | Some (c, _) => c
  | None => fresh
  end.

End Example.

Lemma transfer_prefix_witness :
  let B := BigEndian.big_endian in let R := PaxosReplica.no_raft in
  let C := PaxosReplica.instant_core in
  exists s, (exists c' e,
      steps Example.nowhere Example.joined Example.example_inputs = Some (c', e) /\
      prev_sequences c' !! 1 = Some s) /\
    entries_of s `prefix_of` Example.example_final /\
    ~ (entries_of s = Example.example_final).
Proof.
  intros B R C.
  destruct (steps Example.nowhere Example.joined Example.example_inputs) as [[c' e]|] eqn:Hs;
    [|vm_compute in Hs; discriminate Hs].
  assert (exists s, prev_sequences c' !! 1 = Some s) as [s Hp].
  { vm_compute in Hs. injection Hs as <- _. vm_compute. eexists. reflexivity. }
  exists s. split; [exists c', e; by split|].
  destruct (transfer_prefix Example.nowhere 1 2 4 Example.example_final [1; 2; 3])
    with (c := Example.joined) (inputs := Example.example_inputs) (c' := c') (e := e) (s := s)
    as (Hpre & _ & Hiff).
  - discriminate.
  - vm_compute. split; discriminate.
  - exists [mkSegmentIndex 0 1; mkSegmentIndex 1 2; mkSegmentIndex 2 3], [].
    split; [vm_compute; reflexivity|]. split; [vm_compute; reflexivity|].
    split; [vm_compute; reflexivity|]. split; [discriminate|].
    split; [|split; [set_solver|split; [constructor|constructor]]].
    intros x. split; [intros Hx; split; [exact Hx|set_solver]|intros [Hx _]; exact Hx].
  - right. left. vm_compute. reflexivity.
  - repeat constructor; simpl; try (intros _ _; split; [vm_compute; reflexivity|]); try discriminate;
      try (apply (bool_decide_unpack _); vm_compute; exact I).
  - exact Hs.
  - exact Hp.
  - split; [exact Hpre|]. intros Heq. apply Hiff in Heq; [|reflexivity].
    destruct Heq as [q Hq]. change (4 = q * 3) in Hq. lia.
Defined.

Lemma joining_node_starts_witness :
  let B := BigEndian.big_endian in let R := PaxosReplica.no_raft in
  let C := PaxosReplica.instant_core in
  exists c1 e1 c' e',
    step Example.nowhere Example.joiner
      (Network (Example.node 1) (InReconfiguration (Init (Example.example_init 1))) 0) =
      Some (c1, e1) /\
    steps Example.nowhere c1 Example.example_inputs = Some (c', e') /\
    meta_id (active_config c') = 2.
Proof.
  intros B R C.
  destruct (joining_node_starts Example.nowhere 1 2 4 Example.example_final [1; 2; 3])
    with (c := Example.joiner) (r := Example.example_init 1) (sender := Example.node 1)
      (rnd := 0%nat) (inputs := Example.example_inputs)
    as (c1 & e1 & c' & e' & s & H1 & _ & H2 & _ & _ & H3 & _).
  - discriminate.
  - vm_compute. split; discriminate.
  - vm_compute. reflexivity.
  - unfold joinable, has_children. split_and!.
    1-7: vm_compute; reflexivity.
    + vm_compute. eexists; reflexivity.
    + vm_compute. eexists; reflexivity.
    + vm_compute. eexists; reflexivity.
    + eexists. split; vm_compute; reflexivity.
    + apply Forall_forall. change (Forall (fun p => is_Some (get_actorpath Example.joiner p)) [1; 2; 3; 4]).
      repeat (apply Forall_cons; split; [vm_compute; eexists; reflexivity|]). apply Forall_nil, I.
    + apply Forall_forall. apply Forall_nil, I.
  - unfold first_init. split_and!; [reflexivity..| |].
    + apply (bool_decide_unpack _); vm_compute; exact I.
    + intros [_ H]. discriminate H.
  - repeat constructor; simpl; try (intros _ _; split; [vm_compute; reflexivity|]); try discriminate;
      try (apply (bool_decide_unpack _); vm_compute; exact I); try (eexists; vm_compute; reflexivity).
  - intros i Hi. do 3 (destruct i as [|i]; [apply (bool_decide_unpack _); vm_compute; exact I|]).
    simpl in Hi. lia.
  - exists c1, e1, c', e'. by split_and!.
Defined.
