(* ===== verification/PaxosRouting.v ===== *)
(** What the Omni-Paxos node promises to its clients and to the nodes that join
    ([paxos.rs], [PaxosComp]): client requests are neither lost nor duplicated while
    leaders and configurations change, a decided reconfiguration is handed over, and
    segment requests are answered with what they ask for. *)

From Stdlib Require Import Strings.Byte.
From S2P Require Import Prelude MpMessages Partition Wire Election Ble VrLe MpLe.
From S2P Require Import PaxosWire MsgWire PaxosStorage Communicator PaxosReplica PaxosComp.
From S2P Require Import PaxosTransfer.

Import Omni PaxosWire MsgWire PaxosComp.

Section routing.
Context {Sq P : Type} `{RaftMessage} `{BufOps} `{Sequence Sq} `{PaxosCore Sq P}.
Context (deserialise_path : bytes -> option Path).

Abbreviation Comp := (PaxosComp.t (Sq := Sq) (P := P)).

(** ** Client requests *)

(** The messages of a client that ask for something. *)
Definition requests_of (m : AtomicBroadcastMsg) : list AtomicBroadcastMsg :=
  match m with
  | ABProposal _ | ABReconfigurationProposal _ => [m]
  | _ => []
  end.

(** The requests an effect passes on: to the active replica, or to another node. *)
Definition passed_on (e : CompEffect) : list AtomicBroadcastMsg :=
  match e with
  | CeForward _ m => requests_of (nm_data m)
  | CeTell _ (DAtomicBroadcast m) => requests_of m
  | CeReplica _ (Propose p) => [ABProposal p]
  | CeReplica _ (ProposeReconfiguration rp) => [ABReconfigurationProposal rp]
  | _ => []
  end.

Definition routed (effs : list CompEffect) : list AtomicBroadcastMsg := concat (map passed_on effs).

Definition held_back (h : HoldBackProposals) : list AtomicBroadcastMsg :=
  concat (map (fun m => requests_of (nm_data m)) (hb_serialised h)) ++
  map ABProposal (hb_deserialised h).
Definition held (c : Comp) : list AtomicBroadcastMsg := held_back (hb_proposals c).

(** The requests that enter the node: from the network, or returned by a replica
    that is stopping. *)
Definition entered (i : input (Sq := Sq)) : list AtomicBroadcastMsg :=
  match i with
  | Network _ (InAtomicBroadcast m) _ => requests_of m
  | Local (CompPendingReconfig data) => [ABProposal (mkProposal data)]
  | _ => []
  end.

(** A new iteration and a stop drop the requests on purpose. *)
Definition keeps_requests (i : input (Sq := Sq)) : Prop :=
  match i with
  | Network _ (InPartitioningActor (ActorInitMsg _)) _ => False
  | Network _ (InStop StopClient) _ => False
  | _ => True
  end.

Lemma routed_app e1 e2 : routed (e1 ++ e2) = routed e1 ++ routed e2.
Proof. unfold routed. by rewrite map_app, concat_app. Qed.

Lemma routed_concat l : routed (concat l) = concat (map routed l).
Proof. induction l as [|e l IH]; simpl; [done|]. by rewrite routed_app, IH. Qed.

Lemma mapM_map {A B C} (f : A -> option B) (g : B -> C) (h : A -> C) l l' :
  mapM f l = Some l' -> (forall x y, f x = Some y -> g y = h x) -> map g l' = map h l.
Proof.
  intros Hm%mapM_Some Hf. induction Hm as [|x y l l' Hxy _ IH]; simpl; [done|].
  by rewrite IH, (Hf x y).
Qed.

Lemma routed_deserialise (c : Comp) m e :
  deserialise_and_propose c m = Some e -> routed e = requests_of (nm_data m).
Proof.
  unfold deserialise_and_propose, propose, propose_reconfiguration, to_active_replica.
  intros H'. by handler_inv H'.
Qed.

Lemma routed_propose (c : Comp) p e : propose c p = Some e -> routed e = [ABProposal p].
Proof. unfold propose, to_active_replica. intros H'. by handler_inv H'. Qed.

Lemma concat_singletons {A B} (f : A -> B) l : concat (map (fun x => [f x]) l) = map f l.
Proof. induction l as [|x l IH]; simpl; [done|]. by rewrite IH. Qed.

(** Both ways to empty the buffer pass everything on, in order. *)
Lemma propose_hb_routed (c c' : Comp) e :
  propose_hb_proposals c = Some (c', e) ->
  routed e = held c /\ held c' = [] /\ stopped c' = stopped c.
Proof.
  unfold propose_hb_proposals. intros H'. handler_inv H'. split; [|done].
  rewrite routed_app, !routed_concat. unfold held, held_back. f_equal.
  - f_equal. eapply mapM_map; [done|]. intros. by eapply routed_deserialise.
  - etrans; [|apply (concat_singletons ABProposal)]. f_equal. eapply mapM_map; [done|].
    intros. by eapply routed_propose.
Qed.

Lemma forward_hb_routed (c c' : Comp) p e :
  forward_hb_proposals c p = Some (c', e) ->
  routed e = held c /\ held c' = [] /\ stopped c' = stopped c.
Proof.
  unfold forward_hb_proposals. intros H'. handler_inv H'. split; [|done].
  rewrite routed_app. unfold held, held_back, routed. rewrite !map_map. f_equal.
  apply concat_singletons.
Qed.

(** Effects that carry no request. *)
Lemma routed_nil (effs : list CompEffect) : (forall e, e ∈ effs -> passed_on e = []) -> routed effs = [].
Proof.
  intros He. unfold routed. apply concat_nil_Forall, Forall_map, Forall_forall. exact He.
Qed.

Definition silent (c c' : Comp) (e : list CompEffect) : Prop :=
  routed e = [] /\ hb_proposals c' = hb_proposals c /\ stopped c' = stopped c.

Lemma silent_trans c1 c2 c3 e1 e2 :
  silent c1 c2 e1 -> silent c2 c3 e2 -> silent c1 c3 (e1 ++ e2).
Proof. unfold silent. rewrite routed_app. intros (-> & -> & ->) (-> & -> & ->). done. Qed.

Lemma routed_map {A} (f : A -> CompEffect) l : (forall x, passed_on (f x) = []) -> routed (map f l) = [].
Proof. intros Hf. apply routed_nil. by intros e (x & -> & _)%list_elem_of_fmap. Qed.

Lemma silent_start (c c' : Comp) cfg e : start_replica c cfg = Some (c', e) -> silent c c' e.
Proof. by intros [-> ->]%start_replica_inv. Qed.

Lemma silent_set_initial (c c' : Comp) cfg lead peers e :
  set_initial_replica_state_after_reconfig c cfg lead peers = Some (c', e) -> silent c c' e.
Proof.
  unfold set_initial_replica_state_after_reconfig. intros H'. handler_inv H';
    (split; [by apply routed_map|done]).
Qed.

Lemma silent_mapM {A} (f : A -> option CompEffect) l effs :
  mapM f l = Some effs -> (forall x e, f x = Some e -> passed_on e = []) -> routed effs = [].
Proof.
  intros Hm%mapM_Some Hf. induction Hm as [|x e l effs Hx _ IH]; [done|].
  change (passed_on e ++ routed effs = []). by rewrite (Hf x e Hx), IH.
Qed.

Lemma request_segment_silent (c : Comp) cfg node e :
  request_segment c cfg node = Some e -> passed_on e = [].
Proof. unfold request_segment. intros H'. by handler_inv H'. Qed.

Lemma silent_pull (c c' : Comp) cfg l from e :
  pull_sequence c cfg l from = Some (c', e) -> silent c c' e.
Proof.
  unfold pull_sequence. intros H'. handler_inv H'. split; [|done].
  rewrite routed_app. erewrite silent_mapM; [done..|]. intros. by eapply request_segment_silent.
Qed.

Lemma silent_retry (c c' : Comp) cfg e :
  retry_pending_segments c cfg = Some (c', e) -> silent c c' e.
Proof.
  unfold retry_pending_segments. intros (reqs & Hr & [= <- <-])%bind_Some.
  split; [|done]. rewrite routed_app.
  assert (routed reqs = []) as ->; [|done].
  revert Hr. destruct (pending_segments c !! cfg); intros Hr; [|by injection Hr as <-].
  eapply silent_mapM; [done|]. intros [j idx] e (p & _ & He)%bind_Some.
  by eapply request_segment_silent.
Qed.

Lemma silent_request (c c' : Comp) sr p e :
  handle_segment_request c sr p = Some (c', e) -> silent c c' e.
Proof.
  unfold handle_segment_request, to_active_replica. intros H'. handler_inv H'; try done.
  match goal with H : _ ≫= _ = Some _ |- _ => apply bind_Some in H as (? & _ & [= <-]) end.
  done.
Qed.

Lemma silent_completed (c c' : Comp) cfg e :
  handle_completed_sequence_transfer c cfg = Some (c', e) -> silent c c' e.
Proof.
  intros (received & next & c0 & _ & _ & -> & [[_ Hs]|(_ & -> & ->)])%completed_inv; [|done].
  by apply silent_start in Hs.
Qed.

Lemma silent_transfer (c c' : Comp) st rnd e :
  handle_segment_transfer c st rnd = Some (c', e) -> silent c c' e.
Proof.
  unfold handle_segment_transfer. destruct (has_handled_segment _ _ _); [by intros [= <- <-]|].
  intros ([c1 pulled] & Hp & H')%bind_Some.
  assert (silent c c1 pulled) as Hs1.
  { destruct (_ && _); [by eapply silent_pull|by injection Hp as <- <-]. }
  destruct (st_succeeded st).
  - apply bind_Some in H' as (c2 & Hc2 & (pend & _ & H')%bind_Some).
    apply handle_segment_inv in Hc2 as (pend0 & _ & ->).
    destruct pend; [|by injection H' as <- <-].
    apply bind_Some in H' as ([c3 effs] & Hc3 & [= <- <-]). apply silent_completed in Hc3.
    eapply silent_trans; [exact Hs1|exact Hc3].
  - destruct (active_config_ready_peers c1); [by injection H' as <- <-|].
    apply bind_Some in H' as (p & _ & (req & Hreq & [= <- <-])%bind_Some).
    eapply silent_trans; [exact Hs1|]. split; [|done]. unfold routed. simpl.
    by rewrite (request_segment_silent _ _ _ _ Hreq).
Qed.

Lemma silent_init (c c' : Comp) r e :
  receive_reconfig_init c r = Some (c', e) -> silent c c' e.
Proof.
  unfold receive_reconfig_init. intros H'. destruct (stopped c) eqn:Hs.
  { apply bind_Some in H' as ([bs cs] & _ & [= <- <-]). split; [|done].
    rewrite routed_app, !routed_map; done. }
  destruct (_ <=? _); [by injection H' as <- <-|].
  destruct (next_config_id c); [by destruct (_ && _); injection H' as <- <-|].
  cbv zeta in H'. apply bind_Some in H' as ([c1 e1] & H1' & H').
  apply silent_set_initial in H1'. change (silent c c1 e1) in H1'.
  assert (forall c0 e2, silent (if bool_decide (ri_from r ∈ continued_nodes (ri_nodes r))
      then set_active_config_ready_peers c1 (active_config_ready_peers c1 ++ [ri_from r]) else c1)
      c0 e2 -> silent c c0 (e1 ++ e2)) as Hready.
  { intros c0 e2 H2'. eapply silent_trans; [exact H1'|]. by destruct (bool_decide _). }
  destruct (_ && _); apply bind_Some in H' as ([c2 e2] & H2' & [= <- <-]); apply Hready.
  - by apply silent_start in H2'.
  - by apply silent_pull in H2'.
Qed.

Lemma silent_children {A} (f : nat -> A -> option (A * list CompEffect)) i l l' e :
  on_children f i l = Some (l', e) ->
  (forall j x x' e, f j x = Some (x', e) -> routed e = []) -> routed e = [].
Proof.
  intros Hc Hf. revert i l' e Hc. induction l as [|x l IH]; intros i l' e Hc; simpl in Hc.
  - by injection Hc as _ <-.
  - apply bind_Some in Hc as ([x' e1] & Hx & ([l2 e2] & Hl & [= _ <-])%bind_Some).
    by rewrite routed_app, (Hf _ _ _ _ Hx), (IH _ _ _ Hl).
Qed.

Lemma silent_partitioning (c c' : Comp) p e :
  receive_partitioning c p = Some (c', e) -> silent c c' e.
Proof.
  destruct p; simpl; intros H'; [|by injection H' as <- <-].
  apply bind_Some in H' as ([comms e1] & Hc & ([les e2] & Hl & [= <- <-])%bind_Some).
  split; [|done]. rewrite routed_app. apply silent_children in Hc as ->.
  - apply silent_children in Hl as ->; [done|].
    intros j x x' e ([s s'] & _ & [= _ <-])%bind_Some. by apply routed_map.
  - intros j x x' e ([s s'] & _ & [= _ <-])%bind_Some. by apply routed_map.
Qed.

(** One step moves every request to exactly one place. *)
Definition conserves (c c' : Comp) (e : list CompEffect) (ms : list AtomicBroadcastMsg) : Prop :=
  stopped c' = stopped c /\ routed e ++ held c' ≡ₚ held c ++ ms.

Lemma silent_conserves c c' e : silent c c' e -> conserves c c' e [].
Proof.
  unfold silent, conserves, held. intros (-> & -> & ->). by rewrite app_nil_r.
Qed.

(** Work without requests, and then the buffer is emptied. *)
Lemma emptied_conserves c c1 c2 e1 e2 :
  silent c c1 e1 -> routed e2 = held c1 /\ held c2 = [] /\ stopped c2 = stopped c1 ->
  conserves c c2 (e1 ++ e2) [].
Proof.
  unfold silent, conserves. rewrite routed_app. unfold held at 1 4.
  intros (-> & -> & <-) (-> & -> & ->). done.
Qed.

Lemma leader_conserves c cfg l r c' e :
  receive_leader c cfg l r = Some (c', e) -> conserves c c' e [].
Proof.
  unfold receive_leader. intros H'.
  destruct (_ =? _); [|injection H' as <- <-; by apply silent_conserves].
  set (c0 := set_active_config _ _) in H'. assert (silent c c0 []) as Hs by done.
  destruct (l =? pid c0).
  - apply bind_Some in H' as (client & _ & ([c1 e1] & Hp & [= <- <-])%bind_Some).
    apply (emptied_conserves c c0 c1 [CeTell client (DAtomicBroadcast (ABLeader l r))] e1); [done|].
    by apply propose_hb_routed.
  - destruct (negb _); [|by injection H' as <- <-; apply silent_conserves].
    apply (emptied_conserves c c0 c' [] e); [done|]. by apply forward_hb_routed in H'.
Qed.

Lemma reconfig_conserves c r c' e :
  receive_reconfig c r = Some (c', e) -> conserves c c' e [].
Proof.
  unfold receive_reconfig. intros H'. cbv zeta in H'.
  apply bind_Some in H' as ([c1 e1] & H1' & H').
  assert (silent c c1 e1) as Hs.
  { destruct (bool_decide _); [|by injection H1' as <- <-].
    apply bind_Some in H1' as ([c2 e2] & H2' & ([c3 e3] & H3' & (inits & Hi & [= <- <-])%bind_Some)%bind_Some).
    apply silent_set_initial in H2'. apply silent_start in H3'.
    eapply silent_trans; [exact H2'|]. rewrite <- (app_nil_r (e3 ++ inits)), <- app_assoc.
    eapply silent_trans; [exact H3'|]. rewrite app_nil_r. split; [|done].
    eapply silent_mapM; [done|]. by intros p ev (path & _ & [= <-])%bind_Some. }
  destruct (negb _).
  - apply bind_Some in H' as (receiver & _ & ([c2 e2] & Hf & [= <- <-])%bind_Some).
    eapply emptied_conserves; [exact Hs|]. by apply forward_hb_routed in Hf.
  - injection H' as <- <-. by apply silent_conserves.
Qed.

Lemma atomic_broadcast_conserves c m c' e :
  stopped c = false -> receive_atomic_broadcast c m = Some (c', e) ->
  conserves c c' e (requests_of (nm_data m)).
Proof.
  intros Hs. unfold receive_atomic_broadcast. rewrite Hs. cbv zeta.
  assert (forall path, conserves c c [CeForward path m] (requests_of (nm_data m))) as Hfwd.
  { intros path. split; [done|]. unfold routed. simpl. rewrite app_nil_r. apply Permutation_app_comm. }
  set (hb := mkHoldBack _ _).
  assert (conserves c (set_hb_proposals c hb) [] (requests_of (nm_data m))) as Hhold.
  { split; [done|]. unfold held, held_back. simpl. rewrite map_app, concat_app. simpl.
    rewrite app_nil_r. rewrite <- !app_assoc. apply Permutation_app_head, Permutation_app_comm. }
  intros H'. destruct (removed c).
  { by apply bind_Some in H' as (client & _ & [= <- <-]). }
  destruct (meta_pending_reconfig _); [by injection H' as <- <-|].
  destruct (_ =? 0); [by injection H' as <- <-|]. destruct (_ =? _).
  - apply bind_Some in H' as (effs & He & [= <- <-]). split; [done|].
    rewrite (routed_deserialise _ _ _ He). apply Permutation_app_comm.
  - by apply bind_Some in H' as (path & _ & [= <- <-]).
Qed.

Lemma actor_conserves c sender p c' e :
  receive_actor deserialise_path c sender p = Some (c', e) ->
  match p with ActorInitMsg _ => False | _ => True end -> conserves c c' e [].
Proof.
  intros H' Hp. apply silent_conserves. destruct p; try done. simpl in H'.
  destruct (next_config_id c); [by eapply silent_start|by injection H' as <- <-].
Qed.

Lemma reconfiguration_conserves c sender rm rnd c' e :
  stopped c = false -> receive_reconfiguration c sender rm rnd = Some (c', e) ->
  conserves c c' e [].
Proof.
  intros Hs H'. apply silent_conserves. destruct rm; simpl in H'; rewrite ?Hs in H'.
  - by eapply silent_init.
  - by eapply silent_request.
  - by eapply silent_transfer.
Qed.

Lemma step_conserves c i c' e :
  stopped c = false -> keeps_requests i -> step deserialise_path c i = Some (c', e) ->
  conserves c c' e (entered i).
Proof.
  intros Hs Hi H'. destruct i as [m|sender m rnd|cfg]; simpl in H'.
  - destruct m; simpl in H' |- *.
    + by eapply leader_conserves.
    + injection H' as <- <-. split; [done|]. unfold held, held_back. simpl.
      by rewrite map_app, app_assoc.
    + by eapply reconfig_conserves.
    + injection H' as <- <-. by apply silent_conserves.
  - destruct m as [m|p|p|rm|s]; simpl in H' |- *.
    + by apply atomic_broadcast_conserves in H'.
    + by eapply silent_conserves, silent_partitioning.
    + eapply actor_conserves; [done|]. by destruct p.
    + by eapply reconfiguration_conserves.
    + destruct s; [|done]. injection H' as <- <-. by apply silent_conserves.
  - by eapply silent_conserves, silent_retry.
Qed.

(** C12: the node neither loses nor duplicates a client request: through any sequence
    of events of one iteration before the stop - client messages, elections,
    partitions, reconfigurations, transfers, timeouts - what was handed to the
    active replica or passed to another node, with what is held back, is a
    rearrangement of what was held back before with what came in from the network
    or back from a stopping replica. *)
Theorem requests_conserved (c c' : Comp) (inputs : list (input (Sq := Sq)))
    (e : list CompEffect) :
  stopped c = false -> Forall keeps_requests inputs ->
  steps deserialise_path c inputs = Some (c', e) ->
  routed e ++ held c' ≡ₚ held c ++ concat (map entered inputs).
Proof.
  intros Hs Hi H'. revert c e Hs H'. induction Hi as [|i inputs Hi _ IH]; intros c e Hs H'.
  - injection H' as <- <-. simpl. by rewrite app_nil_r.
  - simpl in H'. apply bind_Some in H' as ([c1 e1] & Hc1 & ([c2 e2] & Hc2 & [= <- <-])%bind_Some).
    destruct (step_conserves _ _ _ _ Hs Hi Hc1) as [Hs1 Hp1].
    rewrite Hs in Hs1. specialize (IH _ _ Hs1 Hc2). simpl.
    by rewrite routed_app, <- app_assoc, IH, app_assoc, Hp1, <- app_assoc.
Qed.

(** ** Handing a configuration over *)

(** The [Init]s among the effects, with their receivers. *)
Definition inits (e : list CompEffect) : list (Path * ReconfigInit) :=
  omap (fun x => match x with
                 | CeTell p (DReconfiguration (Init r)) => Some (p, r)
                 | _ => None
                 end) e.

Lemma inits_app e1 e2 : inits (e1 ++ e2) = inits e1 ++ inits e2.
Proof. apply omap_app. Qed.

Lemma inits_map {A} (f : A -> CompEffect) l :
  (forall x, inits [f x] = []) -> inits (map f l) = [].
Proof.
  intros Hf. induction l as [|x l IH]; [done|].
  change (map f (x :: l)) with ([f x] ++ map f l). by rewrite inits_app, Hf, IH.
Qed.

Lemma forward_hb_inits (c c' : Comp) p e :
  forward_hb_proposals c p = Some (c', e) -> inits e = [] /\ c' = set_hb_proposals c hb_empty.
Proof.
  unfold forward_hb_proposals. intros H'. handler_inv H'. split; [|done].
  by rewrite inits_app, !inits_map.
Qed.

Lemma set_initial_frame (c c' : Comp) cfg lead peers e :
  set_initial_replica_state_after_reconfig c cfg lead peers = Some (c', e) ->
  inits e = [] /\ nodes c' = nodes c /\ pid c' = pid c /\ hb_proposals c' = hb_proposals c /\
  prev_sequences c' = prev_sequences c /\ first_config_id c' = first_config_id c /\
  removed c' = removed c /\
  (exists rep, vec_get (paxos_replicas c') (config_idx c cfg) = Some rep /\
               PaxosReplica.peers rep = peers).
Proof.
  unfold set_initial_replica_state_after_reconfig. cbv zeta.
  intros (rep & Hrep & ([bs cs] & _ & (le & _ & ([le' effs] & _ &
    (comm & _ & [= <- <-])%bind_Some)%bind_Some)%bind_Some)%bind_Some)%bind_Some.
  split_and!; try done; [by apply inits_map|].
  eexists. split; [|shelve]. simpl. apply vec_get_Some.
  apply vec_get_Some in Hrep as [Hi Hrep]. split; [done|].
  apply list_lookup_insert_eq. by eapply lookup_lt_Some.
  Unshelve. done.
Qed.


(** ** The majority of the next configuration *)

Definition is_named (p : Path) : bool := match p with Named _ _ => true | Unique _ _ => false end.

Lemma derive_actorpaths_length (c : Comp) cfg peers bs cs :
  (forall p path, get_actorpath c p = Some path -> is_named path = true) ->
  derive_actorpaths c cfg peers = Some (bs, cs) -> length bs = length peers.
Proof.
  intros Hn. revert bs cs. induction peers as [|p peers IH]; intros bs cs Hd; simpl in Hd.
  - by injection Hd as <- _.
  - apply bind_Some in Hd as (path & Hpath & ([bs' cs'] & Hd & Hx)%bind_Some).
    specialize (Hn p path Hpath). destruct path; [|done]. injection Hx as <- _.
    simpl. f_equal. by eapply IH.
Qed.

(** The election of configuration [cfg]. *)
Definition election (c : Comp) (cfg : Z) : option (Ble.t Path) :=
  le ← vec_get (le_comps c) (config_idx c cfg);
  match le with LeBle ble => Some ble | _ => None end.

Lemma set_initial_majority (c c' : Comp) cfg lead peers e :
  (forall p path, get_actorpath c p = Some path -> is_named path = true) ->
  set_initial_replica_state_after_reconfig c cfg lead peers = Some (c', e) ->
  exists ble, election c' cfg = Some ble /\ length (Ble.peers ble) = length peers /\
    Ble.majority ble = (length peers / 2 + 1)%nat.
Proof.
  intros Hn. unfold set_initial_replica_state_after_reconfig. cbv zeta.
  intros (rep & Hrep & ([bs cs] & Hd & (le & Hle & ([le' effs] & Hle' &
    (comm & _ & [= <- _])%bind_Some)%bind_Some)%bind_Some)%bind_Some)%bind_Some.
  apply derive_actorpaths_length in Hd; [|done].
  apply vec_get_Some in Hle as [Hi Hle]. simpl in Hi, Hle. unfold election.
  match goal with |- context [vec_get ?l ?i] => assert (vec_get l i = Some le') as -> end.
  { apply vec_get_Some. split; [done|]. simpl. apply list_lookup_insert_eq.
    by eapply lookup_lt_Some. }
  simpl. destruct le as [ble| |]; [|done|done]. destruct lead as [l|].
  - apply bind_Some in Hle' as ([ble' effs'] & Hset & [= <- _]).
    unfold Ble.set_initial_leader in Hset. destruct (Ble.leader _); [done|].
    injection Hset as <- _. eexists. split; [done|]. simpl. by rewrite Hd.
  - injection Hle' as <- _. eexists. split; [done|]. simpl. by rewrite Hd.
Qed.

(** C15: the quorum of the election differs between the two ways a replica is set up:
    created with its nodes it needs a majority of the [n] nodes, so that two quorums
    always meet; set up after a reconfiguration it needs [(n - 1) / 2 + 1], which is
    a majority exactly when [n] is odd - with an even number of nodes two disjoint
    halves can both elect. *)
Theorem reconfig_majority (c c' : Comp) (cfg : Z) (lead : option Leader) (peers : list Z)
    (e : list CompEffect) :
  (forall p path, get_actorpath c p = Some path -> is_named path = true) ->
  set_initial_replica_state_after_reconfig c cfg lead peers = Some (c', e) ->
  let n := S (length peers) in
  exists ble, election c' cfg = Some ble /\ length (Ble.peers ble) = length peers /\
    (n < 2 * Ble.majority ble <-> Nat.odd n = true)%nat /\
    forall hb_delay quick init factor,
      (n < 2 * Ble.majority (Ble.with_ (Ble.peers ble) (pid c) hb_delay quick init factor))%nat.
Proof.
  intros Hn Hs n. destruct (set_initial_majority _ _ _ _ _ _ Hn Hs) as (ble & He & Hl & Hm).
  exists ble. split_and!; [done|done| |].
  - rewrite Hm. unfold n. rewrite Nat.odd_succ, Nat.even_spec.
    pose proof (Nat.div_mod_eq (length peers) 2). pose proof (Nat.mod_upper_bound (length peers) 2 ltac:(lia)).
    split.
    + intros Hlt. exists (length peers / 2)%nat. lia.
    + intros [q Hq]. rewrite Hq, Nat.mul_comm, Nat.div_mul by lia. lia.
  - intros hb_delay quick init factor. unfold Ble.with_. rewrite Hl.
    replace (length peers + 1)%nat with n by (unfold n; lia).
    destruct (match init with Some _ => _ | None => _ end) as [l b].
    change (n < 2 * (n / 2 + 1))%nat.
    pose proof (Nat.div_mod_eq n 2). pose proof (Nat.mod_upper_bound n 2 ltac:(lia)). lia.
Qed.

(** ** Answering segment requests *)

(** A node that has the final sequence of a configuration answers every request
    for a range inside it, except one of the node that leads it: with the entries
    the range names, marked successful - never with a panic - and with the length of
    the sequence before it; it answers each request only once. *)
Theorem segment_request_answered (c : Comp) (sr : SegmentRequest) (requestor : Path) (s : Sq) :
  prev_sequences c !! sr_config_id sr = Some s ->
  0 <= seg_from (sr_idx sr) <= seg_to (sr_idx sr) ->
  seg_to (sr_idx sr) <= Z.of_nat (length (entries_of s)) ->
  meta_leader (active_config c) <> sr_requestor_pid sr -> sr ∉ handled_seq_requests c ->
  exists c' st,
    handle_segment_request c sr requestor =
      Some (c', [CeTell requestor (DReconfiguration (SegmentTransferMsg st))]) /\
    st_config_id st = sr_config_id sr /\ st_succeeded st = true /\
    get_index (st_segment st) = sr_idx sr /\ right_segment (entries_of s) (st_segment st) /\
    Z.of_nat (length (seg_entries (st_segment st))) = seg_to (sr_idx sr) - seg_from (sr_idx sr) /\
    meta_config_id (st_metadata st) = sr_config_id sr -u32 1 /\
    handle_segment_request c' sr requestor = Some (c', []).
Proof.
  intros Hs Hft Hto Hl Hnew. unfold handle_segment_request at 1.
  rewrite (proj2 (Z.eqb_neq _ _)), (bool_decide_eq_false_2 _) by done. cbv zeta. simpl.
  rewrite Hs, get_entries_spec.
  destruct (entries_between_is_Some (entries_of s) (seg_from (sr_idx sr)) (seg_to (sr_idx sr)))
    as [ents He]; [done|done|]. rewrite He. simpl.
  eexists _, _. split; [done|]. split_and!; try done; [by eapply entries_between_length|].
  unfold handle_segment_request. simpl.
  rewrite (bool_decide_eq_true_2 (sr ∈ _)), orb_true_r; [done|]. set_solver.
Qed.
End routing.

(** ** Examples

    Node 1 of the initial configuration [1; 2; 3]. *)
Module RoutingExample.
Import Example.

#[local] Existing Instance BigEndian.big_endian.
#[local] Existing Instance PaxosReplica.no_raft.
#[local] Existing Instance PaxosReplica.instant_core.

Definition member : t (Sq := MemorySequence.t) (P := Ballot.t * list Entry) :=
  match steps nowhere fresh
          [Network (node 0) (InPartitioningActor (ActorInitMsg
             (mkActorInit 1 1 [node 1; node 2; node 3; node 4] (Some [])))) 0;
           Network (node 0) (InPartitioningActor ActorRun) 0] with
  | Some (c, _) => c
  | None => fresh
  end.

Definition final_msg : FinalMsg MemorySequence.t :=
  mkFinalMsg _ 2 (mkReconfig [1; 2; 3] [4]) (MemorySequence.mk example_final) None.

(** A request before there is a leader, another after, and a reconfiguration. *)
Definition traffic : list (input (Sq := MemorySequence.t)) :=
  [Network (node 9) (InAtomicBroadcast (ABProposal (mkProposal [x01]))) 0;
   Local (CompLeader 1 2 5);
   Network (node 9) (InAtomicBroadcast (ABProposal (mkProposal [x02]))) 0;
   Local (CompPendingReconfig [x03]);
   Local (CompReconfig final_msg);
   Network (node 9) (InAtomicBroadcast (ABProposal (mkProposal [x04]))) 0].

End RoutingExample.

Import RoutingExample.

Lemma requests_conserved_witness :
  let B := BigEndian.big_endian in let R := PaxosReplica.no_raft in
  let C := PaxosReplica.instant_core in
  exists c' e, steps Example.nowhere member traffic = Some (c', e) /\
    routed e ++ held c' ≡ₚ map (fun b => ABProposal (mkProposal [b])) [x01; x02; x03; x04] /\
    length (held c') = 1%nat.
Proof.
  intros B R C. destruct (steps Example.nowhere member traffic) as [[c' e]|] eqn:Hs;
    [|vm_compute in Hs; discriminate Hs].
  exists c', e. split; [reflexivity|]. split.
  - apply (requests_conserved Example.nowhere member c' traffic e).
    + vm_compute. reflexivity.
    + repeat constructor.
    + exact Hs.
  - vm_compute in Hs. injection Hs as <- _. reflexivity.
Defined.


Lemma reconfig_majority_witness :
  let R := PaxosReplica.no_raft in let C := PaxosReplica.instant_core in
  exists c' e ble,
    set_initial_replica_state_after_reconfig Example.joiner 2 None [1; 2; 3] = Some (c', e) /\
    election c' 2 = Some ble /\ ~ (4 < 2 * Ble.majority ble)%nat.
Proof.
  intros R C.
  destruct (set_initial_replica_state_after_reconfig Example.joiner 2 None [1; 2; 3])
    as [[c' e]|] eqn:Hs; [|vm_compute in Hs; discriminate Hs].
  destruct (reconfig_majority Example.joiner c' 2 None [1; 2; 3] e) as (ble & He & _ & Hiff & _).
  - intros p path Hp. unfold get_actorpath in Hp. apply vec_get_Some in Hp as [_ Hp].
    assert (Forall (fun x => is_named x = true) (nodes Example.joiner)) as Hall
      by (vm_compute; repeat constructor).
    exact (proj1 (Forall_lookup _ _) Hall _ _ Hp).
  - exact Hs.
  - exists c', e, ble. split; [reflexivity|]. split; [exact He|].
    intros Hlt. apply Hiff in Hlt. discriminate Hlt.
Defined.

Lemma segment_request_answered_witness :
  let B := BigEndian.big_endian in let R := PaxosReplica.no_raft in
  let C := PaxosReplica.instant_core in
  let c := set_prev_sequences member {[1 := MemorySequence.mk Example.example_final]} in
  exists c' e, handle_segment_request c (mkSegmentRequest 1 (mkSegmentIndex 2 4) 4)
                 (Example.node 4) = Some (c', e) /\ length e = 1%nat.
Proof.
  intros B R C c.
  destruct (segment_request_answered c (mkSegmentRequest 1 (mkSegmentIndex 2 4) 4)
    (Example.node 4) (MemorySequence.mk Example.example_final)) as (c' & st & He & _).
  - vm_compute. reflexivity.
  - vm_compute. split; discriminate.
  - vm_compute. discriminate.
  - vm_compute. discriminate.
  - apply (bool_decide_unpack _). vm_compute. exact I.
  - eexists _, _. split; [exact He|reflexivity].
Defined.
