(* ===== verification/RaftDisk.v ===== *)
(** The log of a Raft replica on disk ([storage.rs], module [raft]).

    [DiskStorage] keeps the log of a Raft replica in memory-mapped files: the log
    file holds, one after the other, the length and the serialised form of every
    entry; the offset file holds where each entry starts; a metadata file the first
    and last index; a hard-state file the term, vote and commit.  The abstract log is
    a list of entries, and the file's invariant [shape] says how the bytes represent
    it. *)

From Stdlib Require Import Strings.Byte.
From S2P Require Import Prelude Wire.

(** ** Files

    A file is the bytes written to it; a byte that was never written is zero.  The
    files are mapped with a fixed length, and reads go through the map. *)

Abbreviation file := (gmap Z byte).

Fixpoint mem_read (m : file) (pos : Z) (n : nat) : bytes :=
  match n with
  | O => []
  | S n => default x00 (m !! pos) :: mem_read m (pos + 1) n
  end.

Fixpoint mem_write (m : file) (pos : Z) (bs : bytes) : file :=
  match bs with
  | [] => m
  | b :: bs => mem_write (<[pos := b]> m) (pos + 1) bs
  end.

(** [mem_map.get(start..stop)] of a map of [len] bytes. *)
Definition map_get (len : Z) (m : file) (start stop : Z) : option bytes :=
  if (0 <=? start) && (start <=? stop) && (stop <=? len)
  then Some (mem_read m start (Z.to_nat (stop - start))) else None.

(** [(&mut map[start..stop]).write_all(bs)]; [None] is the panic of a range outside
    the map. *)
Definition map_write (len : Z) (m : file) (start : Z) (bs : bytes) : option file :=
  if (0 <=? start) && (start + Z.of_nat (length bs) <=? len)
  then Some (mem_write m start bs) else None.

Definition to_be_bytes (v : Z) : bytes := BigEndian.put 8 v.

(** [u64::from_be_bytes(bytes.try_into().unwrap())]. *)
Definition from_be_bytes (bs : bytes) : option Z :=
  if (length bs =? 8)%nat then fst <$> BigEndian.get 8 0 bs else None.

(** *** Facts on files *)

Definition holds (m : file) (pos : Z) (bs : bytes) : Prop := mem_read m pos (length bs) = bs.

Lemma mem_read_app m pos a b :
  mem_read m pos (a + b) = mem_read m pos a ++ mem_read m (pos + Z.of_nat a) b.
Proof.
  revert pos. induction a as [|a IH]; intros pos; simpl; [by rewrite Z.add_0_r|].
  rewrite IH. do 3 f_equal. lia.
Qed.

Lemma length_mem_read m pos n : length (mem_read m pos n) = n.
Proof. revert pos. induction n as [|n IH]; intros pos; simpl; [done|]. by rewrite IH. Qed.

Lemma holds_app m pos a b :
  holds m pos (a ++ b) <-> holds m pos a /\ holds m (pos + Z.of_nat (length a)) b.
Proof.
  unfold holds. rewrite length_app, mem_read_app. split.
  - intros Heq. apply app_inj_1 in Heq; [done|apply length_mem_read].
  - by intros [-> ->].
Qed.

Lemma holds_nil m pos : holds m pos [].
Proof. done. Qed.

Lemma mem_write_app m pos a b :
  mem_write m pos (a ++ b) = mem_write (mem_write m pos a) (pos + Z.of_nat (length a)) b.
Proof.
  revert m pos. induction a as [|x a IH]; intros m pos; simpl; [by rewrite Z.add_0_r|].
  rewrite IH. f_equal. lia.
Qed.

Lemma mem_write_lookup_ne m pos bs i :
  i < pos \/ pos + Z.of_nat (length bs) <= i -> mem_write m pos bs !! i = m !! i.
Proof.
  revert m pos. induction bs as [|b bs IH]; intros m pos Hi; simpl in *; [done|].
  rewrite IH by lia. apply lookup_insert_ne. lia.
Qed.

(** A write leaves what lies before and behind it. *)
Lemma holds_write_ne m pos bs p cs :
  p + Z.of_nat (length cs) <= pos \/ pos + Z.of_nat (length bs) <= p ->
  holds m p cs -> holds (mem_write m pos bs) p cs.
Proof.
  unfold holds. intros Hd <-. rewrite length_mem_read. revert Hd. generalize (length cs) as n.
  intros n. revert p. induction n as [|n IH]; intros p Hd; simpl; [done|].
  rewrite mem_write_lookup_ne by lia. f_equal. apply IH. lia.
Qed.

Lemma holds_write m pos bs : holds (mem_write m pos bs) pos bs.
Proof.
  revert m pos. induction bs as [|b bs IH]; intros m pos; [done|]. unfold holds. simpl. f_equal.
  - rewrite mem_write_lookup_ne by lia. by rewrite lookup_insert_eq.
  - apply IH.
Qed.

(** Appending to a file that holds a string. *)
Lemma holds_append m pos a b :
  holds m pos a -> holds (mem_write m (pos + Z.of_nat (length a)) b) pos (a ++ b).
Proof.
  intros Ha. apply holds_app. split; [apply holds_write_ne; [lia|done]|apply holds_write].
Qed.

(** Reading a part of a string. *)
Lemma map_get_holds len m pos start a b c :
  holds m pos (a ++ b ++ c) -> 0 <= pos -> pos + Z.of_nat (length (a ++ b ++ c)) <= len ->
  start = pos + Z.of_nat (length a) ->
  map_get len m start (start + Z.of_nat (length b)) = Some b.
Proof.
  rewrite !holds_app, !length_app. intros (_ & Hb & _) Hpos Hlen ->. unfold map_get.
  rewrite !(proj2 (Z.leb_le _ _)) by lia. simpl. f_equal. rewrite <- Hb at 2. f_equal. lia.
Qed.

Lemma length_to_be v : length (to_be_bytes v) = 8%nat.
Proof. apply BigEndian.length_put. Qed.

Lemma from_to_be v : in_u64 v -> from_be_bytes (to_be_bytes v) = Some v.
Proof.
  intros Hv. unfold from_be_bytes. rewrite length_to_be.
  pose proof (BigEndian.get_put_be 8 v [] Hv) as Hg. rewrite app_nil_r in Hg.
  change (fst <$> BigEndian.get 8 0 (BigEndian.put 8 v) = Some v). by rewrite Hg.
Qed.

#[global] Opaque to_be_bytes from_be_bytes.

(** ** The Raft crate

    Entries are protobuf messages of the external crate; the storage reads their
    index and term and serialises them.  [limit_size] keeps a prefix of the entries,
    at least one. *)

Class RaftEntry := {
  entry : Type;
  ConfState : Type;
  conf_state_new : ConfState;
  entry_index : entry -> Z;
  entry_term : entry -> Z;
  write_to_bytes : entry -> bytes;
  parse_from_bytes : bytes -> option entry;
  limit_size : list entry -> option Z -> list entry;
  parse_write e : parse_from_bytes (write_to_bytes e) = Some e;
  limit_size_prefix l m : limit_size l m `prefix_of` l;
  limit_size_none l : limit_size l None = l }.

Inductive StorageError := Compacted | Unavailable.

Module DiskStorage.

(** The hard state of the crate: term, commit and vote. *)
Record HardState := mkHardState { hs_term : Z; hs_commit : Z; hs_vote : Z }.

(** Answers of the storage with entries of type [E]. *)
Inductive answer (E : Type) :=
| ADone
| AEntries (r : list E + StorageError)
| ATerm (r : Z + StorageError)
| AIndex (i : Z)
| AState (h : HardState).
#[global] Arguments ADone {E}.
#[global] Arguments AEntries {E} r.
#[global] Arguments ATerm {E} r.
#[global] Arguments AIndex {E} i.
#[global] Arguments AState {E} h.

Section disk.
Context `{RaftEntry}.

Definition FILE_SIZE : Z := 20971520.

(** A range of a file, its first byte and the one behind its last. *)
Record range := mkRange { r_start : Z; r_end : Z }.
Definition TERM_INDEX : range := mkRange 0 8.
Definition VOTE_INDEX : range := mkRange 8 16.
Definition COMMIT_INDEX : range := mkRange 16 24.
Definition FIRST_INDEX_IS_SET : range := mkRange 0 1.
Definition FIRST_INDEX : range := mkRange 1 9.
Definition LAST_INDEX_IS_SET : range := mkRange 9 10.
Definition LAST_INDEX : range := mkRange 10 18.

(** [log_pos] is the position of the cursor of the log file. *)
Record t := mk {
  conf_state : ConfState;
  hard_state : file;
  log : file;
  log_pos : Z;
  offset : file;
  raft_metadata : file;
  num_entries : Z;
  snapshot_index : Z;
  snapshot_term : Z;
  pending_conf_state : option ConfState;
  pending_conf_state_start_index : option Z }.

Definition set_hard (d : t) (x : file) : t :=
  mk (conf_state d) x (log d) (log_pos d) (offset d) (raft_metadata d) (num_entries d)
     (snapshot_index d) (snapshot_term d) (pending_conf_state d)
     (pending_conf_state_start_index d).
Definition set_log (d : t) (x : file) (pos : Z) : t :=
  mk (conf_state d) (hard_state d) x pos (offset d) (raft_metadata d) (num_entries d)
     (snapshot_index d) (snapshot_term d) (pending_conf_state d)
     (pending_conf_state_start_index d).
Definition set_offset (d : t) (x : file) : t :=
  mk (conf_state d) (hard_state d) (log d) (log_pos d) x (raft_metadata d) (num_entries d)
     (snapshot_index d) (snapshot_term d) (pending_conf_state d)
     (pending_conf_state_start_index d).
Definition set_metadata (d : t) (x : file) : t :=
  mk (conf_state d) (hard_state d) (log d) (log_pos d) (offset d) x (num_entries d)
     (snapshot_index d) (snapshot_term d) (pending_conf_state d)
     (pending_conf_state_start_index d).
Definition set_num_entries (d : t) (x : Z) : t :=
  mk (conf_state d) (hard_state d) (log d) (log_pos d) (offset d) (raft_metadata d) x
     (snapshot_index d) (snapshot_term d) (pending_conf_state d)
     (pending_conf_state_start_index d).

(** The files are truncated when they are opened. *)
Definition new : t := mk conf_state_new ∅ ∅ 0 ∅ ∅ 0 0 0 None None.

Definition HARD_STATE_LEN : Z := 24.
Definition METADATA_LEN : Z := 18.

Definition new_with_conf_state (conf_state : ConfState) : option t :=
  h ← map_write HARD_STATE_LEN ∅ (r_start TERM_INDEX) (to_be_bytes 1);
  h ← map_write HARD_STATE_LEN h (r_start COMMIT_INDEX) (to_be_bytes 1);
  Some (mk conf_state h ∅ 0 ∅ ∅ 0 1 1 None None).

Definition read_hard_state_field (d : t) (field : range) : option Z :=
  bytes ← map_get HARD_STATE_LEN (hard_state d) (r_start field) (r_end field);
  from_be_bytes bytes.

Definition get_hard_state (d : t) : option HardState :=
  term ← read_hard_state_field d TERM_INDEX;
  commit ← read_hard_state_field d COMMIT_INDEX;
  vote ← read_hard_state_field d VOTE_INDEX;
  Some (mkHardState term commit vote).

Definition get_log_offset (d : t) (log_index : Z) : option Z :=
  let start := log_index *u64 8 in
  bytes ← map_get FILE_SIZE (offset d) start (start +u64 8);
  from_be_bytes bytes.

Definition get_entry (d : t) (index : Z) : option entry :=
  start ← get_log_offset d index;
  let stop := start +u64 8 in
  entry_len ← map_get FILE_SIZE (log d) start stop;
  des_entry_len ← from_be_bytes entry_len;
  bytes ← map_get FILE_SIZE (log d) stop (stop +u64 des_entry_len);
  parse_from_bytes bytes.

(** Writing a field marks it as set; the code asserts that it is one of the two. *)
Definition set_raft_metadata (d : t) (is_set field : range) (value : Z) : option t :=
  m ← map_write METADATA_LEN (raft_metadata d) (r_start is_set) [x01];
  m ← map_write METADATA_LEN m (r_start field) (to_be_bytes value);
  Some (set_metadata d m).

Definition get_raft_metadata (d : t) (is_set field : range) : option (option Z) :=
  flag ← map_get METADATA_LEN (raft_metadata d) (r_start is_set) (r_end is_set);
  b ← head flag;
  if bool_decide (b = x00) then Some None
  else
    bytes ← map_get METADATA_LEN (raft_metadata d) (r_start field) (r_end field);
    v ← from_be_bytes bytes;
    Some (Some v).

Definition first_index (d : t) : option Z :=
  first ← get_raft_metadata d FIRST_INDEX_IS_SET FIRST_INDEX;
  Some (default (snapshot_index d +u64 1) first).

Definition last_index (d : t) : option Z :=
  last ← get_raft_metadata d LAST_INDEX_IS_SET LAST_INDEX;
  Some (default (snapshot_index d) last).

(** [file.write_all]: the cursor moves, and the file grows beyond its map. *)
Definition log_write_all (d : t) (bs : bytes) : t :=
  set_log d (mem_write (log d) (log_pos d) bs) (log_pos d + Z.of_nat (length bs)).

(** The loop over the entries; [i] is the index of the next one in the log. *)
Fixpoint append_loop (d : t) (i : Z) (entries : list entry) : option t :=
  match entries with
  | [] => Some d
  | e :: entries =>
      let current_offset := log_pos d in
      let ser_entry := write_to_bytes e in
      let d := log_write_all d (to_be_bytes (Z.of_nat (length ser_entry))) in
      let d := log_write_all d ser_entry in
      offset ← map_write FILE_SIZE (offset d) (i *u64 8) (to_be_bytes current_offset);
      append_loop (set_offset d offset) (i +u64 1) entries
  end.

(** [None] is a panic: no entries, or an offset outside the map. *)
Definition append_entries (d : t) (entries : list entry) (from_log_index : Z) : option t :=
  pos ← (if num_entries d <=? from_log_index then Some (log_pos d)
         else get_log_offset d from_log_index);
  let d := set_log d (log d) pos in
  let num_added_entries := Z.of_nat (length entries) in
  first ← head entries;
  final ← last entries;
  d ← append_loop d from_log_index entries;
  d ← (if from_log_index =? 0 then
         set_raft_metadata d FIRST_INDEX_IS_SET FIRST_INDEX (entry_index first)
       else Some d);
  let num_removed_entries := num_entries d -u64 from_log_index in
  let d := set_num_entries d (num_entries d +u64 num_added_entries -u64 num_removed_entries) in
  set_raft_metadata d LAST_INDEX_IS_SET LAST_INDEX (entry_index final).

(** [None] is a panic: the entries would leave a gap or overwrite compacted ones. *)
Definition append_log (d : t) (entries : list entry) : option t :=
  match entries with
  | [] => Some d
  | e :: _ =>
      first_index ← first_index d;
      if entry_index e <? first_index then None
      else
        last_index ← last_index d;
        if last_index +u64 1 <? entry_index e then None
        else append_entries d entries (entry_index e -u64 first_index)
  end.

Definition set_conf_state (d : t) (cs : ConfState) (pending : option (ConfState * Z)) : t :=
  mk cs (hard_state d) (log d) (log_pos d) (offset d) (raft_metadata d) (num_entries d)
     (snapshot_index d) (snapshot_term d)
     (match pending with Some (cs, _) => Some cs | None => pending_conf_state d end)
     (match pending with Some (_, idx) => Some idx | None => pending_conf_state_start_index d end).

Definition set_hard_state (d : t) (commit term : Z) : option t :=
  h ← map_write HARD_STATE_LEN (hard_state d) (r_start TERM_INDEX) (to_be_bytes term);
  h ← map_write HARD_STATE_LEN h (r_start COMMIT_INDEX) (to_be_bytes commit);
  Some (set_hard d h).

Definition initial_state (d : t) : option (HardState * ConfState) :=
  hard_state ← get_hard_state d;
  Some (hard_state, conf_state d).

(** The inner [sum] is the [Result]; [None] is a panic. *)
Definition entries (d : t) (low high : Z) (max_size : option Z)
    : option (list entry + StorageError) :=
  first_index ← first_index d;
  if low <? first_index then Some (inr Compacted)
  else
    last_index ← last_index d;
    if last_index +u64 1 <? high then None
    else
      let lo := low -u64 first_index in
      let hi := high -u64 first_index in
      ents ← mapM (get_entry d) (seqZ lo (hi - lo));
      Some (inl (limit_size ents max_size)).

Definition term (d : t) (idx : Z) : option (Z + StorageError) :=
  if idx =? snapshot_index d then Some (inl (snapshot_term d))
  else
    offset ← first_index d;
    if idx <? offset then Some (inr Compacted)
    else
      let log_index := idx -u64 offset in
      if num_entries d <=? log_index then Some (inr Unavailable)
      else
        e ← get_entry d log_index;
        Some (inl (entry_term e)).

(** ** What the files represent *)

Definition enc (e : entry) : bytes :=
  to_be_bytes (Z.of_nat (length (write_to_bytes e))) ++ write_to_bytes e.
Definition log_bytes (es : list entry) : bytes := concat (map enc es).
Definition log_len (es : list entry) : Z := Z.of_nat (length (log_bytes es)).

(** Where the entries start, the first one at [p]. *)
Fixpoint positions (p : Z) (es : list entry) : list Z :=
  match es with
  | [] => []
  | e :: es => p :: positions (p + Z.of_nat (length (enc e))) es
  end.
Definition offset_bytes (p : Z) (es : list entry) : bytes :=
  concat (map to_be_bytes (positions p es)).

(** Entries with consecutive indices. *)
Definition consecutive (first : Z) (es : list entry) : Prop :=
  forall i e, es !! i = Some e -> entry_index e = first + Z.of_nat i.

Definition index_flag (is_set : bool) (index : Z) : bytes :=
  if is_set then x01 :: to_be_bytes index else [x00].

(** The sizes stay within the mapped files. *)
Definition fits (es : list entry) : Prop :=
  log_len es <= FILE_SIZE /\ Z.of_nat (length es) * 8 <= FILE_SIZE.

Record shape (d : t) (es : list entry) : Prop := mkShape {
  shape_num : num_entries d = Z.of_nat (length es);
  shape_log : holds (log d) 0 (log_bytes es);
  shape_pos : log_pos d = log_len es;
  shape_offset : holds (offset d) 0 (offset_bytes 0 es);
  shape_fits : fits es;
  shape_consecutive : consecutive (snapshot_index d + 1) es;
  shape_snapshot : 0 <= snapshot_index d < 2 ^ 62;
  shape_first : holds (raft_metadata d) 0
    (index_flag (negb (bool_decide (es = []))) (snapshot_index d + 1));
  shape_last : holds (raft_metadata d) 9
    (index_flag (negb (bool_decide (es = []))) (snapshot_index d + Z.of_nat (length es))) }.

(** *** Facts on the encoding *)

Lemma log_bytes_app a b : log_bytes (a ++ b) = log_bytes a ++ log_bytes b.
Proof. unfold log_bytes. by rewrite map_app, concat_app. Qed.

Lemma log_len_app a b : log_len (a ++ b) = log_len a + log_len b.
Proof. unfold log_len. rewrite log_bytes_app, length_app. lia. Qed.

Lemma log_len_nonneg a : 0 <= log_len a.
Proof. unfold log_len. lia. Qed.

Lemma length_positions p es : length (positions p es) = length es.
Proof. revert p. induction es as [|e es IH]; intros p; simpl; [done|]. by rewrite IH. Qed.

Lemma positions_app p a b : positions p (a ++ b) = positions p a ++ positions (p + log_len a) b.
Proof.
  revert p. induction a as [|e a IH]; intros p; simpl.
  - unfold log_len. simpl. by rewrite Z.add_0_r.
  - rewrite IH. do 3 f_equal. unfold log_len, log_bytes. simpl. rewrite length_app. lia.
Qed.

Lemma offset_bytes_app p a b :
  offset_bytes p (a ++ b) = offset_bytes p a ++ offset_bytes (p + log_len a) b.
Proof. unfold offset_bytes. by rewrite positions_app, map_app, concat_app. Qed.

Lemma offset_bytes_single p e : offset_bytes p [e] = to_be_bytes p.
Proof. unfold offset_bytes. simpl. apply app_nil_r. Qed.

Lemma length_offset_bytes p es : length (offset_bytes p es) = (8 * length es)%nat.
Proof.
  unfold offset_bytes. rewrite <- (length_positions p es). induction (positions p es) as [|x l IH];
    [done|]. cbn [map concat length]. rewrite length_app, length_to_be, IH. lia.
Qed.

Lemma consecutive_app first a b :
  consecutive first (a ++ b) <->
  consecutive first a /\ consecutive (first + Z.of_nat (length a)) b.
Proof.
  unfold consecutive. split.
  - intros Hc. split; intros i e Hi.
    + apply Hc. by apply lookup_app_l_Some.
    + rewrite (Hc (length a + i)%nat e); [lia|]. rewrite lookup_app_r by lia. rewrite <- Hi. f_equal. lia.
  - intros [Ha Hb] i e [Hi|[Hl Hi]]%lookup_app_Some; [by apply Ha|]. rewrite (Hb _ _ Hi). lia.
Qed.

Lemma fits_app_l a b : fits (a ++ b) -> fits a.
Proof.
  unfold fits. rewrite log_len_app, length_app. pose proof (log_len_nonneg b). lia.
Qed.

(** *** Reading *)

Lemma get_log_offset_spec d es i :
  shape d es -> (i < length es)%nat ->
  get_log_offset d (Z.of_nat i) = Some (log_len (take i es)).
Proof.
  intros Hs Hi. pose proof (shape_offset _ _ Hs) as Ho. destruct (shape_fits _ _ Hs) as [Hl Hn].
  unfold FILE_SIZE in Hl, Hn. rewrite <- (take_drop i es) in Ho, Hl.
  assert (exists e, drop i es = e :: drop (S i) es) as [e He].
  { destruct (lookup_lt_is_Some_2 es i Hi) as [e He]. exists e. by apply drop_S. }
  rewrite He in Ho. rewrite log_len_app in Hl.
  pose proof (log_len_nonneg (take i es)). pose proof (log_len_nonneg (drop i es)).
  change (e :: drop (S i) es) with ([e] ++ drop (S i) es) in Ho. rewrite !offset_bytes_app in Ho.
  assert (length (offset_bytes 0 (take i es)) = 8 * i)%nat as Hla
    by (rewrite length_offset_bytes, length_take; lia).
  unfold get_log_offset, u64_mul, u64_add. rewrite !Z.mod_small by (try rewrite Z.mod_small; lia).
  erewrite (map_get_holds FILE_SIZE _ 0 (Z.of_nat i * 8) _ (offset_bytes (0 + log_len (take i es)) [e]));
    [|exact Ho|lia| |lia].
  - rewrite offset_bytes_single. apply from_to_be. unfold in_u64. lia.
  - rewrite !length_app, !length_offset_bytes, length_take, length_drop. unfold FILE_SIZE. simpl. lia.
Qed.

Lemma get_entry_spec d es i e :
  shape d es -> es !! i = Some e -> get_entry d (Z.of_nat i) = Some e.
Proof.
  intros Hs Hi. pose proof (shape_log _ _ Hs) as Hl. destruct (shape_fits _ _ Hs) as [Hf _].
  unfold get_entry. rewrite (get_log_offset_spec d es) by (done || by eapply lookup_lt_Some). simpl.
  rewrite <- (take_drop_middle es i e Hi) in Hl, Hf.
  change (e :: drop (S i) es) with ([e] ++ drop (S i) es) in Hl, Hf.
  rewrite !log_len_app in Hf. rewrite !log_bytes_app in Hl.
  pose proof (log_len_nonneg (take i es)). pose proof (log_len_nonneg (drop (S i) es)).
  set (a := log_bytes (take i es)) in *. set (c := log_bytes (drop (S i) es)) in *.
  set (w := write_to_bytes e). assert (log_bytes [e] = to_be_bytes (Z.of_nat (length w)) ++ w) as He
    by (unfold log_bytes; simpl; by rewrite app_nil_r).
  assert (log_len [e] = 8 + Z.of_nat (length w)) as Hle
    by (unfold log_len; rewrite He, length_app, length_to_be; lia).
  rewrite He, <- app_assoc in Hl. unfold FILE_SIZE in Hf.
  assert (Z.of_nat (length (a ++ to_be_bytes (Z.of_nat (length w)) ++ w ++ c)) <= FILE_SIZE) as Hlen.
  { rewrite !length_app, length_to_be. unfold FILE_SIZE, a, c, log_len in *. lia. }
  assert (log_len (take i es) = Z.of_nat (length a)) as Ha by done.
  unfold u64_add. rewrite !Z.mod_small by (try rewrite Z.mod_small; lia).
  pose proof (map_get_holds FILE_SIZE _ 0 (log_len (take i es)) a _ (w ++ c) Hl ltac:(lia) ltac:(lia)
    ltac:(lia)) as Hr. rewrite length_to_be in Hr.
  change (Z.of_nat 8) with 8 in Hr. rewrite Hr. cbn [mbind option_bind].
  rewrite from_to_be by (unfold in_u64; lia). cbn [mbind option_bind]. rewrite !Z.mod_small by (try rewrite Z.mod_small; lia).
  rewrite app_assoc in Hl, Hlen.
  rewrite (map_get_holds FILE_SIZE _ 0 _ _ w c Hl); [apply parse_write|lia|lia|].
  rewrite length_app, length_to_be. lia.
Qed.

Lemma get_metadata_spec d (is_set field : range) b v :
  r_end is_set = r_start is_set + 1 -> r_start field = r_end is_set ->
  r_end field = r_start field + 8 -> 0 <= r_start is_set -> r_end field <= METADATA_LEN ->
  in_u64 v -> holds (raft_metadata d) (r_start is_set) (index_flag b v) ->
  get_raft_metadata d is_set field = Some (if b then Some v else None).
Proof.
  intros H1 H2 H3 H4 H5 Hv Hh. unfold METADATA_LEN in H5. unfold get_raft_metadata.
  assert (map_get METADATA_LEN (raft_metadata d) (r_start is_set) (r_end is_set) =
    Some [if b then x01 else x00]) as ->.
  { rewrite H1. change 1 with (Z.of_nat (length [if b then x01 else x00])).
    eapply (map_get_holds _ _ (r_start is_set) _ [] _ (if b then to_be_bytes v else []));
      [|done| |simpl; lia]; destruct b; try exact Hh;
      rewrite ?length_app, ?length_to_be; unfold METADATA_LEN; simpl; rewrite ?length_to_be; lia. }
  simpl. destruct b; simpl; [|done]. rewrite H3, H2.
  change 8 with (Z.of_nat 8). rewrite <- (length_to_be v).
  erewrite (map_get_holds _ _ (r_start is_set) _ [x01] (to_be_bytes v) []); [|by rewrite app_nil_r|done| |simpl; lia].
  - cbn [mbind option_bind]. by rewrite from_to_be.
  - rewrite !length_app, length_to_be. unfold METADATA_LEN. cbn [length]. lia.
Qed.

Lemma first_index_spec d es : shape d es -> first_index d = Some (snapshot_index d + 1).
Proof.
  intros Hs. pose proof (shape_snapshot _ _ Hs). unfold first_index.
  rewrite (get_metadata_spec d FIRST_INDEX_IS_SET FIRST_INDEX (negb (bool_decide (es = []))) (snapshot_index d + 1) eq_refl eq_refl eq_refl);
    [|done|done|unfold in_u64; lia|apply (shape_first _ _ Hs)].
  simpl. f_equal. destruct (negb _); simpl; [done|]. unfold u64_add. rewrite Z.mod_small; lia.
Qed.

Lemma shape_length d es : shape d es -> Z.of_nat (length es) < 2 ^ 62.
Proof. intros Hs. destruct (shape_fits _ _ Hs) as [_ Hn]. unfold FILE_SIZE in Hn. lia. Qed.

Lemma last_index_spec d es :
  shape d es -> last_index d = Some (snapshot_index d + Z.of_nat (length es)).
Proof.
  intros Hs. pose proof (shape_snapshot _ _ Hs). pose proof (shape_length _ _ Hs). unfold last_index.
  rewrite (get_metadata_spec d LAST_INDEX_IS_SET LAST_INDEX (negb (bool_decide (es = []))) (snapshot_index d + Z.of_nat (length es)) eq_refl eq_refl eq_refl);
    [|done|done|unfold in_u64; lia|apply (shape_last _ _ Hs)].
  simpl. f_equal. destruct (bool_decide_reflect (es = [])) as [->|]; simpl; lia.
Qed.

(** *** Writing *)

Lemma set_files_eq d l l' p p' o o' :
  l = l' -> p = p' -> o = o' ->
  Some (set_offset (set_log d l p) o) = Some (set_offset (set_log d l' p') o').
Proof. by intros -> -> ->. Qed.

Lemma append_loop_spec es d k :
  (Z.of_nat k + Z.of_nat (length es)) * 8 <= FILE_SIZE ->
  append_loop d (Z.of_nat k) es =
    Some (set_offset
            (set_log d (mem_write (log d) (log_pos d) (log_bytes es)) (log_pos d + log_len es))
            (mem_write (offset d) (Z.of_nat k * 8) (offset_bytes (log_pos d) es))).
Proof.
  revert d k. induction es as [|e es IH]; intros d k Hk.
  - simpl. unfold log_len. simpl. rewrite Z.add_0_r. by destruct d.
  - cbn [append_loop]. unfold FILE_SIZE in Hk. simpl in Hk.
    unfold u64_mul, u64_add. rewrite !Z.mod_small by lia. unfold map_write.
    rewrite length_to_be. unfold FILE_SIZE at 1. rewrite !(proj2 (Z.leb_le _ _)) by lia.
    cbn [andb mbind option_bind].
    replace (Z.of_nat k + 1) with (Z.of_nat (S k)) by lia. rewrite IH by (unfold FILE_SIZE; lia).
    assert (length (enc e) = 8 + length (write_to_bytes e))%nat as Henc
      by (unfold enc; by rewrite length_app, length_to_be).
    set (w := write_to_bytes e) in *. set (b := to_be_bytes (Z.of_nat (length w))).
    assert (mem_write (mem_write (mem_write (log d) (log_pos d) b)
        (log_pos d + Z.of_nat (length b)) w)
        (log_pos d + Z.of_nat (length b) + Z.of_nat (length w)) (log_bytes es) =
      mem_write (log d) (log_pos d) (log_bytes (e :: es))) as El.
    { change (log_bytes (e :: es)) with ((b ++ w) ++ log_bytes es).
      by rewrite <- app_assoc, !mem_write_app. }
    assert (log_pos d + Z.of_nat (length b) + Z.of_nat (length w) + log_len es =
      log_pos d + log_len (e :: es)) as Ep.
    { unfold log_len. change (log_bytes (e :: es)) with ((b ++ w) ++ log_bytes es).
      rewrite !length_app. lia. }
    assert (mem_write (mem_write (offset d) (Z.of_nat k * 8) (to_be_bytes (log_pos d)))
        (Z.of_nat (S k) * 8)
        (offset_bytes (log_pos d + Z.of_nat (length b) + Z.of_nat (length w)) es) =
      mem_write (offset d) (Z.of_nat k * 8) (offset_bytes (log_pos d) (e :: es))) as Eo.
    { change (offset_bytes (log_pos d) (e :: es)) with (to_be_bytes (log_pos d) ++
        offset_bytes (log_pos d + Z.of_nat (length (enc e))) es).
      rewrite mem_write_app, length_to_be, Henc. unfold b. rewrite length_to_be.
      f_equal; [lia|]. f_equal. lia. }
    exact (set_files_eq d _ _ _ _ _ _ El Ep Eo).
Qed.

Lemma set_metadata_spec d (is_set field : range) v :
  r_start field = r_start is_set + 1 -> 0 <= r_start is_set -> r_start is_set + 9 <= METADATA_LEN ->
  set_raft_metadata d is_set field v =
    Some (set_metadata d (mem_write (raft_metadata d) (r_start is_set) (index_flag true v))).
Proof.
  intros H1 H2 H3. unfold set_raft_metadata, map_write. rewrite length_to_be, H1.
  unfold METADATA_LEN in *. rewrite !(proj2 (Z.leb_le _ _)) by (simpl; lia). done.
Qed.

Lemma set_metadata_metadata d x y : set_metadata (set_metadata d x) y = set_metadata d y.
Proof. done. Qed.

Lemma length_index_flag v : length (index_flag true v) = 9%nat.
Proof. simpl. by rewrite length_to_be. Qed.

(** Where the cursor is put before the entries are written. *)
Lemma append_position d es j :
  shape d es -> (j <= length es)%nat ->
  (if num_entries d <=? Z.of_nat j then Some (log_pos d) else get_log_offset d (Z.of_nat j)) =
    Some (log_len (take j es)).
Proof.
  intros Hs Hj. rewrite (shape_num _ _ Hs). destruct (Z.leb_spec (Z.of_nat (length es)) (Z.of_nat j)).
  - by rewrite (shape_pos _ _ Hs), take_ge by lia.
  - apply get_log_offset_spec; [done|lia].
Qed.

(** The metadata after an append at position [j] of a log that becomes [es']. *)
Definition appended_metadata (d : t) (j : nat) (es' : list entry) : file :=
  mem_write
    (if (j =? 0)%nat then mem_write (raft_metadata d) 0 (index_flag true (snapshot_index d + 1))
     else raft_metadata d)
    9 (index_flag true (snapshot_index d + Z.of_nat (length es'))).

Definition appended (d : t) (j : nat) (es batch : list entry) : t :=
  set_metadata
    (set_num_entries
       (set_offset
          (set_log d (mem_write (log d) (log_len (take j es)) (log_bytes batch))
             (log_len (take j es ++ batch)))
          (mem_write (offset d) (Z.of_nat j * 8) (offset_bytes (log_len (take j es)) batch)))
       (Z.of_nat (length (take j es ++ batch))))
    (appended_metadata d j (take j es ++ batch)).

Lemma consecutive_head_last first es e l :
  consecutive first es -> head es = Some e -> last es = Some l ->
  entry_index e = first /\ entry_index l = first + Z.of_nat (length es) - 1.
Proof.
  intros Hc He Hl. rewrite head_lookup in He. rewrite last_lookup in Hl.
  rewrite (Hc _ _ He), (Hc _ _ Hl). apply lookup_lt_Some in Hl. lia.
Qed.

Lemma append_entries_spec d es j batch :
  shape d es -> (j <= length es)%nat -> batch <> [] ->
  consecutive (snapshot_index d + 1 + Z.of_nat j) batch -> fits (take j es ++ batch) ->
  append_entries d batch (Z.of_nat j) = Some (appended d j es batch).
Proof.
  intros Hs Hj Hne Hc [_ Hn]. rewrite length_app, length_take, Nat.min_l in Hn by done.
  unfold append_entries. rewrite (append_position _ _ _ Hs Hj). cbn [mbind option_bind].
  destruct (head batch) as [e|] eqn:He; [|by destruct batch].
  destruct (last batch) as [l|] eqn:Hl; [|by apply last_None in Hl].
  destruct (consecutive_head_last _ _ _ _ Hc He Hl) as [Hie Hil]. cbn [mbind option_bind].
  rewrite append_loop_spec by lia. cbn [mbind option_bind]. cbv zeta.
  pose proof (shape_length _ _ Hs). pose proof (shape_snapshot _ _ Hs).
  assert (Z.of_nat (length batch) < 2 ^ 62) by (unfold FILE_SIZE in Hn; lia).
  set (d1 := set_offset _ _).
  assert (Z.of_nat (length es) +u64 Z.of_nat (length batch) -u64 (Z.of_nat (length es) -u64 Z.of_nat j) =
    Z.of_nat (length (take j es ++ batch))) as Hnum.
  { rewrite length_app, length_take, Nat.min_l by done. unfold u64_add, u64_sub.
    rewrite !Z.mod_small; rewrite ?Z.mod_small; try rewrite Z.mod_small; lia. }
  assert (snapshot_index d + 1 + Z.of_nat j + Z.of_nat (length batch) - 1 =
    snapshot_index d + Z.of_nat (length (take j es ++ batch))) as Hlast
    by (rewrite length_app, length_take; lia).
  unfold appended, appended_metadata. rewrite log_len_app.
  destruct (Nat.eqb_spec j 0) as [->|Hj0].
  - simpl (_ =? 0). rewrite set_metadata_spec by (done || unfold METADATA_LEN; simpl; lia).
    cbn [mbind option_bind]. rewrite set_metadata_spec by (done || unfold METADATA_LEN; simpl; lia).
    change (num_entries (set_metadata d1 _)) with (num_entries d1).
    rewrite (shape_num _ _ Hs : num_entries d1 = _), Hnum, Hie, Hil, Hlast.
    rewrite Z.add_0_r. done.
  - rewrite (proj2 (Z.eqb_neq _ _)) by lia. cbn [mbind option_bind].
    rewrite set_metadata_spec by (done || unfold METADATA_LEN; simpl; lia).
    rewrite (shape_num _ _ Hs : num_entries d1 = _), Hnum, Hil, Hlast. done.
Qed.

(** Appending re-establishes the invariant. *)
Lemma appended_shape d es j batch :
  shape d es -> (j <= length es)%nat -> batch <> [] ->
  consecutive (snapshot_index d + 1 + Z.of_nat j) batch -> fits (take j es ++ batch) ->
  shape (appended d j es batch) (take j es ++ batch).
Proof.
  intros Hs Hj Hne Hc Hfit. assert (take j es ++ batch <> []) as Hne' by (destruct batch; [done|];
    intros [_ ?]%app_nil; done).
  assert (length (take j es) = j) as Hlen by (rewrite length_take; lia).
  pose proof (shape_log _ _ Hs) as Hl. pose proof (shape_offset _ _ Hs) as Ho.
  rewrite <- (take_drop j es), log_bytes_app in Hl. apply holds_app in Hl as [Hl _].
  rewrite <- (take_drop j es), offset_bytes_app in Ho. apply holds_app in Ho as [Ho _].
  split; simpl; [done| |done| |done| |apply (shape_snapshot _ _ Hs)| |].
  - rewrite log_bytes_app. by apply (holds_append _ 0).
  - rewrite offset_bytes_app. replace (Z.of_nat j * 8) with
      (0 + Z.of_nat (length (offset_bytes 0 (take j es)))) by (rewrite length_offset_bytes; lia).
    by apply holds_append.
  - apply consecutive_app. rewrite Hlen. split; [|done]. pose proof (shape_consecutive _ _ Hs) as Hce.
    rewrite <- (take_drop j es) in Hce. by apply consecutive_app in Hce as [? _].
  - rewrite bool_decide_eq_false_2 by done. unfold appended_metadata.
    apply holds_write_ne; [left; unfold index_flag, negb; cbn [length]; rewrite length_to_be; lia|].
    destruct (Nat.eqb_spec j 0) as [->|Hj0]; [apply holds_write|].
    pose proof (shape_first _ _ Hs) as Hf. rewrite bool_decide_eq_false_2 in Hf; [done|].
    intros ->. simpl in Hj. lia.
  - rewrite bool_decide_eq_false_2 by done. apply holds_write.
Qed.

Lemma append_log_spec d es j batch :
  shape d es -> (j <= length es)%nat -> batch <> [] ->
  consecutive (snapshot_index d + 1 + Z.of_nat j) batch -> fits (take j es ++ batch) ->
  append_log d batch = Some (appended d j es batch).
Proof.
  intros Hs Hj Hne Hc Hfit. unfold append_log. destruct batch as [|e batch]; [done|].
  assert (entry_index e = snapshot_index d + 1 + Z.of_nat j) as He
    by (rewrite (Hc 0%nat e eq_refl); lia).
  rewrite (first_index_spec _ _ Hs). simpl. rewrite (proj2 (Z.ltb_ge _ _)) by lia.
  rewrite (last_index_spec _ _ Hs). simpl.
  pose proof (shape_length _ _ Hs). pose proof (shape_snapshot _ _ Hs).
  unfold u64_add, u64_sub. rewrite !Z.mod_small by lia. rewrite (proj2 (Z.ltb_ge _ _)) by lia.
  replace (entry_index e - (snapshot_index d + 1)) with (Z.of_nat j) by lia.
  by apply append_entries_spec.
Qed.

Lemma mapM_get_entry d es lo n :
  shape d es -> (lo + n <= length es)%nat ->
  mapM (get_entry d) (seqZ (Z.of_nat lo) (Z.of_nat n)) = Some (take n (drop lo es)).
Proof.
  intros Hs. revert lo. induction n as [|n IH]; intros lo Hn; [by rewrite take_0|].
  rewrite Nat2Z.inj_succ, seqZ_cons by lia. simpl.
  destruct (lookup_lt_is_Some_2 es lo) as [e He]; [lia|].
  rewrite (get_entry_spec _ _ _ _ Hs He). simpl.
  replace (Z.succ (Z.of_nat lo)) with (Z.of_nat (S lo)) by lia.
  replace (Z.pred (Z.succ (Z.of_nat n))) with (Z.of_nat n) by lia.
  rewrite IH by lia. simpl. by rewrite (drop_S _ _ _ He).
Qed.

Lemma hard_state_spec (h : file) c t v :
  in_u64 c -> in_u64 t -> in_u64 v ->
  holds h 0 (to_be_bytes t ++ to_be_bytes v ++ to_be_bytes c) ->
  forall d, hard_state d = h -> get_hard_state d = Some (mkHardState t c v).
Proof.
  intros Hc Ht Hv Hh d Hd.
  assert (forall a b x, a ++ to_be_bytes x ++ b = to_be_bytes t ++ to_be_bytes v ++ to_be_bytes c ->
    in_u64 x -> map_get HARD_STATE_LEN h (Z.of_nat (length a)) (Z.of_nat (length a) + 8) ≫= from_be_bytes
      = Some x) as Hget.
  { intros a b x Heq Hx. rewrite <- Heq in Hh.
    pose proof (map_get_holds HARD_STATE_LEN h 0 (Z.of_nat (length a)) a (to_be_bytes x) b Hh) as Hm.
    rewrite length_to_be in Hm. change (Z.of_nat 8) with 8 in Hm. rewrite Hm; [|lia| |lia].
    - cbn [mbind option_bind]. by apply from_to_be.
    - rewrite Heq, !length_app, !length_to_be. unfold HARD_STATE_LEN. lia. }
  pose proof (Hget [] (to_be_bytes v ++ to_be_bytes c) t eq_refl Ht) as H1.
  pose proof (Hget (to_be_bytes t ++ to_be_bytes v) [] c ltac:(by rewrite app_nil_r, <- app_assoc) Hc) as H2.
  pose proof (Hget (to_be_bytes t) (to_be_bytes c) v eq_refl Hv) as H3.
  rewrite length_app, !length_to_be in H2. rewrite length_to_be in H3.
  assert (read_hard_state_field d TERM_INDEX = Some t) as Et
    by (unfold read_hard_state_field; rewrite Hd; exact H1).
  assert (read_hard_state_field d COMMIT_INDEX = Some c) as Ec
    by (unfold read_hard_state_field; rewrite Hd; exact H2).
  assert (read_hard_state_field d VOTE_INDEX = Some v) as Ev
    by (unfold read_hard_state_field; rewrite Hd; exact H3).
  unfold get_hard_state. by rewrite Et, Ec, Ev.
Qed.

(** ** The abstract log

    What the storage promises: a list of entries that starts behind the snapshot, and
    the term and commit index last set.  An append replaces the entries from its
    first index on.  The vote of the hard state is not part of what is set. *)

Record raft_log := mkRaftLog { rl_entries : list entry; rl_term : Z; rl_commit : Z }.

Inductive op :=
| OpAppend (es : list entry)
| OpSetHard (commit term : Z)
| OpEntries (low high : Z) (max_size : option Z)
| OpTerm (idx : Z)
| OpFirstIndex
| OpLastIndex
| OpInitialState.

(** The index of the first entry. *)
Definition FIRST : Z := 2.

Definition spec_append (l : list entry) (es : list entry) : list entry :=
  match es with
  | [] => l
  | e :: _ => take (Z.to_nat (entry_index e - FIRST)) l ++ es
  end.

Definition spec_step (l : raft_log) (o : op) : raft_log * answer entry :=
  let es := rl_entries l in
  match o with
  | OpAppend batch => (mkRaftLog (spec_append es batch) (rl_term l) (rl_commit l), ADone)
  | OpSetHard commit term => (mkRaftLog es term commit, ADone)
  | OpEntries low high max_size =>
      (l, AEntries
            (if low <? FIRST then inr Compacted
             else inl (limit_size (take (Z.to_nat (high - low)) (drop (Z.to_nat (low - FIRST)) es))
                         max_size)))
  | OpTerm idx =>
      (l, ATerm
            (if idx =? 1 then inl 1
             else if idx <? FIRST then inr Compacted
             else match es !! Z.to_nat (idx - FIRST) with
                  | Some e => inl (entry_term e)
                  | None => inr Unavailable
                  end))
  | OpFirstIndex => (l, AIndex FIRST)
  | OpLastIndex => (l, AIndex (1 + Z.of_nat (length es)))
  | OpInitialState => (l, AState (mkHardState (rl_term l) (rl_commit l) 0))
  end.

Definition disk_step (d : t) (o : op) : option (t * answer entry) :=
  match o with
  | OpAppend batch => d ← append_log d batch; Some (d, ADone)
  | OpSetHard commit term => d ← set_hard_state d commit term; Some (d, ADone)
  | OpEntries low high max_size => r ← entries d low high max_size; Some (d, AEntries r)
  | OpTerm idx => r ← term d idx; Some (d, ATerm r)
  | OpFirstIndex => i ← first_index d; Some (d, AIndex i)
  | OpLastIndex => i ← last_index d; Some (d, AIndex i)
  | OpInitialState => '(h, _) ← initial_state d; Some (d, AState h)
  end.

(** When the calls are within the contract: appended entries are consecutive, leave
    no gap, overwrite nothing compacted and fit into the files; ranges are ordered
    and end at most behind the last entry. *)
Definition allowed (l : raft_log) (o : op) : Prop :=
  let es := rl_entries l in
  match o with
  | OpAppend batch =>
      batch = [] \/
      exists first, FIRST <= first <= FIRST + Z.of_nat (length es) /\ consecutive first batch /\
        fits (spec_append es batch)
  | OpSetHard commit term => in_u64 commit /\ in_u64 term
  | OpEntries low high _ => 0 <= low <= high /\ high <= FIRST + Z.of_nat (length es)
  | OpTerm idx => in_u64 idx
  | _ => True
  end.

Fixpoint all_allowed (l : raft_log) (ops : list op) : Prop :=
  match ops with
  | [] => True
  | o :: ops => allowed l o /\ all_allowed (spec_step l o).1 ops
  end.

Fixpoint spec_run (l : raft_log) (ops : list op) : list (answer entry) :=
  match ops with
  | [] => []
  | o :: ops => (spec_step l o).2 :: spec_run (spec_step l o).1 ops
  end.

Fixpoint disk_run (d : t) (ops : list op) : option (list (answer entry)) :=
  match ops with
  | [] => Some []
  | o :: ops =>
      '(d, a) ← disk_step d o;
      answers ← disk_run d ops;
      Some (a :: answers)
  end.

(** The simulation relation. *)
Record represents (d : t) (l : raft_log) : Prop := mkRepresents {
  rep_shape : shape d (rl_entries l);
  rep_index : snapshot_index d = 1;
  rep_term : snapshot_term d = 1;
  rep_hard : holds (hard_state d) 0
    (to_be_bytes (rl_term l) ++ to_be_bytes 0 ++ to_be_bytes (rl_commit l));
  rep_fields : in_u64 (rl_term l) /\ in_u64 (rl_commit l) }.

Lemma simulates_append d l batch :
  represents d l -> allowed l (OpAppend batch) ->
  exists d', append_log d batch = Some d' /\
    represents d' (mkRaftLog (spec_append (rl_entries l) batch) (rl_term l) (rl_commit l)).
Proof.
  intros [Hs Hi Ht Hh Hf] Ha. destruct batch as [|e batch].
  { exists d. split; [done|]. by split. }
  destruct Ha as [Ha|(first & Hfirst & Hc & Hfit)]; [done|]. unfold FIRST in Hfirst.
  set (j := Z.to_nat (first - 2)). assert (entry_index e = first) as He
    by (rewrite (Hc 0%nat e eq_refl); lia).
  assert (consecutive (snapshot_index d + 1 + Z.of_nat j) (e :: batch)) as Hc'
    by (rewrite Hi; replace (1 + 1 + Z.of_nat j) with first by lia; done).
  assert (spec_append (rl_entries l) (e :: batch) = take j (rl_entries l) ++ e :: batch) as Heq
    by (unfold spec_append, FIRST; by rewrite He).
  rewrite Heq in Hfit |- *. assert (j <= length (rl_entries l))%nat as Hj by lia.
  exists (appended d j (rl_entries l) (e :: batch)).
  split; [by apply append_log_spec|]. split; try done. by apply appended_shape.
Qed.

Lemma simulates_set_hard d l commit term :
  represents d l -> in_u64 commit -> in_u64 term ->
  exists d', set_hard_state d commit term = Some d' /\
    represents d' (mkRaftLog (rl_entries l) term commit).
Proof.
  intros [Hs Hi Ht Hh Hf] Hc Hterm. unfold set_hard_state, map_write. rewrite !length_to_be. simpl.
  eexists. split; [done|]. split; try done; simpl.
  - by destruct Hs.
  - apply holds_app in Hh as [_ Hh]. apply holds_app in Hh as [Hv _].
    rewrite length_to_be in Hv. apply holds_app. split.
    + apply holds_write_ne; [rewrite !length_to_be; lia|]. apply holds_write.
    + rewrite length_to_be. apply holds_app. split.
      * apply holds_write_ne; [rewrite !length_to_be; lia|].
        apply holds_write_ne; [rewrite !length_to_be; lia|]. done.
      * rewrite length_to_be. apply holds_write.
Qed.

Lemma simulates_entries d l low high max_size :
  represents d l -> allowed l (OpEntries low high max_size) ->
  exists r, entries d low high max_size = Some r /\
    (spec_step l (OpEntries low high max_size)).2 = AEntries r.
Proof.
  intros [Hs Hi Ht _ _] [Hlow Hhigh]. unfold FIRST in Hhigh. unfold entries. simpl.
  rewrite (first_index_spec _ _ Hs), Hi. simpl. change (1 + 1) with 2.
  unfold FIRST. destruct (Z.ltb_spec low 2); [by eexists|].
  pose proof (shape_length _ _ Hs).
  rewrite (last_index_spec _ _ Hs), Hi. cbn [mbind option_bind].
  unfold u64_add, u64_sub. rewrite !Z.mod_small by lia. rewrite (proj2 (Z.ltb_ge _ _)) by lia.
  pose proof (mapM_get_entry d _ (Z.to_nat (low - 2)) (Z.to_nat (high - low)) Hs ltac:(lia)) as Hm.
  rewrite !Z2Nat.id in Hm by lia. replace (high - 2 - (low - 2)) with (high - low) by lia.
  rewrite Hm. by eexists.
Qed.

Lemma simulates_term d l idx :
  represents d l -> in_u64 idx ->
  exists r, term d idx = Some r /\ (spec_step l (OpTerm idx)).2 = ATerm r.
Proof.
  intros [Hs Hi Ht _ _] Hidx. unfold in_u64 in Hidx. unfold term. simpl. rewrite Hi, Ht.
  destruct (idx =? 1); [by eexists|]. rewrite (first_index_spec _ _ Hs), Hi. simpl.
  change (1 + 1) with 2. unfold FIRST. destruct (Z.ltb_spec idx 2); [by eexists|].
  rewrite (shape_num _ _ Hs). unfold u64_sub. rewrite Z.mod_small by lia.
  destruct (Z.leb_spec (Z.of_nat (length (rl_entries l))) (idx - 2)).
  - rewrite lookup_ge_None_2 by lia. by eexists.
  - destruct (lookup_lt_is_Some_2 (rl_entries l) (Z.to_nat (idx - 2))) as [e He]; [lia|].
    rewrite He. pose proof (get_entry_spec _ _ _ _ Hs He) as Hg. rewrite Z2Nat.id in Hg by lia.
    rewrite Hg. by eexists.
Qed.

Lemma simulates_step d l o :
  represents d l -> allowed l o ->
  exists d', disk_step d o = Some (d', (spec_step l o).2) /\ represents d' (spec_step l o).1.
Proof.
  intros Hr Ha. destruct o; simpl.
  - destruct (simulates_append _ _ _ Hr Ha) as (d' & -> & Hr'). by exists d'.
  - destruct (simulates_set_hard d l commit term0 Hr) as (d' & -> & Hr'); [apply Ha..|]. by exists d'.
  - destruct (simulates_entries _ _ _ _ _ Hr Ha) as (r & -> & Hans). simpl in Hans.
    exists d. by rewrite Hans.
  - destruct (simulates_term _ _ _ Hr Ha) as (r & -> & Hans). simpl in Hans. exists d. by rewrite Hans.
  - rewrite (first_index_spec _ _ (rep_shape _ _ Hr)), (rep_index _ _ Hr). by exists d.
  - rewrite (last_index_spec _ _ (rep_shape _ _ Hr)), (rep_index _ _ Hr). by exists d.
  - unfold initial_state. pose proof (rep_fields _ _ Hr) as [Hft Hfc].
    rewrite (hard_state_spec _ (rl_commit l) (rl_term l) 0 Hfc Hft ltac:(unfold in_u64; lia)
      (rep_hard _ _ Hr) d eq_refl). by exists d.
Qed.

Lemma initial_represents (cs : ConfState) :
  exists d, new_with_conf_state cs = Some d /\ represents d (mkRaftLog [] 1 1).
Proof.
  eexists. split; [reflexivity|]. by split.
Qed.

(** C16: [DiskStorage] implements the abstract log on every sequence of calls within
    the contract: appends at the end and over a conflicting tail, reads of ranges and
    terms with their errors, the first and last index, and the hard state are
    answered from the files as from the list of entries, and no call panics.  The
    vote that [initial_state] returns is always 0: it is never written. *)
Theorem disk_storage_refines (cs : ConfState) (ops : list op) :
  all_allowed (mkRaftLog [] 1 1) ops ->
  (d ← new_with_conf_state cs; disk_run d ops) = Some (spec_run (mkRaftLog [] 1 1) ops).
Proof.
  intros Ha. destruct (initial_represents cs) as (d & -> & Hr). simpl.
  revert d Hr Ha. generalize (mkRaftLog [] 1 1) as l.
  induction ops as [|o ops IH]; intros l d Hr Ha; [done|]. destruct Ha as [Ho Ha].
  destruct (simulates_step _ _ _ Hr Ho) as (d' & Hs & Hr'). cbn [disk_run spec_run].
  rewrite Hs. simpl. by rewrite (IH _ _ Hr' Ha).
Qed.
End disk.
End DiskStorage.

#[global] Transparent to_be_bytes from_be_bytes.

(** ** An example

    An entry is its serialised form: eight bytes of index, eight bytes of term. *)
Module DiskExample.

Definition byte_entry : RaftEntry.
Proof.
  refine {| entry := bytes; ConfState := list Z; conf_state_new := [];
    entry_index := fun e => default 0 (from_be_bytes (take 8 e));
    entry_term := fun e => default 0 (from_be_bytes (drop 8 e));
    write_to_bytes := fun e => e; parse_from_bytes := Some;
    limit_size := fun l m => match m with None => l | Some _ => take 1 l end |}.
  - done.
  - intros l [m|]; [apply prefix_take|done].
  - done.
Defined.

Definition new_entry (index term : Z) : bytes := to_be_bytes index ++ to_be_bytes term.

(** Five entries, of which the last four are overwritten by three. *)
Definition overwrite : list (DiskStorage.op (H := byte_entry)) :=
  [DiskStorage.OpAppend (H := byte_entry) [new_entry 2 2; new_entry 3 3; new_entry 4 3; new_entry 5 3; new_entry 6 3];
   DiskStorage.OpAppend (H := byte_entry) [new_entry 3 3; new_entry 4 4; new_entry 5 5];
   DiskStorage.OpTerm 3; DiskStorage.OpTerm 4; DiskStorage.OpTerm 5; DiskStorage.OpTerm 6;
   DiskStorage.OpLastIndex; DiskStorage.OpEntries 4 6 None; DiskStorage.OpSetHard 5 4;
   DiskStorage.OpInitialState].

End DiskExample.

Lemma disk_storage_refines_witness :
  (d ← @DiskStorage.new_with_conf_state DiskExample.byte_entry [1; 2; 3];
   DiskStorage.disk_run d DiskExample.overwrite) =
    Some [DiskStorage.ADone; DiskStorage.ADone;
          DiskStorage.ATerm (inl 3); DiskStorage.ATerm (inl 4); DiskStorage.ATerm (inl 5);
          DiskStorage.ATerm (inr Unavailable); DiskStorage.AIndex 5;
          DiskStorage.AEntries (inl [DiskExample.new_entry 4 4; DiskExample.new_entry 5 5]);
          DiskStorage.ADone; DiskStorage.AState (DiskStorage.mkHardState 4 5 0)].
Proof.
  refine (eq_trans (@DiskStorage.disk_storage_refines DiskExample.byte_entry [1; 2; 3]
    DiskExample.overwrite _) _); [|vm_compute; reflexivity].
  assert (forall first (l : list (entry (RaftEntry := DiskExample.byte_entry))),
    Forall (fun x : nat * entry => entry_index x.2 = first + Z.of_nat x.1) (imap pair l) ->
    DiskStorage.consecutive first l) as Hc.
  { intros first l Hl i e Hi. rewrite Forall_lookup in Hl. apply (Hl i (i, e)).
    by rewrite list_lookup_imap, Hi. }
  split; [right; exists 2; split; [vm_compute; split; discriminate|]; split;
    [apply Hc; repeat constructor|vm_compute; split; discriminate]|].
  split; [right; exists 3; split; [vm_compute; split; discriminate|]; split;
    [apply Hc; repeat constructor|vm_compute; split; discriminate]|].
  repeat (split; [vm_compute; first [exact I|split; congruence|repeat split; discriminate]|]).
  exact I.
Defined.
