(* ===== verification/RaftCore.v ===== *)
(** The Raft crate and the storage trait ([storage.rs], [RaftStorage]).

    [RawNode] is the node of the external crate tikv-raft, a parameter: its operations
    as the replica uses them, over an abstract state.  The replica clones the storage
    handle of the node and writes through it; both share one store, which is part of
    the state of the node here ([mut_store], [put_store]).

    [RaftStorage] is the trait the replica's storage implements, [RaftStorageSpec] what
    an implementation promises: it refines the abstract log of [RaftDisk].
    [DiskStorage] is an instance of both. *)

From Stdlib Require Import Strings.Byte.
From S2P Require Import Prelude RaftDisk Communicator.

Inductive ConfChangeType := BeginMembershipChange | FinalizeMembershipChange | OtherChange.

(** What the replica reads of entries and of the changes of the membership in them;
    [new_entry data term index] is a normal entry. *)
Class RaftContents `{RaftEntry} := {
  ConfChange : Type;
  entry_data : entry -> bytes;
  is_conf_change : entry -> bool;
  merge_from_bytes : bytes -> option ConfChange;
  get_change_type : ConfChange -> ConfChangeType;
  conf_state_from : list Z * list Z -> ConfState;
  new_entry : bytes -> Z -> Z -> entry }.

(** The configuration of a node; the rest has the defaults of the crate. *)
Record Config := mkConfig {
  cfg_id : Z;
  cfg_election_tick : Z;
  cfg_heartbeat_tick : Z;
  cfg_max_inflight_msgs : Z;
  cfg_max_size_per_msg : Z;
  cfg_batch_append : bool;
  cfg_pre_vote : bool;
  cfg_check_quorum : bool }.

(** The [Ready] of the crate; [committed_entries] is taken by the replica. *)
Record Ready `{RaftMessage} `{RaftEntry} := mkReady {
  ready_messages : list raft_message;
  ready_entries : list entry;
  committed_entries : option (list entry) }.

(** [None] is an [Err].  [raw_propose] returns no state then, because the replica
    panics; the result of [step] and [campaign] is ignored. *)
Class RawNode `{RaftMessage} `{RaftContents} (N St : Type) := {
  validate : Config -> bool;
  raw_node_new : Config -> St -> option N;
  raft_id : N -> Z;
  leader_id : N -> Z;
  raft_term : N -> Z;
  is_leader : N -> bool;
  raw_tick : N -> N;
  raw_step : N -> raft_message -> N;
  raw_campaign : N -> N;
  raw_propose : N -> bytes -> option N;
  voters : N -> list Z;
  conf_contains : N -> Z -> bool;
  conf_state : N -> ConfState;
  is_in_membership_change : N -> bool;
  propose_membership_change : N -> list Z -> option N;
  begin_membership_change : N -> ConfChange -> option N;
  finalize_membership_change : N -> ConfChange -> option N;
  has_ready : N -> bool;
  raw_ready : N -> N * Ready;
  raw_advance : N -> Ready -> N;
  mut_store : N -> St;
  put_store : N -> St -> N }.

(** ** The storage trait

    The directory is optional; [None] of a result is an [Err] or a panic. *)

Class RaftStorage `{RaftEntry} (St : Type) := {
  append_log : St -> list entry -> option St;
  set_conf_state : St -> ConfState -> option (ConfState * Z) -> St;
  set_hard_state : St -> Z -> Z -> option St;
  new_with_entries_and_conf_state : option bytes -> list entry -> ConfState -> option St;
  new_with_conf_state : option bytes -> ConfState -> option St }.

Class RaftStorageSpec `{RaftEntry} (St : Type) `{!RaftStorage St} := {
  stores : St -> DiskStorage.raft_log -> Prop;
  stores_append d l batch :
    stores d l -> DiskStorage.allowed l (DiskStorage.OpAppend batch) ->
    exists d', append_log d batch = Some d' /\
      stores d' (DiskStorage.spec_step l (DiskStorage.OpAppend batch)).1;
  stores_hard d l commit term :
    stores d l -> DiskStorage.allowed l (DiskStorage.OpSetHard commit term) ->
    exists d', set_hard_state d commit term = Some d' /\
      stores d' (DiskStorage.spec_step l (DiskStorage.OpSetHard commit term)).1;
  stores_conf d l cs pending : stores d l -> stores (set_conf_state d cs pending) l }.

(** [DiskStorage]: a directory is needed, and preloading is not implemented. *)
#[export] Instance disk_raft_storage `{RaftEntry} : RaftStorage DiskStorage.t := {
  append_log := DiskStorage.append_log;
  set_conf_state := DiskStorage.set_conf_state;
  set_hard_state := DiskStorage.set_hard_state;
  new_with_entries_and_conf_state _ _ _ := None;
  new_with_conf_state dir cs := _ ← dir; DiskStorage.new_with_conf_state cs }.

#[export] Program Instance disk_storage_spec `{RaftEntry} : RaftStorageSpec DiskStorage.t := {
  stores := DiskStorage.represents }.
Next Obligation. intros. by apply DiskStorage.simulates_append. Qed.
Next Obligation. intros ? d l c t Hr [Hc Ht]. by apply DiskStorage.simulates_set_hard. Qed.
Next Obligation.
  intros ? d l cs pending [Hs Hi Ht Hh Hf]. split; [destruct Hs; by split|done..].
Qed.

Lemma disk_initial `{RaftEntry} dir cs :
  exists d, new_with_conf_state (Some dir) cs = Some d /\ stores d (DiskStorage.mkRaftLog [] 1 1).
Proof. apply DiskStorage.initial_represents. Qed.
