(* ===== verification/RaftReplica.v ===== *)
(** The replica of Raft ([raft.rs], [RaftReplica]).

    The component drives the node of the Raft crate: it proposes, ticks and steps it,
    and a periodic timer takes what is ready: messages, entries to persist and
    committed entries, among them changes of the membership.  Definitions keep the
    names of the methods; [None] is a panic. *)

From Stdlib Require Import Strings.Byte.
From S2P Require Import Prelude MpMessages MsgWire RaftDisk Communicator RaftCore.

Import MsgWire.

(** ** Messages between the replica and its supervisor *)

(** [RcKillComponents] carries the ask that is answered. *)
Inductive RaftCompMsg :=
| RcLeader (notify_client : bool) (pid term : Z)
| RcRemoved
| RcForwardReconfig (leader_pid : Z) (rp : ReconfigurationProposal)
| RcKillComponents.

Inductive RaftReplicaMsg :=
| RrPropose (p : Proposal)
| RrProposeReconfiguration (rp : ReconfigurationProposal)
| RrStop.

Inductive ReconfigurationState := RecNone | RecPending | RecFinished | RecRemoved.
Inductive ElectionState := InElection | InRunning.

#[global] Instance ReconfigurationState_eq_dec : EqDecision ReconfigurationState.
Proof. solve_decision. Defined.
#[global] Instance ElectionState_eq_dec : EqDecision ElectionState.
Proof. solve_decision. Defined.

(** [RePropose] and [ReMembership] are calls of the Raft node that succeeded,
    [ReReply] the reply to the pending ask of the supervisor.  The two timers are
    started and cancelled together. *)
Inductive RaftEffect `{RaftMessage} :=
| ReSupervisor (m : RaftCompMsg)
| ReCommunicator (m : CommunicatorMsg)
| RePropose (data : bytes)
| ReMembership (new_voters : list Z)
| ReStartTimers (outgoing_period tick_period : Z)
| ReCancelTimers
| ReCampaign (delay : Z)
| ReClearStore
| ReReply.

(** [rng.gen_range(low, high)] panics on an empty range. *)
Definition gen_range (low high rnd : Z) : option Z :=
  if low <? high then Some (low + rnd mod (high - low)) else None.

Module RaftReplica.
Section replica.
Context {N St : Type} `{RawNode N St} `{!RaftStorage St}.

(** Constants of the configuration file. *)
Context (outgoing_period election_tick initial_election_factor : Z).

Record t := mk {
  state : ElectionState;
  raw_raft : N;
  timers : bool;
  reconfig_state : ReconfigurationState;
  current_leader : Z;
  num_peers : nat;
  stopped : bool;
  stopped_peers : gset Z;
  hb_proposals : list Proposal;
  hb_reconfig : option ReconfigurationProposal;
  max_inflight : Z;
  stop_ask : bool;
  election_timeout_ms : Z }.

Definition set_state (r : t) (x : ElectionState) : t :=
  mk x (raw_raft r) (timers r) (reconfig_state r) (current_leader r) (num_peers r)
     (stopped r) (stopped_peers r) (hb_proposals r) (hb_reconfig r) (max_inflight r)
     (stop_ask r) (election_timeout_ms r).

Definition set_raw_raft (r : t) (x : N) : t :=
  mk (state r) x (timers r) (reconfig_state r) (current_leader r) (num_peers r)
     (stopped r) (stopped_peers r) (hb_proposals r) (hb_reconfig r) (max_inflight r)
     (stop_ask r) (election_timeout_ms r).

Definition set_timers (r : t) (x : bool) : t :=
  mk (state r) (raw_raft r) x (reconfig_state r) (current_leader r) (num_peers r)
     (stopped r) (stopped_peers r) (hb_proposals r) (hb_reconfig r) (max_inflight r)
     (stop_ask r) (election_timeout_ms r).

Definition set_reconfig_state (r : t) (x : ReconfigurationState) : t :=
  mk (state r) (raw_raft r) (timers r) x (current_leader r) (num_peers r)
     (stopped r) (stopped_peers r) (hb_proposals r) (hb_reconfig r) (max_inflight r)
     (stop_ask r) (election_timeout_ms r).

Definition set_current_leader (r : t) (x : Z) : t :=
  mk (state r) (raw_raft r) (timers r) (reconfig_state r) x (num_peers r)
     (stopped r) (stopped_peers r) (hb_proposals r) (hb_reconfig r) (max_inflight r)
     (stop_ask r) (election_timeout_ms r).

Definition set_stopped (r : t) (x : bool) : t :=
  mk (state r) (raw_raft r) (timers r) (reconfig_state r) (current_leader r)
     (num_peers r) x (stopped_peers r) (hb_proposals r) (hb_reconfig r)
     (max_inflight r) (stop_ask r) (election_timeout_ms r).

Definition set_stopped_peers (r : t) (x : gset Z) : t :=
  mk (state r) (raw_raft r) (timers r) (reconfig_state r) (current_leader r)
     (num_peers r) (stopped r) x (hb_proposals r) (hb_reconfig r) (max_inflight r)
     (stop_ask r) (election_timeout_ms r).

Definition set_hb_proposals (r : t) (x : list Proposal) : t :=
  mk (state r) (raw_raft r) (timers r) (reconfig_state r) (current_leader r)
     (num_peers r) (stopped r) (stopped_peers r) x (hb_reconfig r) (max_inflight r)
     (stop_ask r) (election_timeout_ms r).

Definition set_hb_reconfig (r : t) (x : option ReconfigurationProposal) : t :=
  mk (state r) (raw_raft r) (timers r) (reconfig_state r) (current_leader r)
     (num_peers r) (stopped r) (stopped_peers r) (hb_proposals r) x (max_inflight r)
     (stop_ask r) (election_timeout_ms r).

Definition set_stop_ask (r : t) (x : bool) : t :=
  mk (state r) (raw_raft r) (timers r) (reconfig_state r) (current_leader r)
     (num_peers r) (stopped r) (stopped_peers r) (hb_proposals r) (hb_reconfig r)
     (max_inflight r) x (election_timeout_ms r).

Definition with_ (raw_raft : N) (num_peers : nat) (max_inflight election_timeout_ms : Z) : t :=
  mk InElection raw_raft false RecNone 0 num_peers false ∅ [] None max_inflight false
     election_timeout_ms.

Definition id (r : t) : Z := raft_id (raw_raft r).
Definition leader (r : t) : Z := leader_id (raw_raft r).

(** ** Timers *)

Definition start_timers (r : t) : option (t * list RaftEffect) :=
  tick_period ← u64_div (election_timeout_ms r) election_tick;
  Some (set_timers r true, [ReStartTimers outgoing_period tick_period]).

Definition stop_timers (r : t) : t * list RaftEffect :=
  if timers r then (set_timers r false, [ReCancelTimers]) else (r, []).

Definition on_start (r : t) : option (t * list RaftEffect) := start_timers r.

Definition on_kill (r : t) : t * list RaftEffect :=
  let '(r, effs) := stop_timers r in (r, effs ++ [ReClearStore]).

Definition try_campaign_leader (r : t) : t :=
  if (leader r =? 0) && bool_decide (state r = InElection)
  then set_raw_raft r (raw_campaign (raw_raft r)) else r.

(** ** Proposals *)

Definition propose (r : t) (proposal : Proposal) : option (t * list RaftEffect) :=
  if leader r =? 0 then Some (set_hb_proposals r (hb_proposals r ++ [proposal]), [])
  else
    n ← raw_propose (raw_raft r) (proposal_data proposal);
    Some (set_raw_raft r n, [RePropose (proposal_data proposal)]).

(** [rnds] are the indices drawn for the nodes to remove. *)
Definition propose_reconfiguration (r : t) (rp : ReconfigurationProposal) (rnds : list nat)
    : option (t * list RaftEffect) :=
  match reconfig_state r with
  | RecNone =>
      if leader r =? 0 then Some (set_hb_reconfig r (Some rp), [])
      else if leader r =? id r then
        new_voters ← get_new_configuration rp (leader r) (voters (raw_raft r)) rnds;
        n ← propose_membership_change (raw_raft r) new_voters;
        Some (set_reconfig_state (set_raw_raft r n) RecPending, [ReMembership new_voters])
      else Some (r, [ReSupervisor (RcForwardReconfig (leader r) rp)])
  | _ => Some (r, [])
  end.

Fixpoint propose_all (r : t) (proposals : list Proposal) : option (t * list RaftEffect) :=
  match proposals with
  | [] => Some (r, [])
  | p :: proposals =>
      '(r, e1) ← propose r p;
      '(r, e2) ← propose_all r proposals;
      Some (r, e1 ++ e2)
  end.

(** The leader is read once, before anything is proposed. *)
Definition tick (r : t) (rnds : list nat) : option (t * list RaftEffect) :=
  let r := set_raw_raft r (raw_tick (raw_raft r)) in
  let l := leader r in
  if l =? 0 then Some (r, [])
  else
    '(r, e1) ←
      match hb_reconfig r with
      | Some rp => propose_reconfiguration (set_hb_reconfig r None) rp rnds
      | None => Some (r, [])
      end;
    '(r, e2) ←
      match hb_proposals r with
      | [] => Some (r, [])
      | proposals => propose_all (set_hb_proposals r []) proposals
      end;
    if l =? current_leader r then Some (r, e1 ++ e2)
    else
      let r := set_current_leader r l in
      let notify_client := bool_decide (state r = InElection) in
      let r := if notify_client then set_state r InRunning else r in
      Some (r, e1 ++ e2 ++ [ReSupervisor (RcLeader notify_client l (raft_term (raw_raft r)))]).

Definition step_raft (r : t) (msg : raft_message) : t :=
  set_raw_raft r (raw_step (raw_raft r) msg).

(** ** What is ready *)

Definition write_store (r : t) (store : St) : t := set_raw_raft r (put_store (raw_raft r) store).

Definition begin_membership (r : t) (cc : ConfChange) : option (t * list RaftEffect) :=
  n ← begin_membership_change (raw_raft r) cc;
  if is_in_membership_change n
  then Some (set_reconfig_state (set_raw_raft r n) RecPending, []) else None.

(** The election after the leader was removed starts after a random delay. *)
Definition schedule_campaign (r : t) (rnd : Z) : option (list RaftEffect) :=
  initial_timeout ← u64_div (election_timeout_ms r) initial_election_factor;
  delay ← gen_range initial_timeout (2 *u64 initial_timeout) rnd;
  Some [ReCampaign delay].

Definition finalize_membership (r : t) (cc : ConfChange) (rnd : Z)
    : option (t * list RaftEffect) :=
  n ← finalize_membership_change (raw_raft r) cc;
  let r := set_raw_raft r n in
  let current_voters := voters n in
  '(r, effs) ←
    (if bool_decide (id r ∈ current_voters) then
       let r := set_reconfig_state r RecFinished in
       if bool_decide (leader r ∈ current_voters) then Some (r, [])
       else
         effs ← schedule_campaign r rnd;
         Some (set_state r InElection, effs)
     else if conf_contains n (id r) then None
     else
       let '(r, cancelled) := stop_timers (set_reconfig_state r RecRemoved) in
       Some (r, cancelled ++ [ReSupervisor RcRemoved]));
  let leader := leader r in
  let r := write_store r (set_conf_state (mut_store (raw_raft r)) (conf_state n) None) in
  let rr := mkReconfigurationResp leader (raft_term (raw_raft r)) current_voters in
  Some (r, effs ++ [ReCommunicator (ReconfigurationResponse rr)]).

Definition apply_entry (r : t) (e : entry) (rnd : Z) : option (t * list RaftEffect) :=
  if bool_decide (entry_data e = []) then Some (r, [])
  else if is_conf_change e then
    match reconfig_state r with
    | RecRemoved | RecFinished => Some (r, [])
    | _ =>
        cc ← merge_from_bytes (entry_data e);
        match get_change_type cc with
        | BeginMembershipChange => begin_membership r cc
        | FinalizeMembershipChange => finalize_membership r cc rnd
        | OtherChange => None
        end
    end
  else if is_leader (raw_raft r) then
    let pr := mkProposalResp (entry_data e) (id r) (raft_term (raw_raft r)) in
    Some (r, [ReCommunicator (ProposalResponse pr)])
  else Some (r, []).

Fixpoint apply_entries (r : t) (es : list entry) (rnd : Z) : option (t * list RaftEffect) :=
  match es with
  | [] => Some (r, [])
  | e :: es =>
      '(r, e1) ← apply_entry r e rnd;
      '(r, e2) ← apply_entries r es rnd;
      Some (r, e1 ++ e2)
  end.

(** The committed entries and then the hard state of the last one. *)
Definition apply_committed (r : t) (es : list entry) (rnd : Z) : option (t * list RaftEffect) :=
  '(r, effs) ← apply_entries r es rnd;
  match last es with
  | Some e =>
      store ← set_hard_state (mut_store (raw_raft r)) (entry_index e) (entry_term e);
      Some (write_store r store, effs)
  | None => Some (r, effs)
  end.

Definition on_ready (r : t) (rnd : Z) : option (t * list RaftEffect) :=
  if has_ready (raw_raft r) then
    let '(n, ready) := raw_ready (raw_raft r) in
    let r := set_raw_raft r n in
    let sent := map (fun m => ReCommunicator (OutRawRaftMsg m)) (ready_messages ready) in
    store ← append_log (mut_store (raw_raft r)) (ready_entries ready);
    let r := write_store r store in
    '(r, effs) ←
      match committed_entries ready with
      | Some es => apply_committed r es rnd
      | None => Some (r, [])
      end;
    let ready := mkReady _ _ [] (ready_entries ready) None in
    Some (set_raw_raft r (raw_advance (raw_raft r) ready), sent ++ effs)
  else Some (r, []).

(** ** Messages *)

Definition receive_local (r : t) (msg : RaftReplicaMsg) (rnds : list nat)
    : option (t * list RaftEffect) :=
  match msg with
  | RrPropose p => propose r p
  | RrProposeReconfiguration rp => propose_reconfiguration r rp rnds
  | RrStop =>
      let sent := [ReCommunicator (SendStop (id r) true)] in
      let '(r, cancelled) := stop_timers r in
      let r := set_stopped r true in
      if bool_decide (size (stopped_peers r) = num_peers r)
      then Some (r, sent ++ cancelled ++ [ReReply])
      else Some (set_stop_ask r true, sent ++ cancelled)
  end.

(** Indications of the [CommunicationPort]; [None] is the failed [assert!] on a
    duplicate stop or the missing ask. *)
Definition handle (r : t) (msg : AtomicBroadcastCompMsg) : option (t * list RaftEffect) :=
  match msg with
  | InRawRaftMsg rm =>
      if stopped r || bool_decide (reconfig_state r = RecRemoved) then Some (r, [])
      else Some (step_raft r rm, [])
  | InStopMsg from_pid =>
      if bool_decide (from_pid ∈ stopped_peers r) then None
      else
        let r := set_stopped_peers r ({[from_pid]} ∪ stopped_peers r) in
        if bool_decide (size (stopped_peers r) = num_peers r) && stopped r then
          if stop_ask r then Some (set_stop_ask r false, [ReReply]) else None
        else Some (r, [])
  | InRawPaxosMsg _ => Some (r, [])
  end.

(** What can happen to a started replica. *)
Inductive input :=
| Tick (rnds : list nat)
| OnReady (rnd : Z)
| Campaign
| Local (m : RaftReplicaMsg) (rnds : list nat)
| Communication (m : AtomicBroadcastCompMsg).

Definition step (r : t) (i : input) : option (t * list RaftEffect) :=
  match i with
  | Tick rnds => tick r rnds
  | OnReady rnd => on_ready r rnd
  | Campaign => Some (try_campaign_leader r, [])
  | Local m rnds => receive_local r m rnds
  | Communication m => handle r m
  end.

Fixpoint steps (r : t) (inputs : list input) : option (t * list RaftEffect) :=
  match inputs with
  | [] => Some (r, [])
  | i :: inputs =>
      '(r, e1) ← step r i;
      '(r, e2) ← steps r inputs;
      Some (r, e1 ++ e2)
  end.
End replica.
End RaftReplica.
