(* ===== verification/RaftComp.v ===== *)
(** The node of Raft ([raft.rs], [RaftComp]).

    The supervisor of a replica and its communicator: it creates them at the start of
    an iteration, routes the messages of the client to its replica, to the leader it
    knows or back, and stops and kills them.  As in [PaxosComp] the states of the
    children are part of its state, what it asks of them and of the network are its
    effects, and the registration futures of the middleware succeed. *)

From Stdlib Require Import Strings.Byte.
From S2P Require Import Prelude MpMessages Partition Wire Election PaxosWire MsgWire.
From S2P Require Import PaxosStorage Communicator PaxosReplica PaxosComp.
From S2P Require Import RaftDisk RaftCore RaftReplica.

Import MsgWire.
Import PaxosComp.

(** [RnForward] keeps the original sender; [RnDone] answers the ask of a kill. *)
Inductive RaftNodeEffect `{RaftMessage} :=
| RnTell (dst : Path) (m : AtomicBroadcastMsg)
| RnForward (dst : Path) (m : NetMessage)
| RnInitAck (dst : Path) (iteration_id : Z)
| RnReplica (m : RaftReplicaMsg)
| RnStartReplica
| RnStartCommunicator
| RnCommunicator (e : CommEffect)
| RnKillReplica
| RnKillCommunicator
| RnDone.

(** The experiment parameters the node reads. *)
Record RaftParams := mkRaftParams {
  rp_election_timeout_ms : Z;
  rp_preloaded_log_size : Z;
  rp_max_inflight : Z }.

Module RaftComp.
Section comp.
Context `{BufOps} {N St : Type} `{RawNode N St} `{!RaftStorage St}.

(** Constants of the configuration file. *)
Context (election_tick hb_tick max_batch_size cfg_preloaded_log_size cfg_max_inflight : Z).

(** The deserialisation of a path is the middleware's. *)
Context (deserialise_path : bytes -> option Path).

Record t := mk {
  pid : Z;
  initial_config : list Z;
  raft_replica : option (RaftReplica.t (N := N));
  communicator : option Comm;
  peers : gmap Z Path;
  removed : bool;
  iteration_id : Z;
  stopped : bool;
  partitioning_actor : option Path;
  cached_client : option Path;
  current_leader : Z;
  experiment_params : RaftParams;
  prevote_checkquorum : bool }.

Definition set_raft_replica (c : t) (x : option (RaftReplica.t (N := N))) : t :=
  mk (pid c) (initial_config c) x (communicator c) (peers c) (removed c)
     (iteration_id c) (stopped c) (partitioning_actor c) (cached_client c)
     (current_leader c) (experiment_params c) (prevote_checkquorum c).

Definition set_communicator (c : t) (x : option Comm) : t :=
  mk (pid c) (initial_config c) (raft_replica c) x (peers c) (removed c)
     (iteration_id c) (stopped c) (partitioning_actor c) (cached_client c)
     (current_leader c) (experiment_params c) (prevote_checkquorum c).

Definition set_removed (c : t) (x : bool) : t :=
  mk (pid c) (initial_config c) (raft_replica c) (communicator c) (peers c) x
     (iteration_id c) (stopped c) (partitioning_actor c) (cached_client c)
     (current_leader c) (experiment_params c) (prevote_checkquorum c).

Definition set_stopped (c : t) (x : bool) : t :=
  mk (pid c) (initial_config c) (raft_replica c) (communicator c) (peers c)
     (removed c) (iteration_id c) x (partitioning_actor c) (cached_client c)
     (current_leader c) (experiment_params c) (prevote_checkquorum c).

Definition set_partitioning_actor (c : t) (x : option Path) : t :=
  mk (pid c) (initial_config c) (raft_replica c) (communicator c) (peers c)
     (removed c) (iteration_id c) (stopped c) x (cached_client c) (current_leader c)
     (experiment_params c) (prevote_checkquorum c).

Definition set_current_leader (c : t) (x : Z) : t :=
  mk (pid c) (initial_config c) (raft_replica c) (communicator c) (peers c)
     (removed c) (iteration_id c) (stopped c) (partitioning_actor c) (cached_client c)
     x (experiment_params c) (prevote_checkquorum c).

Definition with_ (initial_config : list Z) (experiment_params : RaftParams)
    (prevote_checkquorum : bool) : t :=
  mk 0 initial_config None None ∅ false 0 false None None 0 experiment_params prevote_checkquorum.

(** [None] is the failed validation. *)
Definition create_rawraft_config (c : t) : option Config :=
  let cfg := mkConfig (pid c) election_tick hb_tick (rp_max_inflight (experiment_params c))
               max_batch_size true (prevote_checkquorum c) (prevote_checkquorum c) in
  if validate cfg then Some cfg else None.

Definition reset_state (c : t) : t :=
  mk 0 (initial_config c) None None ∅ false 0 false None None 0 (experiment_params c)
     (prevote_checkquorum c).

Definition communicator_path (system pid iteration_id : Z) : Path :=
  Named system (ARaftCommunicator pid iteration_id).

(** The loop over the peers; [None] is the [unimplemented!] on a path without a name. *)
Definition communicator_peers (c : t) : option (gmap Z Path) :=
  l ← mapM (fun kv : Z * Path =>
        match kv.2 with
        | Named system _ => Some (kv.1, communicator_path system kv.1 (iteration_id c))
        | Unique _ _ => None
        end) (map_to_list (peers c));
  Some (list_to_map l).

(** [1..=size]. *)
Definition preloaded_log (size : Z) : list entry :=
  map (fun id => new_entry (create_raw_proposal id) 1 (id +u64 1)) (seqZ 1 size).

(** The storage is created without a directory. *)
Definition create_store (c : t) : option St :=
  let conf_state := conf_state_from (initial_config c, []) in
  if (0 <? rp_preloaded_log_size (experiment_params c)) &&
     bool_decide (pid c ∈ initial_config c) then
    new_with_entries_and_conf_state None (preloaded_log cfg_preloaded_log_size) conf_state
  else new_with_conf_state None conf_state.

Definition create_components (c : t) : option (t * list RaftNodeEffect) :=
  peer_paths ← communicator_peers c;
  store ← create_store c;
  cfg ← create_rawraft_config c;
  raw_raft ← raw_node_new cfg store;
  let timeout := rp_election_timeout_ms (experiment_params c) in
  let replica := RaftReplica.with_ raw_raft (size (peers c)) cfg_max_inflight timeout in
  client ← cached_client c;
  lagging_delay ← u64_div timeout LAGGING_DELAY_FACTOR;
  let comm := comm_set_lagging_delay (comm_with peer_paths client) lagging_delay in
  let c := set_communicator (set_raft_replica c (Some replica)) (Some comm) in
  actor ← partitioning_actor c;
  Some (set_partitioning_actor c None, [RnInitAck actor (iteration_id c)]).

Definition start_components (c : t) : option (list RaftNodeEffect) :=
  _ ← raft_replica c;
  _ ← communicator c;
  Some [RnStartReplica; RnStartCommunicator].

Definition stop_components (c : t) : option (t * list RaftNodeEffect) :=
  _ ← raft_replica c;
  Some (set_stopped c true, [RnReplica RrStop]).

Definition kill_components (c : t) : t * list RaftNodeEffect :=
  let e1 := match raft_replica c with Some _ => [RnKillReplica] | None => [] end in
  let e2 := match communicator c with Some _ => [RnKillCommunicator] | None => [] end in
  (set_communicator (set_raft_replica c None) None, e1 ++ e2 ++ [RnDone]).

Definition receive_local (c : t) (msg : RaftCompMsg) : option (t * list RaftNodeEffect) :=
  match msg with
  | RcLeader notify_client leader term =>
      effs ←
        (if notify_client || (leader =? pid c) then
           client ← cached_client c; Some [RnTell client (ABLeader leader term)]
         else Some []);
      Some (set_current_leader c leader, effs)
  | RcRemoved => Some (set_removed c true, [])
  | RcForwardReconfig leader_pid rp =>
      leader ← peers c !! leader_pid;
      Some (set_current_leader c leader_pid, [RnTell leader (ABReconfigurationProposal rp)])
  | RcKillComponents => Some (kill_components c)
  end.

Definition receive_atomic_broadcast (c : t) (m : NetMessage) : option (t * list RaftNodeEffect) :=
  if stopped c then Some (c, [])
  else if removed c then
    client ← cached_client c;
    Some (c, [RnForward client m])
  else if (current_leader c =? pid c) || (current_leader c =? 0) then
    match nm_data m with
    | ABProposal p => _ ← raft_replica c; Some (c, [RnReplica (RrPropose p)])
    | ABReconfigurationProposal rp =>
        _ ← raft_replica c; Some (c, [RnReplica (RrProposeReconfiguration rp)])
    | _ => Some (c, [])
    end
  else
    leader ← peers c !! current_leader c;
    Some (c, [RnForward leader m]).

Definition receive_partitioning (c : t) (p : PartitioningExpMsg)
    : option (t * list RaftNodeEffect) :=
  comm ← communicator c;
  match p with
  | DisconnectPeers pids delay lagging_peer =>
      '(comm, effs) ← comm_disconnect_peers comm pids delay lagging_peer;
      Some (set_communicator c (Some comm), map RnCommunicator effs)
  | RecoverPeers => Some (set_communicator c (Some (comm_recover_peers comm)), [])
  end.

(** The nodes are numbered from 1 on; the own one is left out. *)
Definition peers_of (nodes : list Path) (my_pid : Z) : gmap Z Path :=
  filter (fun kv => kv.1 <> my_pid)
    (list_to_map (imap (fun idx ap => (Z.of_nat idx + 1, ap)) nodes) : gmap Z Path).

Definition receive_init (c : t) (sender : Path) (init : ActorInit)
    : option (t * list RaftNodeEffect) :=
  let c := reset_state c in
  ser_client ← init_data init;
  client ← deserialise_path ser_client;
  let c := mk (init_pid init) (initial_config c) (raft_replica c) (communicator c)
             (peers_of (init_nodes init) (init_pid init)) (removed c) (init_id init) false
             (Some sender) (Some client) (current_leader c) (experiment_params c)
             (prevote_checkquorum c) in
  create_components c.

(** [None] is a panic, among them the [unimplemented!] on other messages. *)
Definition receive_network (c : t) (sender : Path) (m : Incoming)
    : option (t * list RaftNodeEffect) :=
  match m with
  | InAtomicBroadcast am => receive_atomic_broadcast c (mkNetMessage sender am)
  | InPartitioningExp p => receive_partitioning c p
  | InPartitioningActor (ActorInitMsg init) => receive_init c sender init
  | InPartitioningActor ActorRun => effs ← start_components c; Some (c, effs)
  | InPartitioningActor _ => Some (c, [])
  | InStop StopClient => if stopped c then None else stop_components c
  | InStop (StopPeer _) => Some (c, [])
  | InReconfiguration _ => None
  end.
End comp.
End RaftComp.
