(* ===== verification/RaftThm.v ===== *)
(** Theorems of the Raft replica and of its node ([raft.rs]).

    The store: what the replica persists is an abstract log, for every storage that
    meets its contract.  The membership: a replica takes part in one reconfiguration.
    The node: no proposal of a client is lost or duplicated between the supervisor,
    its replica and their mailboxes. *)

From Stdlib Require Import Strings.Byte.
From S2P Require Import Prelude MpMessages Partition Wire Election PaxosWire MsgWire.
From S2P Require Import PaxosStorage Communicator PaxosReplica PaxosComp.
From S2P Require Import RaftDisk RaftCore RaftReplica RaftComp.

Import MsgWire RaftReplica.

(** ** The crate reads its storage and never writes it *)

Class RawNodeLaws {N St : Type} `{RawNode N St} := {
  put_get n s : mut_store (put_store n s) = s;
  tick_store n : mut_store (raw_tick n) = mut_store n;
  step_store n m : mut_store (raw_step n m) = mut_store n;
  campaign_store n : mut_store (raw_campaign n) = mut_store n;
  propose_store n d n' : raw_propose n d = Some n' -> mut_store n' = mut_store n;
  propose_change_store n v n' :
    propose_membership_change n v = Some n' -> mut_store n' = mut_store n;
  begin_store n cc n' : begin_membership_change n cc = Some n' -> mut_store n' = mut_store n;
  finalize_store n cc n' :
    finalize_membership_change n cc = Some n' -> mut_store n' = mut_store n;
  ready_store n : mut_store (raw_ready n).1 = mut_store n;
  advance_store n rd : mut_store (raw_advance n rd) = mut_store n }.

(** ** What a step tells *)

Section effects.
Context {N St : Type} `{RawNode N St} `{!RaftStorage St}.
Context (initial_election_factor : Z).

(** Proposals handed to the Raft node, membership changes proposed, answers to the
    client on a reconfiguration, removals reported, and messages to other replicas. *)
Definition passed (effs : list RaftEffect) : list bytes :=
  omap (fun e => match e with RePropose d => Some d | _ => None end) effs.
Definition memberships (effs : list RaftEffect) : list (list Z) :=
  omap (fun e => match e with ReMembership v => Some v | _ => None end) effs.
Definition answers (effs : list RaftEffect) : list ReconfigurationResp :=
  omap (fun e => match e with
                 | ReCommunicator (ReconfigurationResponse rr) => Some rr | _ => None end) effs.
Definition removals (effs : list RaftEffect) : list unit :=
  omap (fun e => match e with ReSupervisor RcRemoved => Some tt | _ => None end) effs.
Definition sent (effs : list RaftEffect) : list raft_message :=
  omap (fun e => match e with ReCommunicator (OutRawRaftMsg m) => Some m | _ => None end) effs.

Lemma finalize_spec r cc rnd r' effs :
  finalize_membership initial_election_factor r cc rnd = Some (r', effs) ->
  exists n, finalize_membership_change (raw_raft r) cc = Some n /\
    raw_raft r' = put_store n (set_conf_state (mut_store n) (conf_state n) None) /\
    hb_proposals r' = hb_proposals r /\ passed effs = [] /\ memberships effs = [] /\
    sent effs = [] /\
    (exists rr, answers effs = [rr] /\ rr_current_configuration rr = voters n) /\
    ((raft_id n ∈ voters n /\ reconfig_state r' = RecFinished /\ removals effs = []) \/
     ((raft_id n ∉ voters n) /\ reconfig_state r' = RecRemoved /\ removals effs = [tt] /\
      timers r' = false)).
Proof.
  unfold finalize_membership. intros Hf. apply bind_Some in Hf as (n & Hn & Hf). cbv zeta in Hf.
  exists n. split; [done|]. case_bool_decide as Hid.
  - case_bool_decide.
    + simpl in Hf. simplify_eq. split_and!; try done; [by eexists|by left].
    + apply bind_Some in Hf as ([r1 e1] & Hs & Hf). apply bind_Some in Hs as (e2 & Hs & [= <- <-]).
      unfold schedule_campaign in Hs. handler_inv Hs. split_and!; try done; [by eexists|by left].
  - destruct (conf_contains n _); [done|]. unfold stop_timers in Hf.
    destruct (timers _) eqn:Ht; simpl in Hf; simplify_eq; simpl.
    all: split_and!; try done; [by eexists|by right].
Qed.
End effects.

Section store.
Context {N St : Type} `{RawNode N St} `{!RaftStorage St} `{!RaftStorageSpec St} `{!RawNodeLaws (N := N) (St := St)}.
Context (outgoing_period election_tick initial_election_factor : Z).

Abbreviation step := (RaftReplica.step initial_election_factor).
Abbreviation steps := (RaftReplica.steps initial_election_factor).

Definition store (r : t) : St := mut_store (raw_raft r).

(** The abstract log after a [Ready] was handled: its entries are appended, and the
    hard state becomes the index and term of the last committed entry. *)
Definition persisted (l : DiskStorage.raft_log) (rd : Ready) : DiskStorage.raft_log :=
  let l := (DiskStorage.spec_step l (DiskStorage.OpAppend (ready_entries rd))).1 in
  match committed_entries rd ≫= last with
  | Some e => (DiskStorage.spec_step l (DiskStorage.OpSetHard (entry_index e) (entry_term e))).1
  | None => l
  end.

(** The contract of the crate on a [Ready]: its entries continue the log or replace
    a tail of it, and the hard state fits into its fields. *)
Definition ready_allowed (l : DiskStorage.raft_log) (rd : Ready) : Prop :=
  DiskStorage.allowed l (DiskStorage.OpAppend (ready_entries rd)) /\
  forall e, committed_entries rd ≫= last = Some e ->
    DiskStorage.allowed l (DiskStorage.OpSetHard (entry_index e) (entry_term e)).

Definition next_log (r : t) (i : input) (l : DiskStorage.raft_log) : DiskStorage.raft_log :=
  match i with
  | OnReady _ => if has_ready (raw_raft r) then persisted l (raw_ready (raw_raft r)).2 else l
  | _ => l
  end.

Definition input_allowed (r : t) (i : input) (l : DiskStorage.raft_log) : Prop :=
  match i with
  | OnReady _ => has_ready (raw_raft r) = true -> ready_allowed l (raw_ready (raw_raft r)).2
  | _ => True
  end.

(** Along a run. *)
Fixpoint final_log (r : t) (inputs : list input) (l : DiskStorage.raft_log)
    : DiskStorage.raft_log :=
  match inputs with
  | [] => l
  | i :: inputs =>
      match step r i with
      | Some (r', _) => final_log r' inputs (next_log r i l)
      | None => l
      end
  end.

Fixpoint inputs_allowed (r : t) (inputs : list input) (l : DiskStorage.raft_log) : Prop :=
  match inputs with
  | [] => True
  | i :: inputs =>
      input_allowed r i l /\
      match step r i with
      | Some (r', _) => inputs_allowed r' inputs (next_log r i l)
      | None => True
      end
  end.

Lemma propose_keeps r p r' e : propose r p = Some (r', e) -> store r' = store r.
Proof.
  unfold propose, store. intros Hs. handler_inv Hs; simpl; [done|].
  by eapply propose_store.
Qed.

Lemma propose_all_keeps r ps r' e : propose_all r ps = Some (r', e) -> store r' = store r.
Proof.
  revert r e. induction ps as [|p ps IH]; intros r e Hs; simpl in Hs; [by simplify_eq|].
  apply bind_Some in Hs as ([r1 e1] & Hp & Hs). apply bind_Some in Hs as ([r2 e2] & Hr & [= <- <-]).
  etransitivity; [by eapply IH|by eapply propose_keeps].
Qed.

Lemma propose_reconfiguration_keeps r rp rnds r' e :
  propose_reconfiguration r rp rnds = Some (r', e) -> store r' = store r.
Proof.
  unfold propose_reconfiguration, store. intros Hs. handler_inv Hs; simpl; try done.
  by eapply propose_change_store.
Qed.

Lemma tick_keeps r rnds r' e : tick r rnds = Some (r', e) -> store r' = store r.
Proof.
  unfold tick. cbv zeta. set (r0 := set_raw_raft r _). intros Hs.
  assert (store r0 = store r) as <- by apply tick_store.
  destruct (leader r0 =? 0); [by simplify_eq|].
  apply bind_Some in Hs as ([r1 e1] & Hb & Hs). apply bind_Some in Hs as ([r2 e2] & Hp & Hs).
  assert (store r1 = store r0) as <-.
  { destruct (hb_reconfig r0); [by eapply (propose_reconfiguration_keeps (set_hb_reconfig r0 None))|].
    by simplify_eq. }
  assert (store r2 = store r1) as <-.
  { destruct (hb_proposals r1); [by simplify_eq|].
    by eapply (propose_all_keeps (set_hb_proposals r1 [])). }
  destruct (leader r0 =? current_leader r2); [by simplify_eq|].
  destruct (bool_decide _); by simplify_eq.
Qed.

Lemma apply_entry_stores r e rnd r' effs l :
  apply_entry initial_election_factor r e rnd = Some (r', effs) -> stores (store r) l ->
  stores (store r') l.
Proof.
  unfold apply_entry, store. intros Hs Hst.
  destruct (bool_decide _); [by simplify_eq|].
  destruct (is_conf_change e); [|by destruct (is_leader _); simplify_eq].
  assert (forall cc, begin_membership r cc = Some (r', effs) \/
            finalize_membership initial_election_factor r cc rnd = Some (r', effs) ->
          stores (mut_store (raw_raft r')) l) as Hcc.
  { intros cc [Hb|Hf].
    - unfold begin_membership in Hb. handler_inv Hb. simpl. by erewrite begin_store.
    - apply finalize_spec in Hf as (n & Hn & -> & _). rewrite put_get.
      apply stores_conf. by erewrite finalize_store. }
  destruct (reconfig_state r); try by simplify_eq.
  all: apply bind_Some in Hs as (cc & _ & Hs); destruct (get_change_type cc);
    [by eapply Hcc; left|by eapply Hcc; right|done].
Qed.

Lemma apply_entries_stores r es rnd r' effs l :
  apply_entries initial_election_factor r es rnd = Some (r', effs) -> stores (store r) l ->
  stores (store r') l.
Proof.
  revert r effs. induction es as [|e es IH]; intros r effs Hs Hst; simpl in Hs; [by simplify_eq|].
  apply bind_Some in Hs as ([r1 e1] & Hp & Hs). apply bind_Some in Hs as ([r2 e2] & Hr & [= <- <-]).
  eapply IH; [done|]. by eapply apply_entry_stores.
Qed.

Lemma apply_committed_stores r es rnd r' effs l :
  apply_committed initial_election_factor r es rnd = Some (r', effs) -> stores (store r) l ->
  (forall e, last es = Some e ->
     DiskStorage.allowed l (DiskStorage.OpSetHard (entry_index e) (entry_term e))) ->
  stores (store r')
    match last es with
    | Some e => (DiskStorage.spec_step l (DiskStorage.OpSetHard (entry_index e) (entry_term e))).1
    | None => l
    end.
Proof.
  unfold apply_committed. intros Hs Hst Ha.
  apply bind_Some in Hs as ([r1 e1] & Hp & Hs). eapply apply_entries_stores in Hp; [|done].
  destruct (last es) as [e|]; [|by simplify_eq].
  apply bind_Some in Hs as (d & Hd & [= <- <-]). unfold store, write_store. simpl.
  rewrite put_get. destruct (stores_hard _ _ _ _ Hp (Ha e eq_refl)) as (d' & Hd' & Hst').
  unfold store in *. rewrite Hd in Hd'. by injection Hd' as <-.
Qed.

Lemma on_ready_stores r rnd r' effs l :
  on_ready initial_election_factor r rnd = Some (r', effs) -> stores (store r) l ->
  input_allowed r (OnReady rnd) l -> stores (store r') (next_log r (OnReady rnd) l).
Proof.
  unfold on_ready, input_allowed, next_log. intros Hs Hst Ha.
  destruct (has_ready (raw_raft r)); [|by simplify_eq].
  pose proof (ready_store (raw_raft r)) as Hr. destruct (Ha eq_refl) as [Happ Hhard].
  destruct (raw_ready (raw_raft r)) as [n rd]. simpl in *. unfold store in *.
  destruct (stores_append _ _ _ Hst Happ) as (d' & Hd' & Hst').
  apply bind_Some in Hs as (d & Hd & Hs). assert (d = d') as -> by congruence.
  apply bind_Some in Hs as ([r1 e1] & Hc & [= <- <-]). simpl. rewrite advance_store.
  unfold persisted.
  set (l1 := (DiskStorage.spec_step l (DiskStorage.OpAppend (ready_entries rd))).1) in *.
  destruct (committed_entries rd) as [es|]; simpl in *.
  - eapply apply_committed_stores in Hc; [exact Hc| |].
    + unfold store. simpl. by rewrite put_get.
    + intros e He. exact (Hhard e He).
  - injection Hc as <- <-. simpl. by rewrite put_get.
Qed.

(** C19: Through any run of a replica its storage holds what the crate made ready: the
    entries of every [Ready] appended in order, over a conflicting tail where they
    overlap, and as hard state the index and term of the last entry committed; nothing
    else - ticks, messages, proposals, changes of the membership - changes it.  This
    holds for every storage that meets the contract [RaftStorageSpec], as long as what
    is ready continues the log. *)
Theorem raft_log_refines r inputs r' effs l :
  steps r inputs = Some (r', effs) -> stores (store r) l -> inputs_allowed r inputs l ->
  stores (store r') (final_log r inputs l).
Proof.
  revert r l effs. induction inputs as [|i inputs IH]; intros r l effs Hs Hst Ha; simpl in *;
    [by simplify_eq|].
  apply bind_Some in Hs as ([r1 e1] & Hi & Hs). apply bind_Some in Hs as ([r2 e2] & Hr & [= <- <-]).
  rewrite Hi in Ha |- *. destruct Ha as [Hin Ha].
  eapply IH; [done| |exact Ha]. destruct i; simpl in *.
  - by erewrite tick_keeps.
  - by eapply on_ready_stores.
  - injection Hi as <- <-. unfold try_campaign_leader, store. case_match; [|done].
    simpl. by rewrite campaign_store.
  - destruct m as [p|rp|]; simpl in Hi.
    + by erewrite propose_keeps.
    + by erewrite propose_reconfiguration_keeps.
    + unfold stop_timers in Hi. by destruct (timers r); handler_inv Hi.
  - unfold handle in Hi. destruct m; handler_inv Hi; try done.
    unfold step_raft, store. simpl. by rewrite step_store.
Qed.
End store.

(** ** The reconfiguration of a replica *)

Section membership.
Context {N St : Type} `{RawNode N St} `{!RaftStorage St}.
Context (outgoing_period election_tick initial_election_factor : Z).

Abbreviation replica := (RaftReplica.t (N := N)).
Abbreviation step := (RaftReplica.step initial_election_factor).
Abbreviation steps := (RaftReplica.steps initial_election_factor).
Abbreviation on_start := (RaftReplica.on_start outgoing_period election_tick).

(** A cancelled timer does not fire. *)
Definition fires (r : replica) (i : input) : Prop :=
  match i with Tick _ | OnReady _ => timers r = true | _ => True end.

Fixpoint all_fire (r : replica) (inputs : list input) : Prop :=
  match inputs with
  | [] => True
  | i :: inputs =>
      fires r i /\ match step r i with Some (r', _) => all_fire r' inputs | None => True end
  end.

Definition untimed (i : input) : Prop := match i with Tick _ | OnReady _ => False | _ => True end.

Lemma all_fire_untimed r inputs : Forall untimed inputs -> all_fire r inputs.
Proof.
  intros Hu. revert r. induction Hu as [|i inputs Hi _ IH]; intros r; simpl; [done|].
  split; [by destruct i|]. destruct (step r i) as [[r' e]|]; [apply IH|done].
Qed.

(** Answers of normal proposals. *)
Definition responses (effs : list RaftEffect) : list ProposalResp :=
  omap (fun e => match e with
                 | ReCommunicator (ProposalResponse pr) => Some pr | _ => None end) effs.

(** What has been proposed, answered and reported up to a state. *)
Definition phase (r : replica) (effs : list RaftEffect) : Prop :=
  (length (memberships effs) <= 1)%nat /\
  match reconfig_state r with
  | RecNone => memberships effs = [] /\ answers effs = [] /\ removals effs = []
  | RecPending => answers effs = [] /\ removals effs = []
  | RecFinished => length (answers effs) = 1%nat /\ removals effs = []
  | RecRemoved => length (answers effs) = 1%nat /\ removals effs = [tt] /\ timers r = false
  end.

Definition evolves (r r' : replica) (effs : list RaftEffect) : Prop :=
  forall before, phase r before -> phase r' (before ++ effs).

Lemma evolves_refl r : evolves r r [].
Proof. intros b. by rewrite app_nil_r. Qed.

Lemma evolves_app r1 r2 r3 e1 e2 :
  evolves r1 r2 e1 -> evolves r2 r3 e2 -> evolves r1 r3 (e1 ++ e2).
Proof. intros H12 H23 b Hb. rewrite app_assoc. by apply H23, H12. Qed.

(** Steps that are no part of a reconfiguration. *)
Lemma evolves_same r r' effs :
  reconfig_state r' = reconfig_state r -> (timers r = false -> timers r' = false) ->
  memberships effs = [] -> answers effs = [] -> removals effs = [] -> evolves r r' effs.
Proof.
  intros Hs Ht Hm Ha Hr b Hb. unfold phase, memberships, answers, removals in *.
  rewrite !omap_app, Hm, Ha, Hr, !app_nil_r, Hs. destruct (reconfig_state r); naive_solver.
Qed.

Lemma propose_evolves r p r' e : propose r p = Some (r', e) -> evolves r r' e.
Proof. unfold propose. intros Hs. handler_inv Hs; by apply evolves_same. Qed.

Lemma propose_all_evolves r ps r' e : propose_all r ps = Some (r', e) -> evolves r r' e.
Proof.
  revert r e. induction ps as [|p ps IH]; intros r e Hs; simpl in Hs.
  { simplify_eq. apply evolves_refl. }
  apply bind_Some in Hs as ([r1 e1] & Hp & Hs). apply bind_Some in Hs as ([r2 e2] & Hr & [= <- <-]).
  eapply evolves_app; [by eapply propose_evolves|by eapply IH].
Qed.

Lemma propose_reconfiguration_evolves r rp rnds r' e :
  propose_reconfiguration r rp rnds = Some (r', e) -> evolves r r' e.
Proof.
  unfold propose_reconfiguration. intros Hs. destruct (reconfig_state r) eqn:Hst.
  2-4: simplify_eq; apply evolves_refl.
  destruct (leader r =? 0); [simplify_eq; by apply evolves_same|].
  destruct (leader r =? id r); [|simplify_eq; by apply evolves_same].
  apply bind_Some in Hs as (v & Hv & Hs). apply bind_Some in Hs as (n & Hn & [= <- <-]).
  intros b. unfold phase, memberships, answers, removals. rewrite Hst, !omap_app.
  intros (_ & -> & -> & ->). simpl. done.
Qed.

Lemma tick_evolves r rnds r' e : tick r rnds = Some (r', e) -> evolves r r' e.
Proof.
  unfold tick. cbv zeta. set (r0 := set_raw_raft r _). intros Hs.
  assert (evolves r r0 []) as Hr0 by (by apply evolves_same).
  destruct (leader r0 =? 0); [by simplify_eq|].
  apply bind_Some in Hs as ([r1 e1] & Hb & Hs). apply bind_Some in Hs as ([r2 e2] & Hp & Hs).
  assert (evolves r0 r1 e1) as Hr1.
  { destruct (hb_reconfig r0) as [rp|]; [|simplify_eq; apply evolves_refl].
    apply propose_reconfiguration_evolves in Hb. intros b Hph. by apply Hb. }
  assert (evolves r1 r2 e2) as Hr2.
  { destruct (hb_proposals r1); [simplify_eq; apply evolves_refl|].
    apply propose_all_evolves in Hp. intros b Hph. by apply Hp. }
  assert (evolves r r2 (e1 ++ e2)) as Hr02.
  { change (e1 ++ e2) with ([] ++ (e1 ++ e2)). by repeat (eapply evolves_app; [done|]). }
  destruct (leader r0 =? current_leader r2); [by simplify_eq|]. rewrite app_assoc in Hs.
  destruct (bool_decide _); simplify_eq; (eapply evolves_app; [exact Hr02|by apply evolves_same]).
Qed.

Lemma apply_entry_evolves r e rnd r' effs :
  apply_entry initial_election_factor r e rnd = Some (r', effs) ->
  evolves r r' effs /\ sent effs = [].
Proof.
  unfold apply_entry. intros Hs.
  destruct (bool_decide _); [simplify_eq; by split; [apply evolves_refl|]|].
  destruct (is_conf_change e); cycle 1.
  { destruct (is_leader _); simplify_eq; split; try done; [by apply evolves_same|apply evolves_refl]. }
  assert (forall cc, reconfig_state r = RecNone \/ reconfig_state r = RecPending ->
            begin_membership r cc = Some (r', effs) \/
            finalize_membership initial_election_factor r cc rnd = Some (r', effs) ->
          evolves r r' effs /\ sent effs = []) as Hcc.
  { intros cc Hst [Hb|Hf].
    - unfold begin_membership in Hb. handler_inv Hb. split; [|done]. intros b [Hm Hb'].
      rewrite app_nil_r. split; [done|]. simpl. destruct Hst as [Hst|Hst]; rewrite Hst in Hb';
        by destruct_and! Hb'.
    - apply finalize_spec in Hf as (n & _ & _ & _ & _ & Hm & Hsent & (rr & Ha & _) & Hcase).
      split; [|done]. intros b [Hmb Hb']. unfold phase, memberships, answers, removals in *.
      rewrite !omap_app, Hm, Ha, app_nil_r. split; [done|].
      assert (answers b = [] /\ removals b = []) as [Hab Hrb].
      { by destruct Hst as [Hst|Hst]; rewrite Hst in Hb'; destruct_and! Hb'. }
      unfold answers, removals in Hab, Hrb. rewrite Hab, Hrb.
      destruct Hcase as [(_ & -> & ->)|(_ & -> & -> & ->)]; done. }
  destruct (reconfig_state r); try (simplify_eq; by split; [apply evolves_refl|]).
  all: apply bind_Some in Hs as (cc & _ & Hs); destruct (get_change_type cc); [| |done];
    (eapply (Hcc cc); [by auto|]); auto.
Qed.

Lemma apply_entries_evolves r es rnd r' effs :
  apply_entries initial_election_factor r es rnd = Some (r', effs) -> evolves r r' effs.
Proof.
  revert r effs. induction es as [|e es IH]; intros r effs Hs; simpl in Hs.
  { simplify_eq. apply evolves_refl. }
  apply bind_Some in Hs as ([r1 e1] & Hp & Hs). apply bind_Some in Hs as ([r2 e2] & Hr & [= <- <-]).
  eapply evolves_app; [by eapply apply_entry_evolves|by eapply IH].
Qed.

Lemma on_ready_evolves r rnd r' effs :
  on_ready initial_election_factor r rnd = Some (r', effs) -> evolves r r' effs.
Proof.
  unfold on_ready. intros Hs. destruct (has_ready _); [|simplify_eq; apply evolves_refl].
  destruct (raw_ready (raw_raft r)) as [n rd]. apply bind_Some in Hs as (d & _ & Hs).
  cbv zeta in Hs. set (r1 := write_store _ d) in Hs.
  apply bind_Some in Hs as ([r2 e2] & Hc & [= <- <-]).
  assert (Hnone : forall ms, let es := map (fun m => ReCommunicator (OutRawRaftMsg m)) ms in
            memberships es = [] /\ answers es = [] /\ removals es = [])
    by (induction ms as [|? ? IH]; [done|exact IH]).
  eapply (evolves_app r r1).
  { destruct (Hnone (ready_messages rd)) as (? & ? & ?). by apply evolves_same. }
  assert (evolves r1 r2 e2) as H12; [|intros b Hb; by apply H12].
  destruct (committed_entries rd) as [es|]; [|simplify_eq; apply evolves_refl].
  unfold apply_committed in Hc. apply bind_Some in Hc as ([r3 e3] & Ha & Hc).
  apply apply_entries_evolves in Ha. destruct (last es); [|by simplify_eq].
  apply bind_Some in Hc as (d' & _ & [= <- <-]). intros b Hb. by apply Ha.
Qed.

Lemma receive_local_evolves r m rnds r' effs :
  receive_local r m rnds = Some (r', effs) -> evolves r r' effs.
Proof.
  destruct m as [p|rp|]; simpl; intros Hs.
  - by eapply propose_evolves.
  - by eapply propose_reconfiguration_evolves.
  - unfold stop_timers in Hs. destruct (timers r) eqn:Ht; simpl in Hs; case_bool_decide; simplify_eq;
      by apply evolves_same.
Qed.

Lemma handle_evolves r m r' effs : handle r m = Some (r', effs) -> evolves r r' effs.
Proof. unfold handle. intros Hs. destruct m; handler_inv Hs; by apply evolves_same. Qed.

Lemma step_evolves r i r' effs : step r i = Some (r', effs) -> evolves r r' effs.
Proof.
  destruct i; simpl; intros Hs.
  - by eapply tick_evolves.
  - by eapply on_ready_evolves.
  - simplify_eq. unfold try_campaign_leader. case_match; [by apply evolves_same|apply evolves_refl].
  - by eapply receive_local_evolves.
  - by eapply handle_evolves.
Qed.

Lemma steps_evolve r inputs r' effs : steps r inputs = Some (r', effs) -> evolves r r' effs.
Proof.
  revert r effs. induction inputs as [|i inputs IH]; intros r effs Hs; simpl in Hs.
  { simplify_eq. apply evolves_refl. }
  apply bind_Some in Hs as ([r1 e1] & Hi & Hs). apply bind_Some in Hs as ([r2 e2] & Hr & [= <- <-]).
  eapply evolves_app; [by eapply step_evolves|by eapply IH].
Qed.

(** A removed replica whose timers are cancelled. *)
Definition retired (r : replica) : Prop := reconfig_state r = RecRemoved /\ timers r = false.

Lemma retired_step r i r' effs :
  step r i = Some (r', effs) -> fires r i -> retired r ->
  retired r' /\ sent effs = [] /\ responses effs = [] /\ answers effs = [].
Proof.
  intros Hs Hf [Hst Ht]. destruct i as [rnds|rnd| |m rnds|m]; simpl in *; try congruence.
  - simplify_eq. unfold try_campaign_leader. by case_match.
  - destruct m as [p|rp|]; simpl in Hs.
    + unfold propose in Hs. by handler_inv Hs.
    + unfold propose_reconfiguration in Hs. rewrite Hst in Hs. by simplify_eq.
    + unfold stop_timers in Hs. rewrite Ht in Hs. simpl in Hs. case_bool_decide; by simplify_eq.
  - unfold handle in Hs. rewrite Hst in Hs.
    destruct m; [|by simplify_eq|by handler_inv Hs].
    rewrite bool_decide_eq_true_2, orb_true_r in Hs by done. by simplify_eq.
Qed.

Lemma retired_steps r inputs r' effs :
  steps r inputs = Some (r', effs) -> all_fire r inputs -> retired r ->
  retired r' /\ sent effs = [] /\ responses effs = [] /\ answers effs = [].
Proof.
  revert r effs. induction inputs as [|i inputs IH]; intros r effs Hs Hf Hr; simpl in *.
  { by simplify_eq. }
  apply bind_Some in Hs as ([r1 e1] & Hi & Hs). apply bind_Some in Hs as ([r2 e2] & Hn & [= <- <-]).
  rewrite Hi in Hf. destruct Hf as [Hf Hfs].
  destruct (retired_step _ _ _ _ Hi Hf Hr) as (Hr1 & Hs1 & Hp1 & Ha1).
  destruct (IH _ _ Hn Hfs Hr1) as (Hr2 & Hs2 & Hp2 & Ha2).
  unfold sent, responses, answers in *. rewrite !omap_app, Hs1, Hp1, Ha1. by split_and!.
Qed.

End membership.

(** ** The proposals of clients at a node *)

Section requests.
Context {N St : Type} `{RawNode N St} `{!RaftStorage St}.
Context (initial_election_factor : Z).

Abbreviation replica := (RaftReplica.t (N := N)).

Definition held (r : replica) : list bytes := map proposal_data (hb_proposals r).

Definition kills (effs : list RaftEffect) : list unit :=
  omap (fun e => match e with ReSupervisor RcKillComponents => Some tt | _ => None end) effs.

(** [new] was received between the two states. *)
Definition conserves (r r' : replica) (effs : list RaftEffect) (new : list bytes) : Prop :=
  passed effs ++ held r' ≡ₚ held r ++ new /\ kills effs = [].

Lemma conserves_refl r : conserves r r [] [].
Proof. split; [|done]. by rewrite app_nil_r. Qed.

Lemma conserves_app r1 r2 r3 e1 e2 new1 new2 :
  conserves r1 r2 e1 new1 -> conserves r2 r3 e2 new2 ->
  conserves r1 r3 (e1 ++ e2) (new1 ++ new2).
Proof.
  unfold conserves, passed, kills. intros [H12 Hk1] [H23 Hk2]. rewrite !omap_app, Hk1, Hk2.
  split; [|done]. rewrite <- app_assoc, H23, !app_assoc. by rewrite H12.
Qed.

Lemma conserves_same r r' effs :
  hb_proposals r' = hb_proposals r -> passed effs = [] -> kills effs = [] ->
  conserves r r' effs [].
Proof. unfold conserves, held. intros -> -> ->. split; [|done]. by rewrite app_nil_r. Qed.

Lemma propose_conserves r p r' e :
  propose r p = Some (r', e) -> conserves r r' e [proposal_data p].
Proof.
  unfold propose, conserves, held. intros Hs. handler_inv Hs; simpl.
  - by rewrite map_app.
  - split; [|done]. by rewrite Permutation_app_comm.
Qed.

Lemma propose_all_conserves r ps r' e :
  propose_all r ps = Some (r', e) -> conserves r r' e (map proposal_data ps).
Proof.
  revert r e. induction ps as [|p ps IH]; intros r e Hs; simpl in Hs.
  { simplify_eq. apply conserves_refl. }
  apply bind_Some in Hs as ([r1 e1] & Hp & Hs). apply bind_Some in Hs as ([r2 e2] & Hr & [= <- <-]).
  change (map proposal_data (p :: ps)) with ([proposal_data p] ++ map proposal_data ps).
  eapply conserves_app; [by apply propose_conserves|by apply IH].
Qed.

Lemma propose_reconfiguration_conserves r rp rnds r' e :
  propose_reconfiguration r rp rnds = Some (r', e) -> conserves r r' e [].
Proof.
  unfold propose_reconfiguration. intros Hs. destruct (reconfig_state r).
  2-4: simplify_eq; apply conserves_refl.
  destruct (leader r =? 0); [simplify_eq; by apply conserves_same|].
  destruct (leader r =? id r); [|simplify_eq; by apply conserves_same].
  handler_inv Hs. by apply conserves_same.
Qed.

Lemma tick_conserves r rnds r' e : tick r rnds = Some (r', e) -> conserves r r' e [].
Proof.
  unfold tick. cbv zeta. set (r0 := set_raw_raft r _). intros Hs.
  assert (conserves r r0 [] []) as Hr0 by (by apply conserves_same).
  destruct (leader r0 =? 0); [by simplify_eq|].
  apply bind_Some in Hs as ([r1 e1] & Hb & Hs). apply bind_Some in Hs as ([r2 e2] & Hp & Hs).
  assert (conserves r0 r1 e1 []) as Hr1.
  { destruct (hb_reconfig r0) as [rp|]; [|simplify_eq; apply conserves_refl].
    by apply propose_reconfiguration_conserves in Hb. }
  assert (conserves r1 r2 e2 []) as Hr2.
  { destruct (hb_proposals r1) as [|p ps] eqn:Hhb; [simplify_eq; apply conserves_refl|].
    apply propose_all_conserves in Hp as [Hp Hk]. split; [|done].
    rewrite Hp, app_nil_r. unfold held. by rewrite Hhb. }
  assert (conserves r r2 (e1 ++ e2) []) as Hr02.
  { change (e1 ++ e2) with ([] ++ (e1 ++ e2)).
    change (@nil bytes) with ([] ++ ([] ++ [] : list bytes)).
    by repeat (eapply conserves_app; [done|]). }
  destruct (leader r0 =? current_leader r2); [by simplify_eq|]. rewrite app_assoc in Hs.
  change (@nil bytes) with ([] ++ [] : list bytes).
  destruct (bool_decide _); simplify_eq; (eapply conserves_app; [exact Hr02|by apply conserves_same]).
Qed.

Lemma apply_entry_conserves r e rnd r' effs :
  apply_entry initial_election_factor r e rnd = Some (r', effs) -> conserves r r' effs [].
Proof.
  unfold apply_entry. intros Hs. destruct (bool_decide _); [simplify_eq; apply conserves_refl|].
  destruct (is_conf_change e); cycle 1.
  { destruct (is_leader _); simplify_eq; by apply conserves_same. }
  assert (forall cc, begin_membership r cc = Some (r', effs) \/
            finalize_membership initial_election_factor r cc rnd = Some (r', effs) ->
          conserves r r' effs []) as Hcc.
  { intros cc [Hb|Hf].
    - unfold begin_membership in Hb. handler_inv Hb. by apply conserves_same.
    - apply conserves_same.
      + by apply finalize_spec in Hf as (n & _ & _ & Hh & _).
      + by apply finalize_spec in Hf as (n & _ & _ & _ & Hp & _).
      + unfold finalize_membership, stop_timers, schedule_campaign in Hf.
        apply bind_Some in Hf as (n & _ & Hf). cbv zeta in Hf.
        apply bind_Some in Hf as ([r1 e1] & Hr1 & [= <- <-]). unfold kills. rewrite omap_app, app_nil_r.
        case_bool_decide; [case_bool_decide; [by simplify_eq|]|].
        * apply bind_Some in Hr1 as (e2 & He & [= <- <-]). by handler_inv He.
        * destruct (conf_contains n _); [done|]. destruct (timers _); by simplify_eq. }
  destruct (reconfig_state r); try (simplify_eq; apply conserves_refl).
  all: apply bind_Some in Hs as (cc & _ & Hs); destruct (get_change_type cc); [| |done]; eauto.
Qed.

Lemma apply_entries_conserves r es rnd r' effs :
  apply_entries initial_election_factor r es rnd = Some (r', effs) -> conserves r r' effs [].
Proof.
  revert r effs. induction es as [|e es IH]; intros r effs Hs; simpl in Hs.
  { simplify_eq. apply conserves_refl. }
  apply bind_Some in Hs as ([r1 e1] & Hp & Hs). apply bind_Some in Hs as ([r2 e2] & Hr & [= <- <-]).
  change (@nil bytes) with ([] ++ [] : list bytes).
  eapply conserves_app; [by eapply apply_entry_conserves|by eapply IH].
Qed.

Lemma on_ready_conserves r rnd r' effs :
  on_ready initial_election_factor r rnd = Some (r', effs) -> conserves r r' effs [].
Proof.
  unfold on_ready. intros Hs. destruct (has_ready _); [|simplify_eq; apply conserves_refl].
  destruct (raw_ready (raw_raft r)) as [n rd]. apply bind_Some in Hs as (d & _ & Hs).
  cbv zeta in Hs. set (r1 := write_store _ d) in Hs.
  apply bind_Some in Hs as ([r2 e2] & Hc & [= <- <-]).
  change (@nil bytes) with ([] ++ [] : list bytes). eapply (conserves_app r r1).
  { apply conserves_same; [done|..]; by induction (ready_messages rd). }
  assert (conserves r1 r2 e2 []) as [Hp Hk]; [|by split].
  destruct (committed_entries rd) as [es|]; [|simplify_eq; apply conserves_refl].
  unfold apply_committed in Hc. apply bind_Some in Hc as ([r3 e3] & Ha & Hc).
  apply apply_entries_conserves in Ha as [Hp Hk]. destruct (last es); [|by simplify_eq].
  apply bind_Some in Hc as (d' & _ & [= <- <-]). by split.
Qed.

Definition proposed_by (i : input) : list bytes :=
  match i with Local (RrPropose p) _ => [proposal_data p] | _ => [] end.

Lemma raft_step_conserves r i r' effs :
  RaftReplica.step initial_election_factor r i = Some (r', effs) ->
  conserves r r' effs (proposed_by i).
Proof.
  destruct i as [rnds|rnd| |m rnds|m]; simpl; intros Hs.
  - by eapply tick_conserves.
  - by eapply on_ready_conserves.
  - simplify_eq. unfold try_campaign_leader. case_match; [by apply conserves_same|apply conserves_refl].
  - destruct m as [p|rp|]; simpl in Hs |- *.
    + by apply propose_conserves.
    + by eapply propose_reconfiguration_conserves.
    + unfold stop_timers in Hs. destruct (timers r); simpl in Hs; case_bool_decide; simplify_eq;
        by apply conserves_same.
  - unfold handle in Hs. destruct m; handler_inv Hs; by apply conserves_same.
Qed.
End requests.

Section node.
Context `{BufOps} {N St : Type} `{RawNode N St} `{!RaftStorage St}.
Context (election_tick hb_tick max_batch_size cfg_preloaded_log_size cfg_max_inflight : Z).
Context (initial_election_factor : Z) (deserialise_path : bytes -> option Path).

Abbreviation receive_network := (RaftComp.receive_network election_tick hb_tick max_batch_size
  cfg_preloaded_log_size cfg_max_inflight deserialise_path).

(** The supervisor with its replica, and the messages under way between them. *)
Record node := mkNode {
  nd_comp : RaftComp.t (N := N);
  nd_inbox : list RaftReplicaMsg;
  nd_reports : list RaftCompMsg }.

Inductive node_event :=
| NeNetwork (sender : Path) (m : PaxosComp.Incoming)
| NeReport
| NeReplica (rnds : list nat)
| NeInput (i : input).

Definition to_replica (effs : list RaftNodeEffect) : list RaftReplicaMsg :=
  omap (fun e => match e with RnReplica m => Some m | _ => None end) effs.
Definition to_supervisor (effs : list RaftEffect) : list RaftCompMsg :=
  omap (fun e => match e with ReSupervisor m => Some m | _ => None end) effs.

(** A step of the supervisor or of the replica, and what it does outside. *)
Definition comp_step (nd : node) (reports : list RaftCompMsg)
    (x : option (RaftComp.t * list RaftNodeEffect))
    : option (node * (list RaftNodeEffect * list RaftEffect)) :=
  '(c, effs) ← x;
  Some (mkNode c (nd_inbox nd ++ to_replica effs) reports, (effs, [])).

Definition replica_step (nd : node) (inbox : list RaftReplicaMsg) (i : input)
    : option (node * (list RaftNodeEffect * list RaftEffect)) :=
  r ← RaftComp.raft_replica (nd_comp nd);
  '(r, effs) ← RaftReplica.step initial_election_factor r i;
  Some (mkNode (RaftComp.set_raft_replica (nd_comp nd) (Some r)) inbox
          (nd_reports nd ++ to_supervisor effs), ([], effs)).

Definition node_step (nd : node) (ev : node_event)
    : option (node * (list RaftNodeEffect * list RaftEffect)) :=
  match ev with
  | NeNetwork sender m => comp_step nd (nd_reports nd) (receive_network (nd_comp nd) sender m)
  | NeReport =>
      match nd_reports nd with
      | [] => Some (nd, ([], []))
      | m :: reports => comp_step nd reports (RaftComp.receive_local (nd_comp nd) m)
      end
  | NeReplica rnds =>
      match nd_inbox nd with
      | [] => Some (nd, ([], []))
      | m :: inbox => replica_step nd inbox (Local m rnds)
      end
  | NeInput i => replica_step nd (nd_inbox nd) i
  end.

Fixpoint node_steps (nd : node) (evs : list node_event)
    : option (node * (list RaftNodeEffect * list RaftEffect)) :=
  match evs with
  | [] => Some (nd, ([], []))
  | ev :: evs =>
      '(nd, (c1, r1)) ← node_step nd ev;
      '(nd, (c2, r2)) ← node_steps nd evs;
      Some (nd, (c1 ++ c2, r1 ++ r2))
  end.

(** One iteration before its stop: no new [Init] and no stop of the client; messages
    reach the replica through its mailbox. *)
Definition before_stop (ev : node_event) : Prop :=
  match ev with
  | NeNetwork _ (PaxosComp.InStop StopClient)
  | NeNetwork _ (PaxosComp.InPartitioningActor (PaxosComp.ActorInitMsg _))
  | NeInput (Local _ _) => False
  | _ => True
  end.

Definition requested (ev : node_event) : list bytes :=
  match ev with
  | NeNetwork _ (PaxosComp.InAtomicBroadcast (ABProposal p)) => [proposal_data p]
  | _ => []
  end.

Definition queued (inbox : list RaftReplicaMsg) : list bytes :=
  omap (fun m => match m with RrPropose p => Some (proposal_data p) | _ => None end) inbox.

(** Proposals that wait at the node: in the mailbox of the replica or held back. *)
Definition waiting (nd : node) : list bytes :=
  queued (nd_inbox nd) ++
  match RaftComp.raft_replica (nd_comp nd) with Some r => held r | None => [] end.

Definition forwarded (effs : list RaftNodeEffect) : list bytes :=
  omap (fun e => match e with
                 | RnForward _ m =>
                     match PaxosComp.nm_data m with
                     | ABProposal p => Some (proposal_data p) | _ => None end
                 | _ => None
                 end) effs.

Record running (nd : node) : Prop := {
  ru_stopped : RaftComp.stopped (nd_comp nd) = false;
  ru_replica : is_Some (RaftComp.raft_replica (nd_comp nd));
  ru_reports : RcKillComponents ∉ nd_reports nd }.

Lemma queued_app l1 l2 : queued (l1 ++ l2) = queued l1 ++ queued l2.
Proof. apply omap_app. Qed.

Lemma no_kill_reports effs : kills effs = [] -> RcKillComponents ∉ to_supervisor effs.
Proof.
  unfold kills, to_supervisor. intros Hk [e [He Hm]]%list_elem_of_omap.
  assert (tt ∈ (omap (fun e => match e with ReSupervisor RcKillComponents => Some tt | _ => None end)
            effs)) as Hin; [|by rewrite Hk in Hin; apply elem_of_nil in Hin].
  apply list_elem_of_omap. exists e. split; [done|]. destruct e; try done. by simplify_eq.
Qed.

(** What a step of the supervisor does with the proposals. *)
Lemma comp_step_conserves nd reports x nd' outs new :
  comp_step nd reports x = Some (nd', outs) -> running nd ->
  (forall c effs, x = Some (c, effs) ->
     RaftComp.stopped c = false /\
     RaftComp.raft_replica c = RaftComp.raft_replica (nd_comp nd) /\
     forwarded effs ++ queued (to_replica effs) ≡ₚ new) ->
  RcKillComponents ∉ reports ->
  running nd' /\ (forwarded outs.1 ++ passed outs.2) ++ waiting nd' ≡ₚ waiting nd ++ new.
Proof.
  unfold comp_step. intros Hs [Hst Hr Hk] Hx Hrep. destruct x as [[c effs]|]; [|done].
  destruct (Hx c effs eq_refl) as (Hc & Hrc & Hn). simpl in Hs. simplify_eq. simpl. split.
  - constructor; simpl; [done|by rewrite Hrc|done].
  - unfold waiting, passed. simpl. rewrite Hrc, queued_app, app_nil_r, <- Hn. solve_Permutation.
Qed.

Lemma replica_step_conserves nd inbox i nd' outs :
  replica_step nd inbox i = Some (nd', outs) -> running nd ->
  queued (nd_inbox nd) = proposed_by i ++ queued inbox ->
  running nd' /\ (forwarded outs.1 ++ passed outs.2) ++ waiting nd' ≡ₚ waiting nd.
Proof.
  unfold replica_step. intros Hs [Hst Hr Hk] Hq.
  destruct (RaftComp.raft_replica (nd_comp nd)) as [r|] eqn:Hrep; [|done]. simpl in Hs.
  apply bind_Some in Hs as ([r' effs] & Hi & [= <- <-]). simpl.
  apply raft_step_conserves in Hi as [Hp Hkill]. split.
  - constructor; simpl; [done|by eexists|]. intros [?|Hin]%elem_of_app; [done|].
    by apply no_kill_reports in Hin.
  - unfold waiting. simpl. rewrite Hrep, Hq, (Permutation_app_comm (queued inbox) (held r')).
    rewrite app_assoc, Hp. solve_Permutation.
Qed.

Lemma receive_network_proposals c sender m c' effs :
  receive_network c sender m = Some (c', effs) -> before_stop (NeNetwork sender m) ->
  RaftComp.stopped c = false ->
  RaftComp.stopped c' = false /\ RaftComp.raft_replica c' = RaftComp.raft_replica c /\
  forwarded effs ++ queued (to_replica effs) ≡ₚ requested (NeNetwork sender m).
Proof.
  intros Hs Hok Hst. destruct m as [am|p|a|rm|st]; simpl in Hs, Hok |- *.
  - unfold RaftComp.receive_atomic_broadcast in Hs. rewrite Hst in Hs.
    destruct (RaftComp.removed c).
    { apply bind_Some in Hs as (cl & _ & [= <- <-]). by destruct am. }
    destruct (_ || _)%bool.
    + destruct am; simpl in Hs; try by simplify_eq.
      all: apply bind_Some in Hs as (r & _ & [= <- <-]); done.
    + apply bind_Some in Hs as (ap & _ & [= <- <-]). by destruct am.
  - unfold RaftComp.receive_partitioning in Hs. apply bind_Some in Hs as (comm & _ & Hs).
    destruct p; [|by simplify_eq].
    apply bind_Some in Hs as ([comm' es] & _ & [= <- <-]). split_and!; [done..|].
    by induction es.
  - destruct a; try done; try by simplify_eq.
    apply bind_Some in Hs as (es & He & [= <- <-]). unfold RaftComp.start_components in He.
    by handler_inv He.
  - done.
  - destruct st; [by simplify_eq|done].
Qed.

Lemma receive_local_proposals (c : RaftComp.t (N := N)) m c' effs :
  RaftComp.receive_local c m = Some (c', effs) -> m <> RcKillComponents ->
  RaftComp.stopped c' = RaftComp.stopped c /\
  RaftComp.raft_replica c' = RaftComp.raft_replica c /\
  forwarded effs ++ queued (to_replica effs) ≡ₚ [].
Proof.
  intros Hs Hm. destruct m; simpl in Hs; try done.
  - apply bind_Some in Hs as (es & He & [= <- <-]). by handler_inv He.
  - by simplify_eq.
  - by handler_inv Hs.
Qed.

Lemma node_step_conserves nd ev nd' outs :
  node_step nd ev = Some (nd', outs) -> before_stop ev -> running nd ->
  running nd' /\ (forwarded outs.1 ++ passed outs.2) ++ waiting nd' ≡ₚ waiting nd ++ requested ev.
Proof.
  intros Hs Hok Hr. pose proof Hr as [Hst _ Hk]. destruct ev as [sender m| |rnds|i].
  - eapply comp_step_conserves; [exact Hs|done| |done].
    intros c effs Hc. by eapply receive_network_proposals.
  - simpl in Hs |- *. rewrite app_nil_r. destruct (nd_reports nd) as [|m reports] eqn:Hrep;
      [by simplify_eq|].
    rewrite <- (app_nil_r (waiting nd)). eapply comp_step_conserves; [exact Hs|done| |].
    + intros c effs Hc. apply receive_local_proposals in Hc as (-> & -> & Hp); [done|].
      intros ->. apply Hk. by left.
    + intros Hin. apply Hk. by right.
  - simpl in Hs |- *. rewrite app_nil_r. destruct (nd_inbox nd) as [|m inbox] eqn:Hin;
      [by simplify_eq|].
    eapply replica_step_conserves; [exact Hs|done|]. rewrite Hin. by destruct m.
  - simpl in Hs |- *. rewrite app_nil_r. eapply replica_step_conserves; [exact Hs|done|].
    by destruct i.
Qed.

(** C17: Through any interleaving of the events of one iteration before its stop - network
    messages at the supervisor, messages in the two mailboxes between supervisor and
    replica, timers and messages of the replica - a node of Raft neither loses nor
    duplicates a proposal of a client: what it passed to the Raft node, forwarded to
    another node or returned to the client, and what waits in the mailbox or is held
    back for want of a leader, is a rearrangement of what waited before and arrived. *)
Theorem raft_requests_conserved nd evs nd' outs :
  node_steps nd evs = Some (nd', outs) -> Forall before_stop evs -> running nd ->
  (forwarded outs.1 ++ passed outs.2) ++ waiting nd' ≡ₚ waiting nd ++ concat (map requested evs).
Proof.
  revert nd outs. induction evs as [|ev evs IH]; intros nd outs Hs Hok Hr; simpl in Hs.
  { simplify_eq. simpl. by rewrite app_nil_r. }
  apply Forall_cons in Hok as [He Hok].
  apply bind_Some in Hs as ([nd1 [c1 r1]] & Hn & Hs).
  apply bind_Some in Hs as ([nd2 [c2 r2]] & Hns & [= <- <-]). simpl.
  apply node_step_conserves in Hn as [Hr1 Hp1]; [|done..].
  pose proof (IH nd1 _ Hns Hok Hr1) as Hp2. simpl in Hp1, Hp2.
  unfold forwarded, passed in *. rewrite !omap_app.
  rewrite (app_assoc (waiting nd)), <- Hp1.
  rewrite <- (app_assoc _ (waiting nd1)), <- Hp2. solve_Permutation.
Qed.
End node.

(** ** Examples *)

(** A node of Raft that is alone: it leads from its first tick on, and an entry is
    ready and committed at once.  An entry is the bytes of its index and term, a flag
    and its data; a change of the membership begins or, with data [x01], is final. *)
Module Solo.

Definition solo_entry : RaftEntry.
Proof.
  refine {| entry := bytes; ConfState := list Z * list Z; conf_state_new := ([], []);
    entry_index := fun e => default 0 (from_be_bytes (take 8 e));
    entry_term := fun e => default 0 (from_be_bytes (take 8 (drop 8 e)));
    write_to_bytes := fun e => e; parse_from_bytes := Some;
    limit_size := fun l m => match m with None => l | Some _ => take 1 l end |}.
  - done.
  - intros l [m|]; [apply prefix_take|done].
  - done.
Defined.
#[export] Existing Instance solo_entry.
#[export] Existing Instance PaxosReplica.PaxosReplica.no_raft.

Definition mk_entry (flag : byte) (data : bytes) (term index : Z) : bytes :=
  to_be_bytes index ++ to_be_bytes term ++ flag :: data.

#[export] Instance contents : RaftContents := {
  ConfChange := bool;
  entry_data e := drop 17 e;
  is_conf_change e := bool_decide (nth 16 e x00 = x01);
  merge_from_bytes d := Some (bool_decide (d = [x01]));
  get_change_type final := if final then FinalizeMembershipChange else BeginMembershipChange;
  conf_state_from cs := cs;
  new_entry := mk_entry x00 }.

Record solo (St : Type) := mkSolo {
  so_id : Z; so_leader : Z; so_voters : list Z; so_next : list Z; so_changing : bool;
  so_last : Z; so_unstable : list bytes; so_store : St }.
Arguments mkSolo {St}. Arguments so_id {St}. Arguments so_leader {St}.
Arguments so_voters {St}. Arguments so_next {St}. Arguments so_changing {St}.
Arguments so_last {St}. Arguments so_unstable {St}. Arguments so_store {St}.

Definition append {St} (n : solo St) (es : list (Z -> bytes)) : solo St :=
  mkSolo (so_id n) (so_leader n) (so_voters n) (so_next n) (so_changing n)
    (so_last n + Z.of_nat (length es))
    (so_unstable n ++ imap (fun i e => e (so_last n + 1 + Z.of_nat i)) es) (so_store n).
Definition with_members {St} (n : solo St) (voters next : list Z) (changing : bool) : solo St :=
  mkSolo (so_id n) (so_leader n) voters next changing (so_last n) (so_unstable n) (so_store n).

#[export] Instance solo_node (St : Type) : RawNode (solo St) St := {
  validate cfg := cfg_heartbeat_tick cfg <? cfg_election_tick cfg;
  raw_node_new cfg st := Some (mkSolo (cfg_id cfg) 0 [cfg_id cfg] [] false 1 [] st);
  raft_id := so_id;
  leader_id := so_leader;
  raft_term n := 1;
  is_leader n := so_leader n =? so_id n;
  raw_tick n := mkSolo (so_id n) (so_id n) (so_voters n) (so_next n) (so_changing n) (so_last n)
                  (so_unstable n) (so_store n);
  raw_step n _ := n;
  raw_campaign n := n;
  raw_propose n d := Some (append n [mk_entry x00 d 1]);
  voters := so_voters;
  conf_contains n p := bool_decide (p ∈ so_voters n);
  RaftCore.conf_state n := (so_voters n, []);
  is_in_membership_change := so_changing;
  propose_membership_change n v :=
    Some (with_members (append n [mk_entry x01 [x00] 1; mk_entry x01 [x01] 1])
            (so_voters n) v (so_changing n));
  begin_membership_change n _ := Some (with_members n (so_voters n) (so_next n) true);
  finalize_membership_change n _ := Some (with_members n (so_next n) [] false);
  has_ready n := negb (bool_decide (so_unstable n = []));
  raw_ready n := (n, mkReady _ _ [] (so_unstable n) (Some (so_unstable n)));
  raw_advance n rd := mkSolo (so_id n) (so_leader n) (so_voters n) (so_next n) (so_changing n)
                        (so_last n) [] (so_store n);
  mut_store := so_store;
  put_store n st := mkSolo (so_id n) (so_leader n) (so_voters n) (so_next n) (so_changing n)
                      (so_last n) (so_unstable n) st }.

#[export] Instance solo_laws (St : Type) : RawNodeLaws (N := solo St) (St := St).
Proof. split; intros; simplify_option_eq; done. Qed.

(** A storage that is a list of entries, for nodes that need no files. *)
#[export] Instance list_storage : RaftStorage (list bytes) := {
  append_log l es := Some (DiskStorage.spec_append l es);
  set_conf_state l _ _ := l;
  set_hard_state l _ _ := Some l;
  new_with_entries_and_conf_state _ es _ := Some es;
  new_with_conf_state _ _ := Some [] }.

Definition a_message : AtomicBroadcastCompMsg :=
  InRawRaftMsg (H := PaxosReplica.PaxosReplica.no_raft) tt.

(** Node 1 of two, which receives its [Init] and runs. *)
Definition client : Path := Named 9 AClient.
Definition path_of (d : bytes) : option Path := Some client.
Definition init : PaxosComp.Incoming :=
  PaxosComp.InPartitioningActor (PaxosComp.ActorInitMsg
    (PaxosComp.mkActorInit 1 7 [Named 1 ANode; Named 2 ANode] (Some []))).
Definition created (B : BufOps) : option (RaftComp.t * list RaftNodeEffect) :=
  RaftComp.receive_network (N := solo (list bytes)) 10 1 5 0 100 path_of
    (RaftComp.with_ [1; 2] (mkRaftParams 50 0 100) true) client init.
End Solo.

Import Solo.

Lemma consecutive_list (first : Z) (l : list entry) :
  Forall (fun x : nat * entry => entry_index x.2 = first + Z.of_nat x.1) (imap pair l) ->
  DiskStorage.consecutive first l.
Proof.
  intros Hl i e Hi. rewrite Forall_lookup in Hl. apply (Hl i (i, e)). by rewrite list_lookup_imap, Hi.
Qed.

(** Logs are compared field by field: evaluating the instance of the entries as well
    takes long. *)
Lemma raft_log_eq (l : DiskStorage.raft_log) es t c :
  DiskStorage.rl_entries l = es -> DiskStorage.rl_term l = t -> DiskStorage.rl_commit l = c ->
  l = DiskStorage.mkRaftLog es t c.
Proof. destruct l. simpl. by intros -> -> ->. Qed.

Lemma raft_log_refines_witness :
  exists d0 r' effs, new_with_conf_state (St := DiskStorage.t) (Some []) ([1], []) = Some d0 /\
    let r := RaftReplica.with_ (mkSolo 1 1 [1] [] false 1 [] d0) 1 100 50 in
    RaftReplica.steps (St := DiskStorage.t) 2 r
      [Local (RrPropose (mkProposal [x05])) []; OnReady 0] = Some (r', effs) /\
    DiskStorage.represents (store (St := DiskStorage.t) r')
      (DiskStorage.mkRaftLog [mk_entry x00 [x05] 1 2] 1 2).
Proof.
  destruct (disk_initial (H := solo_entry) [] ([1], [])) as (d & Hd & Hrep).
  set (d0 := default DiskStorage.new (new_with_conf_state (H := solo_entry) (St := DiskStorage.t) (Some []) ([1], []))).
  assert (d0 = d) as Hd0 by (unfold d0; rewrite Hd; reflexivity).
  rewrite <- Hd0 in Hd, Hrep. exists d0.
  set (r := RaftReplica.with_ (mkSolo 1 1 [1] [] false 1 [] d0) 1 100 50).
  set (inputs := [Local (RrPropose (mkProposal [x05])) []; OnReady 0]).
  assert (Ha : inputs_allowed (St := DiskStorage.t) 2 r inputs (DiskStorage.mkRaftLog [] 1 1)).
  { split; [exact I|]. cbn -[RaftReplica.on_ready raw_ready ready_allowed]. split.
    - intros _. split.
      + right. exists 2. split; [vm_compute; split; discriminate|]. split.
        * apply consecutive_list. repeat constructor.
        * vm_compute. split; discriminate.
      + intros e He. vm_compute in He. injection He as <-. vm_compute. repeat split; discriminate.
    - destruct (RaftReplica.on_ready _ _ _) as [[]|]; exact I. }
  destruct (RaftReplica.steps (St := DiskStorage.t) 2 r inputs) as [[r' effs]|] eqn:Hs.
  - exists r', effs. split; [exact Hd|]. split; [exact Hs|].
    pose proof (raft_log_refines (St := DiskStorage.t) 2 r _ r' effs
      (DiskStorage.mkRaftLog [] 1 1) Hs Hrep Ha) as Hst.
    assert (final_log (St := DiskStorage.t) 2 r inputs (DiskStorage.mkRaftLog [] 1 1) =
            DiskStorage.mkRaftLog [mk_entry x00 [x05] 1 2] 1 2) as Hf.
    { apply raft_log_eq; vm_compute; reflexivity. }
    rewrite Hf in Hst. exact Hst.
  - exfalso. assert (match RaftReplica.steps (St := DiskStorage.t) 2 r inputs with
                     | Some _ => true | None => false end = true) as Hsome
      by (vm_compute; reflexivity).
    rewrite Hs in Hsome. discriminate Hsome.
Defined.


(** From the [Init] on: a proposal arrives before there is a leader and is held back,
    another one while the node leads. *)
Lemma raft_requests_conserved_witness :
  let B := BigEndian.big_endian in
  let ask d := NeNetwork client (PaxosComp.InAtomicBroadcast (ABProposal (mkProposal [d]))) in
  exists c e nd' outs,
    created B = Some (c, e) /\
    node_steps 10 1 5 0 100 2 path_of (mkNode c [] [])
      [NeNetwork client (PaxosComp.InPartitioningActor PaxosComp.ActorRun); ask x01; NeReplica [];
       ask x02; NeInput (Tick []); NeReport; NeReplica []] = Some (nd', outs) /\
    passed outs.2 ++ waiting nd' ≡ₚ [[x01]; [x02]].
Proof.
  intros B ask. destruct (created B) as [[c e]|] eqn:Hc; [|vm_compute in Hc; discriminate Hc].
  destruct (node_steps 10 1 5 0 100 2 path_of (mkNode c [] [])
      [NeNetwork client (PaxosComp.InPartitioningActor PaxosComp.ActorRun); ask x01; NeReplica [];
       ask x02; NeInput (Tick []); NeReport; NeReplica []]) as [[nd' outs]|] eqn:Hs; cycle 1.
  { vm_compute in Hc. injection Hc as <- _. vm_compute in Hs. discriminate Hs. }
  exists c, e, nd', outs. split; [reflexivity|]. split; [exact Hs|].
  assert (running (mkNode c [] []) /\ waiting (mkNode c [] []) = [] /\ forwarded outs.1 = [])
    as (Hr & Hw & Hf).
  { vm_compute in Hc. injection Hc as <- _. split.
    - split; [reflexivity|by eexists|apply not_elem_of_nil].
    - split; [reflexivity|]. vm_compute in Hs. injection Hs as _ <-. reflexivity. }
  pose proof (raft_requests_conserved 10 1 5 0 100 2 path_of _ _ nd' outs Hs
    ltac:(repeat constructor) Hr) as Hp.
  rewrite Hf, Hw in Hp. exact Hp.
Defined.

(** With [DiskStorage] the node cannot be created: it gives no directory. *)
Lemma disk_store_never_created `{BufOps} `{RawNode N DiskStorage.t} (size : Z) (c : RaftComp.t (N := N)) :
  RaftComp.create_store (St := DiskStorage.t) size c = None.
Proof. unfold RaftComp.create_store. by case_match. Qed.
