(* ===== verification/Client.v ===== *)
(** The benchmark client ([client.rs]).

    The client keeps a window of proposals in flight at the current leader, follows
    leader changes, retries proposals that time out, proposes a reconfiguration, and
    creates the simulated partitions of the experiments.  Times are integers given by
    the environment; a scheduled timer is the handle the middleware returns, and its
    closure is a value of [ClientTimer]. *)

From Stdlib Require Import Strings.Byte.
From stdpp Require Import sorting.
From S2P Require Import Prelude MpMessages Partition Wire Election PaxosWire MsgWire.
From S2P Require Import PaxosStorage Communicator PaxosReplica PaxosComp.

Import MsgWire.

Inductive NetworkScenario :=
| FullyConnected
| QuorumLoss (d : Z)
| ConstrainedElection (d : Z)
| Chained (d : Z)
| PeriodicFull (d : Z).

#[global] Instance NetworkScenario_eq_dec : EqDecision NetworkScenario.
Proof. solve_decision. Defined.

Inductive ExperimentState := Setup | WarmUp | Running | PendingReconfiguration | Finished.

#[global] Instance ExperimentState_eq_dec : EqDecision ExperimentState.
Proof. solve_decision. Defined.

Record ProposalMetaData := mkProposalMetaData { pm_start_time : option Z; pm_timer : nat }.

Record WindowedResult := mkWindowedResult { num_warmup_windows : nat; windows : list Z }.

(** The closures of the scheduled timers. *)
Inductive ClientTimer :=
| TProposal (id : Z)
| TReconfig
| TExperiment
| TKill
| TRecovery
| TLagging (followers : list Z) (lagging_follower : Z) (leader : Path)
| TWarmup
| TWindow.

(** The result of an experiment. *)
Record MetaResults := mkMetaResults {
  mr_num_decided : Z;
  mr_num_warmup_decided : Z;
  mr_num_timed_out : Z;
  mr_num_retried : Z;
  mr_latencies : list Z;
  mr_leader_changes : list (Z * (Z * Z));
  mr_windowed_results : WindowedResult;
  mr_reconfig_ts : option (Z * Z);
  mr_longest_down_time : Z }.

(** [ClWarmupDone] and [ClFinished] count down the latches of the master. *)
Inductive ClientEffect :=
| ClPropose (dst : Path) (m : AtomicBroadcastMsg)
| ClPartition (dst : Path) (m : PartitioningExpMsg)
| ClStop (dst : Path)
| ClSchedule (handle : nat) (delay : Z) (timer : ClientTimer)
| ClSchedulePeriodic (handle : nat) (delay : Z) (timer : ClientTimer)
| ClCancel (handle : nat)
| ClWarmupDone
| ClFinished
| ClReplyStop (r : MetaResults).

Definition RECONFIG_ID : Z := 0.
Definition WINDOW_DURATION : Z := 5000.
Definition KILL_TIMEOUT : Z := 200000.

Module Client.
Section client.
Context `{BufOps}.

Record t := mk {
  exp_duration : Z;
  num_concurrent_proposals : Z;
  nodes : list (Z * Path);
  network_scenario : NetworkScenario;
  reconfig : option (ReconfigurationPolicy * list Z);
  latest_proposal_id : Z;
  responses : gmap Z (option Z);
  pending_proposals : gmap Z ProposalMetaData;
  timeout : Z;
  short_timeout : Z;
  current_leader : Z;
  leader_round : Z;
  state : ExperimentState;
  current_config : list Z;
  num_timed_out : Z;
  num_retried : Z;
  leader_changes : list (Z * (Z * Z));
  stop_ask : bool;
  window_timer : option nat;
  warmup_decided : Z;
  windowed_result : WindowedResult;
  reconfig_start_ts : option Z;
  reconfig_end_ts : option Z;
  partition_timer : option nat;
  longest_down_time : option Z;
  partition_ts : option Z;
  proposal_id_when_partitioned : option Z;
  lagging_delay_ms : Z;
  warmup_duration : Z;
  next_handle : nat }.

Definition set_nodes (c : t) (x : list (Z * Path)) : t :=
  mk (exp_duration c) (num_concurrent_proposals c) x (network_scenario c)
     (reconfig c) (latest_proposal_id c) (responses c) (pending_proposals c)
     (timeout c) (short_timeout c) (current_leader c) (leader_round c) (state c)
     (current_config c) (num_timed_out c) (num_retried c) (leader_changes c)
     (stop_ask c) (window_timer c) (warmup_decided c) (windowed_result c)
     (reconfig_start_ts c) (reconfig_end_ts c) (partition_timer c)
     (longest_down_time c) (partition_ts c) (proposal_id_when_partitioned c)
     (lagging_delay_ms c) (warmup_duration c) (next_handle c).

Definition set_reconfig (c : t) (x : option (ReconfigurationPolicy * list Z)) : t :=
  mk (exp_duration c) (num_concurrent_proposals c) (nodes c) (network_scenario c) x
     (latest_proposal_id c) (responses c) (pending_proposals c) (timeout c)
     (short_timeout c) (current_leader c) (leader_round c) (state c) (current_config c)
     (num_timed_out c) (num_retried c) (leader_changes c) (stop_ask c) (window_timer c)
     (warmup_decided c) (windowed_result c) (reconfig_start_ts c) (reconfig_end_ts c)
     (partition_timer c) (longest_down_time c) (partition_ts c)
     (proposal_id_when_partitioned c) (lagging_delay_ms c) (warmup_duration c)
     (next_handle c).

Definition set_latest_proposal_id (c : t) (x : Z) : t :=
  mk (exp_duration c) (num_concurrent_proposals c) (nodes c) (network_scenario c)
     (reconfig c) x (responses c) (pending_proposals c) (timeout c) (short_timeout c)
     (current_leader c) (leader_round c) (state c) (current_config c) (num_timed_out c)
     (num_retried c) (leader_changes c) (stop_ask c) (window_timer c)
     (warmup_decided c) (windowed_result c) (reconfig_start_ts c) (reconfig_end_ts c)
     (partition_timer c) (longest_down_time c) (partition_ts c)
     (proposal_id_when_partitioned c) (lagging_delay_ms c) (warmup_duration c)
     (next_handle c).

Definition set_responses (c : t) (x : gmap Z (option Z)) : t :=
  mk (exp_duration c) (num_concurrent_proposals c) (nodes c) (network_scenario c)
     (reconfig c) (latest_proposal_id c) x (pending_proposals c) (timeout c)
     (short_timeout c) (current_leader c) (leader_round c) (state c) (current_config c)
     (num_timed_out c) (num_retried c) (leader_changes c) (stop_ask c) (window_timer c)
     (warmup_decided c) (windowed_result c) (reconfig_start_ts c) (reconfig_end_ts c)
     (partition_timer c) (longest_down_time c) (partition_ts c)
     (proposal_id_when_partitioned c) (lagging_delay_ms c) (warmup_duration c)
     (next_handle c).

Definition set_pending_proposals (c : t) (x : gmap Z ProposalMetaData) : t :=
  mk (exp_duration c) (num_concurrent_proposals c) (nodes c) (network_scenario c)
     (reconfig c) (latest_proposal_id c) (responses c) x (timeout c) (short_timeout c)
     (current_leader c) (leader_round c) (state c) (current_config c) (num_timed_out c)
     (num_retried c) (leader_changes c) (stop_ask c) (window_timer c)
     (warmup_decided c) (windowed_result c) (reconfig_start_ts c) (reconfig_end_ts c)
     (partition_timer c) (longest_down_time c) (partition_ts c)
     (proposal_id_when_partitioned c) (lagging_delay_ms c) (warmup_duration c)
     (next_handle c).

Definition set_state (c : t) (x : ExperimentState) : t :=
  mk (exp_duration c) (num_concurrent_proposals c) (nodes c) (network_scenario c)
     (reconfig c) (latest_proposal_id c) (responses c) (pending_proposals c)
     (timeout c) (short_timeout c) (current_leader c) (leader_round c) x
     (current_config c) (num_timed_out c) (num_retried c) (leader_changes c)
     (stop_ask c) (window_timer c) (warmup_decided c) (windowed_result c)
     (reconfig_start_ts c) (reconfig_end_ts c) (partition_timer c)
     (longest_down_time c) (partition_ts c) (proposal_id_when_partitioned c)
     (lagging_delay_ms c) (warmup_duration c) (next_handle c).

Definition set_current_config (c : t) (x : list Z) : t :=
  mk (exp_duration c) (num_concurrent_proposals c) (nodes c) (network_scenario c)
     (reconfig c) (latest_proposal_id c) (responses c) (pending_proposals c)
     (timeout c) (short_timeout c) (current_leader c) (leader_round c) (state c) x
     (num_timed_out c) (num_retried c) (leader_changes c) (stop_ask c) (window_timer c)
     (warmup_decided c) (windowed_result c) (reconfig_start_ts c) (reconfig_end_ts c)
     (partition_timer c) (longest_down_time c) (partition_ts c)
     (proposal_id_when_partitioned c) (lagging_delay_ms c) (warmup_duration c)
     (next_handle c).

Definition set_num_timed_out (c : t) (x : Z) : t :=
  mk (exp_duration c) (num_concurrent_proposals c) (nodes c) (network_scenario c)
     (reconfig c) (latest_proposal_id c) (responses c) (pending_proposals c)
     (timeout c) (short_timeout c) (current_leader c) (leader_round c) (state c)
     (current_config c) x (num_retried c) (leader_changes c) (stop_ask c)
     (window_timer c) (warmup_decided c) (windowed_result c) (reconfig_start_ts c)
     (reconfig_end_ts c) (partition_timer c) (longest_down_time c) (partition_ts c)
     (proposal_id_when_partitioned c) (lagging_delay_ms c) (warmup_duration c)
     (next_handle c).

Definition set_num_retried (c : t) (x : Z) : t :=
  mk (exp_duration c) (num_concurrent_proposals c) (nodes c) (network_scenario c)
     (reconfig c) (latest_proposal_id c) (responses c) (pending_proposals c)
     (timeout c) (short_timeout c) (current_leader c) (leader_round c) (state c)
     (current_config c) (num_timed_out c) x (leader_changes c) (stop_ask c)
     (window_timer c) (warmup_decided c) (windowed_result c) (reconfig_start_ts c)
     (reconfig_end_ts c) (partition_timer c) (longest_down_time c) (partition_ts c)
     (proposal_id_when_partitioned c) (lagging_delay_ms c) (warmup_duration c)
     (next_handle c).

Definition set_leader_changes (c : t) (x : list (Z * (Z * Z))) : t :=
  mk (exp_duration c) (num_concurrent_proposals c) (nodes c) (network_scenario c)
     (reconfig c) (latest_proposal_id c) (responses c) (pending_proposals c)
     (timeout c) (short_timeout c) (current_leader c) (leader_round c) (state c)
     (current_config c) (num_timed_out c) (num_retried c) x (stop_ask c)
     (window_timer c) (warmup_decided c) (windowed_result c) (reconfig_start_ts c)
     (reconfig_end_ts c) (partition_timer c) (longest_down_time c) (partition_ts c)
     (proposal_id_when_partitioned c) (lagging_delay_ms c) (warmup_duration c)
     (next_handle c).

Definition set_stop_ask (c : t) (x : bool) : t :=
  mk (exp_duration c) (num_concurrent_proposals c) (nodes c) (network_scenario c)
     (reconfig c) (latest_proposal_id c) (responses c) (pending_proposals c)
     (timeout c) (short_timeout c) (current_leader c) (leader_round c) (state c)
     (current_config c) (num_timed_out c) (num_retried c) (leader_changes c) x
     (window_timer c) (warmup_decided c) (windowed_result c) (reconfig_start_ts c)
     (reconfig_end_ts c) (partition_timer c) (longest_down_time c) (partition_ts c)
     (proposal_id_when_partitioned c) (lagging_delay_ms c) (warmup_duration c)
     (next_handle c).

Definition set_window_timer (c : t) (x : option nat) : t :=
  mk (exp_duration c) (num_concurrent_proposals c) (nodes c) (network_scenario c)
     (reconfig c) (latest_proposal_id c) (responses c) (pending_proposals c)
     (timeout c) (short_timeout c) (current_leader c) (leader_round c) (state c)
     (current_config c) (num_timed_out c) (num_retried c) (leader_changes c)
     (stop_ask c) x (warmup_decided c) (windowed_result c) (reconfig_start_ts c)
     (reconfig_end_ts c) (partition_timer c) (longest_down_time c) (partition_ts c)
     (proposal_id_when_partitioned c) (lagging_delay_ms c) (warmup_duration c)
     (next_handle c).

Definition set_warmup_decided (c : t) (x : Z) : t :=
  mk (exp_duration c) (num_concurrent_proposals c) (nodes c) (network_scenario c)
     (reconfig c) (latest_proposal_id c) (responses c) (pending_proposals c)
     (timeout c) (short_timeout c) (current_leader c) (leader_round c) (state c)
     (current_config c) (num_timed_out c) (num_retried c) (leader_changes c)
     (stop_ask c) (window_timer c) x (windowed_result c) (reconfig_start_ts c)
     (reconfig_end_ts c) (partition_timer c) (longest_down_time c) (partition_ts c)
     (proposal_id_when_partitioned c) (lagging_delay_ms c) (warmup_duration c)
     (next_handle c).

Definition set_windowed_result (c : t) (x : WindowedResult) : t :=
  mk (exp_duration c) (num_concurrent_proposals c) (nodes c) (network_scenario c)
     (reconfig c) (latest_proposal_id c) (responses c) (pending_proposals c)
     (timeout c) (short_timeout c) (current_leader c) (leader_round c) (state c)
     (current_config c) (num_timed_out c) (num_retried c) (leader_changes c)
     (stop_ask c) (window_timer c) (warmup_decided c) x (reconfig_start_ts c)
     (reconfig_end_ts c) (partition_timer c) (longest_down_time c) (partition_ts c)
     (proposal_id_when_partitioned c) (lagging_delay_ms c) (warmup_duration c)
     (next_handle c).

Definition set_reconfig_start_ts (c : t) (x : option Z) : t :=
  mk (exp_duration c) (num_concurrent_proposals c) (nodes c) (network_scenario c)
     (reconfig c) (latest_proposal_id c) (responses c) (pending_proposals c)
     (timeout c) (short_timeout c) (current_leader c) (leader_round c) (state c)
     (current_config c) (num_timed_out c) (num_retried c) (leader_changes c)
     (stop_ask c) (window_timer c) (warmup_decided c) (windowed_result c) x
     (reconfig_end_ts c) (partition_timer c) (longest_down_time c) (partition_ts c)
     (proposal_id_when_partitioned c) (lagging_delay_ms c) (warmup_duration c)
     (next_handle c).

Definition set_reconfig_end_ts (c : t) (x : option Z) : t :=
  mk (exp_duration c) (num_concurrent_proposals c) (nodes c) (network_scenario c)
     (reconfig c) (latest_proposal_id c) (responses c) (pending_proposals c)
     (timeout c) (short_timeout c) (current_leader c) (leader_round c) (state c)
     (current_config c) (num_timed_out c) (num_retried c) (leader_changes c)
     (stop_ask c) (window_timer c) (warmup_decided c) (windowed_result c)
     (reconfig_start_ts c) x (partition_timer c) (longest_down_time c) (partition_ts c)
     (proposal_id_when_partitioned c) (lagging_delay_ms c) (warmup_duration c)
     (next_handle c).

Definition set_partition_timer (c : t) (x : option nat) : t :=
  mk (exp_duration c) (num_concurrent_proposals c) (nodes c) (network_scenario c)
     (reconfig c) (latest_proposal_id c) (responses c) (pending_proposals c)
     (timeout c) (short_timeout c) (current_leader c) (leader_round c) (state c)
     (current_config c) (num_timed_out c) (num_retried c) (leader_changes c)
     (stop_ask c) (window_timer c) (warmup_decided c) (windowed_result c)
     (reconfig_start_ts c) (reconfig_end_ts c) x (longest_down_time c) (partition_ts c)
     (proposal_id_when_partitioned c) (lagging_delay_ms c) (warmup_duration c)
     (next_handle c).

Definition set_longest_down_time (c : t) (x : option Z) : t :=
  mk (exp_duration c) (num_concurrent_proposals c) (nodes c) (network_scenario c)
     (reconfig c) (latest_proposal_id c) (responses c) (pending_proposals c)
     (timeout c) (short_timeout c) (current_leader c) (leader_round c) (state c)
     (current_config c) (num_timed_out c) (num_retried c) (leader_changes c)
     (stop_ask c) (window_timer c) (warmup_decided c) (windowed_result c)
     (reconfig_start_ts c) (reconfig_end_ts c) (partition_timer c) x (partition_ts c)
     (proposal_id_when_partitioned c) (lagging_delay_ms c) (warmup_duration c)
     (next_handle c).

Definition set_partition_ts (c : t) (x : option Z) : t :=
  mk (exp_duration c) (num_concurrent_proposals c) (nodes c) (network_scenario c)
     (reconfig c) (latest_proposal_id c) (responses c) (pending_proposals c)
     (timeout c) (short_timeout c) (current_leader c) (leader_round c) (state c)
     (current_config c) (num_timed_out c) (num_retried c) (leader_changes c)
     (stop_ask c) (window_timer c) (warmup_decided c) (windowed_result c)
     (reconfig_start_ts c) (reconfig_end_ts c) (partition_timer c)
     (longest_down_time c) x (proposal_id_when_partitioned c) (lagging_delay_ms c)
     (warmup_duration c) (next_handle c).

Definition set_proposal_id_when_partitioned (c : t) (x : option Z) : t :=
  mk (exp_duration c) (num_concurrent_proposals c) (nodes c) (network_scenario c)
     (reconfig c) (latest_proposal_id c) (responses c) (pending_proposals c)
     (timeout c) (short_timeout c) (current_leader c) (leader_round c) (state c)
     (current_config c) (num_timed_out c) (num_retried c) (leader_changes c)
     (stop_ask c) (window_timer c) (warmup_decided c) (windowed_result c)
     (reconfig_start_ts c) (reconfig_end_ts c) (partition_timer c)
     (longest_down_time c) (partition_ts c) x (lagging_delay_ms c) (warmup_duration c)
     (next_handle c).

Definition set_next_handle (c : t) (x : nat) : t :=
  mk (exp_duration c) (num_concurrent_proposals c) (nodes c) (network_scenario c)
     (reconfig c) (latest_proposal_id c) (responses c) (pending_proposals c)
     (timeout c) (short_timeout c) (current_leader c) (leader_round c) (state c)
     (current_config c) (num_timed_out c) (num_retried c) (leader_changes c)
     (stop_ask c) (window_timer c) (warmup_decided c) (windowed_result c)
     (reconfig_start_ts c) (reconfig_end_ts c) (partition_timer c)
     (longest_down_time c) (partition_ts c) (proposal_id_when_partitioned c)
     (lagging_delay_ms c) (warmup_duration c) x.

Definition set_leader (c : t) (pid round : Z) : t :=
  mk (exp_duration c) (num_concurrent_proposals c) (nodes c) (network_scenario c)
     (reconfig c) (latest_proposal_id c) (responses c) (pending_proposals c)
     (timeout c) (short_timeout c) pid round (state c) (current_config c)
     (num_timed_out c) (num_retried c) (leader_changes c) (stop_ask c) (window_timer c)
     (warmup_decided c) (windowed_result c) (reconfig_start_ts c) (reconfig_end_ts c)
     (partition_timer c) (longest_down_time c) (partition_ts c)
     (proposal_id_when_partitioned c) (lagging_delay_ms c) (warmup_duration c)
     (next_handle c).

Definition with_ (initial_config : list Z) (exp_duration num_concurrent_proposals : Z)
    (nodes : list (Z * Path)) (network_scenario : NetworkScenario)
    (reconfig : option (ReconfigurationPolicy * list Z))
    (timeout short_timeout lagging_delay_ms warmup_duration : Z) : t :=
  mk exp_duration num_concurrent_proposals nodes network_scenario reconfig 0 ∅ ∅ timeout
     short_timeout 0 0 Setup initial_config 0 0 [] false None 0 (mkWindowedResult 0 []) None None
     None None None None lagging_delay_ms warmup_duration 0.

(** [nodes] is a [HashMap]: an association list in the order of its iteration. *)
Fixpoint assoc (l : list (Z * Path)) (k : Z) : option Path :=
  match l with
  | [] => None
  | (k', v) :: l => if k' =? k then Some v else assoc l k
  end.

Definition get_node (c : t) (pid : Z) : option Path := assoc (nodes c) pid.

(** [schedule_once] returns a fresh handle. *)
Definition schedule_once (c : t) (delay : Z) (timer : ClientTimer) : t * nat * list ClientEffect :=
  (set_next_handle c (S (next_handle c)), next_handle c, [ClSchedule (next_handle c) delay timer]).

Definition schedule_periodic (c : t) (delay : Z) (timer : ClientTimer)
    : t * nat * list ClientEffect :=
  (set_next_handle c (S (next_handle c)), next_handle c,
   [ClSchedulePeriodic (next_handle c) delay timer]).

(** ** Proposing *)

(** [None] is the [unwrap] of an unknown leader. *)
Definition propose_normal (c : t) (id : Z) : option (list ClientEffect) :=
  leader ← get_node c (current_leader c);
  Some [ClPropose leader (ABProposal (mkProposal (PaxosComp.create_raw_proposal id)))].

Definition propose_reconfiguration (c : t) (node : Path) : option (list ClientEffect) :=
  '(policy, reconfig) ← reconfig c;
  Some [ClPropose node (ABReconfigurationProposal (mkReconfigurationProposal policy reconfig))].

Definition get_timeout (c : t) : Z :=
  match partition_ts c, longest_down_time c with
  | Some _, None => short_timeout c
  | _, _ => timeout c
  end.

Fixpoint propose_loop (c : t) (start_time : option Z) (ids : list Z)
    : option (t * list ClientEffect) :=
  match ids with
  | [] => Some (c, [])
  | id :: ids =>
      e1 ← propose_normal c id;
      let '(c, timer, e2) := schedule_once c (get_timeout c) (TProposal id) in
      let c := set_pending_proposals c
                 (<[id := mkProposalMetaData start_time timer]> (pending_proposals c)) in
      '(c, e3) ← propose_loop c start_time ids;
      Some (c, e1 ++ e2 ++ e3)
  end.

(** [from..=to]. *)
Definition inclusive_range (from to : Z) : list Z :=
  if from <=? to then seqZ from (to - from + 1) else [].

Definition send_concurrent_proposals (c : t) (now : Z) : option (t * list ClientEffect) :=
  let num_inflight := Z.of_nat (size (pending_proposals c)) in
  if (num_inflight =? num_concurrent_proposals c) || (current_leader c =? 0) then Some (c, [])
  else
    let available_n := num_concurrent_proposals c -u64 num_inflight in
    let from := latest_proposal_id c +u64 1 in
    let to := latest_proposal_id c +u64 available_n in
    let start_time := if num_concurrent_proposals c =? 1 then Some now else None in
    '(c, effs) ← propose_loop c start_time (inclusive_range from to);
    Some (set_latest_proposal_id c to, effs).

Definition handle_normal_response (c : t) (id : Z) (latency_res : option Z) : t :=
  match state c with
  | Running => set_responses c (<[id := latency_res]> (responses c))
  | WarmUp => set_warmup_decided c (warmup_decided c +u64 1)
  | _ => c
  end.

(** [None] is the [unreachable!] in any other state. *)
Definition handle_reconfig_response (c : t) (rr : ReconfigurationResp) (now : Z)
    : option (t * list ClientEffect) :=
  match pending_proposals c !! RECONFIG_ID with
  | None => Some (c, [])
  | Some proposal_meta =>
      let c := set_pending_proposals c (delete RECONFIG_ID (pending_proposals c)) in
      let c := set_reconfig_end_ts c (Some now) in
      let cancelled := [ClCancel (pm_timer proposal_meta)] in
      match state c with
      | PendingReconfiguration => Some (set_state c Finished, cancelled ++ [ClFinished])
      | Running =>
          let c := set_reconfig c None in
          let c := set_current_config c (rr_current_configuration rr) in
          let c :=
            if (0 <? rr_latest_leader rr) && negb (current_leader c =? rr_latest_leader rr)
               && (leader_round c <? rr_leader_round rr) then
              let c := set_leader c (rr_latest_leader rr) (rr_leader_round rr) in
              set_leader_changes c
                (leader_changes c ++ [(now, (current_leader c, leader_round c))])
            else c in
          '(c, effs) ← send_concurrent_proposals c now;
          Some (c, cancelled ++ effs)
      | _ => None
      end
  end.

(** ** Timers *)

Definition proposal_timeout (c : t) (id : Z) : option (t * list ClientEffect) :=
  match responses c !! id with
  | Some _ => Some (c, [])
  | None =>
      let c := set_num_timed_out c (num_timed_out c +u64 1) in
      let timeout := get_timeout c in
      if bool_decide (state c = Running) then
        e1 ← propose_normal c id;
        let '(c, _, e2) := schedule_once c timeout (TProposal id) in
        Some (c, e1 ++ e2)
      else Some (c, [])
  end.

Definition reconfig_timeout (c : t) : option (t * list ClientEffect) :=
  leader ← get_node c (current_leader c);
  e1 ← propose_reconfiguration c leader;
  let '(c, timer, e2) := schedule_once c (timeout c) TReconfig in
  proposal_meta ← pending_proposals c !! RECONFIG_ID;
  Some (set_pending_proposals c
          (<[RECONFIG_ID := mkProposalMetaData (pm_start_time proposal_meta) timer]>
             (pending_proposals c)), e1 ++ e2).

Definition cancel (timer : option nat) : list ClientEffect :=
  match timer with Some h => [ClCancel h] | None => [] end.

Definition experiment_timeout (c : t) (now : Z) : option (t * list ClientEffect) :=
  match reconfig c with
  | None =>
      let e1 := cancel (partition_timer c) in
      let c := set_partition_timer c None in
      c ← (if negb (bool_decide (network_scenario c = FullyConnected))
              && bool_decide (longest_down_time c = None) then
             ts ← partition_ts c;
             Some (set_longest_down_time (set_partition_ts c None) (Some (now - ts)))
           else Some c);
      let e2 := cancel (window_timer c) in
      let c := set_window_timer c None in
      Some (set_state c Finished, e1 ++ [ClFinished] ++ e2)
  | Some _ => Some (set_state c PendingReconfiguration, [])
  end.

(** ** Stopping *)

(** [v.sort()] of the pairs (id, latency); the ids are distinct. *)
Definition by_id (x y : Z * option Z) : Prop := x.1 <= y.1.
#[global] Instance by_id_dec x y : Decision (by_id x y).
Proof. unfold by_id. apply _. Defined.

(** [None] is the [unwrap] of a missing ask, or of a reconfiguration that has no end. *)
Definition reply_stop_ask (c : t) : option (t * list ClientEffect) :=
  if stop_ask c then
    let c := set_stop_ask c false in
    let num_decided := Z.of_nat (size (responses c)) in
    let v := merge_sort by_id (filter (fun x => is_Some x.2) (map_to_list (responses c))) in
    let latencies := omap snd v in
    let c := set_responses c ∅ in
    reconfig_ts ←
      match reconfig_start_ts c with
      | Some start_ts => end_ts ← reconfig_end_ts c; Some (Some (start_ts, end_ts))
      | None => Some None
      end;
    let results :=
      mkMetaResults num_decided (warmup_decided c) (num_timed_out c) (num_retried c) latencies
        (leader_changes c) (windowed_result c) reconfig_ts (default 0 (longest_down_time c)) in
    let c := set_leader_changes c [] in
    Some (set_windowed_result c (mkWindowedResult 0 []), [ClReplyStop results])
  else None.

Definition kill_timeout (c : t) : option (t * list ClientEffect) :=
  match nodes c with
  | [] => Some (c, [])
  | _ => reply_stop_ask c
  end.

Definition send_stop (c : t) : t * list ClientEffect :=
  let e1 := map (fun kv : Z * Path => ClStop kv.2) (nodes c) in
  let '(c, _, e2) := schedule_once c KILL_TIMEOUT TKill in
  (c, e1 ++ e2).

(** ** Simulated partitions *)

Definition disconnect (ap : Path) (peers : list Z) (lagging_peer : option Z) : ClientEffect :=
  ClPartition ap (DisconnectPeers peers false lagging_peer).

Definition schedule_partition_recovery (c : t) (d : Z) : t * list ClientEffect :=
  let '(c, timer, effs) := schedule_once c d TRecovery in
  (set_partition_timer c (Some timer), effs).

Definition recover_partition (c : t) : list ClientEffect :=
  map (fun kv : Z * Path => ClPartition kv.2 RecoverPeers) (nodes c).

Definition recovery_timeout (c : t) : t * list ClientEffect :=
  (set_partition_timer c None, cancel (partition_timer c) ++ recover_partition c).

Definition keys (c : t) : list Z := map fst (nodes c).

(** The closure that completes the constrained-election scenario after the lag. *)
Definition lagging_timeout (c : t) (followers : list Z) (lagging_follower : Z) (leader_ap : Path)
    : option (t * list ClientEffect) :=
  let non_lagging_followers := filter (fun p => p <> lagging_follower) followers in
  effs ← mapM (fun non_lagging =>
           let disconnect_peers :=
             filter (fun p => p <> lagging_follower /\ p <> non_lagging) (keys c) in
           ap ← get_node c non_lagging;
           Some (disconnect ap disconnect_peers None)) non_lagging_followers;
  Some (set_proposal_id_when_partitioned c (Some (latest_proposal_id c)),
        effs ++ [disconnect leader_ap non_lagging_followers (Some lagging_follower)]).

(** [None] is a panic: no leader, no follower, or the scenario that is not
    implemented. *)
Definition create_partition (c : t) (now : Z) : option (t * list ClientEffect) :=
  if current_leader c =? 0 then None
  else
    leader_ap ← get_node c (current_leader c);
    let followers := filter (fun p => p <> current_leader c) (keys c) in
    let c := set_partition_ts c (Some now) in
    match network_scenario c with
    | QuorumLoss duration =>
        fully_connected_node ← head followers;
        let rest := filter (fun p => p <> fully_connected_node) (keys c) in
        effs ← mapM (fun p => ap ← get_node c p; Some (disconnect ap rest None)) rest;
        let c := set_proposal_id_when_partitioned c (Some (latest_proposal_id c)) in
        let '(c, e) := schedule_partition_recovery c duration in
        Some (c, effs ++ e)
    | ConstrainedElection duration =>
        lagging_follower ← head followers;
        lagging_ap ← get_node c lagging_follower;
        let '(c, _, e1) := schedule_once c (lagging_delay_ms c)
                             (TLagging followers lagging_follower leader_ap) in
        let '(c, e2) := schedule_partition_recovery c duration in
        Some (c, [disconnect lagging_ap [current_leader c] None;
                  disconnect leader_ap [] (Some lagging_follower)] ++ e1 ++ e2)
    | Chained duration =>
        disconnected_follower ← head followers;
        ap ← get_node c disconnected_follower;
        let c := set_proposal_id_when_partitioned c (Some (latest_proposal_id c)) in
        let '(c, e) := schedule_partition_recovery c duration in
        Some (c, [disconnect ap [current_leader c] None;
                  disconnect leader_ap [disconnected_follower] None] ++ e)
    | PeriodicFull _ => None
    | FullyConnected => Some (c, [])
    end.

(** ** Messages *)

Definition window_timeout (c : t) : t :=
  set_windowed_result c
    (mkWindowedResult (num_warmup_windows (windowed_result c))
       (windows (windowed_result c) ++ [warmup_decided c + Z.of_nat (size (responses c))])).

Definition start_warmup (c : t) (now : Z) : option (t * list ClientEffect) :=
  let c := set_state c WarmUp in
  '(c, e1) ← send_concurrent_proposals c now;
  let '(c, _, e2) := schedule_once c (warmup_duration c) TWarmup in
  match reconfig c with
  | Some _ =>
      let '(c, timer, e3) := schedule_periodic c WINDOW_DURATION TWindow in
      Some (set_window_timer c (Some timer), e1 ++ e2 ++ e3)
  | None => Some (c, e1 ++ e2)
  end.

Inductive LocalClientMessage := LRun | LStop.

(** [None] is the failed [assert_ne!] or [expect]. *)
Definition run (c : t) (now : Z) : option (t * list ClientEffect) :=
  let c := set_state c Running in
  let c := set_windowed_result c
             (mkWindowedResult (length (windows (windowed_result c)))
                (windows (windowed_result c))) in
  if current_leader c =? 0 then None
  else
    '(c, e1) ← create_partition c now;
    let c := set_leader_changes c
               (leader_changes c ++ [(now, (current_leader c, leader_round c))]) in
    let '(c, _, e2) := schedule_once c (exp_duration c) TExperiment in
    match reconfig c with
    | Some _ =>
        leader ← get_node c (current_leader c);
        e3 ← propose_reconfiguration c leader;
        let c := set_reconfig_start_ts c (Some now) in
        let '(c, timer, e4) := schedule_once c (timeout c) TReconfig in
        Some (set_pending_proposals c
                (<[RECONFIG_ID := mkProposalMetaData None timer]> (pending_proposals c)),
              e1 ++ e2 ++ e3 ++ e4)
    | None => Some (c, e1 ++ e2)
    end.

Definition stop (c : t) : t * list ClientEffect :=
  let e1 := map (fun kv : Z * ProposalMetaData => ClCancel (pm_timer kv.2))
                (map_to_list (pending_proposals c)) in
  let c := set_pending_proposals c ∅ in
  let '(c, e2) := send_stop c in
  (set_stop_ask c true, e1 ++ e2).

Definition receive_local (c : t) (msg : LocalClientMessage) (now : Z)
    : option (t * list ClientEffect) :=
  match msg with
  | LRun => run c now
  | LStop => Some (stop c)
  end.

(** [data.as_slice().get_u64()]. *)
Definition proposal_id (data : bytes) : option Z := fst <$> get_u64 data.

(** The first response to a proposal made after the partition ends the down time. *)
Definition note_down_time (c : t) (id now : Z) : option t :=
  match proposal_id_when_partitioned c, longest_down_time c with
  | Some when_partitioned, None =>
      if negb (bool_decide (network_scenario c = FullyConnected)) && (when_partitioned <? id)
         && negb (bool_decide (state c = Finished)) then
        ts ← partition_ts c;
        Some (set_longest_down_time c (Some (now - ts)))
      else Some c
  | _, _ => Some c
  end.

(** A new leader in a response. *)
Definition note_leader (c : t) (leader round now : Z) : t :=
  if bool_decide (leader ∈ current_config c) && (leader_round c <? round) then
    if current_leader c =? leader then set_leader c (current_leader c) round
    else set_leader_changes (set_leader c leader round)
           (leader_changes c ++ [(now, (leader, round))])
  else c.

Definition handle_proposal_resp (c : t) (pr : ProposalResp) (now : Z)
    : option (t * list ClientEffect) :=
  if bool_decide (state c = Finished) then Some (c, [])
  else
    id ← proposal_id (resp_data pr);
    match pending_proposals c !! id with
    | None => Some (c, [])
    | Some proposal_meta =>
        let c := set_pending_proposals c (delete id (pending_proposals c)) in
        c ← note_down_time c id now;
        let latency := (fun start_time => now - start_time) <$> pm_start_time proposal_meta in
        let cancelled := [ClCancel (pm_timer proposal_meta)] in
        let c := note_leader c (resp_latest_leader pr) (resp_leader_round pr) now in
        let c := handle_normal_response c id latency in
        match state c with
        | Running | WarmUp =>
            '(c, effs) ← send_concurrent_proposals c now;
            Some (c, cancelled ++ effs)
        | _ => Some (c, cancelled)
        end
    end.

(** [None] is the failed [assert!(pid > 0)]. *)
Definition handle_leader (c : t) (pid round now : Z) : option (t * list ClientEffect) :=
  match state c with
  | Setup => if 0 <? pid then start_warmup (set_leader c pid round) now else None
  | Running | WarmUp =>
      if leader_round c <? round then
        if current_leader c =? pid then Some (set_leader c pid round, [])
        else Some (set_leader_changes (set_leader c pid round)
                     (leader_changes c ++ [(now, (pid, round))]), [])
      else Some (c, [])
  | _ => Some (c, [])
  end.

(** A node returned the proposal. *)
Definition handle_proposal (c : t) (p : Proposal) : option (t * list ClientEffect) :=
  id ← proposal_id (proposal_data p);
  match responses c !! id with
  | None =>
      if bool_decide (state c = Running) then
        effs ← propose_normal c id;
        Some (set_num_retried c (num_retried c +u64 1), effs)
      else Some (c, [])
  | Some _ => Some (c, [])
  end.

Definition receive_atomic_broadcast (c : t) (m : AtomicBroadcastMsg) (now : Z)
    : option (t * list ClientEffect) :=
  match m with
  | ABLeader pid round => handle_leader c pid round now
  | ABReconfigurationResp rr => handle_reconfig_response c rr now
  | ABProposalResp pr => handle_proposal_resp c pr now
  | ABProposal p => handle_proposal c p
  | ABReconfigurationProposal _ => Some (c, [])
  end.

Definition receive_stop (c : t) (m : StopMsg) : option (t * list ClientEffect) :=
  match m with
  | StopPeer pid =>
      match get_node c pid with
      | Some _ =>
          let c := set_nodes c (filter (fun kv : Z * Path => kv.1 <> pid) (nodes c)) in
          match nodes c with
          | [] => reply_stop_ask c
          | _ => Some (c, [])
          end
      | None => Some (c, [])
      end
  | StopClient => Some (c, [])
  end.

Definition timer_timeout (c : t) (timer : ClientTimer) (now : Z)
    : option (t * list ClientEffect) :=
  match timer with
  | TProposal id => proposal_timeout c id
  | TReconfig => reconfig_timeout c
  | TExperiment => experiment_timeout c now
  | TKill => kill_timeout c
  | TRecovery => Some (recovery_timeout c)
  | TLagging followers lagging_follower leader =>
      lagging_timeout c followers lagging_follower leader
  | TWarmup => Some (c, [ClWarmupDone])
  | TWindow => Some (window_timeout c, [])
  end.

(** What can happen to the client. *)
Inductive input :=
| Local (m : LocalClientMessage)
| AtomicBroadcast (m : AtomicBroadcastMsg)
| Stop (m : StopMsg)
| Timeout (timer : ClientTimer).

Definition step (c : t) (now : Z) (i : input) : option (t * list ClientEffect) :=
  match i with
  | Local m => receive_local c m now
  | AtomicBroadcast m => receive_atomic_broadcast c m now
  | Stop m => receive_stop c m
  | Timeout timer => timer_timeout c timer now
  end.

Fixpoint steps (c : t) (inputs : list (Z * input)) : option (t * list ClientEffect) :=
  match inputs with
  | [] => Some (c, [])
  | (now, i) :: inputs =>
      '(c, e1) ← step c now i;
      '(c, e2) ← steps c inputs;
      Some (c, e1 ++ e2)
  end.
End client.
End Client.
