(* ===== verification/ClientThm.v ===== *)
(** The window of the client and the partitions it creates ([client.rs]).

    The first part is the invariant of the window of proposals through a run of the
    experiment; the second part says which links of the replicas are cut by the
    messages of each network scenario. *)

From Stdlib Require Import Strings.Byte.
From S2P Require Import Prelude MpMessages Partition Wire Election PaxosWire MsgWire.
From S2P Require Import PaxosStorage Communicator PaxosReplica PaxosComp Client.

Import MsgWire Client.

Section window.
Context `{BufOps}.

(** ** The window *)

(** The proposals in flight, without the reconfiguration. *)
Definition outstanding (c : t) : nat := size (delete RECONFIG_ID (pending_proposals c)).

Definition reconfig_pending (c : t) : nat :=
  match pending_proposals c !! RECONFIG_ID with Some _ => 1 | None => 0 end.

Lemma outstanding_size c :
  size (pending_proposals c) = (outstanding c + reconfig_pending c)%nat.
Proof.
  unfold outstanding, reconfig_pending.
  destruct (pending_proposals c !! RECONFIG_ID) as [x|] eqn:Hr.
  - rewrite map_size_delete_Some by (by eexists).
    assert (size (pending_proposals c) <> 0%nat); [|lia].
    intros Hz%map_size_empty_inv. by rewrite Hz in Hr.
  - rewrite map_size_delete_None by done. lia.
Qed.

(** What sending proposals leaves alone. *)
Definition same_rest (c c' : t) : Prop :=
  responses c' = responses c /\ state c' = state c /\ reconfig c' = reconfig c /\
  warmup_decided c' = warmup_decided c /\ current_leader c' = current_leader c /\
  stop_ask c' = stop_ask c /\ current_config c' = current_config c /\
  num_concurrent_proposals c' = num_concurrent_proposals c.

Lemma same_rest_refl c : same_rest c c.
Proof. by repeat split. Qed.
#[local] Hint Resolve same_rest_refl : core.

Lemma propose_loop_spec start ids c c' e :
  propose_loop c start ids = Some (c', e) -> NoDup ids ->
  (forall id, id ∈ ids -> pending_proposals c !! id = None) ->
  same_rest c c' /\ latest_proposal_id c' = latest_proposal_id c /\
  size (pending_proposals c') = (size (pending_proposals c) + length ids)%nat /\
  (forall id, is_Some (pending_proposals c' !! id) <->
              is_Some (pending_proposals c !! id) \/ id ∈ ids).
Proof.
  revert c e. induction ids as [|id ids IH]; intros c e H' Hnd Hnew.
  - injection H' as <- <-. split_and!; [done|done|simpl; lia|].
    intros x. rewrite elem_of_nil. tauto.
  - apply NoDup_cons in Hnd as [Hid Hnd]. cbn [propose_loop] in H'.
    apply bind_Some in H' as (e1 & He1 & H'). simpl in H'.
    apply bind_Some in H' as ([c2 e3] & Hl & [= <- <-]).
    apply IH in Hl as (Hsame & Hlat & Hsz & Hdom); [|done|].
    + split_and!; [exact Hsame|done| |].
      * rewrite Hsz. simpl. rewrite map_size_insert_None by (apply Hnew, list_elem_of_here). lia.
      * intros x. rewrite Hdom. simpl. rewrite lookup_insert_is_Some, elem_of_cons. split.
        -- intros [[->|[_ ?]]|?]; tauto.
        -- intros [?|[->|?]]; [|by left; left|by right].
           destruct (decide (id = x)); tauto.
    + intros x Hx. simpl. rewrite lookup_insert_ne by (intros ->; done).
      by apply Hnew, list_elem_of_further.
Qed.

Lemma inclusive_range_length from n :
  0 <= n -> length (inclusive_range (from + 1) (from + n)) = Z.to_nat n.
Proof.
  intros Hn. unfold inclusive_range. destruct (Z.leb_spec (from + 1) (from + n)).
  - rewrite length_seqZ. lia.
  - simpl. lia.
Qed.

Lemma inclusive_range_elem from to x : x ∈ inclusive_range from to <-> from <= x <= to.
Proof.
  unfold inclusive_range. destruct (Z.leb_spec from to).
  - rewrite elem_of_seqZ. lia.
  - rewrite elem_of_nil. lia.
Qed.

Lemma inclusive_range_NoDup from to : NoDup (inclusive_range from to).
Proof. unfold inclusive_range. destruct (_ <=? _); [apply NoDup_seqZ|constructor]. Qed.

(** Sending fills the window, with fresh ids. *)
Lemma send_spec c now c' e :
  send_concurrent_proposals c now = Some (c', e) -> current_leader c <> 0 ->
  Z.of_nat (size (pending_proposals c)) <= num_concurrent_proposals c ->
  0 <= latest_proposal_id c ->
  latest_proposal_id c + num_concurrent_proposals c < 2 ^ 64 ->
  (forall id, is_Some (pending_proposals c !! id) -> id <= latest_proposal_id c) ->
  same_rest c c' /\
  Z.of_nat (size (pending_proposals c')) = num_concurrent_proposals c /\
  latest_proposal_id c' = latest_proposal_id c +
    (num_concurrent_proposals c - Z.of_nat (size (pending_proposals c))) /\
  (forall id, is_Some (pending_proposals c' !! id) <->
     is_Some (pending_proposals c !! id) \/
     latest_proposal_id c < id <= latest_proposal_id c').
Proof.
  intros H' Hl Hsz Hlat Hfit Hid. unfold send_concurrent_proposals in H'. cbv zeta in H'.
  rewrite (proj2 (Z.eqb_neq _ _) Hl), orb_false_r in H'.
  destruct (Z.eqb_spec (Z.of_nat (size (pending_proposals c))) (num_concurrent_proposals c)) as [Heq|Hne].
  - injection H' as <- <-. split_and!; [done|done|lia|].
    intros id. split; [by left|]. intros [?|?]; [done|lia].
  - unfold u64_add, u64_sub in H'. rewrite !Z.mod_small in H' by (try rewrite Z.mod_small; lia).
    apply bind_Some in H' as ([c1 e1] & Hloop & [= <- <-]).
    set (av := num_concurrent_proposals c - Z.of_nat (size (pending_proposals c))) in *.
    apply propose_loop_spec in Hloop as (Hsame & Hlat1 & Hsz1 & Hdom).
    + rewrite inclusive_range_length in Hsz1 by lia. split_and!; [done|simpl; lia|done|].
      intros id. simpl. rewrite Hdom, inclusive_range_elem. split; (intros [?|?]; [by left|right; lia]).
    + apply inclusive_range_NoDup.
    + intros id Hin%inclusive_range_elem. apply eq_None_not_Some. intros Hs%Hid. lia.
Qed.

(** ** The invariant of the window *)

Definition active (c : t) : Prop := state c = WarmUp \/ state c = Running.

(** Every proposal made is in flight, decided, or was decided in the warm-up. *)
Definition balanced (c : t) : Prop :=
  latest_proposal_id c =
    Z.of_nat (outstanding c) + Z.of_nat (size (responses c)) + warmup_decided c.

(** The ids are below the latest one, and an answered proposal is not in flight. *)
Record tracked (n b : Z) (c : t) : Prop := {
  tr_n : num_concurrent_proposals c = n;
  tr_latest : 0 <= latest_proposal_id c <= b;
  tr_warmup : 0 <= warmup_decided c;
  tr_pending : forall id, is_Some (pending_proposals c !! id) -> 0 <= id <= latest_proposal_id c;
  tr_responses : forall id, is_Some (responses c !! id) ->
    1 <= id <= latest_proposal_id c /\ pending_proposals c !! id = None;
  tr_config : 0 ∉ current_config c;
  tr_stop : stop_ask c = false }.

Record filled (n : Z) (c : t) : Prop := {
  fi_leader : current_leader c <> 0;
  fi_lower : n <= Z.of_nat (size (pending_proposals c));
  fi_upper : Z.of_nat (outstanding c) <= n;
  fi_balanced : balanced c }.

Record fresh (c : t) : Prop := {
  fr_pending : pending_proposals c = ∅;
  fr_responses : responses c = ∅;
  fr_latest : latest_proposal_id c = 0;
  fr_warmup : warmup_decided c = 0 }.

Record window_inv (n b : Z) (c : t) : Prop := {
  wi_tracked : tracked n b c;
  wi_fresh : state c = Setup -> fresh c;
  wi_filled : active c -> filled n c }.

(** The inputs of an experiment, up to its stop: the master starts it after the warm-up,
    the proposals answered have an id of their own (they are numbered from 1), and no
    process has the pid 0. *)
Definition input_ok (c : t) (i : input) : Prop :=
  match i with
  | Local LRun => state c = WarmUp
  | Local LStop => False
  | AtomicBroadcast (ABLeader pid _) => pid <> 0
  | AtomicBroadcast (ABProposalResp pr) => proposal_id (resp_data pr) <> Some RECONFIG_ID
  | AtomicBroadcast (ABReconfigurationResp rr) => 0 ∉ rr_current_configuration rr
  | _ => True
  end.

Fixpoint inputs_ok (c : t) (inputs : list (Z * input)) : Prop :=
  match inputs with
  | [] => True
  | (now, i) :: inputs =>
      input_ok c i /\
      match step c now i with Some (c, _) => inputs_ok c inputs | None => True end
  end.

Lemma tracked_weaken n b b' c : tracked n b c -> b <= b' -> tracked n b' c.
Proof. intros [] ?. constructor; auto; lia. Qed.

Lemma refill n b c now c' e :
  send_concurrent_proposals c now = Some (c', e) -> tracked n b c -> active c ->
  current_leader c <> 0 -> Z.of_nat (size (pending_proposals c)) <= n -> balanced c ->
  0 < n -> b + n < 2 ^ 64 -> window_inv n (b + n) c'.
Proof.
  intros Hs [Hn Hlat Hw Hp Hr Hcfg Hst] Hact Hl Hsz Hbal Hpos Hfit.
  apply send_spec in Hs as (Hsame & Hsz' & Hlat' & Hdom); [|by rewrite ?Hn; try lia..|].
  - destruct Hsame as (Er & Es & _ & Ew & El & Est & Ec & En).
    assert (Hrec : reconfig_pending c' = reconfig_pending c).
    { unfold reconfig_pending. pose proof (Hdom RECONFIG_ID) as Hd. unfold RECONFIG_ID in *.
      destruct (pending_proposals c' !! 0), (pending_proposals c !! 0); try done.
      - destruct Hd as [Hd _]. destruct Hd as [[? [=]]|?]; [by eexists|lia].
      - destruct Hd as [_ Hd]. destruct Hd as [? [=]]. left. by eexists. }
    pose proof (outstanding_size c). pose proof (outstanding_size c').
    constructor.
    + constructor; rewrite ?Er, ?Ew, ?Est, ?Ec, ?En; try done; [lia| |].
      * intros id [Hi%Hp|]%Hdom; lia.
      * intros id Hi%Hr. split; [lia|]. apply eq_None_not_Some. intros [Hs|]%Hdom; [|lia].
        destruct Hi as [_ Hi]. rewrite Hi in Hs. by destruct Hs.
    + rewrite Es. intros Hset. destruct Hact as [Ha|Ha]; rewrite Ha in Hset; discriminate.
    + intros _. unfold balanced in *. constructor; unfold balanced; rewrite ?Er, ?Ew; try congruence; lia.
  - intros id Hi%Hp. lia.
Qed.

(** *** Handlers that leave the window alone *)

Definition view (c : t) :=
  (num_concurrent_proposals c, latest_proposal_id c, warmup_decided c, pending_proposals c,
   responses c, (stop_ask c, state c)).

Definition kept (c c' : t) : Prop :=
  view c' = view c /\ current_config c' = current_config c /\
  (current_leader c <> 0 -> current_leader c' <> 0).

Lemma kept_refl c : kept c c.
Proof. done. Qed.
#[local] Hint Resolve kept_refl : core.

Lemma kept_trans c1 c2 c3 : kept c1 c2 -> kept c2 c3 -> kept c1 c3.
Proof. intros (? & ? & ?) (? & ? & ?). split_and!; [congruence..|auto]. Qed.

Lemma tracked_kept n b c c' : tracked n b c -> kept c c' -> tracked n b c'.
Proof.
  intros [] ([= En El Ew Ep Er Est Es] & Ec & Hl).
  constructor; congruence || (rewrite ?El, ?Ep, ?Er, ?Ew; done).
Qed.

Lemma active_kept c c' : active c -> kept c c' -> active c'.
Proof. intros Ha ([= En El Ew Ep Er Est Es] & _). unfold active. by rewrite Es. Qed.

Lemma balanced_kept c c' : balanced c -> kept c c' -> balanced c'.
Proof.
  intros Hb ([= En El Ew Ep Er Est Es] & _). unfold balanced, outstanding in *.
  by rewrite El, Ep, Er, Ew.
Qed.

Lemma pending_kept c c' : kept c c' -> pending_proposals c' = pending_proposals c.
Proof. by intros ([=] & _). Qed.

Lemma kept_sym_view c c' : kept c c' -> state c = state c'.
Proof. by intros ([=] & _). Qed.

Lemma window_inv_kept n b c c' : window_inv n b c -> kept c c' -> window_inv n b c'.
Proof.
  intros [Ht Hs Ha] Hk. pose proof Hk as ([= En El Ew Ep Er Est Es] & Ec & Hl).
  constructor; [by eapply tracked_kept|..].
  - rewrite Es. intros [] %Hs. constructor; congruence.
  - unfold active. rewrite Es. intros [? ? ? Hb]%Ha.
    constructor; [auto|by rewrite Ep|by unfold outstanding; rewrite Ep|by eapply balanced_kept].
Qed.

Lemma handle_normal_response_kept c c' id latency :
  kept c c' -> kept (handle_normal_response c id latency) (handle_normal_response c' id latency).
Proof.
  intros ([= En El Ew Ep Er Est Es] & Ec & Hl). unfold handle_normal_response, kept, view.
  rewrite Es. destruct (state c) eqn:Ey; simpl; split_and!; congruence || auto.
Qed.

Lemma note_down_time_kept c id now c' : note_down_time c id now = Some c' -> kept c c'.
Proof. unfold note_down_time. intros H'. by handler_inv H'. Qed.

Lemma note_leader_kept c leader round now :
  0 ∉ current_config c -> kept c (note_leader c leader round now).
Proof.
  intros H0. unfold note_leader. repeat case_match; bool_to_prop; try done.
  all: split_and!; try done; simpl; intros _ ->; done.
Qed.

Lemma create_partition_kept c now c' e : create_partition c now = Some (c', e) -> kept c c'.
Proof.
  unfold create_partition, schedule_partition_recovery, schedule_once.
  intros H'. by handler_inv H'.
Qed.

Lemma run_kept c now c' e :
  run c now = Some (c', e) -> state c = WarmUp ->
  current_config c' = current_config c /\ current_leader c' <> 0 /\ state c' = Running /\
  num_concurrent_proposals c' = num_concurrent_proposals c /\
  latest_proposal_id c' = latest_proposal_id c /\ warmup_decided c' = warmup_decided c /\
  responses c' = responses c /\ stop_ask c' = stop_ask c /\
  (pending_proposals c' = pending_proposals c \/
   exists m, pending_proposals c' = <[RECONFIG_ID := m]> (pending_proposals c)).
Proof.
  unfold run, schedule_once. intros H' Hst. handler_inv H'.
  all: match goal with Hc : create_partition _ _ = Some _ |- _ =>
         apply create_partition_kept in Hc as ([=] & ? & ?) end; simpl in *.
  all: split_and!; try congruence; auto.
  all: try (right; eexists; f_equal; congruence).
Qed.

(** *** The steps that move the window *)

Lemma start_warmup_inv n b c now c' e :
  start_warmup c now = Some (c', e) -> window_inv n b c -> fresh c -> current_leader c <> 0 ->
  0 < n -> b + n < 2 ^ 64 -> window_inv n (b + n) c'.
Proof.
  unfold start_warmup, schedule_once, schedule_periodic. intros H' [Ht _ _] [] Hl Hn Hb.
  apply bind_Some in H' as ([c1 e1] & Hs & H').
  assert (Hk : window_inv n (b + n) c1); [|by handler_inv H'; eapply window_inv_kept].
  destruct Ht. eapply refill; [exact Hs|..]; try done.
  - by left.
  - simpl. rewrite fr_pending0, map_size_empty. lia.
  - unfold balanced, outstanding. simpl.
    by rewrite fr_pending0, fr_responses0, fr_latest0, fr_warmup0, delete_empty, !map_size_empty.
Qed.

Lemma run_inv n b c now c' e :
  run c now = Some (c', e) -> state c = WarmUp -> window_inv n b c -> window_inv n b c'.
Proof.
  intros H' Hst [[] _ Ha]. pose proof (Ha (or_introl Hst)) as [_ Hlo Hup Hbal].
  apply run_kept in H' as (Ec & El & Es & En & Et & Ew & Er & Ep & Hp); [|done].
  assert (Ho : outstanding c' = outstanding c).
  { unfold outstanding. destruct Hp as [->|[m ->]]; [done|]. by rewrite delete_insert_eq. }
  assert (Hsz : (size (pending_proposals c) <= size (pending_proposals c'))%nat).
  { destruct Hp as [->|[m ->]]; [done|]. rewrite map_size_insert. unfold id; case_match; lia. }
  assert (Hdom : forall id, is_Some (pending_proposals c' !! id) ->
            id = RECONFIG_ID \/ is_Some (pending_proposals c !! id)).
  { intros id. destruct Hp as [->|[m ->]]; [by right|].
    rewrite lookup_insert_is_Some. intros [->|[_ ?]]; auto. }
  constructor.
  - constructor; rewrite ?Ec, ?En, ?Et, ?Ew, ?Ep; auto.
    + intros id [->|Hi]%Hdom; [unfold RECONFIG_ID; lia|auto].
    + intros id Hi. rewrite Er in Hi. pose proof (tr_responses0 _ Hi) as [? Hn]. split; [done|].
      destruct Hp as [->|[m ->]]; [done|]. rewrite lookup_insert_ne; [done|unfold RECONFIG_ID; lia].
  - rewrite Es. discriminate.
  - intros _. unfold balanced in *. constructor; unfold balanced; rewrite ?Ho, ?Er, ?Et, ?Ew; auto; lia.
Qed.

(** A response to a normal proposal. *)
Lemma response_inv n b c id latency m :
  window_inv n b c -> id <> RECONFIG_ID -> pending_proposals c !! id = Some m ->
  b < 2 ^ 64 -> state c <> Setup ->
  let c' := handle_normal_response
              (set_pending_proposals c (delete id (pending_proposals c))) id latency in
  tracked n b c' /\ (active c -> active c' /\ balanced c' /\ current_leader c' <> 0 /\
    Z.of_nat (size (pending_proposals c')) <= n).
Proof.
  intros [[] _ Ha] Hid Hm Hb Hst c'.
  assert (Hpos : 1 <= id <= latest_proposal_id c).
  { pose proof (tr_pending0 id ltac:(by eexists)). unfold RECONFIG_ID in Hid. lia. }
  assert (Hno : responses c !! id = None).
  { apply eq_None_not_Some. intros [_ Hn]%tr_responses0. congruence. }
  assert (Hpend : pending_proposals c' = delete id (pending_proposals c)).
  { unfold c', handle_normal_response. simpl. by destruct (state c). }
  assert (Ho : outstanding c = S (outstanding c')).
  { unfold outstanding. rewrite Hpend, delete_delete.
    assert (Hl : delete RECONFIG_ID (pending_proposals c) !! id = Some m)
      by (by rewrite lookup_delete_ne).
    rewrite (map_size_delete_Some id (delete RECONFIG_ID _)) by (by eexists).
    assert (size (delete RECONFIG_ID (pending_proposals c)) <> 0%nat); [|lia].
    intros Hz%map_size_empty_inv. by rewrite Hz in Hl. }
  pose proof (outstanding_size c'). pose proof (outstanding_size c).
  assert (Hrec : reconfig_pending c' = reconfig_pending c).
  { unfold reconfig_pending. by rewrite Hpend, lookup_delete_ne. }
  assert (Hlat : latest_proposal_id c' = latest_proposal_id c).
  { unfold c', handle_normal_response. simpl. by destruct (state c). }
  split.
  - constructor.
    5: { intros x. rewrite Hlat, Hpend. intros Hx. destruct (decide (x = id)) as [->|Hne].
         { by rewrite lookup_delete_eq. }
         rewrite lookup_delete_ne by done. apply tr_responses0. revert Hx.
         unfold c', handle_normal_response. simpl. destruct (state c); simpl; try done.
         by rewrite lookup_insert_ne. }
    4: { intros x. rewrite Hlat, Hpend, lookup_delete_is_Some. intros [_ ?]. auto. }
    all: unfold c', handle_normal_response, u64_add; simpl; destruct (state c); simpl; try done.
    apply Z.mod_pos_bound. lia.
  - intros Hact. pose proof (Ha Hact) as [Hl Hlo Hup Hbal]. unfold balanced in *.
    assert (Hst' : state c' = state c /\ current_leader c' = current_leader c).
    { unfold c', handle_normal_response. simpl. by destruct (state c) eqn:Es. }
    assert (Hsum : Z.of_nat (size (responses c')) + warmup_decided c' =
                   Z.of_nat (size (responses c)) + warmup_decided c + 1).
    { unfold c', handle_normal_response, u64_add. simpl.
      destruct Hact as [Hs|Hs]; rewrite Hs; simpl.
      - rewrite Z.mod_small; lia.
      - rewrite map_size_insert_None by done. lia. }
    destruct Hst' as [Hs' ->]. unfold active. rewrite Hs', Hlat. split_and!; [done|lia|done|].
    assert (reconfig_pending c <= 1)%nat; [|lia]. unfold reconfig_pending. case_match; lia.
Qed.

Lemma handle_proposal_resp_inv n b c pr now c' e :
  handle_proposal_resp c pr now = Some (c', e) -> window_inv n b c ->
  proposal_id (resp_data pr) <> Some RECONFIG_ID -> 0 < n -> b + n < 2 ^ 64 ->
  window_inv n (b + n) c'.
Proof.
  intros H' Hinv Hid Hn Hb. pose proof Hinv as [Ht Hf Ha].
  assert (Hweak : window_inv n (b + n) c).
  { constructor; [|done..]. eapply tracked_weaken; [done|lia]. }
  unfold handle_proposal_resp in H'. case_bool_decide; [by injection H' as <- <-|].
  destruct (proposal_id (resp_data pr)) as [id|]; [|done]. simpl in H'.
  destruct (pending_proposals c !! id) as [m|] eqn:Hm; [|by injection H' as <- <-].
  assert (Hset : state c <> Setup).
  { intros [Hp _ _ _]%Hf. by rewrite Hp in Hm. }
  apply bind_Some in H' as (c1 & Hd%note_down_time_kept & H').
  set (lat := (fun start_time => now - start_time) <$> pm_start_time m) in *.
  pose proof (response_inv n b c id lat m Hinv ltac:(congruence) Hm ltac:(lia) Hset) as [Ht' Ha'].
  set (c2 := handle_normal_response _ _ _) in H'.
  assert (Hk : kept (handle_normal_response
              (set_pending_proposals c (delete id (pending_proposals c))) id lat) c2).
  { apply handle_normal_response_kept. eapply kept_trans; [exact Hd|]. apply note_leader_kept.
    destruct Hd as (_ & -> & _). simpl. by destruct Ht. }
  assert (Es : state c2 = state c).
  { rewrite <- (kept_sym_view _ _ Hk). unfold handle_normal_response. simpl.
    by destruct (state c) eqn:E. }
  pose proof (tracked_kept _ _ _ _ Ht' Hk) as Ht2.
  assert (Hsend : active c ->
            forall e2, send_concurrent_proposals c2 now = Some (c', e2) -> window_inv n (b + n) c').
  { intros Hact e2 Hs. destruct (Ha' Hact) as (Hact' & Hbal & Hl & Hsz).
    eapply refill; [exact Hs|done|by eapply active_kept|by apply Hk|
                    by rewrite (pending_kept _ _ Hk)|by eapply balanced_kept|done..]. }
  assert (Hrest : ~ active c -> c2 = c' -> window_inv n (b + n) c').
  { intros Hact <-. constructor; [eapply tracked_weaken; [done|lia]|by rewrite Es|].
    unfold active. by rewrite Es. }
  unfold active in *. rewrite Es in H'. destruct (state c) eqn:E.
  2, 3: apply bind_Some in H' as ([c3 e3] & Hs & [= -> <-]); eapply Hsend; [by auto|exact Hs].
  all: injection H' as H' _; apply Hrest; [by intros [|]|exact H'].
Qed.

Lemma handle_reconfig_response_inv n b c rr now c' e :
  handle_reconfig_response c rr now = Some (c', e) -> window_inv n b c ->
  0 ∉ rr_current_configuration rr -> 0 < n -> b + n < 2 ^ 64 -> window_inv n (b + n) c'.
Proof.
  intros H' Hinv H0 Hn Hb. pose proof Hinv as [Ht Hf Ha]. unfold handle_reconfig_response in H'.
  destruct (pending_proposals c !! RECONFIG_ID) as [m|] eqn:Hm; cycle 1.
  { injection H' as <- <-. constructor; [|done..]. eapply tracked_weaken; [done|lia]. }
  destruct Ht. cbv zeta in H'.
  assert (Hsz : size (pending_proposals c) = S (outstanding c)).
  { rewrite outstanding_size. unfold reconfig_pending. rewrite Hm. lia. }
  simpl in H'. destruct (state c) eqn:Es; try done.
  - apply bind_Some in H' as ([c1 e1] & Hs & [= <- <-]).
    destruct Ha as [Hl Hlo Hup Hbal]; [by right|].
    eapply refill; [exact Hs|..]; try done.
    + constructor; repeat case_match; simpl; try done.
      all: try (intros id; rewrite lookup_delete_is_Some; intros [_ ?]; auto).
      all: intros id [? Hp]%tr_responses0; split; [done|]; by apply lookup_delete_None; right.
    + right. by repeat case_match.
    + repeat case_match; simpl; try done. bool_to_prop. lia.
    + repeat case_match; simpl; unfold outstanding in *; lia.
    + unfold balanced, outstanding in *.
      repeat case_match; simpl; by rewrite delete_delete_eq.
  - injection H' as <- <-. constructor; simpl; [|done|by intros [|]].
    constructor; simpl; try done; [lia| |].
    + intros id. rewrite lookup_delete_is_Some. intros [_ ?]. auto.
    + intros id [? Hp]%tr_responses0. split; [done|]. by apply lookup_delete_None; right.
Qed.

Lemma reply_stop_ask_None c : stop_ask c = false -> reply_stop_ask c = None.
Proof. unfold reply_stop_ask. by intros ->. Qed.

Lemma handle_leader_inv n b c pid round now c' e :
  handle_leader c pid round now = Some (c', e) -> window_inv n b c -> pid <> 0 ->
  0 < n -> b + n < 2 ^ 64 -> window_inv n (b + n) c'.
Proof.
  intros H' Hinv Hpid Hn Hb. unfold handle_leader in H'.
  assert (Hk : kept c c' -> window_inv n (b + n) c').
  { intros Hk. apply (window_inv_kept n (b + n) c); [|done]. destruct Hinv.
    constructor; [eapply tracked_weaken; [done|lia]|done..]. }
  destruct (state c) eqn:Es; try (by injection H' as <- <-; apply Hk).
  - destruct (0 <? pid); [|done]. destruct (wi_fresh _ _ _ Hinv Es).
    eapply start_warmup_inv; try done. by eapply window_inv_kept.
  - handler_inv H'; by apply Hk.
  - handler_inv H'; by apply Hk.
Qed.

Lemma experiment_timeout_ended c now c' e :
  experiment_timeout c now = Some (c', e) ->
  exists c1, kept c c1 /\
    c' = set_state c1 (match reconfig c with Some _ => PendingReconfiguration | None => Finished end).
Proof.
  unfold experiment_timeout. intros H'. destruct (reconfig c).
  - injection H' as <- <-. by exists c.
  - cbv zeta in H'. apply bind_Some in H' as (c1 & Hc & [= <- <-]).
    exists (set_window_timer c1 None). split; [|done]. by handler_inv Hc.
Qed.

Lemma timer_timeout_inv n b c timer now c' e :
  timer_timeout c timer now = Some (c', e) -> window_inv n b c -> window_inv n b c'.
Proof.
  intros H' Hinv. pose proof Hinv as [[] Hf Ha]. destruct timer; simpl in H'.
  - apply (window_inv_kept n b c); [done|].
    unfold proposal_timeout, schedule_once in H'. by handler_inv H'.
  - unfold reconfig_timeout, schedule_once in H'. handler_inv H'. simpl in *.
    match goal with Hm : pending_proposals _ !! RECONFIG_ID = Some ?m |- _ => rename Hm into Hr end.
    assert (Hdom : forall y m id, is_Some (<[RECONFIG_ID := y]> (pending_proposals c) !! id) ->
              pending_proposals c !! RECONFIG_ID = Some m -> is_Some (pending_proposals c !! id)).
    { intros y m id. rewrite lookup_insert_is_Some. intros [<-|[_ ?]]; [by eexists|done]. }
    constructor.
    + constructor; simpl; try done; [by eauto|]. intros id [? Hp]%tr_responses0. split; [done|].
      rewrite lookup_insert_ne; [done|]. intros <-. congruence.
    + simpl. intros [Hp _ _ _]%Hf. by rewrite Hp in Hr.
    + intros [? Hlo Hup Hbal]%Ha. unfold balanced, outstanding in *. constructor; simpl; try done.
      * rewrite map_size_insert_Some by (by eexists). done.
      * unfold outstanding. simpl. by rewrite delete_insert_eq.
      * unfold balanced, outstanding. simpl. by rewrite delete_insert_eq.
  - apply experiment_timeout_ended in H' as (c1 & Hk & ->).
    destruct (tracked_kept n b _ _ (wi_tracked _ _ _ Hinv) Hk) as [].
    constructor; [by constructor|..]; destruct (reconfig c); try done; by intros [|].
  - unfold kill_timeout in H'. rewrite reply_stop_ask_None in H' by done. by handler_inv H'.
  - injection H' as <- <-. by apply (window_inv_kept _ b c).
  - unfold lagging_timeout in H'. handler_inv H'. by apply (window_inv_kept _ b c).
  - by injection H' as <- <-.
  - injection H' as <- <-. by apply (window_inv_kept _ b c).
Qed.

Lemma step_inv n b c now i c' e :
  step c now i = Some (c', e) -> input_ok c i -> window_inv n b c -> 0 < n ->
  b + n < 2 ^ 64 -> window_inv n (b + n) c'.
Proof.
  intros H' Hi Hinv Hn Hb.
  assert (Hw : window_inv n b c' -> window_inv n (b + n) c').
  { intros []. constructor; [eapply tracked_weaken; [done|lia]|done..]. }
  destruct i as [[]|[]|[]|timer]; simpl in *; try done.
  - apply Hw. by eapply run_inv.
  - unfold handle_proposal in H'. apply Hw, (window_inv_kept n b c); [done|]. by handler_inv H'.
  - injection H' as <- <-. auto.
  - by eapply handle_proposal_resp_inv.
  - by eapply handle_reconfig_response_inv.
  - by eapply handle_leader_inv.
  - destruct (wi_tracked _ _ _ Hinv). rewrite reply_stop_ask_None in H' by done.
    apply Hw, (window_inv_kept n b c); [done|]. by handler_inv H'.
  - apply Hw, (window_inv_kept n b c); [done|]. by handler_inv H'.
  - apply Hw. by eapply timer_timeout_inv.
Qed.

Lemma steps_inv n inputs b c c' effs :
  steps c inputs = Some (c', effs) -> inputs_ok c inputs -> window_inv n b c -> 0 < n ->
  b + n * Z.of_nat (length inputs) < 2 ^ 64 ->
  window_inv n (b + n * Z.of_nat (length inputs)) c'.
Proof.
  revert b c effs. induction inputs as [|[now i] inputs IH]; intros b c effs H' Hok Hinv Hn Hb;
    simpl in *.
  - injection H' as <- <-. by rewrite Z.mul_0_r, Z.add_0_r.
  - apply bind_Some in H' as ([c1 e1] & Hs & H'). apply bind_Some in H' as ([c2 e2] & Hr & [= <- <-]).
    rewrite Hs in Hok. destruct Hok as [Hi Hok].
    apply (step_inv n b) in Hs; [|done..|nia].
    replace (b + n * _) with ((b + n) + n * Z.of_nat (length inputs)) by nia.
    eapply IH; try done. nia.
Qed.

End window.

(** ** The partitions *)

Section partitions.
Context `{BufOps}.

(** The simulated links of the process at each path. *)
Abbreviation network := (Path -> Links).

(** The closures that a disconnection schedules, once their delay has passed. *)
Fixpoint settle (l : Links) (effs : list Effect) : option Links :=
  match effs with
  | [] => Some l
  | Schedule timer :: effs => l ← links_timeout timer l; settle l effs
  | _ :: effs => settle l effs
  end.

Definition upd (net : network) (dst : Path) (l : Links) : network :=
  fun a => if decide (a = dst) then l else net a.

(** A partitioning message, handled by the process it is sent to. *)
Definition deliver (net : network) (e : ClientEffect) : option network :=
  match e with
  | ClPartition dst (DisconnectPeers peers delay lagging_peer) =>
      '(l, effs) ← links_disconnect peers delay lagging_peer (net dst);
      l ← settle l effs;
      Some (upd net dst l)
  | ClPartition dst RecoverPeers => Some (upd net dst (links_recover (net dst)))
  | _ => Some net
  end.

Fixpoint deliver_all (net : network) (effs : list ClientEffect) : option network :=
  match effs with
  | [] => Some net
  | e :: effs => net ← deliver net e; deliver_all net effs
  end.

(** The creation of a partition and, after it, the closure it scheduled for the lag. *)
Definition lag_effects (c : t) (e : ClientEffect) : option (list ClientEffect) :=
  match e with
  | ClSchedule _ _ (TLagging followers lagging_follower leader) =>
      snd <$> lagging_timeout c followers lagging_follower leader
  | _ => Some []
  end.

Fixpoint lag_all (c : t) (effs : list ClientEffect) : option (list ClientEffect) :=
  match effs with
  | [] => Some []
  | e :: effs => e1 ← lag_effects c e; e2 ← lag_all c effs; Some (e1 ++ e2)
  end.

Definition partition_effects (c : t) (now : Z) : option (list ClientEffect) :=
  '(c1, e1) ← create_partition c now;
  e2 ← lag_all c1 e1;
  Some (e1 ++ e2).

(** Which processes [p] drop the messages of [q]: around [hub], the first follower. *)
Definition cut (s : NetworkScenario) (leader hub p q : Z) : Prop :=
  match s with
  | FullyConnected | PeriodicFull _ => False
  | QuorumLoss _ => p <> hub /\ q <> hub
  | ConstrainedElection _ => p = leader \/ q = leader \/ (p <> hub /\ q <> hub)
  | Chained _ => (p = leader /\ q = hub) \/ (p = hub /\ q = leader)
  end.

Definition distinct_paths (c : t) : Prop :=
  forall p q a, get_node c p = Some a -> get_node c q = Some a -> p = q.

Definition drops (net : network) (a : Path) (q : Z) : Prop := q ∈ disconnected_peers (net a).

Lemma deliver_all_app net effs1 effs2 :
  deliver_all net (effs1 ++ effs2) = net ← deliver_all net effs1; deliver_all net effs2.
Proof.
  revert net. induction effs1 as [|e effs1 IH]; intros net; [done|].
  simpl. destruct (deliver net e); simpl; [apply IH|done].
Qed.

Lemma deliver_disconnect net a peers :
  deliver net (disconnect a peers None) = Some (upd net a (mkLinks peers (lagging_delay (net a)))).
Proof. done. Qed.

Lemma deliver_lagging net a peers hub d :
  lagging_delay (net a) = Some d ->
  deliver net (disconnect a peers (Some hub)) =
    Some (upd net a (mkLinks ((disconnected_peers (net a) ++ [hub]) ++ peers) (Some d))).
Proof. intros Hd. simpl. by rewrite Hd. Qed.

(** Each process of [l] is told to drop the messages of [g]. *)
Lemma deliver_each c g l effs net :
  mapM (fun p => ap ← get_node c p; Some (disconnect ap (g p) None)) l = Some effs ->
  distinct_paths c ->
  exists net', deliver_all net effs = Some net' /\
    (forall a, lagging_delay (net' a) = lagging_delay (net a)) /\
    forall p a, get_node c p = Some a ->
      disconnected_peers (net' a) = if decide (p ∈ l) then g p else disconnected_peers (net a).
Proof.
  intros Hm Hd. apply mapM_Some_1 in Hm. revert net.
  induction Hm as [|p e l effs Hp _ IH]; intros net.
  - exists net. split_and!; try done.
  - apply bind_Some in Hp as (ap & Hap & [= <-]).
    destruct (IH (upd net ap (mkLinks (g p) (lagging_delay (net ap))))) as (net' & He & Hl & Hn).
    exists net'. split_and!.
    + cbn [deliver_all]. by rewrite deliver_disconnect.
    + intros a. rewrite Hl. unfold upd. by case_decide; subst.
    + intros q a Hq. rewrite (Hn q a Hq). unfold upd.
      repeat (case_decide; subst); try done; try set_solver.
Qed.

Lemma keys_elem c p : p ∈ keys c <-> is_Some (get_node c p).
Proof.
  unfold keys, get_node. induction (nodes c) as [|[q a] l IH]; simpl.
  - rewrite elem_of_nil. by split; [|intros []].
  - rewrite elem_of_cons, IH. destruct (Z.eqb_spec q p) as [->|]; [by split; [eexists|left]|].
    split; [intros [->|?]; done|by right].
Qed.

Lemma head_filter (P : Z -> Prop) `{!forall x, Decision (P x)} l x :
  head (filter P l) = Some x -> P x /\ x ∈ l.
Proof.
  intros Hh. assert (x ∈ filter P l) as Hx; [|by apply list_elem_of_filter in Hx].
  destruct (filter P l); [done|]. injection Hh as ->. by left.
Qed.

(** The links that are cut in the end. *)
Definition topology (c : t) (net : network) (effs : list ClientEffect) (hub : Z) : Prop :=
  exists net', deliver_all net effs = Some net' /\
    forall p a q, get_node c p = Some a -> q ∈ keys c -> p <> q ->
      drops net' a q <-> cut (network_scenario c) (current_leader c) hub p q.

Lemma lag_all_disconnects c c' effs l g rest :
  mapM (fun p => ap ← get_node c p; Some (disconnect ap (g p) None)) l = Some effs ->
  lag_all c' (effs ++ rest) = lag_all c' rest.
Proof.
  intros Hm. apply mapM_Some_1 in Hm. induction Hm as [|p e l effs Hp _ IH]; [done|].
  apply bind_Some in Hp as (ap & _ & [= <-]). simpl. rewrite IH. by destruct (lag_all c' rest).
Qed.

Lemma quorum_loss_topology c now net effs du d :
  partition_effects c now = Some effs -> network_scenario c = QuorumLoss du ->
  distinct_paths c -> (forall a, net a = mkLinks [] (Some d)) ->
  exists hub, hub ∈ keys c /\ hub <> current_leader c /\ topology c net effs hub.
Proof.
  unfold partition_effects, create_partition. intros He Hsc Hd Hnet. cbn [network_scenario] in He.
  apply bind_Some in He as ([c1 e1] & Hc & He). destruct (current_leader c =? 0); [done|].
  apply bind_Some in Hc as (la & Hla & Hc). cbv zeta in Hc. simpl in Hc. rewrite Hsc in Hc.
  apply bind_Some in Hc as (hub & [Hne Hin]%head_filter & Hc).
  apply bind_Some in Hc as (es & Hes & [= <- <-]).
  exists hub. split_and!; [done|done|]. unfold topology. rewrite Hsc.
  apply bind_Some in He as (e2 & He2 & [= <-]).
  rewrite (lag_all_disconnects _ _ _ _ (fun _ => _) _ Hes) in He2. injection He2 as <-.
  destruct (deliver_each _ (fun _ => _) _ _ net Hes Hd) as (net' & Hdel & _ & Hn).
  exists net'. split; [rewrite app_nil_r, deliver_all_app, Hdel; done|].
  intros p a q Hp Hq Hpq. unfold drops. rewrite (Hn p a Hp), Hnet.
  assert (p ∈ keys c) by (apply keys_elem; by eexists). case_decide as Hf; simpl.
  - rewrite list_elem_of_filter in *. tauto.
  - rewrite list_elem_of_filter in *. rewrite elem_of_nil. tauto.
Qed.

Lemma chained_topology c now net effs du d :
  partition_effects c now = Some effs -> network_scenario c = Chained du ->
  distinct_paths c -> (forall a, net a = mkLinks [] (Some d)) ->
  exists hub, hub ∈ keys c /\ hub <> current_leader c /\ topology c net effs hub.
Proof.
  unfold partition_effects, create_partition. intros He Hsc Hd Hnet. cbn [network_scenario] in He.
  apply bind_Some in He as ([c1 e1] & Hc & He). destruct (current_leader c =? 0); [done|].
  apply bind_Some in Hc as (la & Hla & Hc). cbv zeta in Hc. simpl in Hc. rewrite Hsc in Hc.
  apply bind_Some in Hc as (hub & [Hne Hin]%head_filter & Hc).
  apply bind_Some in Hc as (ha & Hha & [= <- <-]).
  exists hub. split_and!; [done|done|]. unfold topology. rewrite Hsc. injection He as <-.
  eexists. split; [reflexivity|]. intros p a q Hp Hq Hpq. unfold drops, upd.
  assert (Hdis : forall p1 p2 a1 a2, get_node c p1 = Some a1 -> get_node c p2 = Some a2 ->
    p1 <> p2 -> a1 <> a2) by (intros ????? ? ? ->; eauto).
  change (get_node c hub = Some ha) in Hha.
  destruct (decide (p = current_leader c)) as [->|Hl].
  - assert (a = la) as -> by congruence. rewrite decide_True by done. simpl.
    rewrite list_elem_of_singleton. naive_solver.
  - rewrite (decide_False (P := a = la)) by eauto.
    destruct (decide (p = hub)) as [->|Hh].
    + assert (a = ha) as -> by congruence. rewrite decide_True by done. simpl.
      rewrite list_elem_of_singleton. naive_solver.
    + rewrite decide_False by eauto. rewrite Hnet. simpl. rewrite elem_of_nil. naive_solver.
Qed.

Lemma constrained_topology c now net effs du d :
  partition_effects c now = Some effs -> network_scenario c = ConstrainedElection du ->
  distinct_paths c -> (forall a, net a = mkLinks [] (Some d)) ->
  exists hub, hub ∈ keys c /\ hub <> current_leader c /\ topology c net effs hub.
Proof.
  unfold partition_effects, create_partition. intros He Hsc Hd Hnet. cbn [network_scenario] in He.
  apply bind_Some in He as ([c1 e1] & Hc & He). destruct (current_leader c =? 0); [done|].
  apply bind_Some in Hc as (la & Hla & Hc). cbv zeta in Hc. simpl in Hc. rewrite Hsc in Hc.
  apply bind_Some in Hc as (hub & [Hne Hin]%head_filter & Hc).
  apply bind_Some in Hc as (ha & Hha & [= <- <-]). change (get_node c hub = Some ha) in Hha.
  change (get_node c (current_leader c) = Some la) in Hla.
  assert (Hdis : ha <> la) by (intros ->; apply Hne; eauto).
  exists hub. split_and!; [done|done|]. unfold topology. rewrite Hsc.
  destruct (lag_all _ _) as [e2|] eqn:He2; [|done]. injection He as <-.
  simpl in He2. set (followers := filter _ _) in He2. set (c1 := set_partition_timer _ _) in He2.
  destruct (lagging_timeout c1 _ _ _) as [[c3 e3]|] eqn:Hlag; [|done]. injection He2 as <-.
  unfold lagging_timeout in Hlag. cbv zeta in Hlag.
  apply bind_Some in Hlag as (es & Hes & [= <- <-]). unfold followers in *. clear followers.
  set (non := filter (fun p => p <> hub) (filter (fun p => p <> current_leader c) (keys c))) in *.
  set (net1 := upd (upd net ha (mkLinks [current_leader c] (Some d))) la (mkLinks [hub] (Some d))).
  destruct (deliver_each c (fun nl => filter (fun p => p <> hub /\ p <> nl) (keys c)) non es net1 Hes Hd)
    as (net2 & Hdel & Hlagging & Hn).
  assert (Hd2 : lagging_delay (net2 la) = Some d).
  { rewrite Hlagging. unfold net1, upd. by rewrite decide_True. }
  exists (upd net2 la (mkLinks ((disconnected_peers (net2 la) ++ [hub]) ++ non) (Some d))). split.
  - cbn [app snd deliver_all]. rewrite deliver_disconnect. cbn [mbind option_bind].
    rewrite (deliver_lagging _ _ _ _ d); cycle 1.
    { unfold upd. rewrite decide_False by done. by rewrite Hnet. }
    assert (disconnected_peers (upd net ha (mkLinks [current_leader c] (lagging_delay (net ha))) la)
              = []) as ->.
    { unfold upd. rewrite decide_False by done. by rewrite Hnet. }
    rewrite (Hnet ha). cbn [mbind option_bind deliver]. rewrite !app_nil_r, deliver_all_app.
    cbn [app lagging_delay]. fold net1. rewrite Hdel. cbn [mbind option_bind deliver_all].
    by rewrite (deliver_lagging _ _ _ _ d).
  - intros p a q Hp Hq Hpq. unfold drops, upd. pose proof (Hn p a Hp) as Hnp.
    assert (p ∈ keys c) by (apply keys_elem; by eexists).
    destruct (decide (p = current_leader c)) as [->|Hl].
    + assert (a = la) as -> by congruence. rewrite decide_True by done. simpl.
      rewrite Hnp, decide_False by (unfold non; rewrite !list_elem_of_filter; tauto).
      unfold non. rewrite !elem_of_app, !list_elem_of_filter, list_elem_of_singleton.
      split; [by left|]. intros _. destruct (decide (q = hub)); [auto|].
      right. split_and!; auto.
    + assert (Hal : a <> la) by (intros ->; eauto).
      rewrite decide_False, Hnp by done. unfold net1, upd.
      destruct (decide (p = hub)) as [->|Hh].
      * assert (a = ha) as -> by congruence.
        rewrite decide_False by (unfold non; rewrite !list_elem_of_filter; tauto).
        rewrite decide_False, decide_True by done. simpl.
        rewrite list_elem_of_singleton. naive_solver.
      * rewrite decide_True by (unfold non; rewrite !list_elem_of_filter; tauto).
        rewrite list_elem_of_filter. naive_solver.
Qed.

(** The partition an experiment creates, once the lags have passed, is the one of
    its scenario, whatever the number of replicas: for a quorum loss, every process is
    cut off from every other but one follower; for a constrained election, the leader is
    cut off from all and every other process talks to one follower only; for a chained
    scenario, exactly the link of the leader and one follower is cut; without a
    partition, no message is sent. *)
Theorem partition_topology c now net effs d :
  partition_effects c now = Some effs -> distinct_paths c ->
  (forall a, net a = mkLinks [] (Some d)) ->
  (network_scenario c = FullyConnected -> effs = []) /\
  (network_scenario c <> FullyConnected ->
   exists hub, hub ∈ keys c /\ hub <> current_leader c /\
     exists net', deliver_all net effs = Some net' /\
       forall p a q, get_node c p = Some a -> q ∈ keys c -> p <> q ->
         drops net' a q <-> cut (network_scenario c) (current_leader c) hub p q).
Proof.
  intros He Hd Hnet. destruct (network_scenario c) eqn:Hsc; rewrite <- Hsc.
  - split; [|done]. intros _. unfold partition_effects, create_partition in He.
    destruct (current_leader c =? 0); [done|]. cbn [network_scenario] in He.
    destruct (get_node c (current_leader c)); [|done]. simpl in He. rewrite Hsc in He.
    by injection He as <-.
  - split; [congruence|]. intros _. by eapply quorum_loss_topology.
  - split; [congruence|]. intros _. by eapply constrained_topology.
  - split; [congruence|]. intros _. by eapply chained_topology.
  - exfalso. unfold partition_effects, create_partition in He.
    destruct (current_leader c =? 0); [done|]. cbn [network_scenario] in He.
    destruct (get_node c (current_leader c)); [|done]. simpl in He. by rewrite Hsc in He.
Qed.

End partitions.

(** ** Examples *)

Module ClientExample.
Definition node (i : Z) : Path := Named i ANode.
Definition cluster : list (Z * Path) := map (fun i => (i, node i)) [3; 1; 2; 4].

(** Two proposals at a time, and a reconfiguration. *)
Definition inputs (B : BufOps) : list (Z * input) :=
  let resp id := AtomicBroadcast (ABProposalResp
                   (mkProposalResp (PaxosComp.create_raw_proposal id) 2 1)) in
  [(0, AtomicBroadcast (ABLeader 2 1)); (1, resp 1); (2, Local LRun); (3, resp 2); (4, resp 3);
   (5, Timeout (TProposal 4)); (6, resp 7)].

Definition start : t :=
  with_ [1; 2; 3; 4] 1000 2 cluster FullyConnected
    (Some (ReplaceFollower, [1; 2; 5])) 10 5 3 20.

(** Node 2 leads; node 3 comes first in the iteration order of the map. *)
Definition led (s : NetworkScenario) : t :=
  set_leader (with_ [1; 2; 3; 4] 1000 2 cluster s None 10 5 3 20) 2 1.

Lemma assoc_node l p a : assoc (map (fun i => (i, node i)) l) p = Some a -> a = node p.
Proof.
  induction l as [|i l IH]; [done|]. simpl. destruct (Z.eqb_spec i p) as [->|]; [congruence|done].
Qed.
End ClientExample.


Lemma partition_topology_witness :
  exists effs net', partition_effects (ClientExample.led (ConstrainedElection 100)) 7 = Some effs /\
    deliver_all (fun _ => mkLinks [] (Some 3)) effs = Some net' /\
    drops net' (ClientExample.node 4) 1 /\ ~ drops net' (ClientExample.node 4) 3.
Proof.
  set (c := ClientExample.led (ConstrainedElection 100)).
  destruct (partition_effects c 7) as [effs|] eqn:He; [|vm_compute in He; discriminate He].
  destruct (partition_topology c 7 (fun _ => mkLinks [] (Some 3)) effs 3) as [_ Ht].
  - exact He.
  - assert (Hnode : forall p a, get_node c p = Some a -> a = ClientExample.node p).
    { intros p a. exact (ClientExample.assoc_node [3; 1; 2; 4] p a). }
    intros p q a Hp%Hnode Hq%Hnode. rewrite Hp in Hq. by injection Hq.
  - done.
  - destruct Ht as (hub & _ & _ & net' & Hd & _); [discriminate|].
    exists effs, net'. split_and!; [done|done|..]; vm_compute in He; injection He as <-;
      vm_compute in Hd; injection Hd as <-; unfold drops; simpl.
    + apply (bool_decide_unpack _). vm_compute. exact I.
    + apply (bool_decide_unpack _). vm_compute. exact I.
Defined.
