(* ===== verification/ReconfigClient.v ===== *)
(** The client of the reconfiguration experiment ([reconfig_client.rs]).

    Like the benchmark client it keeps a window of proposals in flight, but it makes a
    fixed number of them, numbered behind the preloaded log, and proposes the
    reconfiguration when half of them are answered.  It finishes when all are answered
    and the reconfiguration is done.  Timers, effects and messages are those of
    [Client]; [ClWarmupDone] counts down the latch of the leader election. *)

From Stdlib Require Import Strings.Byte.
From stdpp Require Import sorting.
From S2P Require Import Prelude MpMessages Partition Wire Election PaxosWire MsgWire.
From S2P Require Import PaxosStorage Communicator PaxosReplica PaxosComp Client.

Import MsgWire.

Definition RECONFIGURATION_WARMUP_FACTOR : Z := 2.

Module ReconfigClient.
Section client.
Context `{BufOps}.

Record t := mk {
  num_proposals : Z;
  num_concurrent_proposals : Z;
  nodes : list (Z * Path);
  reconfig : option (ReconfigurationPolicy * list Z);
  latest_proposal_id : Z;
  max_proposal_id : Z;
  responses : gmap Z (option Z);
  pending_proposals : gmap Z ProposalMetaData;
  timeout : Z;
  current_leader : Z;
  leader_round : Z;
  state : ExperimentState;
  current_config : list Z;
  num_timed_out : Z;
  num_retried : Z;
  leader_changes : list (Z * (Z * Z));
  stop_ask : bool;
  window_timer : option nat;
  windows : list Z;
  reconfig_start_ts : option Z;
  reconfig_end_ts : option Z;
  num_preloaded_proposals : Z;
  rem_preloaded_proposals : Z;
  next_handle : nat }.

Definition set_nodes (c : t) (x : list (Z * Path)) : t :=
  mk (num_proposals c) (num_concurrent_proposals c) x (reconfig c)
     (latest_proposal_id c) (max_proposal_id c) (responses c) (pending_proposals c)
     (timeout c) (current_leader c) (leader_round c) (state c) (current_config c)
     (num_timed_out c) (num_retried c) (leader_changes c) (stop_ask c) (window_timer c)
     (windows c) (reconfig_start_ts c) (reconfig_end_ts c) (num_preloaded_proposals c)
     (rem_preloaded_proposals c) (next_handle c).

Definition set_reconfig (c : t) (x : option (ReconfigurationPolicy * list Z)) : t :=
  mk (num_proposals c) (num_concurrent_proposals c) (nodes c) x
     (latest_proposal_id c) (max_proposal_id c) (responses c) (pending_proposals c)
     (timeout c) (current_leader c) (leader_round c) (state c) (current_config c)
     (num_timed_out c) (num_retried c) (leader_changes c) (stop_ask c) (window_timer c)
     (windows c) (reconfig_start_ts c) (reconfig_end_ts c) (num_preloaded_proposals c)
     (rem_preloaded_proposals c) (next_handle c).

Definition set_latest_proposal_id (c : t) (x : Z) : t :=
  mk (num_proposals c) (num_concurrent_proposals c) (nodes c) (reconfig c) x
     (max_proposal_id c) (responses c) (pending_proposals c) (timeout c)
     (current_leader c) (leader_round c) (state c) (current_config c) (num_timed_out c)
     (num_retried c) (leader_changes c) (stop_ask c) (window_timer c) (windows c)
     (reconfig_start_ts c) (reconfig_end_ts c) (num_preloaded_proposals c)
     (rem_preloaded_proposals c) (next_handle c).

Definition set_responses (c : t) (x : gmap Z (option Z)) : t :=
  mk (num_proposals c) (num_concurrent_proposals c) (nodes c) (reconfig c)
     (latest_proposal_id c) (max_proposal_id c) x (pending_proposals c) (timeout c)
     (current_leader c) (leader_round c) (state c) (current_config c) (num_timed_out c)
     (num_retried c) (leader_changes c) (stop_ask c) (window_timer c) (windows c)
     (reconfig_start_ts c) (reconfig_end_ts c) (num_preloaded_proposals c)
     (rem_preloaded_proposals c) (next_handle c).

Definition set_pending_proposals (c : t) (x : gmap Z ProposalMetaData) : t :=
  mk (num_proposals c) (num_concurrent_proposals c) (nodes c) (reconfig c)
     (latest_proposal_id c) (max_proposal_id c) (responses c) x (timeout c)
     (current_leader c) (leader_round c) (state c) (current_config c) (num_timed_out c)
     (num_retried c) (leader_changes c) (stop_ask c) (window_timer c) (windows c)
     (reconfig_start_ts c) (reconfig_end_ts c) (num_preloaded_proposals c)
     (rem_preloaded_proposals c) (next_handle c).

Definition set_state (c : t) (x : ExperimentState) : t :=
  mk (num_proposals c) (num_concurrent_proposals c) (nodes c) (reconfig c)
     (latest_proposal_id c) (max_proposal_id c) (responses c) (pending_proposals c)
     (timeout c) (current_leader c) (leader_round c) x (current_config c)
     (num_timed_out c) (num_retried c) (leader_changes c) (stop_ask c) (window_timer c)
     (windows c) (reconfig_start_ts c) (reconfig_end_ts c) (num_preloaded_proposals c)
     (rem_preloaded_proposals c) (next_handle c).

Definition set_current_config (c : t) (x : list Z) : t :=
  mk (num_proposals c) (num_concurrent_proposals c) (nodes c) (reconfig c)
     (latest_proposal_id c) (max_proposal_id c) (responses c) (pending_proposals c)
     (timeout c) (current_leader c) (leader_round c) (state c) x (num_timed_out c)
     (num_retried c) (leader_changes c) (stop_ask c) (window_timer c) (windows c)
     (reconfig_start_ts c) (reconfig_end_ts c) (num_preloaded_proposals c)
     (rem_preloaded_proposals c) (next_handle c).

Definition set_num_timed_out (c : t) (x : Z) : t :=
  mk (num_proposals c) (num_concurrent_proposals c) (nodes c) (reconfig c)
     (latest_proposal_id c) (max_proposal_id c) (responses c) (pending_proposals c)
     (timeout c) (current_leader c) (leader_round c) (state c) (current_config c) x
     (num_retried c) (leader_changes c) (stop_ask c) (window_timer c) (windows c)
     (reconfig_start_ts c) (reconfig_end_ts c) (num_preloaded_proposals c)
     (rem_preloaded_proposals c) (next_handle c).

Definition set_num_retried (c : t) (x : Z) : t :=
  mk (num_proposals c) (num_concurrent_proposals c) (nodes c) (reconfig c)
     (latest_proposal_id c) (max_proposal_id c) (responses c) (pending_proposals c)
     (timeout c) (current_leader c) (leader_round c) (state c) (current_config c)
     (num_timed_out c) x (leader_changes c) (stop_ask c) (window_timer c) (windows c)
     (reconfig_start_ts c) (reconfig_end_ts c) (num_preloaded_proposals c)
     (rem_preloaded_proposals c) (next_handle c).

Definition set_leader_changes (c : t) (x : list (Z * (Z * Z))) : t :=
  mk (num_proposals c) (num_concurrent_proposals c) (nodes c) (reconfig c)
     (latest_proposal_id c) (max_proposal_id c) (responses c) (pending_proposals c)
     (timeout c) (current_leader c) (leader_round c) (state c) (current_config c)
     (num_timed_out c) (num_retried c) x (stop_ask c) (window_timer c) (windows c)
     (reconfig_start_ts c) (reconfig_end_ts c) (num_preloaded_proposals c)
     (rem_preloaded_proposals c) (next_handle c).

Definition set_stop_ask (c : t) (x : bool) : t :=
  mk (num_proposals c) (num_concurrent_proposals c) (nodes c) (reconfig c)
     (latest_proposal_id c) (max_proposal_id c) (responses c) (pending_proposals c)
     (timeout c) (current_leader c) (leader_round c) (state c) (current_config c)
     (num_timed_out c) (num_retried c) (leader_changes c) x (window_timer c)
     (windows c) (reconfig_start_ts c) (reconfig_end_ts c) (num_preloaded_proposals c)
     (rem_preloaded_proposals c) (next_handle c).

Definition set_window_timer (c : t) (x : option nat) : t :=
  mk (num_proposals c) (num_concurrent_proposals c) (nodes c) (reconfig c)
     (latest_proposal_id c) (max_proposal_id c) (responses c) (pending_proposals c)
     (timeout c) (current_leader c) (leader_round c) (state c) (current_config c)
     (num_timed_out c) (num_retried c) (leader_changes c) (stop_ask c) x (windows c)
     (reconfig_start_ts c) (reconfig_end_ts c) (num_preloaded_proposals c)
     (rem_preloaded_proposals c) (next_handle c).

Definition set_windows (c : t) (x : list Z) : t :=
  mk (num_proposals c) (num_concurrent_proposals c) (nodes c) (reconfig c)
     (latest_proposal_id c) (max_proposal_id c) (responses c) (pending_proposals c)
     (timeout c) (current_leader c) (leader_round c) (state c) (current_config c)
     (num_timed_out c) (num_retried c) (leader_changes c) (stop_ask c) (window_timer c)
     x (reconfig_start_ts c) (reconfig_end_ts c) (num_preloaded_proposals c)
     (rem_preloaded_proposals c) (next_handle c).

Definition set_reconfig_start_ts (c : t) (x : option Z) : t :=
  mk (num_proposals c) (num_concurrent_proposals c) (nodes c) (reconfig c)
     (latest_proposal_id c) (max_proposal_id c) (responses c) (pending_proposals c)
     (timeout c) (current_leader c) (leader_round c) (state c) (current_config c)
     (num_timed_out c) (num_retried c) (leader_changes c) (stop_ask c) (window_timer c)
     (windows c) x (reconfig_end_ts c) (num_preloaded_proposals c)
     (rem_preloaded_proposals c) (next_handle c).

Definition set_reconfig_end_ts (c : t) (x : option Z) : t :=
  mk (num_proposals c) (num_concurrent_proposals c) (nodes c) (reconfig c)
     (latest_proposal_id c) (max_proposal_id c) (responses c) (pending_proposals c)
     (timeout c) (current_leader c) (leader_round c) (state c) (current_config c)
     (num_timed_out c) (num_retried c) (leader_changes c) (stop_ask c) (window_timer c)
     (windows c) (reconfig_start_ts c) x (num_preloaded_proposals c)
     (rem_preloaded_proposals c) (next_handle c).

Definition set_rem_preloaded_proposals (c : t) (x : Z) : t :=
  mk (num_proposals c) (num_concurrent_proposals c) (nodes c) (reconfig c)
     (latest_proposal_id c) (max_proposal_id c) (responses c) (pending_proposals c)
     (timeout c) (current_leader c) (leader_round c) (state c) (current_config c)
     (num_timed_out c) (num_retried c) (leader_changes c) (stop_ask c) (window_timer c)
     (windows c) (reconfig_start_ts c) (reconfig_end_ts c) (num_preloaded_proposals c)
     x (next_handle c).

Definition set_next_handle (c : t) (x : nat) : t :=
  mk (num_proposals c) (num_concurrent_proposals c) (nodes c) (reconfig c)
     (latest_proposal_id c) (max_proposal_id c) (responses c) (pending_proposals c)
     (timeout c) (current_leader c) (leader_round c) (state c) (current_config c)
     (num_timed_out c) (num_retried c) (leader_changes c) (stop_ask c) (window_timer c)
     (windows c) (reconfig_start_ts c) (reconfig_end_ts c) (num_preloaded_proposals c)
     (rem_preloaded_proposals c) x.

Definition set_leader (c : t) (pid round : Z) : t :=
  mk (num_proposals c) (num_concurrent_proposals c) (nodes c) (reconfig c)
     (latest_proposal_id c) (max_proposal_id c) (responses c) (pending_proposals c)
     (timeout c) pid round (state c) (current_config c) (num_timed_out c)
     (num_retried c) (leader_changes c) (stop_ask c) (window_timer c) (windows c)
     (reconfig_start_ts c) (reconfig_end_ts c) (num_preloaded_proposals c)
     (rem_preloaded_proposals c) (next_handle c).

Definition with_ (initial_config : list Z) (num_proposals num_concurrent_proposals : Z)
    (nodes : list (Z * Path)) (reconfig : option (ReconfigurationPolicy * list Z))
    (timeout preloaded_log_size : Z) : t :=
  mk num_proposals num_concurrent_proposals nodes reconfig preloaded_log_size
     (num_proposals +u64 preloaded_log_size) ∅ ∅ timeout 0 0 Setup initial_config 0 0 [] false
     None [] None None preloaded_log_size preloaded_log_size 0.

Definition get_node (c : t) (pid : Z) : option Path := Client.assoc (nodes c) pid.

Definition schedule_once (c : t) (delay : Z) (timer : ClientTimer) : t * nat * list ClientEffect :=
  (set_next_handle c (S (next_handle c)), next_handle c, [ClSchedule (next_handle c) delay timer]).

Definition schedule_periodic (c : t) (delay : Z) (timer : ClientTimer)
    : t * nat * list ClientEffect :=
  (set_next_handle c (S (next_handle c)), next_handle c,
   [ClSchedulePeriodic (next_handle c) delay timer]).

(** ** Proposing *)

Definition propose_normal (c : t) (id : Z) : option (list ClientEffect) :=
  leader ← get_node c (current_leader c);
  Some [ClPropose leader (ABProposal (mkProposal (PaxosComp.create_raw_proposal id)))].

Definition propose_reconfiguration (c : t) (node : Path) : option (list ClientEffect) :=
  '(policy, reconfig) ← reconfig c;
  Some [ClPropose node (ABReconfigurationProposal (mkReconfigurationProposal policy reconfig))].

Fixpoint propose_loop (c : t) (start_time : option Z) (ids : list Z)
    : option (t * list ClientEffect) :=
  match ids with
  | [] => Some (c, [])
  | id :: ids =>
      e1 ← propose_normal c id;
      let '(c, timer, e2) := schedule_once c (timeout c) (TProposal id) in
      let c := set_pending_proposals c
                 (<[id := mkProposalMetaData start_time timer]> (pending_proposals c)) in
      '(c, e3) ← propose_loop c start_time ids;
      Some (c, e1 ++ e2 ++ e3)
  end.

Definition send_concurrent_proposals (c : t) (now : Z) : option (t * list ClientEffect) :=
  let num_inflight := Z.of_nat (size (pending_proposals c)) in
  if (num_inflight =? num_concurrent_proposals c) || (current_leader c =? 0) then Some (c, [])
  else
    let available_n := num_concurrent_proposals c -u64 num_inflight in
    let from := latest_proposal_id c +u64 1 in
    let i := latest_proposal_id c +u64 available_n in
    let to := if max_proposal_id c <? i then max_proposal_id c else i in
    if to <? from then Some (c, [])
    else
      let start_time := if num_concurrent_proposals c =? 1 then Some now else None in
      '(c, effs) ← propose_loop c start_time (Client.inclusive_range from to);
      Some (set_latest_proposal_id c to, effs).

(** The reconfiguration, with its timer. *)
Definition start_reconfiguration (c : t) (now : Z) : option (t * list ClientEffect) :=
  leader ← get_node c (current_leader c);
  e1 ← propose_reconfiguration c leader;
  let c := set_reconfig_start_ts c (Some now) in
  let '(c, timer, e2) := schedule_once c (timeout c) TReconfig in
  Some (set_pending_proposals c
          (<[RECONFIG_ID := mkProposalMetaData None timer]> (pending_proposals c)), e1 ++ e2).

Definition handle_normal_response (c : t) (id : Z) (latency_res : option Z) (now : Z)
    : option (t * list ClientEffect) :=
  let c := set_responses c (<[id := latency_res]> (responses c)) in
  let received_count := Z.of_nat (size (responses c)) in
  if received_count =? num_proposals c then
    match reconfig c with
    | None =>
        let e1 := Client.cancel (window_timer c) in
        let c := set_window_timer c None in
        Some (set_state c Finished, e1 ++ [ClFinished])
    | Some _ => Some (c, [])
    end
  else if (received_count =? num_proposals c / RECONFIGURATION_WARMUP_FACTOR) &&
          bool_decide (is_Some (reconfig c))
  then start_reconfiguration c now
  else Some (c, []).

Definition handle_reconfig_response (c : t) (rr : ReconfigurationResp) (now : Z)
    : option (t * list ClientEffect) :=
  match pending_proposals c !! RECONFIG_ID with
  | None => Some (c, [])
  | Some proposal_meta =>
      let c := set_pending_proposals c (delete RECONFIG_ID (pending_proposals c)) in
      let c := set_reconfig_end_ts c (Some now) in
      let cancelled := [ClCancel (pm_timer proposal_meta)] in
      if Z.of_nat (size (responses c)) =? num_proposals c
      then Some (set_state c Finished, cancelled ++ [ClFinished])
      else
        let c := set_reconfig c None in
        let c := set_current_config c (rr_current_configuration rr) in
        let c :=
          if (0 <? rr_latest_leader rr) && negb (current_leader c =? rr_latest_leader rr)
             && (leader_round c <? rr_leader_round rr) then
            let c := set_leader c (rr_latest_leader rr) (rr_leader_round rr) in
            set_leader_changes c
              (leader_changes c ++ [(now, (current_leader c, leader_round c))])
          else c in
        '(c, effs) ← send_concurrent_proposals c now;
        Some (c, cancelled ++ effs)
  end.

(** ** Timers *)

Definition proposal_timeout (c : t) (id : Z) : option (t * list ClientEffect) :=
  match responses c !! id with
  | Some _ => Some (c, [])
  | None =>
      let c := set_num_timed_out c (num_timed_out c +u64 1) in
      e1 ← propose_normal c id;
      let '(c, _, e2) := schedule_once c (timeout c) (TProposal id) in
      Some (c, e1 ++ e2)
  end.

Definition reconfig_timeout (c : t) : option (t * list ClientEffect) :=
  leader ← get_node c (current_leader c);
  e1 ← propose_reconfiguration c leader;
  let '(c, timer, e2) := schedule_once c (timeout c) TReconfig in
  proposal_meta ← pending_proposals c !! RECONFIG_ID;
  Some (set_pending_proposals c
          (<[RECONFIG_ID := mkProposalMetaData (pm_start_time proposal_meta) timer]>
             (pending_proposals c)), e1 ++ e2).

Definition window_timeout (c : t) : t :=
  set_windows c (windows c ++ [Z.of_nat (size (responses c))]).

(** ** Stopping *)

Definition reply_stop_ask (c : t) : option (t * list ClientEffect) :=
  if stop_ask c then
    let c := set_stop_ask c false in
    let num_decided := Z.of_nat (size (responses c)) in
    let v := merge_sort Client.by_id
               (filter (fun x => is_Some x.2) (map_to_list (responses c))) in
    let latencies := omap snd v in
    let c := set_responses c ∅ in
    reconfig_ts ←
      match reconfig_start_ts c with
      | Some start_ts => end_ts ← reconfig_end_ts c; Some (Some (start_ts, end_ts))
      | None => Some None
      end;
    let windowed_result := mkWindowedResult 0 (windows c) in
    let c := set_windows c [] in
    let results := mkMetaResults num_decided 0 (num_timed_out c) (num_retried c) latencies
                     (leader_changes c) windowed_result reconfig_ts 0 in
    Some (set_leader_changes c [], [ClReplyStop results])
  else None.

Definition kill_timeout (c : t) : option (t * list ClientEffect) :=
  match nodes c with
  | [] => Some (c, [])
  | _ => reply_stop_ask c
  end.

Definition send_stop (c : t) : t * list ClientEffect :=
  let e1 := map (fun kv : Z * Path => ClStop kv.2) (nodes c) in
  let '(c, _, e2) := schedule_once c KILL_TIMEOUT TKill in
  (c, e1 ++ e2).

Definition stop (c : t) : t * list ClientEffect :=
  let e1 := map (fun kv : Z * ProposalMetaData => ClCancel (pm_timer kv.2))
                (map_to_list (pending_proposals c)) in
  let c := set_pending_proposals c ∅ in
  let '(c, e2) := send_stop c in
  (set_stop_ask c true, e1 ++ e2).

(** ** Messages *)

(** [None] is the failed [assert_ne!]. *)
Definition run (c : t) (now : Z) : option (t * list ClientEffect) :=
  let c := set_state c Running in
  if current_leader c =? 0 then None
  else
    let '(c, timer, e1) := schedule_periodic c WINDOW_DURATION TWindow in
    let c := set_window_timer c (Some timer) in
    '(c, e2) ← send_concurrent_proposals c now;
    Some (c, e1 ++ e2).

Definition receive_local (c : t) (msg : Client.LocalClientMessage) (now : Z)
    : option (t * list ClientEffect) :=
  match msg with
  | Client.LRun => run c now
  | Client.LStop => Some (stop c)
  end.

Definition note_leader (c : t) (leader round now : Z) : t :=
  if bool_decide (leader ∈ current_config c) && (leader_round c <? round) then
    if current_leader c =? leader then set_leader c (current_leader c) round
    else set_leader_changes (set_leader c leader round)
           (leader_changes c ++ [(now, (leader, round))])
  else c.

(** A response before the experiment is that of a preloaded entry; the latch is counted
    down when the last of them arrived. *)
Definition preloaded_response (c : t) (pr : ProposalResp) : t * list ClientEffect :=
  let c := set_leader c (resp_latest_leader pr) (resp_leader_round pr) in
  let c := set_rem_preloaded_proposals c (rem_preloaded_proposals c -u64 1) in
  (c, if rem_preloaded_proposals c =? 0 then [ClWarmupDone] else []).

Definition handle_proposal_resp (c : t) (pr : ProposalResp) (now : Z)
    : option (t * list ClientEffect) :=
  if bool_decide (state c = Finished) then Some (c, [])
  else
    id ← Client.proposal_id (resp_data pr);
    match pending_proposals c !! id with
    | Some proposal_meta =>
        let c := set_pending_proposals c (delete id (pending_proposals c)) in
        let latency := (fun start_time => now - start_time) <$> pm_start_time proposal_meta in
        let cancelled := [ClCancel (pm_timer proposal_meta)] in
        let c := note_leader c (resp_latest_leader pr) (resp_leader_round pr) now in
        '(c, e1) ← handle_normal_response c id latency now;
        '(c, e2) ← send_concurrent_proposals c now;
        Some (c, cancelled ++ e1 ++ e2)
    | None =>
        if (id <=? num_preloaded_proposals c) && bool_decide (state c = Setup)
        then Some (preloaded_response c pr) else Some (c, [])
    end.

Definition handle_leader (c : t) (pid round now : Z) : option (t * list ClientEffect) :=
  match state c with
  | Setup => if 0 <? pid then Some (set_leader c pid round, []) else None
  | Running =>
      if leader_round c <? round then
        if current_leader c =? pid then Some (set_leader c pid round, [])
        else Some (set_leader_changes (set_leader c pid round)
                     (leader_changes c ++ [(now, (pid, round))]), [])
      else Some (c, [])
  | _ => Some (c, [])
  end.

Definition handle_proposal (c : t) (p : Proposal) : option (t * list ClientEffect) :=
  id ← Client.proposal_id (proposal_data p);
  match responses c !! id with
  | None =>
      let c := set_num_retried c (num_retried c +u64 1) in
      effs ← propose_normal c id;
      Some (c, effs)
  | Some _ => Some (c, [])
  end.

Definition receive_atomic_broadcast (c : t) (m : AtomicBroadcastMsg) (now : Z)
    : option (t * list ClientEffect) :=
  match m with
  | ABLeader pid round => handle_leader c pid round now
  | ABReconfigurationResp rr => handle_reconfig_response c rr now
  | ABProposalResp pr => handle_proposal_resp c pr now
  | ABProposal p => handle_proposal c p
  | ABReconfigurationProposal _ => Some (c, [])
  end.

(** [None] is the panic on an unknown pid. *)
Definition receive_stop (c : t) (m : StopMsg) : option (t * list ClientEffect) :=
  match m with
  | StopPeer pid =>
      _ ← get_node c pid;
      let c := set_nodes c (filter (fun kv : Z * Path => kv.1 <> pid) (nodes c)) in
      match nodes c with
      | [] => reply_stop_ask c
      | _ => Some (c, [])
      end
  | StopClient => Some (c, [])
  end.

(** The timers that this client schedules. *)
Definition timer_timeout (c : t) (timer : ClientTimer) : option (t * list ClientEffect) :=
  match timer with
  | TProposal id => proposal_timeout c id
  | TReconfig => reconfig_timeout c
  | TKill => kill_timeout c
  | TWindow => Some (window_timeout c, [])
  | _ => Some (c, [])
  end.

Definition step (c : t) (now : Z) (i : Client.input) : option (t * list ClientEffect) :=
  match i with
  | Client.Local m => receive_local c m now
  | Client.AtomicBroadcast m => receive_atomic_broadcast c m now
  | Client.Stop m => receive_stop c m
  | Client.Timeout timer => timer_timeout c timer
  end.

Fixpoint steps (c : t) (inputs : list (Z * Client.input)) : option (t * list ClientEffect) :=
  match inputs with
  | [] => Some (c, [])
  | (now, i) :: inputs =>
      '(c, e1) ← step c now i;
      '(c, e2) ← steps c inputs;
      Some (c, e1 ++ e2)
  end.
End client.
End ReconfigClient.
