(* ===== verification/ReconfigClientThm.v ===== *)
(** The reconfiguration experiment comes to its end ([reconfig_client.rs]).

    The invariant of the client: its window, its ids, and the phase of its
    reconfiguration.  From it the client always has something in flight until it is
    finished, and it finishes once. *)

From Stdlib Require Import Strings.Byte.
From S2P Require Import Prelude MpMessages Partition Wire Election PaxosWire MsgWire.
From S2P Require Import PaxosStorage Communicator PaxosReplica PaxosComp Client ClientThm ReconfigClient.

Import MsgWire ReconfigClient.

Section finish.
Context `{BufOps}.

(** The number of proposals, the concurrency and the length of the preloaded log. *)
Context (M N P : Z) (HM : 2 <= M) (HN : 0 < N) (HP : 0 <= P) (Hfit : M + P + N < 2 ^ 64).

(** ** The invariant *)

Definition outstanding (c : t) : nat := size (delete RECONFIG_ID (pending_proposals c)).

Definition reconfig_pending (c : t) : nat :=
  match pending_proposals c !! RECONFIG_ID with Some _ => 1 | None => 0 end.

Definition answered (c : t) : Z := Z.of_nat (size (responses c)).

Lemma pending_size c : size (pending_proposals c) = (outstanding c + reconfig_pending c)%nat.
Proof.
  unfold outstanding, reconfig_pending.
  destruct (pending_proposals c !! RECONFIG_ID) as [x|] eqn:Hr.
  - rewrite map_size_delete_Some by (by eexists).
    assert (size (pending_proposals c) <> 0%nat); [|lia].
    intros Hz%map_size_empty_inv. by rewrite Hz in Hr.
  - rewrite map_size_delete_None by done. lia.
Qed.

Record sound (c : t) : Prop := {
  so_num : num_proposals c = M;
  so_conc : num_concurrent_proposals c = N;
  so_pre : num_preloaded_proposals c = P;
  so_max : max_proposal_id c = M + P;
  so_stop : stop_ask c = false;
  so_config : 0 ∉ current_config c;
  so_latest : P <= latest_proposal_id c <= M + P;
  so_pending : forall id, is_Some (pending_proposals c !! id) ->
    id = RECONFIG_ID \/ P < id <= latest_proposal_id c;
  so_responses : forall id, is_Some (responses c !! id) ->
    P < id <= latest_proposal_id c /\ pending_proposals c !! id = None;
  so_balanced : latest_proposal_id c = P + Z.of_nat (outstanding c) + answered c;
  so_upper : Z.of_nat (size (pending_proposals c)) <= N }.

(** The reconfiguration is in flight from half of the answers on until it is answered. *)
Definition phased (c : t) : Prop :=
  match reconfig c with
  | None => reconfig_pending c = 0%nat /\ answered c < M
  | Some _ => reconfig_pending c = 1%nat <-> M / 2 <= answered c
  end.

Definition full (c : t) : Prop :=
  N <= Z.of_nat (size (pending_proposals c)) \/ latest_proposal_id c = M + P.

Definition in_state (c : t) : Prop :=
  match state c with
  | Setup => pending_proposals c = ∅ /\ responses c = ∅ /\ latest_proposal_id c = P
  | Running => current_leader c <> 0 /\ full c /\ phased c
  | Finished => answered c = M /\ reconfig_pending c = 0%nat
  | _ => False
  end.

Definition inv (c : t) : Prop := sound c /\ in_state c.

Lemma reconfig_pending_cases c : reconfig_pending c = 0%nat \/ reconfig_pending c = 1%nat.
Proof. unfold reconfig_pending. case_match; auto. Qed.

(** The countdowns of the finished latch among the effects. *)
Fixpoint finishes (effs : list ClientEffect) : nat :=
  match effs with
  | [] => 0
  | ClFinished :: effs => S (finishes effs)
  | _ :: effs => finishes effs
  end.

Lemma finishes_app e1 e2 : finishes (e1 ++ e2) = (finishes e1 + finishes e2)%nat.
Proof. induction e1 as [|[] e1 IH]; simpl; rewrite ?IH; lia. Qed.

Lemma propose_normal_finishes c id e : propose_normal c id = Some e -> finishes e = 0%nat.
Proof. by intros (l & _ & [= <-])%bind_Some. Qed.

Lemma propose_reconfiguration_finishes c l e :
  propose_reconfiguration c l = Some e -> finishes e = 0%nat.
Proof. by intros ([] & _ & [= <-])%bind_Some. Qed.

(** ** Sending *)

Definition same_rest (c c' : t) : Prop :=
  num_proposals c' = num_proposals c /\
  num_concurrent_proposals c' = num_concurrent_proposals c /\
  num_preloaded_proposals c' = num_preloaded_proposals c /\
  max_proposal_id c' = max_proposal_id c /\ stop_ask c' = stop_ask c /\
  current_config c' = current_config c /\ responses c' = responses c /\ state c' = state c /\
  reconfig c' = reconfig c /\ current_leader c' = current_leader c.

Lemma rc_propose_loop_spec start ids c c' e :
  propose_loop c start ids = Some (c', e) -> NoDup ids ->
  (forall id, id ∈ ids -> pending_proposals c !! id = None) ->
  same_rest c c' /\ latest_proposal_id c' = latest_proposal_id c /\
  size (pending_proposals c') = (size (pending_proposals c) + length ids)%nat /\
  (forall id, is_Some (pending_proposals c' !! id) <->
              is_Some (pending_proposals c !! id) \/ id ∈ ids) /\ finishes e = 0%nat.
Proof.
  revert c e. induction ids as [|id ids IH]; intros c e H' Hnd Hnew.
  - injection H' as <- <-. split_and!; [by repeat split|done|simpl; lia| |done].
    intros x. rewrite elem_of_nil. tauto.
  - apply NoDup_cons in Hnd as [Hid Hnd]. cbn [propose_loop] in H'.
    apply bind_Some in H' as (e1 & He1 & H'). simpl in H'.
    apply bind_Some in H' as ([c2 e3] & Hl & [= <- <-]).
    apply IH in Hl as (Hsame & Hlat & Hsz & Hdom & Hfin); [|done|].
    + split_and!; [exact Hsame|done| | |rewrite finishes_app, (propose_normal_finishes _ _ _ He1); exact Hfin].
      * rewrite Hsz. simpl. rewrite map_size_insert_None by (apply Hnew, list_elem_of_here). lia.
      * intros x. rewrite Hdom. simpl. rewrite lookup_insert_is_Some, elem_of_cons. split.
        -- intros [[->|[_ ?]]|?]; tauto.
        -- intros [?|[->|?]]; [|by left; left|by right].
           destruct (decide (id = x)); tauto.
    + intros x Hx. simpl. rewrite lookup_insert_ne by (intros ->; done).
      by apply Hnew, list_elem_of_further.
Qed.

(** Sending fills the window, or makes the last proposals there are. *)
Lemma rc_send_spec c now c' e :
  send_concurrent_proposals c now = Some (c', e) -> sound c -> current_leader c <> 0 ->
  sound c' /\ full c' /\ same_rest c c' /\ reconfig_pending c' = reconfig_pending c /\
  finishes e = 0%nat.
Proof.
  intros H' [] Hl. unfold send_concurrent_proposals in H'. cbv zeta in H'.
  rewrite (proj2 (Z.eqb_neq _ _) Hl), orb_false_r in H'.
  assert (Hkeep : full c -> sound c /\ full c /\ same_rest c c /\
            reconfig_pending c = reconfig_pending c /\ finishes [] = 0%nat).
  { intros Hf. split_and!; try done; by repeat split. }
  rewrite so_conc0 in H'.
  destruct (Z.eqb_spec (Z.of_nat (size (pending_proposals c))) N) as [Heq|Hne].
  { injection H' as <- <-. apply Hkeep. left. lia. }
  unfold u64_add, u64_sub in H'. rewrite !Z.mod_small in H' by (try rewrite Z.mod_small; lia).
  rewrite so_max0 in H'.
  set (room := N - Z.of_nat (size (pending_proposals c))) in H'.
  set (to := if M + P <? _ then M + P else _) in H'.
  assert (Hto : to = Z.min (M + P) (latest_proposal_id c + room))
    by (unfold to; destruct (Z.ltb_spec (M + P) (latest_proposal_id c + room)); lia).
  clearbody to. unfold room in Hto. clear room. destruct (Z.ltb_spec to (latest_proposal_id c + 1)) as [Hlt|Hge].
  { injection H' as <- <-. apply Hkeep. right. lia. }
  apply bind_Some in H' as ([c1 e1] & Hloop & [= <- <-]).
  apply rc_propose_loop_spec in Hloop as (Hsame & Hlat1 & Hsz1 & Hdom & Hfin).
  - replace to with (latest_proposal_id c + (to - latest_proposal_id c)) in Hsz1, Hdom by lia.
    rewrite inclusive_range_length in Hsz1 by lia.
    assert (Hdom' : forall id, is_Some (pending_proposals c1 !! id) <->
              is_Some (pending_proposals c !! id) \/ latest_proposal_id c < id <= to).
    { intros id. rewrite Hdom, inclusive_range_elem. split; (intros [?|?]; [by left|right; lia]). }
    clear Hdom. destruct Hsame as (E1 & E2 & E3 & E4 & E5 & E6 & E7 & E8 & E9 & E10).
    assert (Hrec : reconfig_pending c1 = reconfig_pending c).
    { unfold reconfig_pending. pose proof (Hdom' RECONFIG_ID) as Hd. unfold RECONFIG_ID in *.
      destruct (pending_proposals c1 !! 0), (pending_proposals c !! 0); try done.
      - destruct Hd as [Hd _]. destruct Hd as [[? [=]]|?]; [by eexists|lia].
      - destruct Hd as [_ Hd]. destruct Hd as [? [=]]. left. by eexists. }
    pose proof (pending_size c). pose proof (pending_size c1).
    assert (Ho : outstanding (set_latest_proposal_id c1 to) = outstanding c1) by done.
    split_and!; [|unfold full; simpl; lia|by repeat split|done|done].
    constructor; rewrite ?Ho; unfold answered; simpl; rewrite ?E7; try congruence; try lia.
    + intros id [Hi%so_pending0|?]%Hdom'; [destruct Hi; [by left|right; lia]|right; lia].
    + intros id Hi%so_responses0. split; [lia|]. apply eq_None_not_Some. intros [Hs|]%Hdom'; [|lia].
      destruct Hi as [_ Hi]. rewrite Hi in Hs. by destruct Hs.
    + unfold answered in so_balanced0. lia.
  - apply inclusive_range_NoDup.
  - intros id Hin%inclusive_range_elem. apply eq_None_not_Some.
    intros Hs%so_pending0. unfold RECONFIG_ID in Hs. lia.
Qed.

(** ** Steps that keep the proposals *)

Definition view (c : t) :=
  (num_proposals c, num_concurrent_proposals c, num_preloaded_proposals c, max_proposal_id c,
   stop_ask c, current_config c, latest_proposal_id c, pending_proposals c, responses c,
   reconfig c, state c).

Definition kept (c c' : t) : Prop :=
  view c' = view c /\ (current_leader c <> 0 -> current_leader c' <> 0).

Lemma rc_kept_refl c : kept c c.
Proof. done. Qed.

Lemma sound_kept c c' : sound c -> kept c c' -> sound c'.
Proof.
  intros [] [Hv _]. unfold view in Hv. simplify_eq.
  assert (outstanding c' = outstanding c) by (unfold outstanding; congruence).
  assert (answered c' = answered c) by (unfold answered; congruence).
  constructor;
    repeat match goal with E : _ c' = _ c |- _ => rewrite E; clear E end; assumption.
Qed.

Lemma in_state_kept c c' : in_state c -> kept c c' -> in_state c'.
Proof.
  intros Hi [Hv Hl]. unfold view in Hv. simplify_eq. revert Hi.
  unfold in_state, full, phased, reconfig_pending, answered.
  repeat match goal with E : _ c' = _ c |- _ => rewrite E; clear E end.
  destruct (state c); naive_solver.
Qed.

Lemma kept_facts c c' :
  kept c c' -> state c' = state c /\ reconfig c' = reconfig c /\ answered c' = answered c /\
  reconfig_pending c' = reconfig_pending c /\ pending_proposals c' = pending_proposals c.
Proof.
  intros [Hv _]. unfold view in Hv. simplify_eq. unfold answered, reconfig_pending.
  split_and!; by repeat match goal with E : _ c' = _ |- _ => rewrite E; clear E end.
Qed.

(** What remains to be answered. *)
Definition work (c : t) : Z :=
  M - answered c +
  match state c, reconfig c with
  | Finished, _ | _, None => 0
  | _, Some _ => 1
  end.

Lemma work_kept c c' : kept c c' -> work c' = work c.
Proof.
  intros [Hv _]. unfold view in Hv. simplify_eq. unfold work, answered.
  repeat match goal with E : _ c' = _ c |- _ => rewrite E; clear E end. done.
Qed.

(** ** What one input does *)

Definition newly (c c' : t) : nat :=
  match state c, state c' with
  | Finished, _ => 0
  | _, Finished => 1
  | _, _ => 0
  end.

(** Whether the input answers a proposal or the reconfiguration in flight. *)
Definition hit (c : t) (i : Client.input) : Z :=
  match i with
  | Client.AtomicBroadcast (ABProposalResp pr) =>
      match Client.proposal_id (resp_data pr) with
      | Some id => match pending_proposals c !! id with Some _ => 1 | None => 0 end
      | None => 0
      end
  | Client.AtomicBroadcast (ABReconfigurationResp _) =>
      match pending_proposals c !! RECONFIG_ID with Some _ => 1 | None => 0 end
  | _ => 0
  end.

Definition outcome (c c' : t) (h : Z) (e : list ClientEffect) : Prop :=
  inv c' /\ work c' = work c - h /\ finishes e = newly c c'.

Lemma outcome_kept c c' e : inv c -> kept c c' -> finishes e = 0%nat -> outcome c c' 0 e.
Proof.
  intros [Hs Hi] Hk He. split_and!.
  - split; [by eapply sound_kept|by eapply in_state_kept].
  - rewrite (work_kept _ _ Hk). lia.
  - destruct Hk as [Hv _]. unfold view in Hv. simplify_eq.
    unfold newly. rewrite He. by replace (state c') with (state c); destruct (state c).
Qed.

Lemma answered_bound c : sound c -> answered c + Z.of_nat (outstanding c) <= M.
Proof. intros []. lia. Qed.

(** Taking an answered proposal out of the window. *)
Lemma answer_sound c id m l :
  sound c -> id <> RECONFIG_ID -> pending_proposals c !! id = Some m ->
  let c1 := set_responses (set_pending_proposals c (delete id (pending_proposals c)))
              (<[id := l]> (responses c)) in
  sound c1 /\ answered c1 = answered c + 1 /\ reconfig_pending c1 = reconfig_pending c /\
  S (size (pending_proposals c1)) = size (pending_proposals c).
Proof.
  intros [] Hid Hm. cbv zeta.
  assert (Hin : is_Some (pending_proposals c !! id)) by eauto.
  assert (Hr : responses c !! id = None).
  { apply eq_None_not_Some. intros Hs. destruct (so_responses0 _ Hs). congruence. }
  assert (Hsz : size (pending_proposals c) <> 0%nat).
  { intros Hz%map_size_empty_inv. by rewrite Hz in Hm. }
  set (c1 := set_responses _ _).
  assert (Ha : answered c1 = answered c + 1).
  { unfold answered. simpl. rewrite map_size_insert_None by done. lia. }
  assert (Hrec : reconfig_pending c1 = reconfig_pending c).
  { unfold reconfig_pending. simpl. by rewrite lookup_delete_ne by done. }
  assert (Hp : S (size (pending_proposals c1)) = size (pending_proposals c)).
  { simpl. rewrite map_size_delete_Some by done. lia. }
  pose proof (pending_size c). pose proof (pending_size c1).
  split_and!; try done. constructor; try done; simpl in *; try lia.
  - intros x Hx. apply so_pending0. by apply lookup_delete_is_Some in Hx as [_ ?].
  - intros x Hx. destruct (decide (id = x)) as [<-|Hne].
    + split; [|by rewrite lookup_delete_eq]. destruct (so_pending0 id Hin); [done|lia].
    + rewrite lookup_insert_ne in Hx by done. rewrite lookup_delete_ne by done. auto.
Qed.

Lemma rc_start_reconfiguration_spec c now c' e :
  start_reconfiguration c now = Some (c', e) -> sound c -> reconfig_pending c = 0%nat ->
  Z.of_nat (size (pending_proposals c)) < N ->
  sound c' /\ reconfig_pending c' = 1%nat /\ answered c' = answered c /\
  state c' = state c /\ reconfig c' = reconfig c /\ current_leader c' = current_leader c /\
  finishes e = 0%nat.
Proof.
  intros H' [] Hr Hn. unfold start_reconfiguration in H'.
  apply bind_Some in H' as (l & _ & H'). apply bind_Some in H' as (e1 & He1 & [= <- <-]).
  simpl in *. set (c1 := set_pending_proposals _ _).
  assert (Hnone : pending_proposals c !! RECONFIG_ID = None).
  { revert Hr. unfold reconfig_pending. by case_match. }
  assert (Hr1 : reconfig_pending c1 = 1%nat).
  { unfold reconfig_pending. simpl. by rewrite lookup_insert_eq. }
  assert (Hp : size (pending_proposals c1) = S (size (pending_proposals c))).
  { simpl. by rewrite map_size_insert_None. }
  pose proof (pending_size c). pose proof (pending_size c1).
  split_and!; try done.
  - constructor; try done; simpl in *; try lia; unfold answered in *; simpl in *; try lia.
    + intros x Hx. apply lookup_insert_is_Some in Hx as [<-|[_ Hx]]; [by left|auto].
    + intros x Hx. destruct (so_responses0 x Hx). split; [done|].
      rewrite lookup_insert_ne; [done|]. unfold RECONFIG_ID in *. lia.
  - rewrite finishes_app, (propose_reconfiguration_finishes _ _ _ He1). done.
Qed.

(** The decision after an answer was counted. *)
Definition decide_next (c : t) (now : Z) : option (t * list ClientEffect) :=
  if answered c =? num_proposals c then
    match reconfig c with
    | None => Some (set_state (set_window_timer c None) Finished,
                    Client.cancel (window_timer c) ++ [ClFinished])
    | Some _ => Some (c, [])
    end
  else if (answered c =? num_proposals c / RECONFIGURATION_WARMUP_FACTOR) &&
          bool_decide (is_Some (reconfig c))
  then start_reconfiguration c now
  else Some (c, []).

Lemma rc_handle_normal_response_eq c id latency now :
  handle_normal_response c id latency now =
  decide_next (set_responses c (<[id := latency]> (responses c))) now.
Proof. done. Qed.

(** The phase before the last answer was counted. *)
Definition phased_before (c : t) : Prop :=
  match reconfig c with
  | None => reconfig_pending c = 0%nat
  | Some _ => reconfig_pending c = 1%nat <-> M / 2 <= answered c - 1
  end.

Definition settled (c c1 : t) (e1 : list ClientEffect) : Prop :=
  sound c1 /\ current_leader c1 <> 0 /\ answered c1 = answered c /\
  match state c1 with
  | Running => phased c1 /\ reconfig c1 = reconfig c /\ finishes e1 = 0%nat
  | Finished =>
      answered c = M /\ reconfig_pending c1 = 0%nat /\ reconfig c = None /\
      finishes e1 = 1%nat
  | _ => False
  end.

Lemma decide_next_spec c now c1 e1 :
  decide_next c now = Some (c1, e1) -> sound c -> state c = Running ->
  current_leader c <> 0 -> Z.of_nat (size (pending_proposals c)) < N -> phased_before c ->
  settled c c1 e1.
Proof.
  intros H' Hs Hst Hl Hp Hb. pose proof (answered_bound _ Hs) as Hbound.
  assert (Hhalf : M / 2 < M /\ 0 < M / 2) by (split; [apply Z.div_lt|apply Z.div_str_pos]; lia).
  unfold decide_next in H'. rewrite (so_num _ Hs) in H'.
  unfold RECONFIGURATION_WARMUP_FACTOR in H'.
  pose proof (reconfig_pending_cases c) as Hcases. unfold phased_before in Hb.
  destruct (Z.eqb_spec (answered c) M) as [He|He].
  - destruct (reconfig c) eqn:Hrc; injection H' as <- <-.
    + split_and!; try done. rewrite Hst. split_and!; try done. unfold phased. rewrite Hrc.
      rewrite Hb. lia.
    + split_and!; try done.
      * destruct Hs. by constructor.
      * simpl. rewrite finishes_app. split_and!; try done. by destruct (window_timer c).
  - destruct (Z.eqb_spec (answered c) (M / 2)) as [Hh|Hh];
      [destruct (reconfig c) as [x|] eqn:Hrc|].
    + apply rc_start_reconfiguration_spec in H' as (Hs1 & Hr1 & Ha1 & Hst1 & Hrc1 & Hl1 & He1);
        [|done|lia|done].
      unfold settled. rewrite Hl1, Hst1, Hst, Ha1. split_and!; try done.
      unfold phased. rewrite Hrc1, Hrc. lia.
    + injection H' as <- <-. split_and!; try done. rewrite Hst. split_and!; try done.
      unfold phased. rewrite Hrc. lia.
    + injection H' as <- <-. split_and!; try done. rewrite Hst. split_and!; try done.
      unfold phased. destruct (reconfig c); lia.
Qed.

Lemma note_leader_kept_rc c leader round now :
  0 ∉ current_config c -> kept c (note_leader c leader round now).
Proof.
  intros H0. unfold note_leader. case_bool_decide as Hin; [|done]. cbn [andb].
  destruct (_ <? _); [|done]. destruct (Z.eqb_spec (current_leader c) leader); split; try done.
  simpl. by intros _ ->.
Qed.

(** An answer to a proposal in flight. *)
Lemma rc_answer_outcome c id m latency leader round now c1 c' e1 e2 :
  inv c -> state c = Running -> id <> RECONFIG_ID -> pending_proposals c !! id = Some m ->
  handle_normal_response
    (note_leader (set_pending_proposals c (delete id (pending_proposals c))) leader round now)
    id latency now = Some (c1, e1) ->
  send_concurrent_proposals c1 now = Some (c', e2) -> outcome c c' 1 (e1 ++ e2).
Proof.
  intros [Hs Hi] Hst Hid Hm H1 H2. unfold in_state in Hi. rewrite Hst in Hi.
  destruct Hi as (Hl & _ & Hph).
  destruct (answer_sound c id m latency Hs Hid Hm) as (Hs1 & Ha & Hr & Hp).
  rewrite rc_handle_normal_response_eq in H1.
  set (c0 := set_pending_proposals c _) in *.
  pose proof (note_leader_kept_rc c0 leader round now (so_config _ Hs)) as [Hv Hcl].
  set (c2 := note_leader c0 leader round now) in *. clearbody c2.
  assert (Hk : kept (set_responses c0 (<[id:=latency]> (responses c)))
                    (set_responses c2 (<[id:=latency]> (responses c2)))).
  { unfold kept, view in *. simpl in *. simplify_eq. split; [|done].
    by repeat match goal with E : _ c2 = _ |- _ => rewrite E; clear E end. }
  set (c3 := set_responses c2 _) in *. clearbody c3.
  pose proof (kept_facts _ _ Hk) as (Est & Erc & Ea & Er & Ep).
  assert (Hst3 : state c3 = Running) by (rewrite Est; exact Hst).
  assert (Hrc3 : reconfig c3 = reconfig c) by exact Erc.
  rewrite Ha in Ea. rewrite Hr in Er. rewrite <- Ep in Hp.
  apply decide_next_spec in H1 as (Hs4 & Hl4 & Ha4 & Hcase);
    [|by eapply sound_kept|done|by apply (proj2 Hk)|pose proof (so_upper _ Hs); lia|].
  2: { unfold phased_before. rewrite Hrc3, Er, Ea. revert Hph. unfold phased.
       replace (answered c + 1 - 1) with (answered c) by lia. destruct (reconfig c); tauto. }
  apply rc_send_spec in H2 as (Hs5 & Hf5 & Hsame & Hr5 & He5); [|done..].
  destruct Hsame as (_ & _ & _ & _ & _ & _ & Eresp & Est5 & Erc5 & El5).
  assert (Ha5 : answered c' = answered c + 1) by (unfold answered in *; rewrite Eresp; lia).
  unfold outcome, inv, in_state, work, newly. rewrite Est5, Erc5, Ha5, Hst, finishes_app, He5.
  destruct (state c1); try done.
  - destruct Hcase as (Hph1 & Erc1 & He1). rewrite Erc1, Hrc3. split_and!; try done.
    + by rewrite El5.
    + unfold phased in *. rewrite Erc5, Hr5, Ha5. rewrite Ha4, Ea in Hph1. done.
    + destruct (reconfig c); lia.
    + lia.
  - destruct Hcase as (HaM & Hr1 & Hrc1 & He1). rewrite <- Hrc3, Hrc1. split_and!; try done; lia.
Qed.

(** Taking the reconfiguration out of the window, with what the client then forgets. *)
Lemma reconfig_done_sound c c1 :
  sound c -> is_Some (pending_proposals c !! RECONFIG_ID) ->
  num_proposals c1 = num_proposals c ->
  num_concurrent_proposals c1 = num_concurrent_proposals c ->
  num_preloaded_proposals c1 = num_preloaded_proposals c ->
  max_proposal_id c1 = max_proposal_id c -> stop_ask c1 = stop_ask c ->
  0 ∉ current_config c1 -> latest_proposal_id c1 = latest_proposal_id c ->
  pending_proposals c1 = delete RECONFIG_ID (pending_proposals c) ->
  responses c1 = responses c ->
  sound c1 /\ reconfig_pending c1 = 0%nat /\ answered c1 = answered c.
Proof.
  intros [] Hr E1 E2 E3 E4 E5 E6 E7 E8 E9.
  assert (Eo : outstanding c1 = outstanding c).
  { unfold outstanding. by rewrite E8, delete_delete_eq. }
  assert (Ea : answered c1 = answered c) by (unfold answered; congruence).
  split_and!; [|unfold reconfig_pending; by rewrite E8, lookup_delete_eq|done].
  constructor; rewrite ?Eo, ?Ea, ?E1, ?E2, ?E3, ?E4, ?E5, ?E7, ?E8, ?E9; try done.
  - intros x Hx. apply lookup_delete_is_Some in Hx as [_ Hx]. auto.
  - intros x Hx. destruct (so_responses0 x Hx) as [Hb Hn]. split; [done|].
    by rewrite lookup_delete_None, Hn; right.
  - rewrite map_size_delete_Some by done. lia.
Qed.

(** The answer to the reconfiguration. *)
Lemma rc_handle_reconfig_response_outcome c rr now c' e :
  inv c -> 0 ∉ rr_current_configuration rr ->
  handle_reconfig_response c rr now = Some (c', e) ->
  outcome c c' (hit c (Client.AtomicBroadcast (ABReconfigurationResp rr))) e.
Proof.
  intros [Hs Hi] H0 H'. unfold handle_reconfig_response in H'. unfold hit.
  destruct (pending_proposals c !! RECONFIG_ID) as [m|] eqn:Hm.
  2: { injection H' as <- <-. by apply outcome_kept. }
  assert (Hrp : reconfig_pending c = 1%nat) by (unfold reconfig_pending; by rewrite Hm).
  assert (Hsome : is_Some (pending_proposals c !! RECONFIG_ID)) by eauto.
  destruct (state c) eqn:Hst; unfold in_state in Hi; rewrite Hst in Hi;
    try done; [destruct Hi as [Hi _]; by rewrite Hi in Hm| |lia].
  destruct Hi as (Hl & _ & Hph). unfold phased in Hph.
  destruct (reconfig c) as [x|] eqn:Hrc; [|lia]. cbv zeta in H'. cbn [responses num_proposals
    set_reconfig_end_ts set_pending_proposals] in H'.
  rewrite (so_num _ Hs) in H'. fold (answered c) in H'.
  destruct (Z.eqb_spec (answered c) M) as [He|He].
  - injection H' as <- <-. set (c1 := set_state _ _).
    destruct (reconfig_done_sound c c1) as (Hs1 & Hr1 & Ha1); try done; [apply Hs|].
    unfold outcome, inv, in_state, work, newly. rewrite Ha1, Hst, Hrc. simpl. split_and!; try done; lia.
  - apply bind_Some in H' as ([c2 e2] & H2 & [= <- <-]).
    set (c1 := if _ && _ && _ then _ else _) in H2.
    assert (Hc1 : current_leader c1 <> 0 /\ state c1 = Running /\ reconfig c1 = None).
    { unfold c1. destruct (Z.ltb_spec 0 (rr_latest_leader rr)); [|done].
      destruct (_ && _); [|done]. simpl. split_and!; [lia|done|done]. }
    destruct (reconfig_done_sound c c1) as (Hs1 & Hr1 & Ha1); try done;
      try (unfold c1; destruct (_ && _ && _); done).
    clearbody c1. destruct Hc1 as (Hl1 & Hst1 & Hrc1).
    apply rc_send_spec in H2 as (Hs5 & Hf5 & Hsame & Hr5 & He5); [|done..].
    destruct Hsame as (_ & _ & _ & _ & _ & _ & Eresp & Est5 & Erc5 & El5).
    assert (Ha5 : answered c2 = answered c) by (unfold answered in *; rewrite Eresp; lia).
    pose proof (answered_bound _ Hs).
    unfold outcome, inv, in_state, work, newly, phased. rewrite Est5, Erc5, Ha5, Hst, Hst1, Hrc1, Hrc.
    simpl. split_and!; try done; lia.
Qed.

(** ** The inputs of an experiment *)

Definition known (ns : list (Z * Path)) (p : Z) : Prop := is_Some (Client.assoc ns p).

Definition known_leader (ns : list (Z * Path)) (p : Z) : Prop := p <> 0 -> known ns p.

(** The client is started once, after a leader was announced, and is not stopped; answers and
    announcements carry ids and pids that exist; the timer of the reconfiguration fires
    only while it is in flight (it is cancelled with it). *)
Definition input_ok (ns : list (Z * Path)) (c : t) (i : Client.input) : Prop :=
  match i with
  | Client.Local Client.LRun => state c = Setup /\ current_leader c <> 0
  | Client.Local Client.LStop => False
  | Client.AtomicBroadcast (ABLeader pid _) => 0 < pid /\ known ns pid
  | Client.AtomicBroadcast (ABProposalResp pr) =>
      match Client.proposal_id (resp_data pr) with Some id => id <> RECONFIG_ID | None => False end /\
      known_leader ns (resp_latest_leader pr)
  | Client.AtomicBroadcast (ABReconfigurationResp rr) =>
      0 ∉ rr_current_configuration rr /\ Forall (known ns) (rr_current_configuration rr) /\
      known_leader ns (rr_latest_leader rr)
  | Client.AtomicBroadcast (ABProposal p) =>
      is_Some (Client.proposal_id (proposal_data p)) /\ current_leader c <> 0
  | Client.AtomicBroadcast (ABReconfigurationProposal _) => True
  | Client.Stop StopClient => True
  | Client.Stop (StopPeer _) => False
  | Client.Timeout (TProposal _) => current_leader c <> 0
  | Client.Timeout TReconfig => is_Some (pending_proposals c !! RECONFIG_ID)
  | Client.Timeout TKill => False
  | Client.Timeout _ => True
  end.

Lemma rc_run_outcome c now c' e :
  inv c -> state c = Setup -> run c now = Some (c', e) -> outcome c c' 0 e.
Proof.
  intros [Hs Hi] Hst H'. unfold in_state in Hi. rewrite Hst in Hi. destruct Hi as (Hp & Hr & Hlat).
  unfold run in H'. simpl in H'. destruct (Z.eqb_spec (current_leader c) 0) as [|Hl]; [done|].
  apply bind_Some in H' as ([c1 e1] & H1 & [= <- <-]).
  apply rc_send_spec in H1 as (Hs5 & Hf5 & Hsame & Hr5 & He5); [|destruct Hs; by constructor|done].
  destruct Hsame as (_ & _ & _ & _ & _ & _ & Eresp & Est5 & Erc5 & El5).
  assert (Ha : answered c = 0) by (unfold answered; by rewrite Hr).
  assert (Ha1 : answered c1 = 0) by (unfold answered; rewrite Eresp; simpl; by rewrite Hr).
  assert (Hr0 : reconfig_pending c1 = 0%nat).
  { rewrite Hr5. unfold reconfig_pending. simpl. by rewrite Hp. }
  assert (0 < M / 2) by (apply Z.div_str_pos; lia).
  unfold outcome, inv, in_state, work, newly, phased.
  rewrite Est5, Erc5, El5, Ha, Ha1, Hst, Hr0. simpl. split_and!; try done.
  - destruct (reconfig c); lia.
  - destruct (reconfig c); lia.
Qed.

Lemma running_leader c : inv c -> state c = Running -> current_leader c <> 0.
Proof. intros [_ Hi] Hst. unfold in_state in Hi. rewrite Hst in Hi. apply Hi. Qed.

Lemma pending_running c id :
  inv c -> is_Some (pending_proposals c !! id) -> state c = Running.
Proof.
  intros [Hs Hi] [m Hm]. unfold in_state in Hi. pose proof (pending_size c).
  pose proof (answered_bound _ Hs).
  assert (size (pending_proposals c) <> 0%nat).
  { intros Hz%map_size_empty_inv. by rewrite Hz in Hm. }
  destruct (state c); try done; [destruct Hi as [Hi _]; by rewrite Hi in Hm|lia].
Qed.

Lemma rc_handle_proposal_resp_outcome ns c pr now c' e :
  inv c -> input_ok ns c (Client.AtomicBroadcast (ABProposalResp pr)) ->
  handle_proposal_resp c pr now = Some (c', e) ->
  outcome c c' (hit c (Client.AtomicBroadcast (ABProposalResp pr))) e.
Proof.
  intros Hinv [Hid _] H'. unfold handle_proposal_resp, hit in *.
  destruct (Client.proposal_id (resp_data pr)) as [id|] eqn:Hpid; [|done]. cbn [mbind option_bind] in H'.
  destruct (pending_proposals c !! id) as [m|] eqn:Hm.
  - assert (Hst : state c = Running) by (eapply pending_running; [done|by rewrite Hm; eauto]).
    rewrite Hst in H'. simpl in H'.
    apply bind_Some in H' as ([c1 e1] & H1 & H'). apply bind_Some in H' as ([c2 e2] & H2 & [= <- <-]).
    pose proof (rc_answer_outcome _ _ _ _ _ _ _ _ _ _ _ Hinv Hst Hid Hm H1 H2) as Ho. exact Ho.
  - case_bool_decide; [injection H' as <- <-; by apply outcome_kept|].
    destruct (_ <=? _); [|injection H' as <- <-; by apply outcome_kept].
    case_bool_decide as Hst; [|injection H' as <- <-; by apply outcome_kept].
    injection H' as <- <-. destruct Hinv as [Hs Hi]. unfold in_state in Hi. rewrite Hst in Hi.
    split_and!.
    + split; [destruct Hs; by constructor|]. unfold in_state. simpl. by rewrite Hst.
    + unfold work, answered. simpl. lia.
    + unfold newly. simpl. rewrite Hst. by destruct (_ =? _).
Qed.

Lemma rc_handle_leader_outcome c pid round now c' e :
  inv c -> 0 < pid -> handle_leader c pid round now = Some (c', e) -> outcome c c' 0 e.
Proof.
  intros Hinv Hpid H'. unfold handle_leader in H'. rewrite (proj2 (Z.ltb_lt _ _) Hpid) in H'.
  assert (Hk : forall x, kept c (set_leader c pid x)) by (split; [done|simpl; lia]).
  destruct (state c); [| |destruct (_ <? _); [destruct (_ =? _)|]|..];
    injection H' as <- <-; (apply outcome_kept; [done| |done]); try done.
  split; [done|simpl; lia].
Qed.

Lemma rc_reconfig_timeout_outcome c c' e :
  inv c -> reconfig_timeout c = Some (c', e) -> outcome c c' 0 e.
Proof.
  intros [Hs Hi] H'. unfold reconfig_timeout in H'.
  apply bind_Some in H' as (l & _ & H'). apply bind_Some in H' as (e1 & He1 & H'). simpl in H'.
  apply bind_Some in H' as (m & Hm & [= <- <-]). set (c1 := set_pending_proposals _ _).
  assert (Hd : forall id, is_Some (pending_proposals c1 !! id) <-> is_Some (pending_proposals c !! id)).
  { intros id. simpl. rewrite lookup_insert_is_Some. split; [|by destruct (decide (RECONFIG_ID = id)); auto].
    intros [<-|[_ ?]]; by eauto. }
  assert (Ho : outstanding c1 = outstanding c).
  { unfold outstanding. simpl. by rewrite delete_insert_eq. }
  assert (Hr : reconfig_pending c1 = reconfig_pending c).
  { unfold reconfig_pending. simpl. by rewrite lookup_insert_eq, Hm. }
  assert (Hsz : size (pending_proposals c1) = size (pending_proposals c)).
  { pose proof (pending_size c). pose proof (pending_size c1). lia. }
  split_and!; [split|unfold work, answered; simpl; lia|].
  - destruct Hs. constructor; rewrite ?Ho, ?Hsz; try done.
    + intros id Hid%Hd. auto.
    + intros id Hid. destruct (so_responses0 id Hid) as [? Hn]. split; [done|].
      apply eq_None_not_Some. rewrite Hd. by rewrite Hn; intros [].
  - revert Hi. unfold in_state, full, phased. rewrite Hsz, Hr. simpl. destruct (state c); try done.
    intros [Hz _]. by rewrite Hz in Hm.
  - rewrite finishes_app, (propose_reconfiguration_finishes _ _ _ He1). unfold newly. simpl.
    by destruct (state c).
Qed.

(** ** One input *)

Lemma rc_step_outcome ns c now i c' e :
  inv c -> input_ok ns c i -> step c now i = Some (c', e) -> outcome c c' (hit c i) e.
Proof.
  intros Hinv Hok H'. destruct i as [[]|[p|rp|pr|rr|pid round]|m|[]];
    cbn [step receive_local receive_atomic_broadcast timer_timeout] in H'; try done.
  all: try (injection H' as <- <-; by apply outcome_kept).
  all: try by (eapply rc_run_outcome; [done|apply Hok|done]).
  all: try by (eapply rc_handle_leader_outcome; [done|apply Hok|done]).
  all: try by eapply rc_handle_proposal_resp_outcome.
  all: try by (eapply rc_handle_reconfig_response_outcome; [done|apply Hok|done]).
  all: try by eapply rc_reconfig_timeout_outcome.
  - apply bind_Some in H' as (id & Hid & H'). destruct (responses c !! id).
    + injection H' as <- <-. by apply outcome_kept.
    + apply bind_Some in H' as (e1 & He1 & [= <- <-]).
      apply outcome_kept; [done..|by eapply propose_normal_finishes].
  - destruct m; [done|]. injection H' as <- <-. by apply outcome_kept.
  - unfold proposal_timeout in H'. destruct (responses c !! id).
    + injection H' as <- <-. by apply outcome_kept.
    + apply bind_Some in H' as (e1 & He1 & [= <- <-]). apply outcome_kept; [done..|].
      by rewrite finishes_app, (propose_normal_finishes _ _ _ He1).
Qed.

(** ** No panic *)

(** The client can address the leaders it knows of. *)
Record addressed (ns : list (Z * Path)) (c : t) : Prop := {
  ad_nodes : nodes c = ns;
  ad_config : Forall (known ns) (current_config c);
  ad_leader : known_leader ns (current_leader c) }.

Lemma leader_path ns c :
  addressed ns c -> current_leader c <> 0 -> exists l, get_node c (current_leader c) = Some l.
Proof. intros [Hn _ Hl] H0. unfold get_node. rewrite Hn. exact (Hl H0). Qed.

Lemma propose_loop_total ns start ids c :
  addressed ns c -> current_leader c <> 0 ->
  exists c' e, propose_loop c start ids = Some (c', e) /\ addressed ns c'.
Proof.
  revert c. induction ids as [|id ids IH]; intros c Ha Hl; [by eexists _, _|].
  destruct (leader_path _ _ Ha Hl) as [l Hg]. cbn [propose_loop].
  unfold propose_normal. rewrite Hg. simpl.
  edestruct (IH (set_pending_proposals (set_next_handle c (S (next_handle c)))
                   (<[id := mkProposalMetaData start (next_handle c)]> (pending_proposals c))))
    as (c' & e & He & Ha'); [destruct Ha; by constructor|done|].
  rewrite He. simpl. eauto.
Qed.

Lemma send_total ns c now :
  addressed ns c ->
  exists c' e, send_concurrent_proposals c now = Some (c', e) /\ addressed ns c'.
Proof.
  intros Ha. unfold send_concurrent_proposals.
  destruct (_ =? _); [by eexists _, _|].
  destruct (Z.eqb_spec (current_leader c) 0) as [|Hl]; [by eexists _, _|]. simpl.
  destruct (if max_proposal_id c <? _ then _ else _) as [|?|?];
    (destruct (_ <? _); [by eexists _, _|]);
    match goal with |- context [propose_loop _ ?st ?ids] =>
      destruct (propose_loop_total ns st ids c Ha Hl) as (c1 & e1 & -> & Ha1) end;
    simpl; eexists _, _; (split; [done|destruct Ha1; by constructor]).
Qed.

Lemma note_leader_addressed ns c leader round now :
  addressed ns c -> addressed ns (note_leader c leader round now).
Proof.
  intros [Hn Hc Hl]. unfold note_leader. case_bool_decide as Hin; [|done]. cbn [andb].
  assert (known ns leader) by (by eapply Forall_forall).
  destruct (_ <? _); [|done]. destruct (_ =? _); (constructor; try done; by intros _).
Qed.

Lemma decide_next_total ns c now :
  addressed ns c -> current_leader c <> 0 ->
  exists c' e, decide_next c now = Some (c', e) /\ addressed ns c'.
Proof.
  intros Ha Hl. destruct (leader_path _ _ Ha Hl) as [l Hg]. unfold decide_next.
  destruct (_ =? _).
  - destruct (reconfig c); eexists _, _; (split; [done|]); destruct Ha; by constructor.
  - destruct (_ =? _); [|by eexists _, _].
    destruct (reconfig c) as [[pol rc]|] eqn:Hrc; [|by eexists _, _].
    rewrite bool_decide_eq_true_2 by eauto. simpl.
    unfold start_reconfiguration, propose_reconfiguration. rewrite Hg, Hrc. simpl.
    eexists _, _. split; [done|destruct Ha; by constructor].
Qed.

Lemma rc_handle_normal_response_total ns c id latency now :
  addressed ns c -> current_leader c <> 0 ->
  exists c' e, handle_normal_response c id latency now = Some (c', e) /\ addressed ns c'.
Proof.
  intros [] Hl. rewrite rc_handle_normal_response_eq. by apply decide_next_total.
Qed.

Lemma rc_proposal_resp_total ns c pr now :
  inv c -> addressed ns c -> input_ok ns c (Client.AtomicBroadcast (ABProposalResp pr)) ->
  exists c' e, handle_proposal_resp c pr now = Some (c', e) /\ addressed ns c'.
Proof.
  intros Hinv Ha [Hid Hk]. unfold handle_proposal_resp.
  case_bool_decide; [by eexists _, _|].
  destruct (Client.proposal_id (resp_data pr)) as [id|] eqn:Hpid; [|done]. cbn [mbind option_bind].
  destruct (pending_proposals c !! id) as [m|] eqn:Hm.
  - assert (Hst : state c = Running) by (eapply pending_running; [done|by rewrite Hm; eauto]).
    pose proof (running_leader _ Hinv Hst) as Hl.
    set (c0 := set_pending_proposals c _). cbv zeta.
    assert (Ha0 : addressed ns c0) by (destruct Ha; by constructor).
    pose proof (note_leader_addressed ns c0 (resp_latest_leader pr) (resp_leader_round pr) now Ha0) as Ha1.
    destruct (note_leader_kept_rc c0 (resp_latest_leader pr) (resp_leader_round pr) now) as [_ Hl1];
      [apply Hinv|].
    edestruct (rc_handle_normal_response_total ns _ id
      ((fun start_time => now - start_time) <$> pm_start_time m) now Ha1 (Hl1 Hl)) as (c2 & e2 & -> & Ha2).
    cbn [mbind option_bind]. destruct (send_total ns c2 now Ha2) as (c3 & e3 & -> & Ha3).
    by eexists _, _.
  - destruct (_ && _); [|by eexists _, _]. eexists _, _. split; [done|].
    destruct Ha. by constructor.
Qed.

Lemma rc_reconfig_response_total ns c rr now :
  addressed ns c -> input_ok ns c (Client.AtomicBroadcast (ABReconfigurationResp rr)) ->
  exists c' e, handle_reconfig_response c rr now = Some (c', e) /\ addressed ns c'.
Proof.
  intros Ha (H0 & Hc & Hk). unfold handle_reconfig_response.
  destruct (pending_proposals c !! RECONFIG_ID) as [m|]; [|by eexists _, _]. cbv zeta.
  destruct (_ =? num_proposals _); [eexists _, _; split; [done|destruct Ha; by constructor]|].
  set (c1 := if _ && _ && _ then _ else _).
  assert (Ha1 : addressed ns c1).
  { unfold c1. destruct Ha, (_ && _ && _); by constructor. }
  destruct (send_total ns c1 now Ha1) as (c2 & e2 & -> & Ha2). by eexists _, _.
Qed.

Lemma pending_reconfig c :
  inv c -> is_Some (pending_proposals c !! RECONFIG_ID) -> is_Some (reconfig c).
Proof.
  intros Hinv Hp. pose proof (pending_running _ _ Hinv Hp) as Hst. destruct Hinv as [_ Hi].
  unfold in_state in Hi. rewrite Hst in Hi. destruct Hi as (_ & _ & Hph). revert Hph.
  unfold phased, reconfig_pending. destruct Hp as [m ->]. destruct (reconfig c); [by eauto|lia].
Qed.

Lemma rc_step_total ns c now i :
  inv c -> addressed ns c -> input_ok ns c i ->
  exists c' e, step c now i = Some (c', e) /\ addressed ns c'.
Proof.
  intros Hinv Ha Hok. destruct i as [[]|[p|rp|pr|rr|pid round]|m|[]];
    cbn [step receive_local receive_atomic_broadcast timer_timeout]; try done;
    try (by eexists _, _); try by apply rc_proposal_resp_total.
  - destruct Hok as [Hst Hl]. unfold run. simpl. destruct (Z.eqb_spec (current_leader c) 0); [done|].
    set (c1 := set_window_timer _ _).
    destruct (send_total ns c1 now) as (c2 & e2 & -> & Ha2); [destruct Ha; by constructor|].
    by eexists _, _.
  - destruct Hok as [[id Hid] Hl]. unfold handle_proposal, propose_normal. rewrite Hid. simpl.
    destruct (responses c !! id); [by eexists _, _|].
    destruct (leader_path _ _ Ha Hl) as [l Hg]. unfold get_node in *. simpl. rewrite Hg. simpl. eexists _, _.
    split; [done|destruct Ha; by constructor].
  - exact (rc_reconfig_response_total ns c rr now Ha Hok).
  - destruct Hok as [Hpid Hk]. unfold handle_leader. rewrite (proj2 (Z.ltb_lt _ _) Hpid).
    assert (Hset : forall x, addressed ns (set_leader c pid x)).
    { intros x. destruct Ha. constructor; try done. by intros _. }
    repeat case_match; eexists _, _; (split; [done|try done]).
    destruct (Hset round). by constructor.
  - destruct m; [done|]. by eexists _, _.
  - unfold proposal_timeout, propose_normal. destruct (responses c !! id); [by eexists _, _|].
    destruct (leader_path _ _ Ha Hok) as [l Hg]. unfold get_node in *. simpl. rewrite Hg. simpl.
    eexists _, _. split; [done|destruct Ha; by constructor].
  - destruct (pending_reconfig _ Hinv Hok) as [[pol rc] Hrc].
    destruct (leader_path _ _ Ha (running_leader _ Hinv (pending_running _ _ Hinv Hok))) as [l Hg].
    destruct Hok as [m Hm]. unfold reconfig_timeout, propose_reconfiguration.
    rewrite Hg, Hrc. simpl. rewrite Hm. simpl. eexists _, _. split; [done|destruct Ha; by constructor].
  - eexists _, _. split; [done|destruct Ha; by constructor].
Qed.

(** ** Runs *)

Fixpoint allowed (ns : list (Z * Path)) (c : t) (inputs : list (Z * Client.input)) : Prop :=
  match inputs with
  | [] => True
  | (now, i) :: inputs =>
      input_ok ns c i /\
      match step c now i with Some (c, _) => allowed ns c inputs | None => True end
  end.

(** The answers to what is in flight. *)
Fixpoint hits (c : t) (inputs : list (Z * Client.input)) : Z :=
  match inputs with
  | [] => 0
  | (now, i) :: inputs =>
      hit c i + match step c now i with Some (c, _) => hits c inputs | None => 0 end
  end.

#[export] Instance input_ok_dec ns c i : Decision (input_ok ns c i).
Proof.
  unfold input_ok, known_leader, known.
  destruct i as [[]|[]|[]|[]]; try apply _; case_match; apply _.
Defined.

#[export] Instance allowed_dec ns c inputs : Decision (allowed ns c inputs).
Proof.
  revert c. induction inputs as [|[now i] inputs IH]; intros c; cbn [allowed]; [apply _|].
  destruct (step c now i) as [[c' e]|]; apply _.
Defined.

Lemma newly_add c1 c2 c3 :
  (state c1 = Finished -> state c2 = Finished) -> (state c2 = Finished -> state c3 = Finished) ->
  newly c1 c3 = (newly c1 c2 + newly c2 c3)%nat.
Proof. unfold newly. destruct (state c1), (state c2), (state c3); naive_solver. Qed.

Lemma finished_work c : inv c -> (state c = Finished <-> work c = 0).
Proof.
  intros [Hs Hi]. pose proof (answered_bound _ Hs).
  assert (0 < M / 2) by (apply Z.div_str_pos; lia).
  unfold in_state, phased, work in *. pose proof (reconfig_pending_cases c).
  destruct (state c) eqn:Hst; try done; split; try done; destruct (reconfig c); try lia.
  all: intros Hw; destruct Hi as (_ & Hi & _); unfold answered in Hw; rewrite Hi in Hw;
    rewrite map_size_empty in Hw; lia.
Qed.

Lemma work_nonneg c : inv c -> 0 <= work c.
Proof.
  intros [Hs _]. pose proof (answered_bound _ Hs). unfold work.
  destruct (state c), (reconfig c); lia.
Qed.

Lemma hit_nonneg c i : 0 <= hit c i.
Proof. unfold hit. repeat case_match; lia. Qed.

Definition experiment (config : list Z) (ns : list (Z * Path))
    (rc : option (ReconfigurationPolicy * list Z)) (d : Z) : t :=
  with_ config M N ns rc d P.

Lemma experiment_inv config ns rc d : 0 ∉ config -> inv (experiment config ns rc d).
Proof.
  intros H0. split; [|done].
  constructor; try done; unfold outstanding, answered; simpl; rewrite ?delete_empty, ?map_size_empty; try lia.
  - unfold u64_add. by rewrite Z.mod_small by lia.
  - intros id. rewrite lookup_empty. by intros [].
  - intros id. rewrite lookup_empty. by intros [].
Qed.

Lemma rc_steps_spec ns inputs c :
  inv c -> addressed ns c -> allowed ns c inputs ->
  exists c' e, steps c inputs = Some (c', e) /\ inv c' /\
    work c' = work c - hits c inputs /\ finishes e = newly c c' /\
    (state c = Finished -> state c' = Finished).
Proof.
  revert c. induction inputs as [|[now i] inputs IH]; intros c Hinv Ha Hal.
  - eexists _, _. simpl. split_and!; try done; [lia|]. unfold newly. by destruct (state c).
  - destruct Hal as [Hok Hal]. cbn [steps hits].
    destruct (rc_step_total _ _ now _ Hinv Ha Hok) as (c1 & e1 & Hst & Ha1).
    destruct (rc_step_outcome _ _ _ _ _ _ Hinv Hok Hst) as (Hinv1 & Hw1 & Hf1).
    rewrite Hst in *. cbn [mbind option_bind].
    destruct (IH c1 Hinv1 Ha1 Hal) as (c2 & e2 & -> & Hinv2 & Hw2 & Hf2 & Hm2).
    assert (Hm1 : state c = Finished -> state c1 = Finished).
    { rewrite (finished_work _ Hinv), (finished_work _ Hinv1). intros Hz.
      pose proof (hit_nonneg c i). pose proof (work_nonneg c1 Hinv1). lia. }
    eexists _, _. split_and!; [done|done|lia| |by auto].
    rewrite finishes_app, Hf1, Hf2. symmetry. by apply newly_add.
Qed.

(** C21: The reconfiguration experiment comes to its end.  From the start of a client with at
    least two proposals, inputs that name known nodes never make it panic; while it runs it
    always has a proposal or the reconfiguration in flight; and it is finished exactly when
    the answers to what was in flight number the proposals, plus one for the reconfiguration
    if there is one.  The finished latch is counted down once, when that happens. *)
Theorem reconfig_client_finishes config ns rc d inputs :
  0 ∉ config -> Forall (known ns) config -> allowed ns (experiment config ns rc d) inputs ->
  exists c effs,
    steps (experiment config ns rc d) inputs = Some (c, effs) /\
    (state c = Running -> pending_proposals c <> ∅) /\
    (state c = Finished <->
     hits (experiment config ns rc d) inputs = M + match rc with Some _ => 1 | None => 0 end) /\
    finishes effs = match state c with Finished => 1%nat | _ => 0%nat end.
Proof.
  intros H0 Hc Hal. pose proof (experiment_inv config ns rc d H0) as Hinv.
  assert (Ha : addressed ns (experiment config ns rc d)) by (constructor; [done|done|by intros Hne; destruct Hne]).
  destruct (rc_steps_spec ns inputs _ Hinv Ha Hal) as (c & effs & Hst & Hi & Hw & Hf & _).
  eexists _, _. split_and!; [exact Hst| | |exact Hf].
  - intros Hrun He. pose proof (pending_size c) as Hp. rewrite He, map_size_empty in Hp.
    destruct Hi as [[] Hi]. unfold in_state, full, phased in Hi. rewrite Hrun, He in Hi.
    rewrite map_size_empty in Hi. destruct Hi as (_ & Hfull & Hph).
    destruct (reconfig c); [|lia]. assert (M / 2 <= M) by (apply Z.div_le_upper_bound; lia). lia.
  - rewrite (finished_work _ Hi), Hw. unfold work, answered. simpl. rewrite map_size_empty.
    destruct rc; lia.
Qed.

End finish.

(** ** Examples *)

Module ReconfigClientExample.
Definition node (i : Z) : Path := Named i ANode.
Definition cluster : list (Z * Path) := map (fun i => (i, node i)) [3; 1; 2; 4].

Definition resp (B : BufOps) (id : Z) : Client.input :=
  Client.AtomicBroadcast (ABProposalResp
    (mkProposalResp (PaxosComp.create_raw_proposal id) 2 1)).

(** One preloaded entry, two proposals; node 3 is replaced by node 4. *)
Definition inputs (B : BufOps) : list (Z * Client.input) :=
  [(0, Client.AtomicBroadcast (ABLeader 2 1)); (1, resp B 1); (2, Client.Local Client.LRun);
   (3, resp B 2); (4, Client.Timeout (TProposal 3)); (5, resp B 2);
   (6, Client.AtomicBroadcast (ABReconfigurationResp (mkReconfigurationResp 4 2 [1; 2; 4])));
   (7, resp B 3)].

Definition rc : option (ReconfigurationPolicy * list Z) := Some (ReplaceFollower, [1; 2; 4]).
End ReconfigClientExample.

Lemma reconfig_client_finishes_witness :
  let B := BigEndian.big_endian in
  exists c effs,
    steps (experiment 2 2 1 [1; 2; 3] ReconfigClientExample.cluster ReconfigClientExample.rc 10)
      (ReconfigClientExample.inputs B) = Some (c, effs) /\
    state c = Finished /\ finishes effs = 1%nat.
Proof.
  intros B.
  assert (Hh : hits (experiment 2 2 1 [1; 2; 3] ReconfigClientExample.cluster
                 ReconfigClientExample.rc 10) (ReconfigClientExample.inputs B) = 3)
    by (vm_compute; reflexivity).
  destruct (reconfig_client_finishes 2 2 1 ltac:(lia) ltac:(lia) ltac:(lia) ltac:(lia)
    [1; 2; 3] ReconfigClientExample.cluster ReconfigClientExample.rc 10
    (ReconfigClientExample.inputs B)) as (c & effs & Hst & _ & Hfin & Hcount).
  - apply (bool_decide_unpack _). vm_compute. exact I.
  - repeat constructor; vm_compute; eauto.
  - apply (bool_decide_unpack _). vm_compute. exact I.
  - assert (Hf : state c = Finished) by (apply Hfin; exact Hh).
    exists c, effs. split_and!; [exact Hst|exact Hf|]. by rewrite Hcount, Hf.
Defined.

(** With a single proposal half of the proposals is none: the reconfiguration is never
    proposed, and after the answer nothing is in flight although the client still runs. *)
Example one_proposal_never_reconfigures :
  let B := BigEndian.big_endian in
  option_map (fun r : t * list ClientEffect => (state r.1, size (pending_proposals r.1), finishes r.2))
    (steps (experiment 1 2 1 [1; 2; 3] ReconfigClientExample.cluster ReconfigClientExample.rc 10)
       [(0, Client.AtomicBroadcast (ABLeader 2 1)); (1, ReconfigClientExample.resp B 1);
        (2, Client.Local Client.LRun); (3, ReconfigClientExample.resp B 2)])
  = Some (Running, 0%nat, 0%nat).
Proof. vm_compute. reflexivity. Qed.
