(* ===== verification/ExpText.v ===== *)
(** Text of experiments ([util.rs], [exp_util]): the string operations of the standard
    library that the benchmark uses, on ASCII strings, and the round trips by which a
    parameter string is read back. *)

From Stdlib Require Import Strings.String Strings.Ascii.
From S2P Require Import Prelude.

Open Scope string_scope.
Open Scope Z_scope.

Module ExpText.

(** ** The standard library on ASCII strings *)

Definition lower_char (c : ascii) : ascii :=
  let n := nat_of_ascii c in
  if (65 <=? n)%nat && (n <=? 90)%nat then ascii_of_nat (n + 32) else c.

Fixpoint to_lowercase (s : string) : string :=
  match s with
  | EmptyString => EmptyString
  | String c s => String (lower_char c) (to_lowercase s)
  end.

(** [s.split(c).collect::<Vec<_>>()] *)
Fixpoint split (sep : ascii) (s : string) : list string :=
  match s with
  | EmptyString => [EmptyString]
  | String c s =>
      if Ascii.eqb c sep then EmptyString :: split sep s
      else match split sep s with
           | [] => [String c EmptyString]
           | x :: l => String c x :: l
           end
  end.

(** The first part of [s.split("ms")]. *)
Fixpoint before_ms (s : string) : string :=
  match s with
  | EmptyString => EmptyString
  | String c s =>
      match s with
      | String c2 _ => if Ascii.eqb c "m" && Ascii.eqb c2 "s" then EmptyString
                       else String c (before_ms s)
      | EmptyString => String c (before_ms s)
      end
  end.

(** [s.contains(pat)] *)
Fixpoint contains (pat s : string) : bool :=
  String.prefix pat s ||
  match s with EmptyString => false | String _ s => contains pat s end.

Definition digit_of (c : ascii) : option Z :=
  let n := nat_of_ascii c in
  if (48 <=? n)%nat && (n <=? 57)%nat then Some (Z.of_nat n - 48) else None.

Fixpoint parse_digits (s : string) (acc : Z) : option Z :=
  match s with
  | EmptyString => Some acc
  | String c s =>
      d ← digit_of c;
      if acc * 10 + d <? 2 ^ 64 then parse_digits s (acc * 10 + d) else None
  end.

(** [s.parse::<u64>().ok()]: digits, after an optional plus. *)
Definition parse_u64 (s : string) : option Z :=
  match s with
  | EmptyString => None
  | String c s' =>
      if Ascii.eqb c "+" then
        match s' with EmptyString => None | _ => parse_digits s' 0 end
      else parse_digits s 0
  end.

Definition digit (z : Z) : ascii := ascii_of_nat (48 + Z.to_nat z).

Fixpoint show_digits (fuel : nat) (z : Z) (acc : string) : string :=
  match fuel with
  | O => acc
  | S fuel =>
      if z <? 10 then String (digit z) acc
      else show_digits fuel (z / 10) (String (digit (z mod 10)) acc)
  end.

(** [format!("{}", z)] of a [u64], which has at most 20 digits. *)
Definition show (z : Z) : string := show_digits 20 z EmptyString.

(** ** Separators *)

Fixpoint free (sep : ascii) (s : string) : bool :=
  match s with
  | EmptyString => true
  | String c s => negb (Ascii.eqb c sep) && free sep s
  end.

Lemma free_app sep a b : free sep (a ++ b) = free sep a && free sep b.
Proof. induction a as [|c a IH]; [done|]. simpl. by rewrite IH, andb_assoc. Qed.

Lemma split_free sep s : free sep s = true -> split sep s = [s].
Proof.
  induction s as [|c s IH]; [done|]. simpl. intros [Hc Hs]%andb_true_iff.
  apply negb_true_iff in Hc. by rewrite Hc, IH.
Qed.

Lemma split_app sep a b :
  free sep a = true -> split sep (a ++ String sep b) = a :: split sep b.
Proof.
  induction a as [|c a IH]; simpl.
  - intros _. by rewrite Ascii.eqb_refl.
  - intros [Hc Ha]%andb_true_iff. apply negb_true_iff in Hc. by rewrite Hc, IH.
Qed.

Lemma split_part sep a b :
  free sep a = true -> split sep (a ++ String sep EmptyString ++ b) = a :: split sep b.
Proof. apply split_app. Qed.

Lemma split_not_nil sep s : split sep s <> [].
Proof.
  destruct s as [|c s]; [done|]. simpl. destruct (Ascii.eqb c sep); [done|].
  by destruct (split sep s).
Qed.

(** What the parts of a split say about the string. *)
Lemma split_one sep s a : split sep s = [a] -> s = a.
Proof.
  revert a. induction s as [|c s IH]; intros a Hs; simpl in Hs; [congruence|].
  destruct (Ascii.eqb c sep).
  - injection Hs as <- Hs. by apply split_not_nil in Hs.
  - destruct (split sep s) as [|x [|]] eqn:E; [by apply split_not_nil in E| |done].
    injection Hs as <-.
    by rewrite (IH x).
Qed.

Lemma split_two sep s a b : split sep s = [a; b] -> s = a ++ String sep b.
Proof.
  revert a. induction s as [|c s IH]; intros a Hs; simpl in Hs; [done|].
  destruct (Ascii.eqb_spec c sep) as [->|].
  - injection Hs as <- Hs. by rewrite (split_one _ _ _ Hs).
  - destruct (split sep s) as [|x l] eqn:E; [by apply split_not_nil in E|].
    injection Hs as <- ->. simpl. by rewrite (IH x).
Qed.

Lemma free_lower sep s :
  (forall c, Ascii.eqb c sep = true -> Ascii.eqb (lower_char c) sep = true) ->
  free sep (to_lowercase s) = true -> free sep s = true.
Proof.
  intros Hl. induction s as [|c s IH]; [done|]. simpl. intros [Hc Hs]%andb_true_iff.
  rewrite IH by done. rewrite andb_true_r. apply negb_true_iff. apply negb_true_iff in Hc.
  destruct (Ascii.eqb c sep) eqn:E; [|done]. by rewrite Hl in Hc.
Qed.

Lemma free_comma s : free "," (to_lowercase s) = true -> free "," s = true.
Proof. apply free_lower. intros c ->%Ascii.eqb_eq. done. Qed.

Lemma lower_lower s : to_lowercase (to_lowercase s) = to_lowercase s.
Proof.
  induction s as [|c s IH]; [done|]. simpl. rewrite IH. f_equal.
  destruct c as [[] [] [] [] [] [] [] []]; reflexivity.
Qed.

(** ** Numbers *)

Lemma digit_of_digit d : 0 <= d < 10 -> digit_of (digit d) = Some d.
Proof.
  intros Hd. unfold digit_of, digit. rewrite nat_ascii_embedding by lia.
  destruct (Nat.leb_spec 48 (48 + Z.to_nat d)), (Nat.leb_spec (48 + Z.to_nat d) 57); simpl; try lia.
  f_equal. lia.
Qed.

Lemma parse_show_digits fuel z acc :
  0 <= z < 10 ^ Z.of_nat fuel -> z < 2 ^ 64 ->
  parse_digits (show_digits fuel z acc) 0 = parse_digits acc z.
Proof.
  revert z acc. induction fuel as [|fuel IH]; intros z acc Hz Hfit.
  - simpl in *. by replace z with 0 by lia.
  - rewrite Nat2Z.inj_succ, Z.pow_succ_r in Hz by lia. cbn [show_digits].
    destruct (Z.ltb_spec z 10).
    + cbn [parse_digits]. rewrite digit_of_digit by lia. cbn [mbind option_bind].
      rewrite (proj2 (Z.ltb_lt _ _)) by lia. by replace (0 * 10 + z) with z by lia.
    + pose proof (Z.div_mod z 10 ltac:(lia)). pose proof (Z.mod_pos_bound z 10 ltac:(lia)).
      rewrite IH; [|split; [apply Z.div_pos; lia|apply Z.div_lt_upper_bound; lia]|lia].
      cbn [parse_digits]. rewrite digit_of_digit by lia. cbn [mbind option_bind].
      replace (z / 10 * 10 + z mod 10) with z by lia. by rewrite (proj2 (Z.ltb_lt _ _)) by lia.
Qed.

(** The characters of a number. *)
Fixpoint digits (s : string) : bool :=
  match s with
  | EmptyString => true
  | String c s => bool_decide (is_Some (digit_of c)) && digits s
  end.

Lemma show_digits_digits fuel z acc :
  0 <= z -> digits acc = true -> digits (show_digits fuel z acc) = true.
Proof.
  revert z acc. induction fuel as [|fuel IH]; intros z acc Hz Ha; [done|]. cbn [show_digits].
  destruct (Z.ltb_spec z 10).
  - cbn [digits]. rewrite digit_of_digit by lia. rewrite Ha. by rewrite bool_decide_eq_true_2 by eauto.
  - pose proof (Z.mod_pos_bound z 10 ltac:(lia)). apply IH; [apply Z.div_pos; lia|].
    cbn [digits]. rewrite digit_of_digit by lia. rewrite Ha. by rewrite bool_decide_eq_true_2 by eauto.
Qed.

Lemma show_nonempty z : show z <> EmptyString.
Proof.
  unfold show. assert (forall fuel z acc, acc <> EmptyString \/ fuel <> 0%nat ->
    show_digits fuel z acc <> EmptyString) as Hd; [|apply Hd; by right].
  induction fuel as [|fuel IH]; intros y acc Ha; simpl; [by destruct Ha|].
  destruct (_ <? _); [done|]. apply IH. by left.
Qed.

Lemma digits_free sep s : digit_of sep = None -> digits s = true -> free sep s = true.
Proof.
  intros Hsep. induction s as [|c s IH]; [done|]. simpl. intros [Hc Hs]%andb_true_iff.
  rewrite IH by done. rewrite andb_true_r. apply negb_true_iff.
  destruct (Ascii.eqb_spec c sep) as [->|]; [|done]. by rewrite Hsep in Hc.
Qed.

Lemma digits_before_ms s : digits s = true -> before_ms s = s.
Proof.
  induction s as [|c s IH]; [done|]. intros Hd. pose proof Hd as [Hc Hs]%andb_true_iff.
  cbn [before_ms]. rewrite IH by done. destruct s as [|c2 s]; [done|].
  destruct (Ascii.eqb_spec c "m") as [->|]; [by vm_compute in Hc|done].
Qed.

Lemma show_digits_of z : 0 <= z -> digits (show z) = true.
Proof. intros Hz. by apply show_digits_digits. Qed.

Lemma show_free sep z : 0 <= z -> digit_of sep = None -> free sep (show z) = true.
Proof. intros Hz Hsep. by apply digits_free, show_digits_of. Qed.

Lemma parse_show z : in_u64 z -> parse_u64 (show z) = Some z.
Proof.
  intros Hz. unfold in_u64 in Hz. pose proof (show_digits_of z ltac:(lia)) as Hd.
  pose proof (show_nonempty z) as Hne.
  assert (Hp : parse_digits (show z) 0 = Some z).
  { unfold show. rewrite parse_show_digits; [done| |lia]. split; [lia|].
    assert (2 ^ 64 < 10 ^ Z.of_nat 20) by (vm_compute; reflexivity). lia. }
  unfold parse_u64. destruct (show z) as [|c s] eqn:E; [done|].
  destruct (Ascii.eqb_spec c "+") as [->|]; [by vm_compute in Hd|done].
Qed.

(** A string that parses has digits and pluses only. *)
Lemma parse_digits_digits s acc n : parse_digits s acc = Some n -> digits s = true.
Proof.
  revert acc. induction s as [|c s IH]; intros acc Hp; [done|]. simpl in *.
  destruct (digit_of c) as [d|] eqn:Hc; [|done]. simpl in Hp. destruct (_ <? _); [|done].
  rewrite (IH _ Hp). by rewrite bool_decide_eq_true_2 by eauto.
Qed.

Lemma parse_free sep s n :
  digit_of sep = None -> Ascii.eqb "+" sep = false -> parse_u64 s = Some n -> free sep s = true.
Proof.
  intros Hsep Hplus Hp. unfold parse_u64 in Hp. destruct s as [|c s]; [done|].
  destruct (Ascii.eqb_spec c "+") as [->|].
  - cbn [free]. rewrite Hplus. destruct s as [|c s]; [done|].
    by eapply digits_free, parse_digits_digits.
  - by eapply digits_free, parse_digits_digits.
Qed.
End ExpText.
