(* ===== verification/ExpResults.v ===== *)
(** The files in which an experiment leaves its results ([util.rs], [persist_*]).

    A file is written by opening it to append and writing its text, so that a function here
    returns what it writes as a list of [Output]s; opening, creating a directory and flushing
    end without an error.  The histogram of latencies is an object of the hdrhistogram crate
    (class [Histogram]), the text of a date one of the chrono crate (class [DateTimeText]).
    Durations are in milliseconds. *)

From Stdlib Require Import Strings.String Strings.Ascii.
From stdpp Require Import strings sorting.
From S2P Require Import Prelude Client ExpText.

Import ExpText.

Open Scope string_scope.
Open Scope Z_scope.

Module Results.

Definition nl : string := String (ascii_of_nat 10) EmptyString.

(** What is written to [file]; the latencies that are recorded in the histogram, and its
    summary. *)
Inductive Output :=
| Append (file text : string)
| RecordLatencies (latencies : list Z)
| LatencySummary (file : string).

(** [Display] of [DateTime<Utc>] at a time of the system. *)
Class DateTimeText := show_utc : Z -> string.

(** ** The results of an iteration *)

Definition show_pair (p : Z * Z) : string := "(" ++ show p.1 ++ ", " ++ show p.2 ++ ")".

Definition reconfig_text `{DateTimeText} (reconfig_ts : option (Z * Z)) : string :=
  match reconfig_ts with
  | Some (reconfig_start, reconfig_end) =>
      "r," ++ show_utc reconfig_start ++ "," ++ show_utc reconfig_end ++ " " ++ nl
  | None => ""
  end.

Fixpoint leader_changes_text `{DateTimeText} (leader_changes : list (Z * (Z * Z))) : string :=
  match leader_changes with
  | [] => ""
  | (ts, lc) :: leader_changes =>
      "l," ++ show_utc ts ++ "," ++ show_pair lc ++ " " ++ nl ++ leader_changes_text leader_changes
  end.

Fixpoint timestamps_text (timestamps : list Z) : string :=
  match timestamps with
  | [] => ""
  | ts :: timestamps => show ts ++ nl ++ timestamps_text timestamps
  end.

Definition persist_timestamp_results `{DateTimeText} (timestamps_dir experiment_str : string)
    (timestamps : list Z) (leader_changes : list (Z * (Z * Z))) (reconfig_ts : option (Z * Z))
    : list Output :=
  [Append (timestamps_dir ++ "/raw_" ++ experiment_str ++ ".data")
     (reconfig_text reconfig_ts ++ leader_changes_text leader_changes ++
      timestamps_text timestamps ++ nl)].

Fixpoint windows_text (prev_n : Z) (windows : list Z) : string :=
  match windows with
  | [] => ""
  | n :: windows => show (n -u64 prev_n) ++ "," ++ windows_text n windows
  end.

Definition windowed_text (r : WindowedResult) : string :=
  windows_text 0 (windows r) ++ "| " ++ show (Z.of_nat (num_warmup_windows r)) ++ nl.

Definition persist_windowed_results (windowed_dir experiment_str : string) (r : WindowedResult)
    : list Output :=
  [Append (windowed_dir ++ "/" ++ experiment_str ++ ".data") (windowed_text r)].

Definition persist_num_decided_results (num_decided_dir experiment_str : string)
    (num_decided num_warmup_decided : Z) (first_leader : option Z) : list Output :=
  [Append (num_decided_dir ++ "/" ++ experiment_str ++ ".data")
     (show num_decided ++ " | " ++ show num_warmup_decided ++ " | " ++
      show (default 0 first_leader) ++ nl)].

Definition persist_longest_down_time_results (longest_down_time_dir experiment_str : string)
    (down_time : Z) : list Output :=
  [Append (longest_down_time_dir ++ "/" ++ experiment_str ++ ".data") (show down_time ++ nl)].

(** [l.as_millis() as u64] of every latency. *)
Definition persist_latency_results (latencies : list Z) : list Output :=
  [RecordLatencies (map (fun l => l mod 2 ^ 64) latencies)].

(** ** The summary of an experiment *)

(** [iter().sum()] *)
Definition u64_sum (l : list Z) : Z := foldl u64_add 0 l.

Definition sort (l : list Z) : list Z := merge_sort Z.le l.

Record CountStats := mkCountStats {
  cs_nonzero : nat;
  cs_len : nat;
  cs_sum : Z;
  cs_avg : Z;
  cs_med : Z;
  cs_min : Z;
  cs_max : Z }.

Definition stats_text (what : string) (s : CountStats) : string :=
  show (Z.of_nat (cs_nonzero s)) ++ "/" ++ show (Z.of_nat (cs_len s)) ++ " runs had " ++ what ++
  ". sum: " ++ show (cs_sum s) ++ ", avg: " ++ show (cs_avg s) ++ ", med: " ++ show (cs_med s) ++
  ", min: " ++ show (cs_min s) ++ ", max: " ++ show (cs_max s).

(** The statistics of the sorted [counts]; the median is read from [medians].  [None] is the
    panic of an index, of [unwrap] or of a division. *)
Definition count_stats (counts medians : list Z) (sum num_iterations : Z) : option CountStats :=
  let len := length counts in
  let nonzero := length (filter (fun x => 0 < x) counts) in
  min ← head counts;
  max ← last counts;
  avg ← u64_div sum num_iterations;
  median ← medians !! (len / 2)%nat;
  Some (mkCountStats nonzero len sum avg median min max).

(** The first summary is of [num_timed_out], which it sorts; the second one is of [num_retried],
    but its median is read from [num_timed_out]. *)
Definition persist_timeouts_retried_summary (meta_path experiment_str : string)
    (num_timed_out num_retried : list Z) (num_iterations : Z) : option (list Output) :=
  let timed_out_sum := u64_sum num_timed_out in
  let retried_sum := u64_sum num_retried in
  if (0 <? timed_out_sum) || (0 <? retried_sum) then
    '(num_timed_out, timed_out_text) ←
      (if 0 <? timed_out_sum then
         let num_timed_out := sort num_timed_out in
         s ← count_stats num_timed_out num_timed_out timed_out_sum num_iterations;
         Some (num_timed_out, stats_text "timeouts" s ++ nl)
       else Some (num_timed_out, ""));
    retried_text ←
      (if 0 <? retried_sum then
         s ← count_stats (sort num_retried) num_timed_out retried_sum num_iterations;
         Some (stats_text "retries" s ++ nl)
       else Some "");
    Some [Append (meta_path ++ "/summary.out")
            (experiment_str ++ nl ++ timed_out_text ++ retried_text)]
  else Some [].

(** ** The histogram of latencies *)

(** Quantiles are given in thousandths. *)
Class Histogram (H : Type) := {
  hist_record : H -> Z -> option H;
  value_at_quantile : H -> Z -> Z;
  hist_min : H -> Z;
  hist_max : H -> Z;
  hist_mean : H -> string;
  hist_len : H -> Z;
  show_quantile : Z -> string }.

Definition quantiles : list Z :=
  [1; 10; 5; 100; 200; 300; 400; 500; 600; 700; 800; 900; 950; 990; 999].

Definition latency_summary_text `{Histogram H} (hist : H) : string :=
  String.concat "" (map (fun q => "Value at quantile " ++ show_quantile q ++ ": " ++
    show (value_at_quantile hist q) ++ " micro s" ++ nl) quantiles) ++
  "Min: " ++ show (hist_min hist) ++ " micro s, Max: " ++ show (hist_max hist) ++
  " micro s, Average: " ++ hist_mean hist ++ " micro s" ++ nl ++
  "Total elements: " ++ show (hist_len hist) ++ nl.

Definition persist_latency_summary (latency_dir experiment_str : string) : list Output :=
  [LatencySummary (latency_dir ++ "/summary_" ++ experiment_str ++ ".out")].

(** ** The files *)

Definition append_to (file text : string) (files : gmap string string) : gmap string string :=
  <[file := default "" (files !! file) ++ text]> files.

(** [None] is the panic of a latency that the histogram refuses. *)
Definition write_output `{Histogram H} (st : H * gmap string string) (o : Output)
    : option (H * gmap string string) :=
  match o with
  | Append file text => Some (st.1, append_to file text st.2)
  | RecordLatencies latencies =>
      hist ← foldl (fun h l => h ← h; hist_record h l) (Some st.1) latencies; Some (hist, st.2)
  | LatencySummary file => Some (st.1, append_to file (latency_summary_text st.1) st.2)
  end.

Fixpoint write_outputs `{Histogram H} (st : H * gmap string string) (os : list Output)
    : option (H * gmap string string) :=
  match os with
  | [] => Some st
  | o :: os => st ← write_output st o; write_outputs st os
  end.

(** ** Counters of messages (feature [measure_io]) *)

(** The size of a message is that of its type, which the compiler knows. *)
Record IOMetaData := mkIOMetaData {
  msgs_sent : Z;
  bytes_sent : Z;
  msgs_received : Z;
  bytes_received : Z }.

Definition io_default : IOMetaData := mkIOMetaData 0 0 0 0.

Definition update_received_with_size (io : IOMetaData) (size : Z) : IOMetaData :=
  mkIOMetaData (msgs_sent io) (bytes_sent io) (msgs_received io +u64 1) (bytes_received io +u64 size).
Definition update_sent_with_size (io : IOMetaData) (size : Z) : IOMetaData :=
  mkIOMetaData (msgs_sent io +u64 1) (bytes_sent io +u64 size) (msgs_received io) (bytes_received io).

Definition update_received (size_of_val : Z) (io : IOMetaData) : IOMetaData :=
  mkIOMetaData (msgs_sent io) (bytes_sent io) (msgs_received io +u64 1)
    (bytes_received io +u64 size_of_val).
Definition update_sent (size_of_val : Z) (io : IOMetaData) : IOMetaData :=
  mkIOMetaData (msgs_sent io +u64 1) (bytes_sent io +u64 size_of_val) (msgs_received io)
    (bytes_received io).

Definition io_reset (io : IOMetaData) : IOMetaData := mkIOMetaData 0 0 0 0.

Definition get_received_kb (io : IOMetaData) : Z := bytes_received io / 1000.
Definition get_sent_kb (io : IOMetaData) : Z := bytes_sent io / 1000.

Definition io_add (a b : IOMetaData) : IOMetaData :=
  mkIOMetaData (msgs_sent a +u64 msgs_sent b) (bytes_sent a +u64 bytes_sent b)
    (msgs_received a +u64 msgs_received b) (bytes_received a +u64 bytes_received b).

(** The texts that are written to [in_file] and [out_file]; a window has the seconds of its
    time. *)
Definition persist_io_metadata (io_windows : list (Z * IOMetaData)) : string * string :=
  let '(total, received_str, sent_str) :=
    foldl (fun '(sum, received_str, sent_str) '(ts, io_meta) =>
      (io_add sum io_meta,
       received_str ++ (show ts ++ " | " ++ show (msgs_received io_meta) ++ " " ++
                        show (get_received_kb io_meta) ++ nl),
       sent_str ++ (show ts ++ " | " ++ show (msgs_sent io_meta) ++ " " ++
                    show (get_sent_kb io_meta) ++ nl)))
      (io_default, "", "") io_windows in
  let total_received :=
    "total | " ++ show (msgs_received total) ++ " " ++ show (get_received_kb total) in
  let total_sent :=
    "total | " ++ show (msgs_received total) ++ " " ++ show (get_received_kb total) in
  (total_received ++ nl ++ received_str ++ nl, total_sent ++ nl ++ sent_str ++ nl).

(** ** Reading the windows back *)

Definition SEP : ascii := ",".
Definition NL : ascii := ascii_of_nat 10.

(** The windows from what they added. *)
Fixpoint sums (prev_n : Z) (deltas : list Z) : list Z :=
  match deltas with
  | [] => []
  | d :: deltas => (prev_n +u64 d) :: sums (prev_n +u64 d) deltas
  end.

Definition read_warmup (s : string) : option Z :=
  match s with
  | String "|" (String " " s) => parse_u64 s
  | _ => None
  end.

Definition read_windowed_line (line : string) : option WindowedResult :=
  let parts := split SEP line in
  deltas ← mapM parse_u64 (removelast parts);
  w ← last parts;
  warmup ← read_warmup w;
  Some (mkWindowedResult (Z.to_nat warmup) (sums 0 deltas)).

(** The results of all iterations; the text ends with the end of a line. *)
Definition read_windowed (text : string) : option (list WindowedResult) :=
  mapM read_windowed_line (removelast (split NL text)).

Definition deltas (prev_n : Z) (windows : list Z) : list Z :=
  zip_with u64_sub windows (prev_n :: windows).

Lemma sums_deltas prev_n windows :
  Forall in_u64 windows -> sums prev_n (deltas prev_n windows) = windows.
Proof.
  intros Hw. revert prev_n. induction Hw as [|n windows Hn Hw IH]; intros prev_n; [done|].
  unfold deltas. cbn [zip_with sums].
  assert (prev_n +u64 (n -u64 prev_n) = n) as E.
  { unfold u64_add, u64_sub. rewrite Zplus_mod_idemp_r.
    replace (prev_n + (n - prev_n)) with n by lia. by apply Z.mod_small. }
  rewrite E. f_equal. apply IH.
Qed.

Lemma app_string_assoc (a b c : string) : (a ++ b) ++ c = a ++ b ++ c.
Proof. induction a as [|x a IH]; [done|]. change (String x ((a ++ b) ++ c) = String x (a ++ b ++ c)). f_equal. exact IH. Qed.

Lemma app_string_nil_r (a : string) : a ++ "" = a.
Proof. induction a as [|x a IH]; [done|]. change (String x (a ++ "") = String x a). by rewrite IH. Qed.

Lemma u64_sub_range a b : in_u64 (a -u64 b).
Proof. apply Z.mod_pos_bound. lia. Qed.
#[local] Hint Resolve u64_sub_range : core.

(** The line of a result, without its end, is split at its commas. *)
Lemma split_windows windows : forall prev_n rest, free SEP rest = true ->
  split SEP (windows_text prev_n windows ++ rest) = (map show (deltas prev_n windows) ++ [rest])%list.
Proof.
  induction windows as [|n windows IH]; intros prev_n rest Hr; cbn [windows_text].
  - by rewrite split_free.
  - pose proof (u64_sub_range n prev_n) as Hd.
    rewrite !app_string_assoc, split_part, IH by (done || by apply show_free; [apply Hd|]).
    done.
Qed.

Lemma mapM_parse_show l : Forall in_u64 l -> mapM parse_u64 (map show l) = Some l.
Proof.
  induction 1 as [|z l Hz Hl IH]; [done|]. cbn [map mapM]. simpl. rewrite parse_show by done.
  simpl. by rewrite IH.
Qed.

Lemma deltas_range prev_n windows : Forall in_u64 (deltas prev_n windows).
Proof.
  unfold deltas. eapply Forall_zip_with_fst with (P := fun _ => True); [by apply Forall_true|].
  apply Forall_true. eauto.
Qed.

Lemma last_app_one {A} (l : list A) x : last (l ++ [x]) = Some x.
Proof. apply last_snoc. Qed.

Definition line_of (r : WindowedResult) : string :=
  windows_text 0 (windows r) ++ "| " ++ show (Z.of_nat (num_warmup_windows r)).

(** The windows and the number of the warm-up ones fit a [usize]. *)
Definition fits (r : WindowedResult) : Prop :=
  Forall in_u64 (windows r) /\ in_u64 (Z.of_nat (num_warmup_windows r)).

Lemma read_line r : fits r -> read_windowed_line (line_of r) = Some r.
Proof.
  intros [Hw Hn]. unfold read_windowed_line, line_of.
  rewrite split_windows by (simpl; apply show_free; [apply Hn|done]).
  rewrite removelast_last, last_snoc, mapM_parse_show by apply deltas_range.
  cbn [mbind option_bind]. change (read_warmup ("| " ++ ?s)) with (parse_u64 s).
  rewrite parse_show by done. cbn [mbind option_bind]. rewrite sums_deltas by done. rewrite Nat2Z.id. by destruct r.
Qed.

Lemma free_windows_text sep prev_n windows :
  digit_of sep = None -> Ascii.eqb SEP sep = false -> free sep (windows_text prev_n windows) = true.
Proof.
  intros Hd Hs. revert prev_n. induction windows as [|n windows IH]; intros prev_n; [done|].
  cbn [windows_text]. rewrite !free_app, IH. rewrite show_free; [|apply u64_sub_range|done].
  unfold SEP in Hs. cbn [free]. by rewrite Hs.
Qed.

Lemma line_free r : in_u64 (Z.of_nat (num_warmup_windows r)) -> free NL (line_of r) = true.
Proof.
  intros Hn. unfold line_of. rewrite !free_app, free_windows_text by done.
  by rewrite show_free by (apply Hn || done).
Qed.

Lemma split_lines rs :
  Forall fits rs -> split NL (foldr append "" (map windowed_text rs)) = (map line_of rs ++ [""])%list.
Proof.
  induction 1 as [|r rs [_ Hn] _ IH]; [done|]. cbn [map foldr].
  assert (windowed_text r = line_of r ++ nl) as ->
    by (unfold windowed_text, line_of; by rewrite !app_string_assoc).
  by rewrite app_string_assoc, split_part, IH by by apply line_free.
Qed.

Lemma write_appends `{Histogram H} (hist : H) (file : string) texts : forall files,
  exists files', write_outputs (hist, files) (map (Append file) texts) = Some (hist, files') /\
    default "" (files' !! file) = default "" (files !! file) ++ foldr append "" texts.
Proof.
  induction texts as [|text texts IH]; intros files; simpl.
  - exists files. split; [done|]. by rewrite app_string_nil_r.
  - destruct (IH (append_to file text files)) as (files' & Hw & Hf). exists files'.
    split; [exact Hw|]. rewrite Hf.
    unfold append_to. rewrite lookup_insert_eq. simpl. apply app_string_assoc.
Qed.

(** The file of windowed results keeps them: whatever windows the iterations of an experiment
    append to a new file, the lines of the file give back the windows of every iteration, by
    adding up what they added modulo the width of the counter, and the number of its warm-up
    windows. *)
Theorem windowed_file_roundtrip `{Histogram H} (hist : H) (files : gmap string string)
    (dir experiment_str : string) (rs : list WindowedResult) :
  Forall fits rs -> files !! (dir ++ "/" ++ experiment_str ++ ".data") = None ->
  exists files',
    write_outputs (hist, files) (rs ≫= persist_windowed_results dir experiment_str) =
      Some (hist, files') /\
    read_windowed (default "" (files' !! (dir ++ "/" ++ experiment_str ++ ".data"))) = Some rs.
Proof.
  intros Hrs Hnew. set (file := dir ++ _) in *.
  destruct (write_appends hist file (map windowed_text rs) files) as (files' & Hw & Hf).
  exists files'. split.
  - rewrite <- Hw. f_equal. clear. induction rs as [|r rs IH]; [done|]. by rewrite bind_cons, IH.
  - rewrite Hf, Hnew. unfold read_windowed. change (default "" None ++ ?s) with s. rewrite split_lines, removelast_last by done.
    apply mapM_Some_2. clear -Hrs. induction Hrs; simpl; constructor; [by apply read_line|done].
Qed.

(** ** The statistics of the summary *)

Definition zsum (l : list Z) : Z := foldr Z.add 0 l.

Definition is_median (l : list Z) (m : Z) : Prop :=
  m ∈ l /\
  (2 * length (filter (fun x => x < m)%Z l) <= length l)%nat /\
  (2 * length (filter (fun x => m < x)%Z l) <= length l)%nat.

(** The statistics of [counts] over [n] iterations, all but the median. *)
Record is_stats (counts : list Z) (n : Z) (s : CountStats) : Prop := {
  st_nonzero : cs_nonzero s = length (filter (fun x => 0 < x) counts);
  st_len : cs_len s = length counts;
  st_sum : cs_sum s = zsum counts;
  st_avg : n * cs_avg s <= zsum counts < n * (cs_avg s + 1);
  st_min : cs_min s ∈ counts /\ forall x, x ∈ counts -> cs_min s <= x;
  st_max : cs_max s ∈ counts /\ forall x, x ∈ counts -> x <= cs_max s }.

Lemma u64_sum_zsum l : Forall (fun x => 0 <= x) l -> zsum l < 2 ^ 64 -> u64_sum l = zsum l.
Proof.
  intros Hl Hf. unfold u64_sum. enough (forall acc, 0 <= acc -> acc + zsum l < 2 ^ 64 ->
    foldl u64_add acc l = acc + zsum l) as E by (by rewrite E).
  clear Hf. induction Hl as [|x l Hx Hl IH]; intros acc Ha Hf; simpl in *; [by rewrite Z.add_0_r|].
  assert (0 <= zsum l) by (clear -Hl; induction Hl; simpl; lia).
  rewrite u64_add_small by lia. rewrite IH by lia. lia.
Qed.

Lemma zsum_perm l l' : l ≡ₚ l' -> zsum l = zsum l'.
Proof. induction 1; simpl; lia. Qed.

Lemma sort_perm l : sort l ≡ₚ l.
Proof. apply merge_sort_Permutation. Qed.

Lemma sort_sorted l : StronglySorted Z.le (sort l).
Proof. unfold sort. exact (StronglySorted_merge_sort Z.le l). Qed.

Lemma sorted_split (l : list Z) k m :
  StronglySorted Z.le l -> l !! k = Some m ->
  Forall (fun x => x <= m) (take k l) /\ Forall (fun x => m <= x) (drop (S k) l).
Proof.
  intros Hs. revert k. induction Hs as [|x l Hs IH Hx]; intros [|k] Hk; simplify_eq/=; [done|].
  destruct (IH k Hk) as [Hb Ha]. split; [|done]. constructor; [|done].
  rewrite Forall_forall in Hx. by eapply Hx, list_elem_of_lookup_2.
Qed.

Lemma filter_none (P : Z -> Prop) `{!forall x, Decision (P x)} l :
  Forall (fun x => ~ P x) l -> filter P l = [].
Proof.
  induction 1 as [|x l Hx Hl IH]; [done|]. by rewrite filter_cons_False.
Qed.

Lemma sorted_median l m :
  StronglySorted Z.le l -> l !! (length l / 2)%nat = Some m -> is_median l m.
Proof.
  intros Hs Hm. destruct (sorted_split _ _ _ Hs Hm) as [Hb Ha].
  set (k := (length l / 2)%nat) in *.
  assert (2 * k <= length l < 2 * k + 2)%nat as Hk.
  { pose proof (Nat.div_mod (length l) 2). pose proof (Nat.mod_upper_bound (length l) 2). lia. }
  assert (k < length l)%nat by (by eapply lookup_lt_Some).
  assert (El : l = (take k l ++ m :: drop (S k) l)%list) by (symmetry; by apply take_drop_middle).
  split; [by eapply list_elem_of_lookup_2|].
  rewrite El, !filter_app, !filter_cons_False, <- El by lia. rewrite !length_app. split.
  - rewrite (filter_none _ (drop _ _)) by (eapply Forall_impl; [done|]; simpl; lia).
    pose proof (length_filter (fun x => x < m) (take k l)). rewrite length_take in *. simpl. lia.
  - rewrite (filter_none _ (take _ _)) by (eapply Forall_impl; [done|]; simpl; lia).
    pose proof (length_filter (fun x => m < x) (drop (S k) l)). rewrite length_drop in *. simpl. lia.
Qed.

Lemma is_median_perm l l' m : l ≡ₚ l' -> is_median l m -> is_median l' m.
Proof. intros Hp (H1 & H2 & H3). unfold is_median. by rewrite <- Hp. Qed.

Lemma sorted_ends l x y :
  StronglySorted Z.le l -> head l = Some x -> last l = Some y ->
  (x ∈ l /\ forall z, z ∈ l -> x <= z) /\ (y ∈ l /\ forall z, z ∈ l -> z <= y).
Proof.
  intros Hs Hx Hy. rewrite last_lookup in Hy. assert (l !! 0%nat = Some x) as Hx' by (by destruct l).
  destruct (sorted_split _ _ _ Hs Hx') as [_ Hx1], (sorted_split _ _ _ Hs Hy) as [Hy1 _].
  split; (split; [by eapply list_elem_of_lookup_2|]); intros z Hz.
  - destruct l as [|w l]; [done|]. simplify_eq/=. rewrite Forall_forall in Hx1.
    apply elem_of_cons in Hz as [->|Hz]; [lia|]. by apply Hx1.
  - rewrite <- (take_drop_middle _ _ _ Hy) in Hz. rewrite Forall_forall in Hy1.
    apply elem_of_app in Hz as [Hz|[->|Hz]%elem_of_cons]; [by apply Hy1|lia|].
    rewrite drop_ge in Hz by lia. by apply not_elem_of_nil in Hz.
Qed.

Lemma count_stats_spec counts medians n :
  counts <> [] -> 0 < n -> length medians = length counts ->
  exists s, count_stats (sort counts) medians (zsum counts) n = Some s /\
    is_stats counts n s /\ medians !! (length counts / 2)%nat = Some (cs_med s).
Proof.
  intros Hne Hn Hlen. pose proof (sort_perm counts) as Hp. unfold count_stats, u64_div.
  rewrite (proj2 (Z.eqb_neq n 0)) by lia.
  assert (length (sort counts) = length counts) as Hl by (by rewrite Hp).
  destruct (head (sort counts)) as [x|] eqn:Hx;
    [|by destruct (sort counts); [apply Permutation_nil in Hp|]].
  destruct (last (sort counts)) as [y|] eqn:Hy;
    [|apply last_None in Hy; by rewrite Hy in Hx].
  destruct (lookup_lt_is_Some_2 medians (length counts / 2)) as [m Hm].
  { rewrite Hlen. destruct counts; [done|]. apply Nat.div_lt; simpl; lia. }
  cbn [mbind option_bind]. rewrite Hl, Hm. cbn [mbind option_bind]. eexists. split; [done|]. split; [|done].
  destruct (sorted_ends _ _ _ (sort_sorted counts) Hx Hy) as [Hmin Hmax].
  pose proof (Z.div_mod (zsum counts) n). pose proof (Z.mod_pos_bound (zsum counts) n).
  setoid_rewrite Hp in Hmin. setoid_rewrite Hp in Hmax.
  constructor; simpl; try done; [by rewrite Hp|lia].
Qed.

(** The summary never panics after an iteration, whatever the sums wrap around to. *)
Lemma count_stats_total counts medians sum n :
  counts <> [] -> n <> 0 -> length medians = length counts ->
  is_Some (count_stats (sort counts) medians sum n).
Proof.
  intros Hne Hn Hlen. pose proof (Permutation_length (sort_perm counts)) as Hl.
  unfold count_stats, u64_div. rewrite (proj2 (Z.eqb_neq n 0)) by done.
  destruct (lookup_lt_is_Some_2 medians (length counts / 2)) as [m Hm].
  { rewrite Hlen. destruct counts; [done|]. apply Nat.div_lt; simpl; lia. }
  destruct (head (sort counts)) as [x|] eqn:Hx; [|destruct (sort counts), counts; done].
  destruct (last (sort counts)) as [y|] eqn:Hy; [|apply last_None in Hy; by rewrite Hy in Hx].
  cbn [mbind option_bind]. rewrite Hl, Hm. by eexists.
Qed.

Lemma u64_sum_nonempty l : (0 <? u64_sum l) = true -> l <> [].
Proof. by intros H ->. Qed.

Lemma summary_total meta_path experiment_str ts rs n :
  length ts = length rs -> n <> 0 ->
  is_Some (persist_timeouts_retried_summary meta_path experiment_str ts rs n).
Proof.
  intros Hlen Hn. unfold persist_timeouts_retried_summary.
  assert (Hsl : length (sort ts) = length ts) by apply Permutation_length, sort_perm.
  destruct (0 <? u64_sum ts) eqn:H1; cbn [orb].
  - destruct (count_stats_total ts (sort ts) (u64_sum ts) n) as [s Hs];
      [by apply u64_sum_nonempty|done|done|]. rewrite Hs. cbn [mbind option_bind].
    destruct (0 <? u64_sum rs) eqn:H2; [|by eexists].
    destruct (count_stats_total rs (sort ts) (u64_sum rs) n) as [s' Hs'];
      [by apply u64_sum_nonempty|done|congruence|]. rewrite Hs'. by eexists.
  - destruct (0 <? u64_sum rs) eqn:H2; [|by eexists].
    destruct (count_stats_total rs ts (u64_sum rs) n) as [s' Hs'];
      [by apply u64_sum_nonempty|done|congruence|]. cbn [mbind option_bind]. rewrite Hs'. by eexists.
Qed.

(** Counts whose sum is zero. *)
Lemma zsum_zero l : Forall (fun x => 0 <= x) l -> zsum l <= 0 -> Forall (eq 0) l.
Proof.
  induction 1 as [|x l Hx Hl IH]; simpl; [done|]. intros Hs.
  assert (0 <= zsum l) by (clear -Hl; induction Hl; simpl; lia).
  constructor; [lia|apply IH; lia].
Qed.

Lemma zeros_sorted l : Forall (eq 0) l -> StronglySorted Z.le l.
Proof.
  induction 1 as [|x l <- Hl IH]; constructor; [done|]. eapply Forall_impl; [done|]. by intros ? <-.
Qed.

Lemma zsum_nonempty l : 0 < zsum l -> l <> [].
Proof. by intros H ->. Qed.

(** The summary of an experiment's timeouts and retries.  It is written exactly if there were
    some; its numbers of runs, sum, average over the iterations, minimum and maximum are those
    of the counts, and the median of the timeouts has at most half of the counts on either
    side.  What it calls the median of the retries is the median of the timeouts. *)
Theorem timeouts_summary (meta_path experiment_str : string) (ts rs : list Z) (n : Z) :
  Forall (fun x => 0 <= x) ts -> Forall (fun x => 0 <= x) rs -> length rs = length ts ->
  zsum ts < 2 ^ 64 -> zsum rs < 2 ^ 64 -> 0 < n ->
  exists timed_out retried,
    persist_timeouts_retried_summary meta_path experiment_str ts rs n =
      Some (if (0 <? zsum ts) || (0 <? zsum rs) then
              [Append (meta_path ++ "/summary.out")
                 (experiment_str ++ nl ++
                  (if 0 <? zsum ts then stats_text "timeouts" timed_out ++ nl else "") ++
                  (if 0 <? zsum rs then stats_text "retries" retried ++ nl else ""))]
            else []) /\
    (0 < zsum ts -> is_stats ts n timed_out /\ is_median ts (cs_med timed_out)) /\
    (0 < zsum rs -> is_stats rs n retried /\ is_median ts (cs_med retried)).
Proof.
  intros Hts Hrs Hlen Hst Hsr Hn. unfold persist_timeouts_retried_summary.
  rewrite !u64_sum_zsum by done.
  assert (Hsorted : forall k m, sort ts !! k = Some m -> k = (length ts / 2)%nat -> is_median ts m).
  { intros k m Hm ->. eapply is_median_perm; [apply sort_perm|]. apply sorted_median; [apply sort_sorted|].
    by rewrite (Permutation_length (sort_perm ts)). }
  assert (Hsl : length (sort ts) = length ts) by apply Permutation_length, sort_perm.
  set (none := mkCountStats 0 0 0 0 0 0 0).
  destruct (Z.ltb_spec 0 (zsum ts)) as [H1|H1].
  - destruct (count_stats_spec ts (sort ts) n) as (s & Hs & Hstats & Hmed);
      [by apply zsum_nonempty|done|done|]. apply Hsorted in Hmed; [|done].
    cbn [orb]. rewrite Hs. cbn [mbind option_bind].
    destruct (Z.ltb_spec 0 (zsum rs)) as [H2|H2].
    + destruct (count_stats_spec rs (sort ts) n) as (s' & Hs' & Hstats' & Hmed');
        [by apply zsum_nonempty|done|congruence|].
      rewrite Hs'. exists s, s'. split; [done|]. split; [done|]. intros _. split; [done|].
      by rewrite Hlen in Hmed'; apply Hsorted in Hmed'.
    + exists s, none. split; [done|]. split; [done|]. lia.
  - cbn [orb mbind option_bind]. destruct (Z.ltb_spec 0 (zsum rs)) as [H2|H2].
    + destruct (count_stats_spec rs ts n) as (s' & Hs' & Hstats' & Hmed');
        [by apply zsum_nonempty|done|congruence|].
      rewrite Hs'. exists none, s'. split; [done|]. split; [lia|]. intros _. split; [done|].
      rewrite Hlen in Hmed'. apply sorted_median; [|done]. by apply zeros_sorted, zsum_zero.
    + exists none, none. split; [done|]. split; lia.
Qed.

(** ** The counters *)

(** What a component counts: a message that was sent, or one that was received. *)
Inductive IOEvent := Sent (size : Z) | Received (size : Z).

Definition count_event (io : IOMetaData) (e : IOEvent) : IOMetaData :=
  match e with
  | Sent size => update_sent_with_size io size
  | Received size => update_received_with_size io size
  end.

Definition io_fits (io : IOMetaData) : Prop :=
  in_u64 (msgs_sent io) /\ in_u64 (bytes_sent io) /\ in_u64 (msgs_received io) /\
  in_u64 (bytes_received io).

Lemma u64_add_assoc a b c : a +u64 b +u64 c = a +u64 (b +u64 c).
Proof. unfold u64_add. rewrite Zplus_mod_idemp_l, Zplus_mod_idemp_r. f_equal. lia. Qed.

Lemma u64_add_0_r a : in_u64 a -> a +u64 0 = a.
Proof. intros Ha. unfold u64_add. rewrite Z.add_0_r. by apply Z.mod_small. Qed.

Lemma count_event_add a e : io_fits a -> count_event a e = io_add a (count_event io_default e).
Proof.
  intros (H1 & H2 & H3 & H4). destruct e; unfold count_event, update_sent_with_size,
    update_received_with_size, io_add; simpl; rewrite !u64_add_0_r by done; f_equal;
    unfold u64_add; by rewrite Zplus_mod_idemp_r.
Qed.

Lemma io_add_fits a b : io_fits (io_add a b).
Proof. repeat split; apply Z.mod_pos_bound; lia. Qed.

Lemma io_add_assoc a b c : io_add (io_add a b) c = io_add a (io_add b c).
Proof. unfold io_add. simpl. by rewrite !u64_add_assoc. Qed.

(** The counters of consecutive windows add up to those of all messages, also when they wrap
    around. *)
Lemma windows_add_up evs : forall a, io_fits a ->
  foldl count_event a evs = io_add a (foldl count_event io_default evs).
Proof.
  induction evs as [|e evs IH]; intros a Ha; simpl.
  - destruct Ha as (H1 & H2 & H3 & H4). destruct a. unfold io_add. simpl in *.
    by rewrite !u64_add_0_r.
  - assert (io_fits (count_event io_default e)).
    { destruct e; repeat split; try done; apply Z.mod_pos_bound; lia. }
    rewrite (count_event_add a e) by done.
    by rewrite (IH (io_add a _)), (IH (count_event io_default e)), io_add_assoc by (apply io_add_fits || done).
Qed.

(** ** Examples *)

Module ResultsExample.
(** A histogram that keeps its values, in the order in which they are recorded. *)
#[export] Instance list_histogram : Histogram (list Z) := {|
  hist_record := fun h l => Some (h ++ [l])%list;
  value_at_quantile := fun h q => default 0 (sort h !! (Z.to_nat q * length h / 1000)%nat);
  hist_min := fun h => default 0 (head (sort h));
  hist_max := fun h => default 0 (last (sort h));
  hist_mean := fun h => show (zsum h / Z.of_nat (length h));
  hist_len := fun h => Z.of_nat (length h);
  show_quantile := fun q => "0." ++ show q |}.

Definition windowed : list WindowedResult :=
  [mkWindowedResult 1 [10; 25; 25]; mkWindowedResult 0 [7]].
End ResultsExample.

Example windowed_file_text :
  foldr append "" (map windowed_text ResultsExample.windowed) =
  "10,15,0,| 1" ++ nl ++ "7,| 0" ++ nl.
Proof. reflexivity. Qed.

(** Three runs with 9, 1 and 5 retries and one timeout: the median of the retries is 5. *)
Example retries_median_of_timeouts :
  persist_timeouts_retried_summary "dir" "exp" [0; 1; 0] [9; 1; 5] 3 =
  Some [Append "dir/summary.out"
    ("exp" ++ nl ++
     "1/3 runs had timeouts. sum: 1, avg: 0, med: 0, min: 0, max: 1" ++ nl ++
     "3/3 runs had retries. sum: 15, avg: 5, med: 0, min: 1, max: 9" ++ nl)].
Proof. vm_compute. reflexivity. Qed.

(** An experiment that never started an iteration has no average. *)
Example summary_without_iterations :
  persist_timeouts_retried_summary "dir" "exp" [1] [0] 0 = None.
Proof. vm_compute. reflexivity. Qed.

#[local] Existing Instance ResultsExample.list_histogram.

Lemma windowed_file_roundtrip_witness :
  exists files',
    write_outputs ([] : list Z, ∅) (ResultsExample.windowed ≫= persist_windowed_results "dir" "exp") =
      Some ([], files') /\
    read_windowed (default "" (files' !! "dir/exp.data")) = Some ResultsExample.windowed.
Proof.
  apply (windowed_file_roundtrip [] ∅ "dir" "exp" ResultsExample.windowed).
  - repeat constructor; vm_compute; discriminate || reflexivity.
  - reflexivity.
Defined.

(** Three messages were sent and one was received; the total of the sent ones is 1. *)
Example sent_total_of_received :
  persist_io_metadata [(7, foldl count_event io_default [Sent 500; Sent 500; Received 2000; Sent 1000])] =
  ("total | 1 2" ++ nl ++ "7 | 1 2" ++ nl ++ nl, "total | 1 2" ++ nl ++ "7 | 3 2" ++ nl ++ nl).
Proof. vm_compute. reflexivity. Qed.

Lemma timeouts_summary_witness :
  exists timed_out retried,
    persist_timeouts_retried_summary "dir" "exp" [0; 1; 0] [9; 1; 5] 3 =
      Some [Append "dir/summary.out"
        ("exp" ++ nl ++ (stats_text "timeouts" timed_out ++ nl) ++
          (stats_text "retries" retried ++ nl))] /\
    is_median [0; 1; 0] (cs_med retried).
Proof.
  destruct (timeouts_summary "dir" "exp" [0; 1; 0] [9; 1; 5] 3) as (t & r & Hs & _ & Hr).
  - repeat constructor; discriminate.
  - repeat constructor; discriminate.
  - reflexivity.
  - reflexivity.
  - reflexivity.
  - reflexivity.
  - exists t, r. split; [rewrite Hs; reflexivity|]. apply Hr. reflexivity.
Defined.
End Results.
