(* ===== verification/Suite.v ===== *)
(** The benchmark suite ([src/shared_rust/src]): the interfaces of a benchmark
    ([benchmark.rs]), its repetition ([benchmark_runner.rs]), the process of a client
    ([benchmark_client.rs]) and the master that runs a benchmark on all clients
    ([benchmark_master.rs]).

    A panic is [None].  Remote calls go to the processes at the addresses of the clients;
    whether a call or its answer arrives is an input. *)

From Stdlib Require Import Strings.String.
From stdpp Require Import strings.
From S2P Require Import Prelude Wire.

Open Scope string_scope.
Open Scope Z_scope.

Module Suite.

(** ** Benchmarks *)

Record DeploymentMetaData := mkDeploymentMetaData {
  number_of_clients : Z;
  run_id : string }.

Inductive NotImplementedError := FutureWork | NotImplementable | NotFound.

(** [grpc::Error] is a parameter. *)
Inductive BenchmarkError {E : Type} :=
| RSETargetNotMet (s : string)
| Panic
| InvalidMessage (s : string)
| RPCError (e : E)
| InvalidTest (s : string)
| NotImplemented (e : NotImplementedError)
| InvalidDeployment (s : string).
Arguments BenchmarkError : clear implicits.

(** The messages of protobuf are a type [Msg], and [F] is [f64]. *)
Section suite.
Context {E F Msg : Type}.

(** *** Local benchmarks *)

Record Benchmark := mkBenchmark {
  Conf : Type;
  Instance_ : Type;
  local_label : string;
  msg_to_conf : Msg -> Conf + BenchmarkError E;
  new_instance : Instance_;
  setup : Instance_ -> Conf -> option Instance_;
  prepare_iteration : Instance_ -> option Instance_;
  run_iteration : Instance_ -> option Instance_;
  cleanup_iteration : Instance_ -> bool -> F -> option Instance_ }.

(** *** Distributed benchmarks *)

(** The traits of a benchmark, of its master and of its client. *)
Record DistributedBenchmark := mkDistributedBenchmark {
  MasterConf : Type;
  ClientConf : Type;
  ClientData : Type;
  Master : Type;
  Client : Type;
  LABEL : string;
  new_master : Master;
  msg_to_master_conf : Msg -> MasterConf + BenchmarkError E;
  new_client : Client;
  str_to_client_conf : string -> ClientConf + BenchmarkError E;
  str_to_client_data : string -> ClientData + BenchmarkError E;
  client_conf_to_str : ClientConf -> string;
  client_data_to_str : ClientData -> string;
  master_setup : Master -> MasterConf -> DeploymentMetaData ->
    option (Master * (ClientConf + BenchmarkError E));
  master_prepare_iteration : Master -> list ClientData -> option Master;
  master_run_iteration : Master -> option Master;
  master_cleanup_iteration : Master -> bool -> F -> option Master;
  client_setup : Client -> ClientConf -> option (Client * ClientData);
  client_prepare_iteration : Client -> option Client;
  client_cleanup_iteration : Client -> bool -> option Client }.

(** [AbstractDistributedBenchmark] with the objects it makes, whose configuration and data
    are strings. *)
Record AbstractDistributedBenchmark := mkAbstract {
  am_state : Type;
  ac_state : Type;
  label : string;
  am_new : am_state;
  ac_new : ac_state;
  am_setup : am_state -> Msg -> DeploymentMetaData ->
    option (am_state * (string + BenchmarkError E));
  am_prepare : am_state -> list string -> option (am_state * (unit + BenchmarkError E));
  am_run : am_state -> option am_state;
  am_cleanup : am_state -> bool -> F -> option am_state;
  ac_setup : ac_state -> string -> option (ac_state * (string + BenchmarkError E));
  ac_prepare : ac_state -> option ac_state;
  ac_cleanup : ac_state -> bool -> option ac_state }.

(** [iter.collect::<Result<Vec<_>, _>>()]: the first error. *)
Fixpoint collect {A B} (l : list (A + B)) : list A + B :=
  match l with
  | [] => inl []
  | inr e :: _ => inr e
  | inl a :: l => match collect l with inl l => inl (a :: l) | inr e => inr e end
  end.

Definition master_object_setup (B : DistributedBenchmark) (bm : Master B) (msg : Msg)
    (meta : DeploymentMetaData) : option (Master B * (string + BenchmarkError E)) :=
  match msg_to_master_conf B msg with
  | inr e => Some (bm, inr e)
  | inl c =>
      '(bm, r) ← master_setup B bm c meta;
      Some (bm, match r with inl cconf => inl (client_conf_to_str B cconf) | inr e => inr e end)
  end.

Definition master_object_prepare (B : DistributedBenchmark) (bm : Master B) (d : list string)
    : option (Master B * (unit + BenchmarkError E)) :=
  match collect (map (str_to_client_data B) d) with
  | inr e => Some (bm, inr e)
  | inl d_deser => bm ← master_prepare_iteration B bm d_deser; Some (bm, inl tt)
  end.

Definition client_object_setup (B : DistributedBenchmark) (bc : Client B) (c : string)
    : option (Client B * (string + BenchmarkError E)) :=
  match str_to_client_conf B c with
  | inr e => Some (bc, inr e)
  | inl cconf =>
      '(bc, cdata) ← client_setup B bc cconf;
      Some (bc, inl (client_data_to_str B cdata))
  end.

Definition DistributedBenchmarkObject (B : DistributedBenchmark) : AbstractDistributedBenchmark :=
  mkAbstract (Master B) (Client B) (LABEL B) (new_master B) (new_client B)
    (master_object_setup B) (master_object_prepare B) (master_run_iteration B)
    (master_cleanup_iteration B) (client_object_setup B) (client_prepare_iteration B)
    (client_cleanup_iteration B).

Inductive AbstractBench :=
| Local (b : Benchmark)
| Distributed (b : AbstractDistributedBenchmark).

Record BenchmarkFactory := mkFactory {
  by_label : string -> AbstractBench + NotImplementedError;
  atomic_broadcast : AbstractDistributedBenchmark + NotImplementedError }.

(** The factories of [src/kompact/src/bench/mod.rs]; the benchmark is an argument. *)
Definition ComponentFactory : BenchmarkFactory :=
  mkFactory (fun _ => inr NotFound) (inr NotImplementable).

Definition ActorFactory : BenchmarkFactory :=
  mkFactory (fun _ => inr NotFound) (inr NotImplementable).

Definition MixedFactory (atomic_broadcast : AbstractDistributedBenchmark) : BenchmarkFactory :=
  mkFactory (fun l => if String.eqb l (label atomic_broadcast)
                      then inl (Distributed atomic_broadcast) else inr NotFound)
    (inl atomic_broadcast).

(** ** The runner *)

Definition MIN_RUNS : nat := 10.
Definition MAX_RUNS : nat := 10.

Inductive TestResult :=
| TestSuccess (number_of_runs : Z) (run_results : list F)
| TestFailure (reason : string)
| TestNotImplemented.

(** The statistics on [f64] are arguments: whether [rse(results) > RSE_TARGET], and the text
    of that error; and so is the [Debug] text of an error. *)
Context (rse_above : list F -> bool) (rse_message : list F -> nat -> string).
Context (debug : BenchmarkError E -> string).

(** [impl From<Result<Vec<f64>, BenchmarkError>> for TestResult] *)
Definition to_test_result (res : list F + BenchmarkError E) : TestResult :=
  match res with
  | inl data => TestSuccess (len_u32 data) data
  | inr e => TestFailure (debug e)
  end.

(** The two loops of [run] with their conditions; [measured n] is the time that run [n] took. *)
Fixpoint run_while (B : Benchmark) (measured : nat -> F) (cond : list F -> nat -> bool) (fuel : nat)
    (bi : Instance_ B) (results : list F) (n_runs : nat)
    : option (Instance_ B * list F * nat) :=
  match fuel with
  | O => None
  | S fuel =>
      if cond results n_runs then
        t ← last results;
        bi ← cleanup_iteration B bi false t;
        bi ← prepare_iteration B bi;
        bi ← run_iteration B bi;
        run_while B measured cond fuel bi (results ++ [measured n_runs]) (n_runs + 1)
      else Some (bi, results, n_runs)
  end.

Definition run (B : Benchmark) (measured : nat -> F) (c : Conf B)
    : option (list F + BenchmarkError E) :=
  bi ← setup B (new_instance B) c;
  bi ← prepare_iteration B bi;
  bi ← run_iteration B bi;
  '(bi, results, n_runs) ←
    run_while B measured (fun _ n_runs => (n_runs <? MIN_RUNS)%nat) (S MAX_RUNS) bi [measured O] 1;
  '(bi, results, n_runs) ←
    run_while B measured (fun results n_runs => (n_runs <? MAX_RUNS)%nat && rse_above results)
      (S MAX_RUNS) bi results n_runs;
  t ← last results;
  bi ← cleanup_iteration B bi true t;
  Some (if rse_above results then inr (RSETargetNotMet (rse_message results n_runs))
        else inl results).

(** [AbstractBenchmark::run] *)
Definition local_run (B : Benchmark) (measured : nat -> F) (msg : Msg)
    : option (list F + BenchmarkError E) :=
  match msg_to_conf B msg with
  | inr e => Some (inr e)
  | inl c => run B measured c
  end.

(** [run_async] catches a panic. *)
Definition run_async (r : option (list F + BenchmarkError E)) : TestResult + BenchmarkError E :=
  match r with
  | Some r => inl (to_test_result r)
  | None => inr Panic
  end.

(** ** The process of a client *)

Record ActiveBench := mkActiveBench {
  ab : AbstractDistributedBenchmark;
  instance : ac_state ab }.

Inductive ClientState :=
| CheckingIn
| Ready
| Running (active_bench : ActiveBench)
| Stopped.

Record SetupResponse := mkSetupResponse {
  success : bool;
  data : string }.

(** A command, indexed by the type of its promise. *)
Inductive ClientCommand : Type -> Type :=
| Setup (sc_label sc_data : string) : ClientCommand SetupResponse
| Cleanup (final : bool) : ClientCommand unit
| Shutdown : ClientCommand unit.

Definition MAX_ATTEMPTS : nat := 5.

(** How the loop of check-ins ends. *)
Inductive CheckinResult := CheckedIn (s : ClientState) | Exit.

(** [ok n] tells if attempt [n] is answered. *)
Fixpoint checkin_loop (fuel : nat) (checkin_attempts : nat) (ok : nat -> bool) : option CheckinResult :=
  match fuel with
  | O => None
  | S fuel =>
      let checkin_attempts := (checkin_attempts + 1)%nat in
      if ok checkin_attempts then Some (CheckedIn Ready)
      else if (checkin_attempts <? MAX_ATTEMPTS)%nat then checkin_loop fuel checkin_attempts ok
      else Some Exit
  end.

(** [ActiveBench::new], [setup] and [prepare]: the error leaves the state as it is. *)
Definition active_bench_start (db : AbstractDistributedBenchmark) (sc_data : string)
    : option ((ActiveBench * string) + BenchmarkError E) :=
  '(i, r) ← ac_setup db (ac_new db) sc_data;
  match r with
  | inr e => Some (inr e)
  | inl client_data => i ← ac_prepare db i; Some (inl (mkActiveBench db i, client_data))
  end.

Definition handle_setup (benchmarks : BenchmarkFactory) (test_label sc_data : string)
    : option (ClientState * SetupResponse) :=
  r ← match by_label benchmarks test_label with
      | inr e => Some (inr (NotImplemented e))
      | inl (Local _) => Some (inr (InvalidTest ("Test " ++ test_label ++ " is local!")))
      | inl (Distributed db) => active_bench_start db sc_data
      end;
  Some (match r with
        | inl (active_bench, client_data) => (Running active_bench, mkSetupResponse true client_data)
        | inr e => (Ready, mkSetupResponse false (debug e))
        end).

Definition handle_cleanup (state : ClientState) (final : bool) : option (ClientState * unit) :=
  match state with
  | Running (mkActiveBench b i) =>
      if final then i ← ac_cleanup b i true; Some (Ready, tt)
      else
        i ← ac_cleanup b i false;
        i ← ac_prepare b i;
        Some (Running (mkActiveBench b i), tt)
  | _ => None
  end.

(** A command of the loop of [start]. *)
Definition handle_command {R : Type} (benchmarks : BenchmarkFactory) (state : ClientState)
    (cmd : ClientCommand R) : option (ClientState * R) :=
  match cmd in ClientCommand R return option (ClientState * R) with
  | Setup sc_label sc_data => handle_setup benchmarks sc_label sc_data
  | Cleanup final => handle_cleanup state final
  | Shutdown => Some (Stopped, tt)
  end.

(** ** Remote calls *)

Record ClientEntry := mkClientEntry {
  address : string;
  port : Z }.

Definition addr (c : ClientEntry) : string * Z := (address c, port c).

Record Process := mkProcess {
  benchmarks : BenchmarkFactory;
  proc_state : ClientState }.

(** The processes that live. *)
Notation Net := (gmap (string * Z) Process).

Inductive Delivery :=
| Delivered
| RequestLost (e : E)
| ResponseLost (e : E).

(** The error of a call to a process that does not answer. *)
Context (unavailable : E).

(** A process that panics, and one that has stopped, does not answer any more. *)
Definition execute {R : Type} (net : Net) (c : ClientEntry) (cmd : ClientCommand R) : Net * (R + E) :=
  match net !! addr c with
  | None => (net, inr unavailable)
  | Some p =>
      match proc_state p with
      | Stopped => (net, inr unavailable)
      | state =>
          match handle_command (benchmarks p) state cmd with
          | None => (delete (addr c) net, inr unavailable)
          | Some (state, r) => (<[addr c := mkProcess (benchmarks p) state]> net, inl r)
          end
      end
  end.

Definition call {R : Type} (net : Net) (d : Delivery) (c : ClientEntry) (cmd : ClientCommand R)
    : Net * (R + E) :=
  match d with
  | RequestLost e => (net, inr e)
  | Delivered => execute net c cmd
  | ResponseLost e => ((execute net c cmd).1, inr e)
  end.

(** The calls to all clients; the crate futures reports one of the errors. *)
Fixpoint call_all {R : Type} (net : Net) (d : nat -> Delivery) (clients : list ClientEntry)
    (cmd : ClientCommand R) : Net * list (R + E) :=
  match clients with
  | [] => (net, [])
  | c :: clients =>
      let '(net, r) := call net (d O) c cmd in
      let '(net, rs) := call_all net (fun i => d (S i)) clients cmd in
      (net, r :: rs)
  end.

(** ** The master *)

Inductive MasterState := INIT | READY | SETUP | RUN | CLEANUP | FINISHED | STOPPED.

#[global] Instance MasterState_eq_dec : EqDecision MasterState.
Proof. solve_decision. Defined.

(** [StateHolder::cas] with its [expect]. *)
Definition cas (state old_value new_value : MasterState) : option MasterState :=
  if decide (state = old_value) then Some new_value else None.

Record BenchmarkMaster := mkMaster {
  wait_for : Z;
  clients : list ClientEntry;
  state : MasterState;
  meta : DeploymentMetaData;
  master_run_id : string }.

Definition set_clients (m : BenchmarkMaster) (x : list ClientEntry) : BenchmarkMaster :=
  mkMaster (wait_for m) x (state m) (meta m) (master_run_id m).
Definition set_state (m : BenchmarkMaster) (x : MasterState) : BenchmarkMaster :=
  mkMaster (wait_for m) (clients m) x (meta m) (master_run_id m).
Definition set_meta (m : BenchmarkMaster) (x : DeploymentMetaData) : BenchmarkMaster :=
  mkMaster (wait_for m) (clients m) (state m) x (master_run_id m).

Definition new (wait_for : Z) (run_id : string) : BenchmarkMaster :=
  mkMaster wait_for [] INIT (mkDeploymentMetaData 0 run_id) run_id.

(** *** Check-ins *)

Record ClientInfo := mkClientInfo {
  ci_address : string;
  ci_port : Z }.

(** [MasterHandler::check_in]: what is added to the queue. *)
Definition check_in (state : MasterState) (p : ClientInfo) : list ClientInfo :=
  if decide (state = INIT) then [p] else [].

(** The connection is made lazily. *)
Definition client_info_to_entry (ci : ClientInfo) : ClientEntry :=
  mkClientEntry (ci_address ci) (ci_port ci mod 2 ^ 16).

Definition check_in_handler (m : BenchmarkMaster) (request : ClientInfo) : option BenchmarkMaster :=
  if decide (state m = INIT) then
    let m := set_clients m (clients m ++ [client_info_to_entry request]) in
    if Z.of_nat (length (clients m)) =? wait_for m then
      s ← cas (state m) INIT READY; Some (set_state m s)
    else Some m
  else Some m.

(** The first loop of [start], on the check-ins that arrive; it returns the rest of the
    queue. *)
Fixpoint await_check_ins (m : BenchmarkMaster) (check_in_queue : list ClientInfo)
    : option (BenchmarkMaster * list ClientInfo) :=
  if decide (state m = INIT) then
    match check_in_queue with
    | [] => Some (m, [])
    | ci :: check_in_queue => m ← check_in_handler m ci; await_check_ins m check_in_queue
    end
  else Some (m, check_in_queue).

(** The meta data that [start] makes after it. *)
Definition start_meta (m : BenchmarkMaster) : option BenchmarkMaster :=
  if Z.of_nat (length (clients m)) <? 2 ^ 32
  then Some (set_meta m (mkDeploymentMetaData (Z.of_nat (length (clients m))) (master_run_id m)))
  else None.

(** *** Running a benchmark *)

(** What happens outside during a request: the times of the runs, and the fate of the calls of
    the set-up (round 0) and of the clean-ups. *)
Record Oracle := mkOracle {
  measured : nat -> F;
  deliver : nat -> nat -> Delivery }.

Section distributed.
Context (b : AbstractDistributedBenchmark).

Record DistributedIteration := mkIteration {
  it_master : am_state b;
  client_data_l : list (ClientEntry * string);
  n_runs : nat;
  results : list F }.

Definition it_new (master : am_state b) (client_data_l : list (ClientEntry * string))
    : DistributedIteration := mkIteration master client_data_l 0 [].

Definition it_prepare (it : DistributedIteration) : option DistributedIteration :=
  '(m, r) ← am_prepare b (it_master it) (map snd (client_data_l it));
  match r with
  | inl _ => Some (mkIteration m (client_data_l it) (n_runs it) (results it))
  | inr _ => None
  end.

Definition it_run (measured : nat -> F) (it : DistributedIteration) : option DistributedIteration :=
  m ← am_run b (it_master it);
  Some (mkIteration m (client_data_l it) (n_runs it + 1) (results it ++ [measured (n_runs it)])).

Definition is_final (it : DistributedIteration) : bool :=
  negb ((n_runs it <? MIN_RUNS)%nat || ((n_runs it <? MAX_RUNS)%nat && rse_above (results it))).

(** The master first, then all clients. *)
Definition it_cleanup (net : Net) (d : nat -> Delivery) (it : DistributedIteration)
    : option (Net * ((DistributedIteration * bool) + E)) :=
  t ← last (results it);
  m ← am_cleanup b (it_master it) (is_final it) t;
  let it' := mkIteration m (client_data_l it) (n_runs it) (results it) in
  let '(net, rs) := call_all net d (map fst (client_data_l it)) (Cleanup (is_final it)) in
  Some (net, match collect rs with inl _ => inl (it', is_final it) | inr e => inr e end).

(** [loop_fn]: prepare, run and clean up until the last iteration; it starts in [RUN].  The
    state of the master is returned with the result. *)
Fixpoint iterate (fuel : nat) (o : Oracle) (st : MasterState) (net : Net) (it : DistributedIteration)
    : option (MasterState * Net * (TestResult + BenchmarkError E)) :=
  match fuel with
  | O => None
  | S fuel =>
      it ← it_prepare it;
      it ← it_run (measured o) it;
      st ← cas st RUN CLEANUP;
      '(net, r) ← it_cleanup net (deliver o (n_runs it)) it;
      match r with
      | inr e => Some (st, net, inr (RPCError e))
      | inl (it, true) =>
          st ← cas st CLEANUP FINISHED;
          Some (st, net, inl (to_test_result (inl (results it))))
      | inl (it, false) =>
          st ← cas st CLEANUP RUN;
          iterate fuel o st net it
      end
  end.

(** What the master makes of the answer to a set-up. *)
Definition setup_response (c : ClientEntry) (r : SetupResponse + E)
    : (ClientEntry * string) + BenchmarkError E :=
  match r with
  | inr e => inr (RPCError e)
  | inl sr => if success sr then inl (c, data sr) else inr (InvalidTest (data sr))
  end.

Definition run_distributed (o : Oracle) (st : MasterState) (cs : list ClientEntry)
    (meta : DeploymentMetaData) (net : Net) (msg : Msg)
    : option (MasterState * Net * (TestResult + BenchmarkError E)) :=
  st ← cas st READY SETUP;
  '(master, r) ← am_setup b (am_new b) msg meta;
  match r with
  | inr e => Some (st, net, inr e)
  | inl client_conf =>
      let '(net, rs) := call_all net (deliver o O) cs (Setup (label b) client_conf) in
      match collect (zip_with setup_response cs rs) with
      | inr e => Some (st, net, inr e)
      | inl client_data =>
          st ← cas st SETUP RUN;
          iterate (S MAX_RUNS) o st net (it_new master client_data)
      end
  end.
End distributed.

(** After the future has completed, with a result or an error, the master is [READY]. *)
Definition run_distributed_benchmark (o : Oracle) (m : BenchmarkMaster) (net : Net)
    (b : AbstractDistributedBenchmark) (msg : Msg)
    : option (BenchmarkMaster * Net * (TestResult + BenchmarkError E)) :=
  '(_, net, res) ← run_distributed b o (state m) (clients m) (meta m) net msg;
  Some (set_state m READY, net, res).

Definition run_local_benchmark (o : Oracle) (m : BenchmarkMaster) (net : Net) (b : Benchmark)
    (msg : Msg) : option (BenchmarkMaster * Net * (TestResult + BenchmarkError E)) :=
  _ ← cas (state m) READY RUN;
  Some (set_state m READY, net, run_async (local_run b (measured o) msg)).

(** *** Requests *)

Inductive BenchRequest :=
| Invoke (benchmark : AbstractBench) (msg : Msg)
| ShutdownRequest (force : bool).

(** The requester gets the result, or its future is cancelled. *)
Inductive Answer :=
| Answered (r : TestResult)
| Cancelled.

Definition bench_request_handler (o : Oracle) (m : BenchmarkMaster) (net : Net)
    (benchmark : AbstractBench) (msg : Msg) : option (BenchmarkMaster * Net * Answer) :=
  '(m, net, res) ←
    match benchmark with
    | Local b => run_local_benchmark o m net b msg
    | Distributed b => run_distributed_benchmark o m net b msg
    end;
  Some (m, net, match res with inl tr => Answered tr | inr _ => Cancelled end).

(** A process that is forced to shut down exits. *)
Definition shutdown_client (force : bool) (net : Net) (c : ClientEntry) : Net :=
  if force then delete (addr c) net else (execute net c Shutdown).1.

(** The calls whose fate is [Delivered] or [ResponseLost] arrive. *)
Fixpoint shutdown_clients (force : bool) (net : Net) (d : nat -> Delivery)
    (clients : list ClientEntry) : Net :=
  match clients with
  | [] => net
  | c :: clients =>
      let net := match d O with RequestLost _ => net | _ => shutdown_client force net c end in
      shutdown_clients force net (fun i => d (S i)) clients
  end.

(** The loop of [start] on a queue of requests, with an oracle for each; it returns the answers
    and the requests that are left when the master has stopped. *)
Fixpoint serve (m : BenchmarkMaster) (net : Net) (bench_queue : list (Oracle * BenchRequest))
    : option (BenchmarkMaster * Net * list Answer * list BenchRequest) :=
  match bench_queue with
  | [] => Some (m, net, [], [])
  | (o, bench) :: bench_queue =>
      match state m with
      | READY =>
          match bench with
          | Invoke benchmark msg =>
              '(m, net, a) ← bench_request_handler o m net benchmark msg;
              '(m, net, l, rest) ← serve m net bench_queue;
              Some (m, net, a :: l, rest)
          | ShutdownRequest force =>
              let net := shutdown_clients force net (deliver o O) (clients m) in
              Some (set_state (set_clients m []) STOPPED, net, [], map snd bench_queue)
          end
      | _ => Some (m, net, [], bench :: map snd bench_queue)
      end
  end.

(** *** The handler of the runner *)

Definition ready (state : MasterState) : bool := bool_decide (state = READY).

(** A request is put into the queue, or answered at once. *)
Definition enqueue_if_implemented {B} (res : B + NotImplementedError) (f : B -> BenchRequest)
    : BenchRequest + TestResult :=
  match res with
  | inl b => inl (f b)
  | inr _ => inr TestNotImplemented
  end.

Definition request_atomic_broadcast (benchmarks : BenchmarkFactory) (p : Msg)
    : BenchRequest + TestResult :=
  enqueue_if_implemented (atomic_broadcast benchmarks) (fun b => Invoke (Distributed b) p).
End suite.

Arguments Benchmark : clear implicits.
Arguments DistributedBenchmark : clear implicits.
Arguments AbstractDistributedBenchmark : clear implicits.
Arguments AbstractBench : clear implicits.
Arguments BenchmarkFactory : clear implicits.
Arguments TestResult : clear implicits.
Arguments ActiveBench : clear implicits.
Arguments ClientState : clear implicits.
Arguments Process : clear implicits.
Arguments Delivery : clear implicits.
Arguments Oracle : clear implicits.
Arguments BenchRequest : clear implicits.
Arguments Answer : clear implicits.
End Suite.
