(* ===== verification/SuiteThm.v ===== *)
(** What the benchmark suite guarantees.

    The order in which a benchmark is used is an interface, [MasterProtocol] for its master
    and [ClientProtocol] for its clients.  Against it: the master answers every request and
    never panics, whatever calls are lost; and a benchmark on clients that answer runs to its
    end. *)

From Stdlib Require Import Strings.String.
From stdpp Require Import strings.
From S2P Require Import Prelude Wire Suite.

Import Suite.

Open Scope string_scope.
Open Scope Z_scope.

#[local] Arguments MAX_RUNS : simpl never.

(** ** Interfaces *)

Section interfaces.
Context {E F Msg : Type}.

(** The master of a benchmark is set up, and then prepared, run and cleaned up in turn, at most
    [MAX_RUNS] times: [valid] are the requests it is made for, [conf] the configurations it
    sends to the clients and [good] the data of the clients that it can use; the states are
    indexed by the number of runs. *)
Class MasterProtocol (b : AbstractDistributedBenchmark E F Msg) (meta : DeploymentMetaData)
    (valid : Msg -> Prop) (conf : string -> Prop) (good : list string -> Prop) := {
  configured : nat -> am_state b -> Prop;
  prepared : nat -> am_state b -> Prop;
  ran : nat -> am_state b -> Prop;
  mp_setup msg : valid msg -> exists m r, am_setup b (am_new b) msg meta = Some (m, r) /\
    forall s, r = inl s -> conf s /\ configured 0 m;
  mp_prepare i m ds : (i < MAX_RUNS)%nat -> configured i m -> good ds ->
    exists m', am_prepare b m ds = Some (m', inl tt) /\ prepared i m';
  mp_run i m : prepared i m -> exists m', am_run b m = Some m' /\ ran (i + 1) m';
  mp_cleanup i m t : ran i m -> exists m', am_cleanup b m false t = Some m' /\ configured i m';
  mp_cleanup_last i m t : ran i m -> is_Some (am_cleanup b m true t) }.

(** A client is set up by one of the configurations [conf], to which it answers with [data], and
    then prepared and cleaned up in turn. *)
Class ClientProtocol (b : AbstractDistributedBenchmark E F Msg) (conf : string -> Prop)
    (data : string -> string) := {
  idle : ac_state b -> Prop;
  active : ac_state b -> Prop;
  cp_setup s : conf s -> exists c, ac_setup b (ac_new b) s = Some (c, inl (data s)) /\ idle c;
  cp_prepare c : idle c -> exists c', ac_prepare b c = Some c' /\ active c';
  cp_cleanup c : active c -> exists c', ac_cleanup b c false = Some c' /\ idle c';
  cp_cleanup_last c : active c -> is_Some (ac_cleanup b c true) }.
End interfaces.

Section suite.
Context {E F Msg : Type}.
Context (rse_above : list F -> bool) (rse_message : list F -> nat -> string).
Context (debug : BenchmarkError E -> string) (unavailable : E).

Notation ADB := (AbstractDistributedBenchmark E F Msg).
Notation Net := (gmap (string * Z) (Process E F Msg)).

(** ** Calls *)

Lemma collect_inl {A B} (l : list (A + B)) l' :
  collect l = inl l' <-> l = map inl l'.
Proof.
  split.
  - revert l'. induction l as [|[a|e] l IH]; intros l' H; simpl in H; [by injection H as <-| |done].
    destruct (collect l) as [l1|e]; [|done]. injection H as <-. simpl. by rewrite (IH l1).
  - intros ->. induction l' as [|a l' IH]; [done|]. simpl. by rewrite IH.
Qed.

(** Processes are never replaced. *)
Definition same_factories (net' net : Net) : Prop :=
  forall a p', net' !! a = Some p' -> exists p, net !! a = Some p /\ benchmarks p' = benchmarks p.

Lemma same_factories_refl net : same_factories net net.
Proof. intros a p Hp. by exists p. Qed.

Lemma same_factories_trans n1 n2 n3 :
  same_factories n1 n2 -> same_factories n2 n3 -> same_factories n1 n3.
Proof.
  intros H12 H23 a p Hp. destruct (H12 a p Hp) as (q & Hq & ->). by destruct (H23 a q Hq) as (r & ? & ->); exists r.
Qed.

Lemma execute_factories {R : Type} net c (cmd : ClientCommand R) :
  same_factories (execute debug unavailable net c cmd).1 net.
Proof.
  unfold execute. destruct (net !! addr c) as [p|] eqn:Hp; [|apply same_factories_refl].
  assert (Hcase : same_factories (match handle_command debug (benchmarks p) (proc_state p) cmd with
    | None => (delete (addr c) net, inr unavailable)
    | Some (state, r) => (<[addr c := mkProcess (benchmarks p) state]> net, inl r) end).1 net).
  { destruct (handle_command _ _ _ _) as [[st r]|]; simpl.
    - intros a q Hq. rewrite lookup_insert_Some in Hq. destruct Hq as [[<- <-]|[_ Hq]]; eauto.
    - intros a q [_ Hq]%lookup_delete_Some. eauto. }
  destruct (proc_state p); try exact Hcase. apply same_factories_refl.
Qed.

Lemma call_factories {R : Type} net d c (cmd : ClientCommand R) :
  same_factories (call debug unavailable net d c cmd).1 net.
Proof. destruct d; simpl; [apply execute_factories|apply same_factories_refl|apply execute_factories]. Qed.

Lemma call_all_factories {R : Type} net d cs (cmd : ClientCommand R) :
  same_factories (call_all debug unavailable net d cs cmd).1 net /\
  length (call_all debug unavailable net d cs cmd).2 = length cs.
Proof.
  revert net d. induction cs as [|c cs IH]; intros net d; [split; [apply same_factories_refl|done]|].
  simpl. pose proof (call_factories net (d O) c cmd) as Hc.
  destruct (call _ _ net (d O) c cmd) as [net1 r]. simpl in Hc.
  destruct (IH net1 (fun i => d (S i))) as [H1 H2]. destruct (call_all _ _ net1 _ cs cmd) as [net2 rs].
  simpl in *. split; [by eapply same_factories_trans|by rewrite H2].
Qed.

(** What a client can answer to a set-up. *)
Definition answers (net : Net) (l s : string) (c : ClientEntry) (d : string) : Prop :=
  exists p b st, net !! addr c = Some p /\ by_label (benchmarks p) l = inl (Distributed b) /\
    ac_setup b (ac_new b) s = Some (st, inl d).

Lemma answers_factories net' net l s c d :
  same_factories net' net -> answers net' l s c d -> answers net l s c d.
Proof.
  intros Hf (p & b & st & Hp & Hb & Hs). destruct (Hf _ _ Hp) as (q & Hq & E1).
  exists q, b, st. by rewrite <- E1.
Qed.

Lemma call_setup net d c l s net' sr :
  call debug unavailable net d c (Setup l s) = (net', inl sr) -> success sr = true ->
  answers net l s c (data sr).
Proof.
  intros H Hok. assert (He : execute debug unavailable net c (Setup l s) = (net', inl sr)).
  { destruct d; [exact H|done|done]. }
  unfold execute in He. destruct (net !! addr c) as [p|] eqn:Hp; [|done].
  assert (Hh : exists st, handle_setup debug (benchmarks p) l s = Some (st, sr)).
  { simpl in He. destruct (proc_state p); try done;
      destruct (handle_setup debug (benchmarks p) l s) as [[st r]|]; try done;
      injection He as _ ->; by eexists. }
  destruct Hh as [st Hh]. unfold handle_setup in Hh. destruct (by_label _ l) as [[b|b]|e] eqn:Hb.
  - simpl in Hh. injection Hh as _ <-. done.
  - unfold active_bench_start in Hh. destruct (ac_setup b (ac_new b) s) as [[i [cd|e]]|] eqn:Hs; try done.
    + simpl in Hh. destruct (ac_prepare b i); [|done]. injection Hh as _ <-. simpl. by exists p, b, i.
    + injection Hh as _ <-. done.
  - simpl in Hh. injection Hh as _ <-. done.
Qed.

Lemma setup_responses net d l s cs net' rs client_data :
  call_all debug unavailable net d cs (Setup l s) = (net', rs) ->
  collect (zip_with setup_response cs rs) = inl client_data ->
  Forall2 (answers net l s) cs (map snd client_data) /\ map fst client_data = cs.
Proof.
  revert net d net' rs client_data. induction cs as [|c cs IH]; intros net d net' rs cd H Hc; simpl in H.
  - injection H as _ <-. injection Hc as <-. split; [constructor|done].
  - pose proof (call_factories net (d O) c (Setup l s)) as Hf.
    destruct (call _ _ net (d O) c _) as [net1 r] eqn:H1.
    destruct (call_all _ _ net1 _ cs _) as [net2 rs2] eqn:H2. injection H as <- <-.
    simpl in Hc. destruct r as [sr|e]; simpl in Hc; [|done].
    destruct (success sr) eqn:Hok; [|done].
    destruct (collect (zip_with _ cs rs2)) as [cd2|e] eqn:Hc2; [|done]. injection Hc as <-.
    destruct (IH _ _ _ _ _ H2 Hc2) as [Ha He]. simpl. split; [|by rewrite He].
    constructor; [by eapply call_setup|]. eapply Forall2_impl; [exact Ha|].
    intros c' d' Hd. by eapply answers_factories.
Qed.

(** ** The master is never stuck *)

Lemma is_final_spec (b : ADB) (it : DistributedIteration b) :
  is_final rse_above b it = true <-> (MAX_RUNS <= n_runs b it)%nat.
Proof.
  unfold is_final, MIN_RUNS, MAX_RUNS. destruct (Nat.ltb_spec (n_runs b it) 10); simpl; split; done || lia.
Qed.

Section master.
Context (b : ADB) (meta : DeploymentMetaData) (valid : Msg -> Prop) (conf : string -> Prop)
  (good : list string -> Prop) `{MasterProtocol E F Msg b meta valid conf good}.

Lemma prepare_and_run (o : Oracle E F) it :
  (n_runs b it < MAX_RUNS)%nat ->
  configured (n_runs b it) (it_master b it) -> good (map snd (client_data_l b it)) ->
  exists it1 it', it_prepare b it = Some it1 /\ it_run b (measured o) it1 = Some it' /\
    ran (n_runs b it') (it_master b it') /\
    client_data_l b it' = client_data_l b it /\ n_runs b it' = (n_runs b it + 1)%nat /\
    results b it' = (results b it ++ [measured o (n_runs b it)])%list.
Proof.
  intros Hn Hc Hg. destruct (mp_prepare _ _ _ Hn Hc Hg) as (m1 & Hm1 & Hp).
  destruct (mp_run _ _ Hp) as (m2 & Hm2 & Hr). eexists _, _. split_and!.
  - unfold it_prepare. by rewrite Hm1.
  - unfold it_run. simpl. by rewrite Hm2.
  - done.
  - done.
  - done.
  - done.
Qed.

(** The clean-up at the master. *)
Lemma master_cleaned it t :
  ran (n_runs b it) (it_master b it) ->
  exists m, am_cleanup b (it_master b it) (is_final rse_above b it) t = Some m /\
    (is_final rse_above b it = false -> configured (n_runs b it) m).
Proof.
  intros Hr. destruct (is_final rse_above b it).
  - destruct (mp_cleanup_last _ _ t Hr) as [m Hm]. by exists m.
  - destruct (mp_cleanup _ _ t Hr) as (m & Hm & Hc). by exists m.
Qed.

Lemma iterate_total (o : Oracle E F) : forall fuel net it,
  configured (n_runs b it) (it_master b it) -> good (map snd (client_data_l b it)) ->
  (n_runs b it < MAX_RUNS)%nat -> (MAX_RUNS <= n_runs b it + fuel)%nat ->
  exists st net' r, iterate rse_above debug unavailable b fuel o RUN net it = Some (st, net', r) /\
    same_factories net' net.
Proof.
  induction fuel as [|fuel IH]; intros net it Hc Hg Hn Hf; [lia|]. simpl.
  destruct (prepare_and_run o it Hn Hc Hg) as (it1 & it' & -> & Hpr & Hr & Hcd & Hnr & Hres).
  simpl. rewrite Hpr. simpl.
  unfold it_cleanup.
  assert (Hlast : last (results b it') = Some (measured o (n_runs b it))) by (by rewrite Hres, last_snoc).
  rewrite Hlast. simpl.
  destruct (master_cleaned it' (measured o (n_runs b it)) Hr) as (m & -> & Hm). simpl.
  destruct (call_all_factories net (deliver o (n_runs b it')) (map fst (client_data_l b it'))
    (Cleanup (is_final rse_above b it'))) as [Hfac _].
  destruct (call_all _ _ net _ _ _) as [net' rs]. simpl in Hfac |- *.
  destruct (collect rs) as [l|e]; [|by eexists _, _, _].
  destruct (is_final rse_above b it') eqn:Hfin; simpl; [by eexists _, _, _|].
  assert (Hlt : (n_runs b it' < MAX_RUNS)%nat).
  { destruct (Nat.lt_ge_cases (n_runs b it') MAX_RUNS) as [|Hge]; [done|].
    apply is_final_spec in Hge. congruence. }
  destruct (IH net' (mkIteration b m (client_data_l b it') (n_runs b it') (results b it')))
    as (st & net2 & r & Hit & Hfac2); simpl; [by apply Hm|by rewrite Hcd|done|lia|].
  exists st, net2, r. split; [exact Hit|by eapply same_factories_trans].
Qed.

Lemma run_distributed_total o cs net0 net msg :
  valid msg -> same_factories net net0 ->
  (forall s ds, conf s -> Forall2 (answers net0 (label b) s) cs ds -> good ds) ->
  exists st net' r,
    run_distributed rse_above debug unavailable b o READY cs meta net msg = Some (st, net', r) /\
    same_factories net' net.
Proof.
  intros Hv Hf Hg. unfold run_distributed. simpl.
  destruct (mp_setup _ Hv) as (m & r & -> & Hr). simpl.
  destruct r as [s|e]; [|eexists _, _, _; split; [done|apply same_factories_refl]].
  destruct (Hr s eq_refl) as [Hs Hc].
  pose proof (call_all_factories net (deliver o O) cs (Setup (label b) s)) as [Hfac _].
  destruct (call_all _ _ net _ cs _) as [net1 rs] eqn:Hcall. simpl in Hfac.
  destruct (collect (zip_with setup_response cs rs)) as [cd|e] eqn:Hcol; [|by eexists _, _, _].
  destruct (setup_responses _ _ _ _ _ _ _ _ Hcall Hcol) as [Ha _].
  destruct (iterate_total o (S MAX_RUNS) net1 (it_new b m cd)) as (st & net2 & r & Hit & Hf2);
    simpl; [done| |unfold MAX_RUNS; lia..|].
  { apply (Hg s); [done|]. eapply Forall2_impl; [exact Ha|]. intros c d Hd. by eapply answers_factories. }
  exists st, net2, r. split; [exact Hit|by eapply same_factories_trans].
Qed.
End master.

(** A request that the master of a benchmark with this protocol can serve, whichever clients
    answer. *)
Inductive well_behaved (net : Net) (m : BenchmarkMaster) : BenchRequest E F Msg -> Prop :=
| wb_local b msg : well_behaved net m (Invoke (Local b) msg)
| wb_distributed b msg valid conf good (P : MasterProtocol b (meta m) valid conf good) :
    valid msg ->
    (forall s ds, conf s -> Forall2 (answers net (label b) s) (clients m) ds -> good ds) ->
    well_behaved net m (Invoke (Distributed b) msg).

Lemma handler_total net0 net m o benchmark msg :
  state m = READY -> same_factories net net0 ->
  well_behaved net0 m (Invoke benchmark msg) ->
  exists net' a, bench_request_handler rse_above rse_message debug unavailable o m net benchmark msg =
    Some (set_state m READY, net', a) /\ same_factories net' net.
Proof.
  intros Hst Hf Hwb. unfold bench_request_handler.
  inversion Hwb as [b msg' Heq|b msg' valid conf good P Hv Hg Heq]; subst; simpl.
  - unfold run_local_benchmark. rewrite Hst. simpl. eexists _, _. split; [done|apply same_factories_refl].
  - unfold run_distributed_benchmark. rewrite Hst.
    destruct (run_distributed_total b (meta m) valid conf good o (clients m) net0 net msg Hv Hf Hg)
      as (st & net' & r & -> & Hf'). simpl. by eexists _, _.
Qed.


(** ** A benchmark on clients that answer *)

Section reliable.
Context (bench : ClientEntry -> ADB) (factory : ClientEntry -> BenchmarkFactory E F Msg)
  (conf : string -> Prop) (data_of : ClientEntry -> string -> string)
  (l : string) `{P : !forall c, ClientProtocol (bench c) conf (data_of c)}.

(** All calls of a round arrive, so every process makes its step. *)
Lemma call_all_reliable {R : Type} (cmd : ClientCommand R) (r : ClientEntry -> R)
    (Pre Post : ClientEntry -> Process E F Msg -> Prop) cs d :
  (forall i, d i = Delivered) -> NoDup (map addr cs) ->
  (forall c p, c ∈ cs -> Pre c p -> proc_state p <> Stopped /\
     exists st, handle_command debug (benchmarks p) (proc_state p) cmd = Some (st, r c) /\
       Post c (mkProcess (benchmarks p) st)) ->
  forall net, (forall c, c ∈ cs -> exists p, net !! addr c = Some p /\ Pre c p) ->
  exists net', call_all debug unavailable net d cs cmd = (net', map (fun c => inl (r c)) cs) /\
    (forall c, c ∈ cs -> exists p, net' !! addr c = Some p /\ Post c p) /\
    (forall a, a ∉ map addr cs -> net' !! a = net !! a).
Proof.
  intros Hd. revert d Hd. induction cs as [|c cs IH]; intros d Hd Hnd Hstep net Hpre; simpl.
  - exists net. split_and!; try done. by intros c ?%not_elem_of_nil.
  - apply NoDup_cons in Hnd as [Hc Hnd]. rewrite (Hd O). simpl.
    destruct (Hpre c (list_elem_of_here _ _)) as (p & Hp & Hpp).
    destruct (Hstep c p (list_elem_of_here _ _) Hpp) as (Hns & st & Hh & Hpost).
    assert (He : execute debug unavailable net c cmd =
      (<[addr c := mkProcess (benchmarks p) st]> net, inl (r c))).
    { unfold execute. rewrite Hp. destruct (proc_state p); try done; by rewrite Hh. }
    rewrite He.
    destruct (IH (fun i => d (S i)) (fun i => Hd (S i)) Hnd) with
      (net := <[addr c := mkProcess (benchmarks p) st]> net) as (net' & Hcall & Hall & Hout).
    { intros c' p' Hin. apply Hstep. by right. }
    { intros c' Hin. rewrite lookup_insert_ne; [apply Hpre; by right|].
      intros E1. apply Hc. rewrite E1. by apply list_elem_of_fmap_2. }
    rewrite Hcall. exists net'. split_and!; [done| |].
    + intros c' [->|Hin]%elem_of_cons; [|by apply Hall]. rewrite Hout by done.
      rewrite lookup_insert_eq. by eexists.
    + intros a Ha. apply not_elem_of_cons in Ha as [Ha1 Ha2]. rewrite Hout by done.
      by rewrite lookup_insert_ne.
Qed.

(** A process before and during the benchmark, and when it is over. *)
Definition waiting (c : ClientEntry) (p : Process E F Msg) : Prop :=
  benchmarks p = factory c /\ proc_state p <> Stopped.
Definition running (c : ClientEntry) (p : Process E F Msg) : Prop :=
  benchmarks p = factory c /\
  exists i, proc_state p = Running (mkActiveBench (bench c) i) /\ active (ClientProtocol := P c) i.
Definition over (c : ClientEntry) (p : Process E F Msg) : Prop :=
  benchmarks p = factory c /\ proc_state p = Ready.

Lemma setup_step s c p :
  conf s -> by_label (factory c) l = inl (Distributed (bench c)) -> waiting c p ->
  proc_state p <> Stopped /\ exists st,
    handle_command debug (benchmarks p) (proc_state p) (Setup l s) =
      Some (st, mkSetupResponse true (data_of c s)) /\ running c (mkProcess (benchmarks p) st).
Proof.
  intros Hs Hl [Hb Hst]. split; [done|]. simpl. unfold handle_setup. rewrite Hb, Hl.
  unfold active_bench_start. destruct (cp_setup (ClientProtocol := P c) s Hs) as (i & -> & Hi). simpl.
  destruct (cp_prepare (ClientProtocol := P c) i Hi) as (i' & -> & Hi'). simpl. eexists. split; [done|].
  split; [done|]. by exists i'.
Qed.

Lemma cleanup_step (final : bool) c p :
  running c p ->
  proc_state p <> Stopped /\ exists st,
    handle_command debug (benchmarks p) (proc_state p) (Cleanup final) = Some (st, tt) /\
    (if final then over else running) c (mkProcess (benchmarks p) st).
Proof.
  intros (Hb & i & Hst & Hi). rewrite Hst. split; [done|]. simpl. destruct final.
  - destruct (cp_cleanup_last (ClientProtocol := P c) i Hi) as [i' ->]. simpl. eexists. split; [done|]. by split.
  - destruct (cp_cleanup (ClientProtocol := P c) i Hi) as (i1 & -> & H1). simpl.
    destruct (cp_prepare (ClientProtocol := P c) i1 H1) as (i2 & -> & H2). simpl. eexists. split; [done|].
    split; [done|]. by exists i2.
Qed.

Section master.
Context (b : ADB) (meta : DeploymentMetaData) (valid : Msg -> Prop)
  (good : list string -> Prop) `{M : !MasterProtocol b meta valid conf good}.
Context (o : Oracle E F) (Hd : forall r i, deliver o r i = Delivered) (cs : list ClientEntry)
  (Hnd : NoDup (map addr cs)).

Lemma iterate_reliable : forall fuel net it,
  configured (n_runs b it) (it_master b it) -> good (map snd (client_data_l b it)) ->
  map fst (client_data_l b it) = cs ->
  (n_runs b it < MAX_RUNS)%nat -> (MAX_RUNS <= n_runs b it + fuel)%nat ->
  results b it = map (measured o) (seq 0 (n_runs b it)) ->
  (forall c, c ∈ cs -> exists p, net !! addr c = Some p /\ running c p) ->
  exists net', iterate rse_above debug unavailable b fuel o RUN net it =
      Some (FINISHED, net', inl (TestSuccess (Z.of_nat MAX_RUNS) (map (measured o) (seq 0 MAX_RUNS)))) /\
    (forall c, c ∈ cs -> exists p, net' !! addr c = Some p /\ over c p) /\
    (forall a, a ∉ map addr cs -> net' !! a = net !! a).
Proof.
  induction fuel as [|fuel IH]; intros net it Hc Hg Hcs Hn Hf Hres Hrun; [lia|]. simpl.
  destruct (prepare_and_run b meta valid conf good o it Hn Hc Hg) as (it1 & it' & -> & Hpr & Hr & Hcd & Hnr & Hres').
  simpl. rewrite Hpr. simpl.
  unfold it_cleanup.
  assert (Hlast : last (results b it') = Some (measured o (n_runs b it))) by (by rewrite Hres', last_snoc).
  rewrite Hlast. simpl.
  destruct (master_cleaned b meta valid conf good it' (measured o (n_runs b it)) Hr) as (m & -> & Hm). simpl.
  assert (Hall : results b it' = map (measured o) (seq 0 (n_runs b it'))).
  { rewrite Hres', Hres, Hnr, Nat.add_1_r, seq_S, map_app. done. }
  destruct (call_all_reliable (Cleanup (is_final rse_above b it')) (fun _ => tt) running
    (if is_final rse_above b it' then over else running) cs (deliver o (n_runs b it')) (Hd _) Hnd
    (fun c p _ => cleanup_step _ c p) net Hrun) as (net' & Hcall & Hpost & Hout).
  rewrite Hcd, Hcs, Hcall.
  rewrite (proj2 (collect_inl (map (fun _ => inl tt) cs) (map (fun _ => tt) cs))) by (by rewrite map_map).
  destruct (is_final rse_above b it') eqn:Hfin; simpl.
  - apply is_final_spec in Hfin. assert (E1 : n_runs b it' = MAX_RUNS) by lia.
    exists net'. split_and!; try done. rewrite Hall, E1. done.
  - assert (Hlt : (n_runs b it' < MAX_RUNS)%nat).
    { destruct (Nat.lt_ge_cases (n_runs b it') MAX_RUNS) as [|Hge]; [done|].
      apply is_final_spec in Hge. congruence. }
    destruct (IH net' (mkIteration b m (client_data_l b it) (n_runs b it') (results b it')))
      as (net2 & Hit & Hov & Hout2); simpl; [by apply Hm|done|done|done|lia|done|done|].
    exists net2. split; [exact Hit|]. split; [exact Hov|]. intros a Ha. rewrite Hout2 by done. by apply Hout.
Qed.
End master.
End reliable.

Lemma setup_accepted_all (f : ClientEntry -> string) cs :
  zip_with (setup_response (E := E)) cs (map (fun c => inl (mkSetupResponse true (f c))) cs) =
  map inl (map (fun c => (c, f c)) cs).
Proof. induction cs as [|c cs IH]; [done|]. simpl. by f_equal. Qed.

(** A benchmark on clients that answer runs to its end: if the master accepts the request,
    every registered client has its own address and a benchmark with the requested label, and
    no call is lost, the requester gets the times of exactly [MAX_RUNS] runs in order, whatever
    the clients did before and whatever the relative error is; every client, set up, prepared
    before every run and cleaned up after it, is ready again, and no other process is
    touched. *)
Theorem suite_completes_benchmark (b : ADB) m msg valid conf good
    (M : MasterProtocol b (meta m) valid conf good)
    (bench : ClientEntry -> ADB) (factory : ClientEntry -> BenchmarkFactory E F Msg)
    (data_of : ClientEntry -> string -> string)
    (P : forall c, ClientProtocol (bench c) conf (data_of c)) (o : Oracle E F) net bm s :
  state m = READY -> valid msg ->
  am_setup b (am_new b) msg (meta m) = Some (bm, inl s) ->
  (forall r i, deliver o r i = Delivered) -> NoDup (map addr (clients m)) ->
  (forall c, c ∈ clients m -> by_label (factory c) (label b) = inl (Distributed (bench c)) /\
     exists p, net !! addr c = Some p /\ waiting factory c p) ->
  good (map (fun c => data_of c s) (clients m)) ->
  exists net',
    bench_request_handler rse_above rse_message debug unavailable o m net (Distributed b) msg =
      Some (m, net', Answered (TestSuccess 10 (map (measured o) (seq 0 10)))) /\
    (forall c, c ∈ clients m -> exists p, net' !! addr c = Some p /\ over factory c p) /\
    (forall a, a ∉ map addr (clients m) -> net' !! a = net !! a).
Proof.
  intros Hst Hv Hset Hd Hnd Hcl Hg.
  assert (Hm : set_state m READY = m) by (destruct m; simpl in *; by subst).
  unfold bench_request_handler, run_distributed_benchmark, run_distributed. rewrite Hst. simpl.
  destruct (mp_setup msg Hv) as (bm' & r & Hset' & Hr). rewrite Hset in Hset'. injection Hset' as <- <-.
  destruct (Hr s eq_refl) as [Hs Hc]. rewrite Hset. simpl.
  destruct (call_all_reliable (Setup (label b) s) (fun c => mkSetupResponse true (data_of c s))
    (waiting factory) (running bench factory conf data_of (P := P)) (clients m) (deliver o O) (Hd _) Hnd) with (net := net)
    as (net1 & Hcall & Hrun & Hout1).
  { intros c p Hin. eapply setup_step; [exact Hs|]. by apply Hcl. }
  { intros c Hin. by apply Hcl. }
  rewrite Hcall.
  rewrite setup_accepted_all, (proj2 (collect_inl _ _) eq_refl). simpl.
  destruct (iterate_reliable bench factory conf data_of b (meta m) valid good o Hd (clients m) Hnd
    (S MAX_RUNS) net1 (it_new b bm (map (fun c => (c, data_of c s)) (clients m))))
    as (net2 & Hit & Hov & Hout2); simpl.
  - done.
  - by rewrite map_map.
  - rewrite map_map. apply map_id.
  - unfold MAX_RUNS. lia.
  - unfold MAX_RUNS. lia.
  - done.
  - done.
  - simpl in Hit. rewrite Hit. simpl. rewrite Hm. exists net2. split_and!; try done.
    intros a Ha. rewrite Hout2 by done. by apply Hout1.
Qed.
End suite.

(** ** Check-ins *)

(** A client checks in if one of its attempts is answered, and gives up otherwise. *)
Lemma checkin_loop_spec ok :
  checkin_loop MAX_ATTEMPTS O ok =
    Some (if existsb ok (seq 1 MAX_ATTEMPTS)
          then CheckedIn (E := unit) (F := unit) (Msg := unit) Ready else Exit).
Proof. simpl. by destruct (ok 1%nat), (ok 2%nat), (ok 3%nat), (ok 4%nat), (ok 5%nat). Qed.

Lemma await_check_ins_spec q m :
  state m = INIT -> Z.of_nat (length (clients m)) < wait_for m ->
  wait_for m <= Z.of_nat (length (clients m) + length q) ->
  exists k, Z.of_nat (length (clients m) + k) = wait_for m /\
    await_check_ins m q =
      Some (set_state (set_clients m (clients m ++ map client_info_to_entry (take k q))%list) READY,
            drop k q).
Proof.
  revert m. induction q as [|ci q IH]; intros m Hst Hlt Hle; simpl in Hle; [lia|]. simpl.
  rewrite decide_True by done. unfold check_in_handler. rewrite decide_True by done.
  simpl. rewrite length_app. simpl.
  destruct (Z.eqb_spec (Z.of_nat (length (clients m) + 1)) (wait_for m)) as [Hw|Hw].
  - rewrite Hst. simpl. exists 1%nat. split; [lia|]. by destruct q.
  - simpl. destruct (IH (set_clients m (clients m ++ [client_info_to_entry ci]))) as (k & Hk & Haw);
      simpl; [done|rewrite length_app; simpl; lia..|].
    rewrite Haw. exists (S k). simpl in *. rewrite length_app in Hk. simpl in Hk. split; [lia|].
    by rewrite <- app_assoc.
Qed.

(** The master is ready after as many check-ins as it waits for, and its clients are those that
    sent them, in order. *)
Theorem suite_ready w id q :
  1 <= w < 2 ^ 32 -> w <= Z.of_nat (length q) ->
  exists m, (r ← await_check_ins (new w id) q; start_meta r.1) = Some m /\ state m = READY /\
    clients m = map client_info_to_entry (take (Z.to_nat w) q) /\
    number_of_clients (meta m) = w.
Proof.
  intros Hw Hq. destruct (await_check_ins_spec q (new w id)) as (k & Hk & ->); simpl; [done|lia..|].
  simpl in Hk. unfold start_meta. simpl. rewrite length_map, length_take.
  assert (E1 : k = Z.to_nat w) by lia. subst k. rewrite (proj2 (Z.ltb_lt _ _)) by lia.
  eexists. split; [done|]. split; [done|]. split; [done|]. simpl. lia.
Qed.

(** ** Examples *)

(** A benchmark that panics when it is used out of order; its requests are numbers, of which
    the master accepts the positive ones. *)
Module SuiteExample.
Inductive phase := PNew | PConfigured | PPrepared | PRan.

Definition expect (p : phase) (cur next : phase) : option phase :=
  match p, cur with
  | PNew, PNew | PConfigured, PConfigured | PPrepared, PPrepared | PRan, PRan => Some next
  | _, _ => None
  end.

Definition counter : DistributedBenchmark string Z Z :=
  mkDistributedBenchmark Z string string phase phase "counter"
    PNew (fun z => inl z) PNew (fun s => inl s) (fun s => inl s) (fun s => s) (fun s => s)
    (fun p z _ => p ← expect PNew p PConfigured;
       Some (p, if 0 <? z then inl "go" else inr (InvalidTest "not positive")))
    (fun p _ => expect PConfigured p PPrepared)
    (fun p => expect PPrepared p PRan)
    (fun p last _ => expect PRan p (if last then PNew else PConfigured))
    (fun p s => p ← expect PNew p PConfigured; Some (p, s))
    (fun p => expect PConfigured p PPrepared)
    (fun p last => expect PPrepared p (if last then PNew else PConfigured)).

Definition bench := DistributedBenchmarkObject counter.
Definition factory := MixedFactory bench.

Lemma collect_inl_map (l : list string) :
  collect (map (inl (B := BenchmarkError string)) l) = inl l.
Proof. induction l as [|a l IH]; [done|]. simpl. by rewrite IH. Qed.

#[export] Instance counter_master meta :
  MasterProtocol bench meta (fun _ => True) (fun s => s = "go") (fun _ => True).
Proof.
  refine {| configured := fun _ (p : am_state bench) => p = PConfigured;
            prepared := fun _ (p : am_state bench) => p = PPrepared;
            ran := fun _ (p : am_state bench) => p = PRan |}.
  - intros z _. simpl. unfold master_object_setup. simpl. eexists _, _. split; [done|].
    intros s. destruct (0 <? z); intros [= <-]; done.
  - intros i m ds _ -> _. simpl. unfold master_object_prepare. simpl. rewrite collect_inl_map.
    by eexists.
  - intros i m ->. by eexists.
  - intros i m t ->. by eexists.
  - intros i m t ->. by eexists.
Defined.

#[export] Instance counter_client : ClientProtocol bench (fun s => s = "go") (fun s => s).
Proof.
  refine {| idle := fun p : ac_state bench => p = PConfigured;
            active := fun p : ac_state bench => p = PPrepared |}.
  - intros s _. by eexists.
  - intros c ->. by eexists.
  - intros c ->. by eexists.
  - intros c ->. by eexists.
Defined.

Definition above (l : list Z) : bool := true.
Definition message (l : list Z) (n : nat) : string := "".
Definition debug (e : BenchmarkError string) : string := "".
Definition entry (p : Z) : ClientEntry := mkClientEntry "host" p.
Definition master : BenchmarkMaster :=
  mkMaster 2 [entry 1; entry 2] READY (mkDeploymentMetaData 2 "run-1") "run-1".

(** The second client is still in an experiment that the master gave up. *)
Definition net : gmap (string * Z) (Process string Z Z) :=
  <[("host", 1) := mkProcess factory Ready]>
  (<[("host", 2) := mkProcess factory (Running (mkActiveBench bench PPrepared))]> ∅).
Definition reliable : Oracle string Z := mkOracle Z.of_nat (fun _ _ => Delivered).
(** The answer of the second client to the third clean-up is lost. *)
Definition lossy : Oracle string Z :=
  mkOracle Z.of_nat (fun r i => if (r =? 3)%nat && (i =? 1)%nat then ResponseLost "timeout" else Delivered).
End SuiteExample.


Lemma suite_completes_benchmark_witness :
  exists net',
    bench_request_handler SuiteExample.above SuiteExample.message SuiteExample.debug "unavailable"
      SuiteExample.reliable SuiteExample.master SuiteExample.net (Distributed SuiteExample.bench) 1 =
      Some (SuiteExample.master, net', Answered (TestSuccess 10 [0; 1; 2; 3; 4; 5; 6; 7; 8; 9])) /\
    (proc_state <$> net' !! ("host", 2)) = Some Ready.
Proof.
  destruct (suite_completes_benchmark SuiteExample.above SuiteExample.message SuiteExample.debug
    "unavailable" SuiteExample.bench SuiteExample.master 1 _ _ _ (SuiteExample.counter_master _)
    (fun _ => SuiteExample.bench) (fun _ => SuiteExample.factory) (fun _ s => s)
    (fun _ => SuiteExample.counter_client) SuiteExample.reliable SuiteExample.net
    SuiteExample.PConfigured "go") as (net' & H1 & H2 & _).
  - reflexivity.
  - exact I.
  - reflexivity.
  - reflexivity.
  - apply (bool_decide_unpack (NoDup (map addr (clients SuiteExample.master)))). vm_compute. exact I.
  - intros c Hc. split; [reflexivity|]. simpl in Hc.
    apply elem_of_cons in Hc as [->|[->|[]%not_elem_of_nil]%elem_of_cons];
      (eexists; split; [reflexivity|by split]).
  - exact I.
  - exists net'. split; [exact H1|].
    destruct (H2 (SuiteExample.entry 2)) as (p & Hp & _ & Hr); [by right; left|].
    simpl in Hp. unfold addr in Hp. simpl in Hp. rewrite Hp. simpl. by rewrite Hr.
Defined.

(** A check-in whose answer is lost is repeated, and counts twice: the master of two clients is
    ready with one. *)
Example repeated_check_in :
  option_map (fun r : BenchmarkMaster * list ClientInfo => (state r.1, map port (clients r.1)))
    (await_check_ins (new 2 "run-1") [mkClientInfo "host" 1; mkClientInfo "host" 1]) =
    Some (READY, [1; 1]).
Proof. reflexivity. Qed.

(** Such a client is set up once for the benchmark and panics at the second of its two last
    clean-ups, and the request is cancelled. *)
Example repeated_client_panics :
  option_map (fun r : BenchmarkMaster * gmap (string * Z) (Process string Z Z) * Answer Z =>
      (r.2, bool_decide (is_Some (r.1.2 !! ("host", 1)))))
    (bench_request_handler SuiteExample.above SuiteExample.message SuiteExample.debug "unavailable"
      SuiteExample.reliable (set_clients SuiteExample.master [SuiteExample.entry 1; SuiteExample.entry 1])
      SuiteExample.net (Distributed SuiteExample.bench) 1) =
    Some (Cancelled, false).
Proof. vm_compute. reflexivity. Qed.

(** A master that waits for no client is never ready. *)
Example no_clients :
  option_map (fun r : BenchmarkMaster * list ClientInfo => state r.1)
    (await_check_ins (new 0 "run-1") [mkClientInfo "host" 1; mkClientInfo "host" 2]) = Some INIT.
Proof. reflexivity. Qed.

(** What the master says against a request does not reach the requester. *)
Example refusal_cancelled :
  option_map snd
    (bench_request_handler SuiteExample.above SuiteExample.message SuiteExample.debug "unavailable"
      SuiteExample.reliable SuiteExample.master SuiteExample.net (Distributed SuiteExample.bench) 0) =
    Some Cancelled.
Proof. vm_compute. reflexivity. Qed.
