(* ===== verification/Experiment.v ===== *)
(** The master of the atomic broadcast benchmark ([benchmark_master.rs]): the validation of a
    request, the set-up of an experiment and the preparation of an iteration, with the
    parameter string by which a node learns its experiment ([benchmark_client.rs]) and the
    parts of [util.rs] that compute.

    Strings are ASCII.  Durations are in milliseconds.  The files of the configuration, the
    addresses of paths and the components of the middleware are arguments. *)

From Stdlib Require Import Strings.String Strings.Ascii.
From stdpp Require Import strings.
From S2P Require Import Prelude Wire Communicator MsgWire PaxosComp PartitioningActor.
From S2P Require Import Client ReconfigClient ExpText ExpResults Suite.

Import MsgWire PaxosComp ExpText.
Import Suite(BenchmarkError(..), DeploymentMetaData).
Import Results(Output(..), DateTimeText).

Open Scope string_scope.
Open Scope Z_scope.

Module Experiment.

(** ** Requests *)

(** The fields of the generated message. *)
Record AtomicBroadcastRequest := mkRequest {
  algorithm : string;
  number_of_nodes : Z;
  duration_secs : Z;
  concurrent_proposals : Z;
  reconfiguration : string;
  reconfig_policy : string;
  network_scenario : string;
  election_timeout_ms : Z }.

Definition RECONFIGURATION_PROPOSALS : Z := 20 * 1000000.
Definition WARMUP_DURATION : Z := 60000.
Definition SHORT_WARMUP_DURATION : Z := 1000.

Definition create_experiment_str (c : AtomicBroadcastRequest) : string :=
  algorithm c ++ "," ++ show (number_of_nodes c) ++ "," ++ show (concurrent_proposals c) ++ "," ++
  (show (duration_secs c / 60) ++ "min") ++ "," ++ reconfiguration c ++ "," ++
  reconfig_policy c ++ "," ++ network_scenario c ++ "," ++ (show (election_timeout_ms c) ++ "ms").

Definition create_metaresults_sub_dir (number_of_nodes concurrent_proposals : Z)
    (reconfiguration : string) : string :=
  show number_of_nodes ++ "-" ++ show concurrent_proposals ++ "-" ++ reconfiguration.

(** [from..to] *)
Definition range (from to : Z) : list Z := if from <? to then seqZ from (to - from) else [].

Definition get_reconfig_nodes {E : Type} (s : string) (n : Z) : option (list Z) + BenchmarkError E :=
  let s := to_lowercase s in
  if String.eqb s "off" then inl None
  else if String.eqb s "single" then inl (Some [n +u64 1])
  else if String.eqb s "majority" then
    let majority := n / 2 +u64 1 in
    inl (Some (range (n +u64 1) (n +u64 1 +u64 majority)))
  else inr (InvalidMessage "Got unknown reconfiguration parameter").

(** ** The master *)

(** Of the system, the latch, the components and the histogram only their presence matters. *)
Record t := mk {
  num_nodes : option Z;
  num_nodes_needed : option Z;
  exp_duration : option Z;
  concurrent : option Z;
  reconfig : option (ReconfigurationPolicy * list Z);
  scenario : option NetworkScenario;
  election_timeout : option Z;
  system : bool;
  finished_latch : bool;
  iteration_id : Z;
  client_comp : bool;
  reconfig_client_comp : bool;
  partitioning_actor : bool;
  latency_hist : bool;
  num_timed_out : list Z;
  num_retried : list Z;
  experiment_str : option string;
  meta_results_path : option string;
  meta_results_sub_dir : option string;
  lagging_delay_ms : Z }.

Definition new : t :=
  mk None None None None None None None false false 0 false false false false [] [] None None None 0.

Definition set_num_nodes_needed (m : t) (x : option Z) : t :=
  mk (num_nodes m) x (exp_duration m) (concurrent m) (reconfig m) (scenario m)
     (election_timeout m) (system m) (finished_latch m) (iteration_id m) (client_comp m)
     (reconfig_client_comp m) (partitioning_actor m) (latency_hist m) (num_timed_out m)
     (num_retried m) (experiment_str m) (meta_results_path m) (meta_results_sub_dir m)
     (lagging_delay_ms m).

Definition set_reconfig (m : t) (x : option (ReconfigurationPolicy * list Z)) : t :=
  mk (num_nodes m) (num_nodes_needed m) (exp_duration m) (concurrent m) x (scenario m)
     (election_timeout m) (system m) (finished_latch m) (iteration_id m) (client_comp m)
     (reconfig_client_comp m) (partitioning_actor m) (latency_hist m) (num_timed_out m)
     (num_retried m) (experiment_str m) (meta_results_path m) (meta_results_sub_dir m)
     (lagging_delay_ms m).

Definition set_scenario (m : t) (x : option NetworkScenario) : t :=
  mk (num_nodes m) (num_nodes_needed m) (exp_duration m) (concurrent m) (reconfig m) x
     (election_timeout m) (system m) (finished_latch m) (iteration_id m) (client_comp m)
     (reconfig_client_comp m) (partitioning_actor m) (latency_hist m) (num_timed_out m)
     (num_retried m) (experiment_str m) (meta_results_path m) (meta_results_sub_dir m)
     (lagging_delay_ms m).

Definition set_system (m : t) (x : bool) : t :=
  mk (num_nodes m) (num_nodes_needed m) (exp_duration m) (concurrent m) (reconfig m) (scenario m)
     (election_timeout m) x (finished_latch m) (iteration_id m) (client_comp m)
     (reconfig_client_comp m) (partitioning_actor m) (latency_hist m) (num_timed_out m)
     (num_retried m) (experiment_str m) (meta_results_path m) (meta_results_sub_dir m)
     (lagging_delay_ms m).

Definition set_finished_latch (m : t) (x : bool) : t :=
  mk (num_nodes m) (num_nodes_needed m) (exp_duration m) (concurrent m) (reconfig m) (scenario m)
     (election_timeout m) (system m) x (iteration_id m) (client_comp m) (reconfig_client_comp m)
     (partitioning_actor m) (latency_hist m) (num_timed_out m) (num_retried m) (experiment_str m)
     (meta_results_path m) (meta_results_sub_dir m) (lagging_delay_ms m).

Definition set_iteration_id (m : t) (x : Z) : t :=
  mk (num_nodes m) (num_nodes_needed m) (exp_duration m) (concurrent m) (reconfig m) (scenario m)
     (election_timeout m) (system m) (finished_latch m) x (client_comp m) (reconfig_client_comp m)
     (partitioning_actor m) (latency_hist m) (num_timed_out m) (num_retried m) (experiment_str m)
     (meta_results_path m) (meta_results_sub_dir m) (lagging_delay_ms m).

Definition set_clients (m : t) (x y : bool) : t :=
  mk (num_nodes m) (num_nodes_needed m) (exp_duration m) (concurrent m) (reconfig m) (scenario m)
     (election_timeout m) (system m) (finished_latch m) (iteration_id m) x y
     (partitioning_actor m) (latency_hist m) (num_timed_out m) (num_retried m) (experiment_str m)
     (meta_results_path m) (meta_results_sub_dir m) (lagging_delay_ms m).

Definition set_partitioning_actor (m : t) (x : bool) : t :=
  mk (num_nodes m) (num_nodes_needed m) (exp_duration m) (concurrent m) (reconfig m) (scenario m)
     (election_timeout m) (system m) (finished_latch m) (iteration_id m) (client_comp m)
     (reconfig_client_comp m) x (latency_hist m) (num_timed_out m) (num_retried m)
     (experiment_str m) (meta_results_path m) (meta_results_sub_dir m) (lagging_delay_ms m).

Definition set_latency_hist (m : t) (x : bool) : t :=
  mk (num_nodes m) (num_nodes_needed m) (exp_duration m) (concurrent m) (reconfig m) (scenario m)
     (election_timeout m) (system m) (finished_latch m) (iteration_id m) (client_comp m)
     (reconfig_client_comp m) (partitioning_actor m) x (num_timed_out m) (num_retried m)
     (experiment_str m) (meta_results_path m) (meta_results_sub_dir m) (lagging_delay_ms m).

Definition set_counts (m : t) (x y : list Z) : t :=
  mk (num_nodes m) (num_nodes_needed m) (exp_duration m) (concurrent m) (reconfig m) (scenario m)
     (election_timeout m) (system m) (finished_latch m) (iteration_id m) (client_comp m)
     (reconfig_client_comp m) (partitioning_actor m) (latency_hist m) x y (experiment_str m)
     (meta_results_path m) (meta_results_sub_dir m) (lagging_delay_ms m).

(** *** Validation *)

Section validation.
Context {E : Type}.

Definition known_algorithm (a : string) : bool :=
  existsb (String.eqb a) ["paxos"; "raft"; "vr"; "multi-paxos"; "raft_pv_qc"].

Definition not_enough (num_clients required : Z) : BenchmarkError E :=
  InvalidTest ("Not enough clients: " ++ show num_clients ++ ", Required: " ++ show required).

Definition parse_policy (s : string) : option ReconfigurationPolicy :=
  if String.eqb s "replace-follower" then Some ReplaceFollower
  else if String.eqb s "replace-leader" then Some ReplaceLeader
  else None.

(** A validation returns the state and the error, if there is one. *)
Definition validate_reconfiguration (m : t) (c : AtomicBroadcastRequest) (num_clients : Z)
    : t * option (BenchmarkError E) :=
  let s := to_lowercase (reconfiguration c) in
  if String.eqb s "off" then
    let m := set_num_nodes_needed m (Some (number_of_nodes c)) in
    if String.eqb (to_lowercase (reconfig_policy c)) "none" then (m, None)
    else (m, Some (InvalidTest
      ("Reconfiguration is off, transfer policy should be none, but found: " ++
       reconfig_policy c)))
  else if String.eqb s "single" || String.eqb s "majority" then
    if String.eqb (to_lowercase (algorithm c)) "multi-paxos" then
      (m, Some (InvalidTest ("Reconfiguration is not implemented for: " ++ algorithm c)))
    else
      match parse_policy (to_lowercase (reconfig_policy c)) with
      | None =>
          (m, Some (InvalidTest
            ("Unimplemented reconfiguration policy: " ++ reconfig_policy c)))
      | Some policy =>
          match get_reconfig_nodes (reconfiguration c) (number_of_nodes c) with
          | inr e => (m, Some e)
          | inl reconfig =>
              let additional_n :=
                match reconfig with Some r => Z.of_nat (length r) | None => 0 end in
              let n := number_of_nodes c +u64 additional_n in
              if num_clients <? n then (m, Some (not_enough num_clients n))
              else
                let m := set_reconfig m ((fun r => (policy, r)) <$> reconfig) in
                (set_num_nodes_needed m (Some n), None)
          end
      end
  else (m, Some (InvalidTest ("Unimplemented reconfiguration: " ++ reconfiguration c))).

Definition unimplemented_scenario (c : AtomicBroadcastRequest) : BenchmarkError E :=
  InvalidTest ("Unimplemented network scenario for " ++ show (number_of_nodes c) ++
               " nodes: " ++ network_scenario c).

(** The duration is in seconds. *)
Definition parse_scenario (c : AtomicBroadcastRequest) : NetworkScenario + BenchmarkError E :=
  let str := to_lowercase (network_scenario c) in
  if String.eqb str "fully_connected" then inl FullyConnected
  else
    match split "-" str with
    | [name; secs] =>
        match parse_u64 secs with
        | None => inr (InvalidTest
            ("Invalid duration for network scenario " ++ network_scenario c))
        | Some d =>
            let duration := d * 1000 in
            if String.eqb name "quorum_loss" && (number_of_nodes c =? 5)
            then inl (QuorumLoss duration)
            else if String.eqb name "constrained_election" && (number_of_nodes c =? 5)
            then inl (ConstrainedElection duration)
            else if String.eqb name "chained" && (number_of_nodes c =? 3)
            then inl (Chained duration)
            else if String.eqb name "periodic_full" then inl (PeriodicFull duration)
            else inr (unimplemented_scenario c)
        end
    | _ => inr (unimplemented_scenario c)
    end.

Definition validate_experiment_params (m : t) (c : AtomicBroadcastRequest) (num_clients : Z)
    : t * option (BenchmarkError E) :=
  if num_clients <? number_of_nodes c then (m, Some (not_enough num_clients (number_of_nodes c)))
  else if negb (known_algorithm (to_lowercase (algorithm c))) then
    (m, Some (InvalidTest
      ("Unimplemented atomic broadcast algorithm: " ++ algorithm c)))
  else
    match validate_reconfiguration m c num_clients with
    | (m, Some e) => (m, Some e)
    | (m, None) =>
        match parse_scenario c with
        | inr e => (m, Some e)
        | inl network_scenario => (set_scenario m (Some network_scenario), None)
        end
    end.

End validation.

(** *** Parameters for the nodes *)

Record ClientParamsDeser := mkClientParamsDeser {
  cp_algorithm : string;
  cp_num_nodes : Z;
  cp_concurrent_proposals : Z;
  cp_is_reconfig_exp : bool;
  cp_election_timeout_ms : Z;
  cp_run_id : string;
  cp_scenario : string }.

Definition client_params (c : ClientParamsDeser) (reconfig : string) : string :=
  cp_algorithm c ++ "," ++ show (cp_num_nodes c) ++ "," ++ show (cp_concurrent_proposals c) ++
  "," ++ reconfig ++ "," ++ show (cp_election_timeout_ms c) ++ "," ++ cp_run_id c ++ "," ++
  cp_scenario c.

(** [None] is a panic. *)
Definition get_deser_clientparams_and_subdir (s : string) : option (ClientParamsDeser * string) :=
  match split "," s with
  | [algorithm; nodes; proposals; reconfig; timeout; run_id; scenario] =>
      num_nodes ← parse_u64 nodes;
      concurrent_proposals ← parse_u64 proposals;
      let reconfig := to_lowercase reconfig in
      is_reconfig_exp ←
        (if String.eqb reconfig "off" then Some false
         else if String.eqb reconfig "single" || String.eqb reconfig "majority" then Some true
         else None);
      election_timeout_ms ← parse_u64 (before_ms timeout);
      Some (mkClientParamsDeser (to_lowercase algorithm) num_nodes concurrent_proposals
              is_reconfig_exp election_timeout_ms run_id (to_lowercase scenario),
            create_metaresults_sub_dir num_nodes concurrent_proposals reconfig)
  | _ => None
  end.

(** Which replica a node creates ([AtomicBroadcastClient::setup]). *)
Inductive ReplicaKind :=
| KPaxos (le : LeaderElection)
| KMultiPaxos
| KRaft (pv_qc : bool).

Definition choose_replica (params : ClientParamsDeser) (experiment_str : string)
    : option ReplicaKind :=
  let a := cp_algorithm params in
  if String.eqb a "paxos" || String.eqb a "vr" then
    Some (KPaxos (if String.eqb a "vr" then VR else BLE))
  else if String.eqb a "multi-paxos" then
    Some (if contains "constrained" experiment_str || contains "chained" experiment_str
          then KPaxos MultiPaxos else KMultiPaxos)
  else if String.eqb a "raft" || String.eqb a "raft_pv_qc" then
    Some (KRaft (String.eqb a "raft_pv_qc"))
  else None.

(** The replica that a node sets up from the string it is sent. *)
Definition client_setup (experiment_str : string) : option ReplicaKind :=
  '(params, _) ← get_deser_clientparams_and_subdir experiment_str;
  choose_replica params experiment_str.

(** *** Set-up *)

Definition experiment_duration (c : AtomicBroadcastRequest) (s : NetworkScenario) : Z * Z :=
  match s with
  | Chained d | QuorumLoss d => (d, 0)
  | ConstrainedElection d =>
      let duration_ms := d mod 2 ^ 64 in
      let lagging_delay_ms := election_timeout_ms c / LAGGING_DELAY_FACTOR in
      (duration_ms +u64 lagging_delay_ms, lagging_delay_ms)
  | _ => (duration_secs c * 1000, 0)
  end.

Definition setup {E : Type} (m : t) (c : AtomicBroadcastRequest) (meta : DeploymentMetaData)
    : option (t * (string + BenchmarkError E)) :=
  match validate_experiment_params m c (Suite.number_of_clients meta) with
  | (m, Some e) => Some (m, inr e)
  | (m, None) =>
      s ← scenario m;
      let '(duration, lagging) := experiment_duration c s in
      let lagging := match s with ConstrainedElection _ => lagging | _ => lagging_delay_ms m end in
      let m := mk (Some (number_of_nodes c)) (num_nodes_needed m) (Some duration)
                  (Some (concurrent_proposals c)) (reconfig m) (scenario m)
                  (Some (election_timeout_ms c)) true (finished_latch m) (iteration_id m)
                  (client_comp m) (reconfig_client_comp m) (partitioning_actor m)
                  (if concurrent_proposals c =? 1 then true else latency_hist m)
                  (num_timed_out m) (num_retried m) (Some (create_experiment_str c))
                  (Some ("../meta_results/" ++ Suite.run_id meta ++ "/"))
                  (Some (create_metaresults_sub_dir (number_of_nodes c) (concurrent_proposals c)
                           (reconfiguration c)))
                  lagging in
      let cpd := mkClientParamsDeser (algorithm c) (number_of_nodes c) (concurrent_proposals c)
                   (bool_decide (is_Some (reconfig m))) (election_timeout_ms c) (Suite.run_id meta)
                   (network_scenario c) in
      Some (m, inl (client_params cpd (reconfiguration c)))
  end.

(** *** Iterations *)

Definition whitespace (c : ascii) : bool :=
  let n := nat_of_ascii c in (n =? 32)%nat || ((9 <=? n)%nat && (n <=? 13)%nat).

Fixpoint trim_start (s : string) : string :=
  match s with
  | EmptyString => EmptyString
  | String c s' => if whitespace c then trim_start s' else s
  end.

Definition rev_string (s : string) : string :=
  string_of_list_ascii (rev (list_ascii_of_string s)).

Definition trim (s : string) : string := rev_string (trim_start (rev_string (trim_start s))).

(** [s.parse::<u32>().ok()] *)
Definition parse_u32 (s : string) : option Z :=
  v ← parse_u64 s; if v <? 2 ^ 32 then Some v else None.

(** The lines [<ip> | <path> | <id>] of the file; [None] is a failed [assert_eq!]. *)
Definition ip_pid_map (lines : list string) : option (gmap string Z) :=
  foldl (fun acc l =>
    ip_pids ← acc;
    match split "|" l with
    | [ip; _; id] => pid ← parse_u32 (trim id); Some (<[trim ip := pid]> ip_pids)
    | _ => None
    end) (Some ∅) lines.

Section iteration.
Context `{Latch} `{PathSer}.

(** [node.address().to_string()] *)
Context (address : Path -> string).

Definition load_pid_map (lines : list string) (nodes : list Path) : option (gmap Path Z) :=
  ip_pids ← ip_pid_map lines;
  foldl (fun acc node =>
    ap_pids ← acc;
    pid ← ip_pids !! address node;
    Some (<[node := pid]> ap_pids)) (Some ∅) nodes.

(** What the configuration files hold. *)
Record Config := mkConfig {
  client_timeout : Z;
  preloaded_log_size : Z;
  client_timeout_factor : Z;
  nodes_conf : list string }.

(** The nodes of the iteration by their pid. *)
Definition nodes_by_id (pid_map : gmap Path Z) (num_nodes_needed : Z) : gmap Z Path :=
  foldl (fun nodes_id (kv : Path * Z) => <[kv.2 := kv.1]> nodes_id) ∅
    (filter (fun kv : Path * Z => kv.2 <= as_u32 num_nodes_needed) (map_to_list pid_map)).

Definition is_test_run (m : t) : bool :=
  (default 0 (num_nodes m) =? 3) && (default 0 (concurrent m) =? 200) &&
  bool_decide (scenario m = Some FullyConnected) && (default 0 (exp_duration m) =? 10 * 1000).

Definition create_client (m : t) (nodes_id : list (Z * Path)) (network_scenario : NetworkScenario)
    (client_timeout short_timeout : Z) : option Client.t :=
  num_nodes ← num_nodes m;
  exp_duration ← exp_duration m;
  concurrent_proposals ← concurrent m;
  Some (Client.with_ (Client.inclusive_range 1 num_nodes) exp_duration concurrent_proposals nodes_id
          network_scenario (reconfig m) client_timeout short_timeout (lagging_delay_ms m)
          (if is_test_run m then SHORT_WARMUP_DURATION else WARMUP_DURATION)).

Definition create_reconfig_client (m : t) (nodes_id : list (Z * Path))
    (client_timeout preloaded_log_size : Z) : option ReconfigClient.t :=
  num_nodes ← num_nodes m;
  concurrent_proposals ← concurrent m;
  Some (ReconfigClient.with_ (Client.inclusive_range 1 num_nodes) RECONFIGURATION_PROPOSALS
          concurrent_proposals nodes_id (reconfig m) client_timeout preloaded_log_size).

(** At least 25 ms; [None] is the division by zero. *)
Definition short_timeout_of (m : t) (cfg : Config) : option Z :=
  if bool_decide (scenario m = Some FullyConnected) then Some (client_timeout cfg)
  else
    election_timeout_ms ← election_timeout m;
    if client_timeout_factor cfg =? 0 then None
    else
      let short_timeout_ms := election_timeout_ms / client_timeout_factor cfg in
      Some (if short_timeout_ms <? 25 then 25 else short_timeout_ms).

(** What an iteration starts with: its client, the partitioning actor and what the master
    tells it, [Run] after its prepare latch opened. *)
Record Iteration := mkIteration {
  it_client : Client.t + ReconfigClient.t;
  it_actor : PartitioningActor.t;
  it_messages : list PartitioningActor.IterationControlMsg }.

Definition initialise_iteration (m : t) (nodes : list Path) (client : Path)
    (pid_map : option (list (Path * Z)))
    : PartitioningActor.t * list PartitioningActor.IterationControlMsg :=
  (PartitioningActor.with_ (latch_new 1) None (iteration_id m) nodes pid_map false,
   [PartitioningActor.Prepare (Some (put_path client))]).

(** The alias under which the client is registered. *)
Definition client_alias (m : t) : string :=
  match reconfig m with
  | None => "client" ++ show (iteration_id m)
  | Some _ => "reconfig_client" ++ show (iteration_id m)
  end.

(** [here] makes the path of an alias at the system of the master.  The master waits for the
    warm-up at the end, which is the client's. *)
Definition prepare_iteration (m : t) (cfg : Config) (here : string -> Path) (d : list Path)
    : option (t * Iteration) :=
  if system m then
  let m := set_finished_latch m true in
  let m := set_iteration_id m (iteration_id m +u32 1) in
  num_nodes_needed ← num_nodes_needed m;
  pid_map ← load_pid_map (nodes_conf cfg) d;
  let nodes_id := nodes_by_id pid_map num_nodes_needed in
  nodes ← mapM (fun i => nodes_id !! i) (Client.inclusive_range 1 num_nodes_needed);
  let ids := map_to_list nodes_id in
  '(m, client) ←
    match reconfig m with
    | None =>
        short_timeout ← short_timeout_of m cfg;
        network_scenario ← scenario m;
        c ← create_client m ids network_scenario (client_timeout cfg) short_timeout;
        Some (set_clients m true (reconfig_client_comp m), inl c)
    | Some _ =>
        c ← create_reconfig_client m ids (client_timeout cfg) (preloaded_log_size cfg);
        Some (set_clients m (client_comp m) true, inr c)
    end;
  let '(actor, msgs) := initialise_iteration m nodes (here (client_alias m)) (Some (map_to_list pid_map)) in
  Some (set_partitioning_actor m true,
        mkIteration client actor (msgs ++ [PartitioningActor.Run]))
  else None.

End iteration.

(** The client of the experiment, which is told to run and later to stop. *)
Definition the_client (m : t) : bool :=
  match reconfig m with None => client_comp m | Some _ => reconfig_client_comp m end.

(** Tells the client to run, and waits for it. *)
Definition run_iteration (m : t) : option t :=
  if the_client m && finished_latch m then Some (set_finished_latch m false) else None.

(** ** The end of an iteration *)

Definition get_meta_results_dir (m : t) (results_type : string) : option string :=
  meta ← meta_results_path m;
  sub_dir ← meta_results_sub_dir m;
  Some (meta ++ "/" ++ sub_dir ++ "/" ++ results_type).

(** What is written of the results of an iteration.  Without [track_timestamps] the client has no
    timestamps. *)
Definition persist_meta_results `{DateTimeText} (m : t) (r : MetaResults) : option (list Output) :=
  experiment_str ← experiment_str m;
  windowed_dir ← get_meta_results_dir m "windowed";
  let windowed :=
    Results.persist_windowed_results windowed_dir experiment_str (mr_windowed_results r) in
  num_decided_dir ← get_meta_results_dir m "num_decided";
  let num_decided :=
    Results.persist_num_decided_results num_decided_dir experiment_str (mr_num_decided r)
      (mr_num_warmup_decided r) ((fun lc => lc.2.1) <$> head (mr_leader_changes r)) in
  s ← scenario m;
  longest_down_time ←
    (if bool_decide (s = FullyConnected) then Some []
     else dir ← get_meta_results_dir m "longest_down_time";
          Some (Results.persist_longest_down_time_results dir experiment_str
                  (mr_longest_down_time r)));
  latencies ←
    (if bool_decide (concurrent m = Some 1) then
       _ ← get_meta_results_dir m "latency";
       if latency_hist m then Some (Results.persist_latency_results (mr_latencies r)) else None
     else Some []);
  timestamps ←
    (if bool_decide (is_Some (mr_reconfig_ts r)) || bool_decide (mr_leader_changes r <> []) then
       dir ← get_meta_results_dir m "timestamps";
       Some (Results.persist_timestamp_results dir experiment_str [] (mr_leader_changes r)
               (mr_reconfig_ts r))
     else Some []);
  Some (windowed ++ num_decided ++ longest_down_time ++ latencies ++ timestamps)%list.

Definition persist_meta_summary_results (m : t) : option (t * list Output) :=
  meta_path ← meta_results_path m;
  experiment_str ← experiment_str m;
  let timed_out := num_timed_out m in
  let retried := num_retried m in
  let m := set_counts m [] [] in
  summary ← Results.persist_timeouts_retried_summary meta_path experiment_str timed_out retried
              (iteration_id m);
  if bool_decide (concurrent m = Some 1) then
    latency_dir ← get_meta_results_dir m "latency";
    if latency_hist m then
      Some (set_latency_hist m false,
            (summary ++ Results.persist_latency_summary latency_dir experiment_str)%list)
    else None
  else Some (m, summary).

Definition kill_client (m : t) : option t :=
  if system m && the_client m then
    Some (match reconfig m with
          | None => set_clients m false (reconfig_client_comp m)
          | Some _ => set_clients m (client_comp m) false
          end)
  else None.

Definition kill_partitioning_component (m : t) : option t :=
  if system m then Some (set_partitioning_actor m false) else None.

Definition clear_state (m : t) : t :=
  mk None None None None None None None (system m) (finished_latch m) 0 (client_comp m)
     (reconfig_client_comp m) (partitioning_actor m) false [] [] None None None 0.

(** [r] is what the client answers to the stop. *)
Definition cleanup_iteration `{DateTimeText} (m : t) (r : MetaResults) (last_iteration : bool)
    : option (t * list Output) :=
  if the_client m then
    let m := set_counts m (num_timed_out m ++ [mr_num_timed_out r])
                          (num_retried m ++ [mr_num_retried r]) in
    files ← persist_meta_results m r;
    m ← kill_client m;
    m ← kill_partitioning_component m;
    if last_iteration then
      '(m, summary) ← persist_meta_summary_results m;
      let m := clear_state m in
      if system m then Some (set_system m false, (files ++ summary)%list) else None
    else Some (m, files)
  else None.
End Experiment.
