(* ===== verification/ExperimentThm.v ===== *)
(** What a validated experiment guarantees ([benchmark_master.rs]).

    The nodes read their parameters back from the string that the master sends; a validated
    reconfiguration can be carried out by the replicas; and a prepared iteration has its
    nodes in the order of their pids, all of which the client and the partitioning actor
    know. *)

From Stdlib Require Import Strings.String Strings.Ascii.
From stdpp Require Import strings.
From S2P Require Import Prelude Wire Communicator MsgWire PaxosComp PartitioningActor.
From S2P Require Import Client ClientThm ReconfigClient ReconfigClientThm ExpText ExpResults.
From S2P Require Import Suite Experiment.

Import MsgWire PaxosComp ExpText Experiment.
Import Suite(BenchmarkError(..), DeploymentMetaData(..)).
Import Results(DateTimeText).

Open Scope string_scope.
Open Scope Z_scope.

(** ** Validation *)

Section validation.
Context {G : Type}.

(** The nodes of an experiment with [n] nodes initially. *)
Definition reconfig_of (s : string) (n : Z) : option (list Z) :=
  if String.eqb s "single" then Some [n + 1]
  else if String.eqb s "majority" then Some (seqZ (n + 1) (n / 2 + 1))
  else None.

Lemma seqZ_app_length n : 0 <= n -> Z.of_nat (length (seqZ (n + 1) (n / 2 + 1))) = n / 2 + 1.
Proof. intros Hn. rewrite length_seqZ. pose proof (Z.div_pos n 2). lia. Qed.

Lemma get_reconfig_nodes_spec s n :
  0 <= n -> n + (n / 2 + 1) + 1 < 2 ^ 64 ->
  to_lowercase s = "single" \/ to_lowercase s = "majority" ->
  get_reconfig_nodes (E := G) s n = inl (reconfig_of (to_lowercase s) n).
Proof.
  intros Hn Hfit Hs. pose proof (Z.div_pos n 2 Hn ltac:(lia)).
  unfold get_reconfig_nodes, reconfig_of. destruct Hs as [-> | ->]; simpl.
  - unfold u64_add. by rewrite Z.mod_small by lia.
  - unfold u64_add, range. rewrite !(Z.mod_small (n + 1)), (Z.mod_small (n / 2 + 1)) by lia.
    rewrite Z.mod_small by lia. rewrite (proj2 (Z.ltb_lt _ _)) by lia. do 3 f_equal. lia.
Qed.

(** A request that was accepted. *)
Record accepted (c : AtomicBroadcastRequest) (k : Z) (m : t) : Prop := {
  ac_enough : number_of_nodes c <= k;
  ac_algorithm : known_algorithm (to_lowercase (algorithm c)) = true;
  ac_reconfiguration :
    (to_lowercase (reconfiguration c) = "off" /\ reconfig m = None /\
     num_nodes_needed m = Some (number_of_nodes c)) \/
    ((to_lowercase (reconfiguration c) = "single" \/
      to_lowercase (reconfiguration c) = "majority") /\
     exists policy new, reconfig m = Some (policy, new) /\
       get_reconfig_nodes (E := G) (reconfiguration c) (number_of_nodes c) = inl (Some new) /\
       num_nodes_needed m = Some (number_of_nodes c +u64 Z.of_nat (length new)) /\
       number_of_nodes c +u64 Z.of_nat (length new) <= k);
  ac_scenario : exists s, parse_scenario (E := G) c = inl s /\ scenario m = Some s }.

Lemma eqb_true s1 s2 : String.eqb s1 s2 = true -> s1 = s2.
Proof. by intros ?%String.eqb_eq. Qed.

Lemma validate_accepted c k m :
  validate_experiment_params (E := G) new c k = (m, None) -> accepted c k m.
Proof.
  intros H. unfold validate_experiment_params in H.
  destruct (Z.ltb_spec k (number_of_nodes c)) as [|Hk]; [done|].
  destruct (known_algorithm (to_lowercase (algorithm c))) eqn:Ha; [|done]. simpl in H.
  destruct (validate_reconfiguration new c k) as [m1 [e|]] eqn:Hv; [done|].
  destruct (parse_scenario c) as [s|e] eqn:Hs; [|done]. injection H as <-.
  assert (Hrec : (to_lowercase (reconfiguration c) = "off" /\ reconfig m1 = None /\
     num_nodes_needed m1 = Some (number_of_nodes c)) \/
    ((to_lowercase (reconfiguration c) = "single" \/
      to_lowercase (reconfiguration c) = "majority") /\
     exists policy new, reconfig m1 = Some (policy, new) /\
       get_reconfig_nodes (E := G) (reconfiguration c) (number_of_nodes c) = inl (Some new) /\
       num_nodes_needed m1 = Some (number_of_nodes c +u64 Z.of_nat (length new)) /\
       number_of_nodes c +u64 Z.of_nat (length new) <= k)).
  { unfold validate_reconfiguration in Hv.
    destruct (String.eqb (to_lowercase (reconfiguration c)) "off") eqn:E1.
    - apply eqb_true in E1. destruct (String.eqb _ "none"); [|done]. injection Hv as <-. by left.
    - destruct (String.eqb _ "single" || String.eqb _ "majority") eqn:E2; [|done].
      destruct (String.eqb _ "multi-paxos"); [done|].
      destruct (parse_policy _) as [policy|]; [|done].
      destruct (get_reconfig_nodes _ _) as [r|e] eqn:Hg; [|done]. right.
      destruct (Z.ltb_spec k (number_of_nodes c +u64 match r with
         Some r => Z.of_nat (length r) | None => 0 end)); [done|]. injection Hv as <-.
      assert (Hs' : to_lowercase (reconfiguration c) = "single" \/
                    to_lowercase (reconfiguration c) = "majority").
      { apply orb_true_iff in E2 as [E2|E2]; apply eqb_true in E2; auto. }
      split; [done|]. destruct r as [new|]; [by exists policy, new|].
      unfold get_reconfig_nodes in Hg. destruct Hs' as [Es|Es]; rewrite Es in Hg; done. }
  constructor; [done|done|exact Hrec|by exists s].
Qed.

(** What [setup] leaves when it succeeds, and what an iteration keeps. *)
Record configured_for (c : AtomicBroadcastRequest) (k : Z) (m : t) : Prop := {
  cf_accepted : accepted c k m;
  cf_num_nodes : num_nodes m = Some (number_of_nodes c);
  cf_concurrent : concurrent m = Some (concurrent_proposals c);
  cf_election_timeout : election_timeout m = Some (election_timeout_ms c);
  cf_duration : is_Some (exp_duration m);
  cf_system : system m = true;
  cf_latency : concurrent_proposals c = 1 -> latency_hist m = true;
  cf_experiment_str : is_Some (experiment_str m);
  cf_path : is_Some (meta_results_path m);
  cf_sub_dir : is_Some (meta_results_sub_dir m) }.

Lemma setup_accepted c (meta : DeploymentMetaData) m params :
  setup (E := G) new c meta = Some (m, inl params) ->
  configured_for c (Suite.number_of_clients meta) m /\
  params = client_params (mkClientParamsDeser (algorithm c) (number_of_nodes c)
             (concurrent_proposals c) (bool_decide (is_Some (reconfig m)))
             (election_timeout_ms c) (Suite.run_id meta) (network_scenario c)) (reconfiguration c).
Proof.
  intros H. unfold setup in H.
  destruct (validate_experiment_params new c _) as [m1 [e|]] eqn:Hv; [by injection H|].
  apply validate_accepted in Hv. pose proof (ac_scenario _ _ _ Hv) as (s & Hs & Hsc).
  rewrite Hsc in H. simpl in H. destruct (experiment_duration c s) as [du lag]. injection H as <- <-.
  split; [|done]. constructor; simpl; try done; try by eexists.
  - destruct Hv. constructor; try done. by exists s.
  - by intros ->.
Qed.

(** The iterations that were prepared; both counts have an entry for each that was cleaned up. *)
Record progress (i : nat) (m : t) : Prop := {
  pr_iteration : iteration_id m = Z.of_nat i;
  pr_counts : length (num_timed_out m) = length (num_retried m) }.

Lemma setup_progress c meta m params :
  setup (E := G) new c meta = Some (m, inl params) -> progress 0 m.
Proof.
  unfold setup, validate_experiment_params. destruct (_ <? _); [done|].
  destruct (negb _); [done|].
  destruct (validate_reconfiguration new c _) as [m1 [e|]] eqn:Hv; [done|].
  assert (progress 0 m1) as [Hi Hc].
  { unfold validate_reconfiguration in Hv. repeat case_match; simplify_eq; done. }
  destruct (parse_scenario c) as [s|e]; [|done]. simpl.
  destruct (experiment_duration c s) as [du lag]. intros [= <- _]. by constructor.
Qed.

(** The set-up never panics. *)
Lemma setup_total c meta : exists m r, setup (E := G) new c meta = Some (m, r).
Proof.
  unfold setup. destruct (validate_experiment_params new c _) as [m1 [e|]] eqn:Hv; [by eexists _, _|].
  apply validate_accepted in Hv. pose proof (ac_scenario _ _ _ Hv) as (s & _ & ->). simpl.
  destruct (experiment_duration c s) as [du lag]. by eexists _, _.
Qed.

(** ** The parameter string *)

Lemma known_algorithm_free a : known_algorithm (to_lowercase a) = true -> free "," a = true.
Proof.
  intros Ha. apply free_comma. unfold known_algorithm in Ha. apply existsb_exists in Ha as (x & Hx & Ha).
  apply eqb_true in Ha as ->. simpl in Hx. naive_solver.
Qed.

Lemma scenario_free c s : parse_scenario (E := G) c = inl s -> free "," (network_scenario c) = true.
Proof.
  intros H. apply free_comma. unfold parse_scenario in H.
  destruct (String.eqb _ "fully_connected") eqn:E; [by apply eqb_true in E as ->|].
  destruct (split "-" _) as [|name [|secs []]] eqn:Hs; try done.
  apply split_two in Hs. rewrite Hs, free_app. clear Hs.
  destruct (parse_u64 secs) as [d|] eqn:Hd; [|done].
  simpl. rewrite (parse_free "," secs d) by done. rewrite andb_true_r.
  destruct (String.eqb name "quorum_loss") eqn:E1; [by apply eqb_true in E1 as ->|].
  destruct (String.eqb name "constrained_election") eqn:E2; [by apply eqb_true in E2 as ->|].
  destruct (String.eqb name "chained") eqn:E3; [by apply eqb_true in E3 as ->|].
  destruct (String.eqb name "periodic_full") eqn:E4; [by apply eqb_true in E4 as ->|done].
Qed.

Lemma client_params_read c reconfig :
  free "," (cp_algorithm c) = true -> free "," (cp_run_id c) = true ->
  free "," (cp_scenario c) = true -> free "," reconfig = true ->
  in_u64 (cp_num_nodes c) -> in_u64 (cp_concurrent_proposals c) ->
  in_u64 (cp_election_timeout_ms c) ->
  get_deser_clientparams_and_subdir (client_params c reconfig) =
    (is_reconfig_exp ←
       (if String.eqb (to_lowercase reconfig) "off" then Some false
        else if String.eqb (to_lowercase reconfig) "single" ||
                String.eqb (to_lowercase reconfig) "majority" then Some true else None);
     Some (mkClientParamsDeser (to_lowercase (cp_algorithm c)) (cp_num_nodes c)
             (cp_concurrent_proposals c) is_reconfig_exp (cp_election_timeout_ms c)
             (cp_run_id c) (to_lowercase (cp_scenario c)),
           create_metaresults_sub_dir (cp_num_nodes c) (cp_concurrent_proposals c)
             (to_lowercase reconfig))).
Proof.
  intros Ha Hr Hs Hrec Hn Hc Ht. unfold get_deser_clientparams_and_subdir, client_params.
  unfold in_u64 in *. simpl.
  rewrite !split_part by first [assumption | apply show_free; [lia|done]].
  rewrite (split_free "," (cp_scenario c)) by done.
  rewrite !parse_show by done. simpl.
  rewrite digits_before_ms by (apply show_digits_of; lia). rewrite parse_show by done. done.
Qed.

(** A node reads the string of an accepted request. *)
Lemma params_read c meta m params :
  setup (E := G) new c meta = Some (m, inl params) ->
  in_u64 (number_of_nodes c) -> in_u64 (concurrent_proposals c) ->
  in_u64 (election_timeout_ms c) -> free "," (Suite.run_id meta) = true ->
  exists subdir, get_deser_clientparams_and_subdir params =
    Some (mkClientParamsDeser (to_lowercase (algorithm c)) (number_of_nodes c)
            (concurrent_proposals c) (bool_decide (is_Some (reconfig m))) (election_timeout_ms c)
            (Suite.run_id meta) (to_lowercase (network_scenario c)), subdir) /\
    known_algorithm (to_lowercase (algorithm c)) = true.
Proof.
  intros Hset Hn Hc Ht Hrun. apply setup_accepted in Hset as [Hcf ->].
  destruct (cf_accepted _ _ _ Hcf) as [_ Ha Hrec (s & Hs & _)].
  assert (Hfree : free "," (reconfiguration c) = true).
  { apply free_comma. destruct Hrec as [[-> _]|[[->| ->] _]]; done. }
  rewrite client_params_read; simpl; try done; [|by apply known_algorithm_free|by eapply scenario_free].
  destruct Hrec as [(Er & Em & _)|(Er & policy & nw & Em & _)]; rewrite Em.
  - rewrite Er. simpl. by eexists.
  - destruct Er as [Er|Er]; rewrite Er; simpl; by eexists.
Qed.

Lemma choose_replica_total p str :
  known_algorithm (cp_algorithm p) = true -> is_Some (choose_replica p str).
Proof.
  intros Ha. unfold choose_replica. unfold known_algorithm in Ha.
  apply existsb_exists in Ha as (x & Hx & Ha). apply eqb_true in Ha as ->.
  simpl in Hx. destruct Hx as [<-|[<-|[<-|[<-|[<-|[]]]]]]; simpl; by eexists.
Qed.

(** C23: the nodes learn the experiment that the master validated: whatever request is
    accepted, the string that the master sends is read back without a panic to the
    numbers, the run and the mode of reconfiguration of the master and to the algorithm and
    the scenario in lower case, and every node creates a replica.  The run id is the only
    text that could break the string, by a comma. *)
Theorem client_params_agree c meta m params :
  setup (E := G) new c meta = Some (m, inl params) ->
  in_u64 (number_of_nodes c) -> in_u64 (concurrent_proposals c) ->
  in_u64 (election_timeout_ms c) -> free "," (Suite.run_id meta) = true ->
  exists cpd subdir, get_deser_clientparams_and_subdir params = Some (cpd, subdir) /\
    cp_algorithm cpd = to_lowercase (algorithm c) /\
    num_nodes m = Some (cp_num_nodes cpd) /\
    concurrent m = Some (cp_concurrent_proposals cpd) /\
    election_timeout m = Some (cp_election_timeout_ms cpd) /\
    (cp_is_reconfig_exp cpd = true <-> is_Some (reconfig m)) /\
    cp_run_id cpd = Suite.run_id meta /\ cp_scenario cpd = to_lowercase (network_scenario c) /\
    is_Some (client_setup params).
Proof.
  intros Hset Hn Hc Ht Hrun. destruct (params_read _ _ _ _ Hset Hn Hc Ht Hrun) as (sub & Hread & Ha).
  apply setup_accepted in Hset as [Hcf _]. eexists _, sub. split; [exact Hread|]. simpl.
  destruct Hcf as [_ En Ec Et _ _ _ _ _ _]. split_and!; try done.
  - apply bool_decide_eq_true.
  - unfold client_setup. rewrite Hread. simpl. by apply choose_replica_total.
Qed.

(** ** Reconfiguration *)

Lemma remove_random_total k rnds nodes :
  (k <= length rnds)%nat ->
  (forall j r, (j < k)%nat -> rnds !! j = Some r -> (r + j < length nodes)%nat) ->
  exists nodes', remove_random k rnds nodes = Some nodes'.
Proof.
  revert rnds nodes. induction k as [|k IH]; intros rnds nodes Hk Hr; [by eexists|].
  destruct rnds as [|rnd rnds]; simpl in Hk; [lia|]. simpl.
  pose proof (Hr 0%nat rnd ltac:(lia) eq_refl) as H0.
  rewrite (proj2 (Nat.ltb_lt _ _)) by lia. apply IH; [lia|].
  intros j r Hj Hl. pose proof (Hr (S j) r ltac:(lia) Hl).
  rewrite length_delete by (apply lookup_lt_is_Some_2; lia). lia.
Qed.

Lemma inclusive_range_count n : 0 <= n -> Z.of_nat (length (Client.inclusive_range 1 n)) = n.
Proof.
  intros Hn. change (Client.inclusive_range 1 n) with (Client.inclusive_range (0 + 1) (0 + n)).
  rewrite inclusive_range_length by done. lia.
Qed.

Lemma accepted_new_nodes c k m policy nw :
  accepted c k m -> reconfig m = Some (policy, nw) ->
  0 <= number_of_nodes c -> number_of_nodes c + (number_of_nodes c / 2 + 1) + 1 < 2 ^ 64 ->
  NoDup nw /\ 1 <= Z.of_nat (length nw) <= number_of_nodes c / 2 + 1 /\
  num_nodes_needed m = Some (number_of_nodes c + Z.of_nat (length nw)) /\
  (forall p, p ∈ nw <-> number_of_nodes c < p <= number_of_nodes c + Z.of_nat (length nw)).
Proof.
  intros [_ _ Hrec _] Hm Hn Hfit. pose proof (Z.div_pos (number_of_nodes c) 2 Hn ltac:(lia)).
  destruct Hrec as [(_ & E1 & _)|(Er & pol & nw' & E1 & Hg & Hneed & _)]; [congruence|].
  assert (nw' = nw) as -> by congruence. rewrite get_reconfig_nodes_spec in Hg by done.
  injection Hg as Hg. unfold reconfig_of in Hg.
  assert (Hcase : nw = [number_of_nodes c + 1] \/
    nw = seqZ (number_of_nodes c + 1) (number_of_nodes c / 2 + 1)).
  { destruct Er as [Er|Er]; rewrite Er in Hg; simpl in Hg; injection Hg as <-; auto. }
  clear Hg Er E1 Hm.
  assert (Hlen : 1 <= Z.of_nat (length nw) <= number_of_nodes c / 2 + 1).
  { destruct Hcase as [-> | ->]; [simpl; lia|]. rewrite seqZ_app_length by done. lia. }
  unfold u64_add in Hneed. rewrite Z.mod_small in Hneed by lia.
  split_and!; try done; try lia.
  - destruct Hcase as [-> | ->]; [apply NoDup_singleton|apply NoDup_seqZ].
  - intros p. destruct Hcase as [-> | ->].
    + rewrite list_elem_of_singleton. simpl. lia.
    + rewrite elem_of_seqZ, seqZ_app_length by done. lia.
Qed.

(** C24: an accepted reconfiguration can be carried out: with at least three nodes, whatever
    node leads and whatever followers are drawn for removal, the replicas compute the new
    configuration without a panic; it has the size of the old one, contains all new nodes,
    has only nodes that are deployed, and the leader exactly if a follower is to be
    replaced. *)
Theorem validated_reconfiguration_applies c meta m params policy nw leader rnds :
  setup (E := G) new c meta = Some (m, inl params) -> reconfig m = Some (policy, nw) ->
  3 <= number_of_nodes c -> number_of_nodes c + (number_of_nodes c / 2 + 1) + 1 < 2 ^ 64 ->
  1 <= leader <= number_of_nodes c ->
  (length nw <= length rnds)%nat ->
  (forall j r, (j < length nw)%nat -> rnds !! j = Some r ->
     Z.of_nat (r + j) < number_of_nodes c - 1) ->
  exists needed nodes, num_nodes_needed m = Some needed /\ needed <= Suite.number_of_clients meta /\
    get_new_configuration (mkReconfigurationProposal policy nw) leader
      (Client.inclusive_range 1 (number_of_nodes c)) rnds = Some nodes /\
    Z.of_nat (length nodes) = number_of_nodes c /\ NoDup nodes /\
    (forall p, p ∈ nw -> p ∈ nodes) /\ (forall p, p ∈ nodes -> 1 <= p <= needed) /\
    (leader ∈ nodes <-> policy = ReplaceFollower).
Proof.
  intros [Hac%cf_accepted _]%setup_accepted Hm Hn Hfit Hlead Hlen Hr.
  destruct (accepted_new_nodes _ _ _ _ _ Hac Hm ltac:(lia) Hfit) as (Hnd & Hsz & Hneed & Hin).
  set (n := number_of_nodes c) in *. pose proof (inclusive_range_count n ltac:(lia)) as Hcount.
  assert (Hhalf : n / 2 <= n - 2).
  { assert (n / 2 < n - 1); [|lia]. apply Z.div_lt_upper_bound; lia. }
  assert (Hcur : NoDup (Client.inclusive_range 1 n)) by apply inclusive_range_NoDup.
  assert (Hl : leader ∈ Client.inclusive_range 1 n) by (rewrite inclusive_range_elem; lia).
  pose proof (length_without _ _ Hcur Hl) as Hfol.
  set (rp := mkReconfigurationProposal policy nw).
  assert (Htotal : exists nodes, get_new_configuration rp leader (Client.inclusive_range 1 n) rnds = Some nodes).
  { unfold get_new_configuration. simpl.
    set (followers := filter _ _) in *.
    assert (Hrem : exists x : nat, (x <= length nw)%nat /\
      match policy with
      | ReplaceFollower => Z.of_nat (length nw)
      | ReplaceLeader => usize_sub (Z.of_nat (length nw)) 1
      end = Z.of_nat x).
    { destruct policy; [exists (length nw - 1)%nat|exists (length nw); by split].
      split; [lia|]. unfold usize_sub. rewrite Z.mod_small by lia. lia. }
    destruct Hrem as (x & Hx & ->). destruct (Z.ltb_spec (Z.of_nat (length followers)) (Z.of_nat x)); [lia|].
    rewrite Nat2Z.id. destruct (remove_random_total x rnds followers) as [nodes ->]; [lia| |by eexists].
    intros j r Hj Hjr. pose proof (Hr j r ltac:(lia) Hjr). lia. }
  destruct Htotal as [nodes Hnodes].
  destruct (new_configuration rp leader (Client.inclusive_range 1 n) rnds nodes) as (H1 & H2 & H3 & H4 & H5);
    try done; try lia.
  { intros p Hp%Hin. rewrite inclusive_range_elem. lia. }
  { simpl. lia. }
  exists (n + Z.of_nat (length nw)), nodes. split_and!; try done; try lia.
  - destruct Hac as [_ _ [(_ & E1 & _)|(_ & pol & nw' & E1 & _ & Hk & Hle)] _]; [congruence|].
    assert (nw' = nw) as -> by congruence. rewrite Hk in Hneed. injection Hneed as Hneed. lia.
  - intros p [Hp%inclusive_range_elem|Hp%Hin]%H4; lia.
Qed.

End validation.

(** ** Iterations *)

Section iteration.
Context {G : Type} `{Latch} `{PathSer} (address : Path -> string).

(** Every pid of the iteration is the pid of one node. *)
Definition covers (pm : gmap Path Z) (n : Z) : Prop :=
  (forall i, 1 <= i <= n -> exists a, pm !! a = Some i) /\
  (forall a b i, i <= n -> pm !! a = Some i -> pm !! b = Some i -> a = b).

Lemma foldl_insert_lookup (l : list (Path * Z)) acc i a :
  (forall b, (b, i) ∈ l -> b = a) -> (a, i) ∈ l \/ acc !! i = Some a ->
  foldl (fun (ids : gmap Z Path) (kv : Path * Z) => <[kv.2 := kv.1]> ids) acc l !! i = Some a.
Proof.
  revert acc. induction l as [|[b j] l IH]; intros acc Hu Hin; simpl.
  - destruct Hin as [Hin|Hin]; [by apply not_elem_of_nil in Hin|done].
  - apply IH; [intros x Hx; apply Hu; by apply list_elem_of_further|].
    destruct (decide (j = i)) as [->|Hji].
    + right. rewrite (Hu b (list_elem_of_here _ _)). by rewrite lookup_insert_eq.
    + destruct Hin as [Hin|Hin].
      * apply elem_of_cons in Hin as [[= -> ->]|Hin]; [done|by left].
      * right. by rewrite lookup_insert_ne.
Qed.

Lemma nodes_by_id_lookup pm n i a :
  covers pm n -> n < 2 ^ 32 -> 1 <= i <= n -> pm !! a = Some i ->
  nodes_by_id pm n !! i = Some a.
Proof.
  intros [_ Hu] Hn Hi Ha. apply foldl_insert_lookup.
  - intros b [_ Hb%elem_of_map_to_list]%list_elem_of_filter. by apply (Hu b a i); [lia|..].
  - left. apply list_elem_of_filter. split; [|by apply elem_of_map_to_list].
    simpl. unfold as_u32. rewrite Z.mod_small by lia. lia.
Qed.

Lemma assoc_is_Some (l : list (Z * Path)) p : is_Some (Client.assoc l p) <-> p ∈ l.*1.
Proof.
  induction l as [|[q a] l IH]; simpl.
  - split; [by intros []|by intros ?%not_elem_of_nil].
  - rewrite elem_of_cons, <- IH. destruct (Z.eqb_spec q p) as [->|]; [naive_solver|].
    split; [by right|]. by intros [?|?].
Qed.

Lemma known_map_to_list (ids : gmap Z Path) p : known (map_to_list ids) p <-> is_Some (ids !! p).
Proof.
  unfold known. rewrite assoc_is_Some, list_elem_of_fmap. split.
  - intros ([q a] & -> & Hin%elem_of_map_to_list). by exists a.
  - intros [a Ha%elem_of_map_to_list]. by exists (p, a).
Qed.

Lemma inclusive_range_lookup n j i :
  Client.inclusive_range 1 n !! j = Some i -> i = Z.of_nat j + 1 /\ i <= n.
Proof.
  unfold Client.inclusive_range. destruct (Z.leb_spec 1 n); [|done].
  intros [-> Hj]%lookup_seqZ. lia.
Qed.

(** The nodes of the iteration, in the order of their pids. *)
Lemma nodes_in_order pm n :
  covers pm n -> 0 <= n < 2 ^ 32 ->
  exists ns, mapM (fun i => nodes_by_id pm n !! i) (Client.inclusive_range 1 n) = Some ns /\
    Z.of_nat (length ns) = n /\
    (forall j a, ns !! j = Some a -> pm !! a = Some (Z.of_nat j + 1)) /\
    (forall i, 1 <= i <= n -> is_Some (nodes_by_id pm n !! i)).
Proof.
  intros Hc Hn.
  assert (Hall : forall i, 1 <= i <= n -> exists a, nodes_by_id pm n !! i = Some a /\ pm !! a = Some i).
  { intros i Hi. destruct (proj1 Hc i Hi) as [a Ha]. exists a. split; [|done].
    by apply nodes_by_id_lookup; [|lia|..]. }
  destruct (mapM_is_Some_2 (fun i => nodes_by_id pm n !! i) (Client.inclusive_range 1 n)) as [ns Hns].
  { apply Forall_forall. intros i Hi%inclusive_range_elem. destruct (Hall i Hi) as (a & Ha & _).
    by exists a. }
  exists ns. split; [exact Hns|]. apply mapM_Some_1 in Hns. split_and!.
  - rewrite <- (Forall2_length _ _ _ Hns). apply inclusive_range_count; lia.
  - intros j a Hj. destruct (Forall2_lookup_r _ _ _ _ _ Hns Hj) as (i & Hi & Ha).
    apply inclusive_range_lookup in Hi as Hij. assert (Hi1 : 1 <= i <= n) by lia.
    destruct (Hall i Hi1) as (b & Hb & Hpm). rewrite Hb in Ha. injection Ha as ->.
    rewrite Hpm. f_equal. lia.
  - intros i Hi. destruct (Hall i Hi) as (a & Ha & _). by exists a.
Qed.

Lemma covers_le pm k n : covers pm k -> n <= k -> covers pm n.
Proof. intros [H1 H2] Hn. split; [intros i Hi; apply H1; lia|intros a b i Hi; apply H2; lia]. Qed.

(** The nodes that an experiment needs are deployed. *)
Lemma needed_nodes c k m :
  accepted (G := G) c k m -> 1 <= number_of_nodes c ->
  number_of_nodes c + (number_of_nodes c / 2 + 1) + 1 < 2 ^ 32 ->
  exists needed, num_nodes_needed m = Some needed /\ number_of_nodes c <= needed < 2 ^ 32 /\
    needed <= k /\
    forall policy nw, reconfig m = Some (policy, nw) -> forall p, p ∈ nw -> 1 <= p <= needed.
Proof.
  intros Hac Hn Hfit. pose proof (Z.div_pos (number_of_nodes c) 2 ltac:(lia) ltac:(lia)).
  destruct (reconfig m) as [[policy nw]|] eqn:Er.
  - destruct (accepted_new_nodes _ _ _ _ _ Hac Er ltac:(lia) ltac:(lia)) as (_ & Hsz & Hnd & Hin).
    eexists. split; [exact Hnd|]. split; [lia|]. split.
    + destruct Hac as [_ _ [(_ & E1 & _)|(_ & pol & nw' & E1 & _ & Hk & Hle)] _]; [congruence|].
      assert (nw' = nw) as -> by congruence. rewrite Hk in Hnd. injection Hnd as Hnd. lia.
    + intros ? ? [= <- <-] p Hp%Hin. lia.
  - destruct Hac as [Hk _ [(_ & _ & E1)|(_ & pol & nw & E1 & _)] _]; [|congruence].
    eexists. split; [exact E1|]. split; [lia|]. by split.
Qed.

(** What a prepared iteration has. *)
Record iteration_ready (m : t) (cfg : Config) (here : string -> Path) (pm : gmap Path Z)
    (it : Iteration) : Prop := {
  ir_nodes : exists needed ns, num_nodes_needed m = Some needed /\
    it_actor it = PartitioningActor.fresh (iteration_id m) ns (Some (map_to_list pm)) /\
    Z.of_nat (length ns) = needed /\ NoDup ns /\
    (forall j a, ns !! j = Some a -> pm !! a = Some (Z.of_nat j + 1));
  ir_messages : it_messages it =
    [PartitioningActor.Prepare (Some (put_path (here (client_alias m)))); PartitioningActor.Run];
  ir_client : exists n cp ids, num_nodes m = Some n /\ concurrent m = Some cp /\
    Forall (known ids) (Client.inclusive_range 1 n) /\
    match reconfig m with
    | None => exists cl, it_client it = inl cl /\ Client.nodes cl = ids /\
        Client.current_config cl = Client.inclusive_range 1 n /\
        Some (Client.network_scenario cl) = scenario m
    | Some (_, nw) => Forall (known ids) nw /\
        it_client it = inr (experiment RECONFIGURATION_PROPOSALS cp
          (preloaded_log_size cfg) (Client.inclusive_range 1 n) ids (reconfig m)
          (client_timeout cfg))
    end }.

(** The master prepares an iteration of every accepted experiment without a panic, if the map
    of pids names one node for each pid that is needed: the partitioning actor is fresh and
    has exactly the nodes 1, 2, ... in the order of their pids; the client knows all nodes of
    its configuration and of the reconfiguration, so that [reconfig_client_finishes] and
    [iteration_handshake] apply to them. *)
Lemma prepare_configured c k m cfg here d pm :
  configured_for (G := G) c k m ->
  1 <= number_of_nodes c -> number_of_nodes c + (number_of_nodes c / 2 + 1) + 1 < 2 ^ 32 ->
  load_pid_map address (nodes_conf cfg) d = Some pm -> covers pm k ->
  client_timeout_factor cfg <> 0 ->
  exists m' it, prepare_iteration address m cfg here d = Some (m', it) /\
    configured_for (G := G) c k m' /\ the_client m' = true /\ finished_latch m' = true /\
    iteration_ready m' cfg here pm it.
Proof.
  intros Hcf Hn Hfit Hload Hcov Hfac. set (n := number_of_nodes c) in *.
  destruct (needed_nodes c k m (cf_accepted _ _ _ Hcf)) as (needed & Hneed & Hle & Hk & Hnew); [done..|].
  fold n in Hle. apply (covers_le _ _ needed) in Hcov; [|done].
  destruct (nodes_in_order pm needed Hcov ltac:(lia)) as (ns & Hns & Hlen & Hpid & Hall).
  set (ids := map_to_list (nodes_by_id pm needed)).
  assert (Hknown : forall p, 1 <= p <= needed -> known ids p).
  { intros p Hp. apply known_map_to_list. by apply Hall. }
  assert (Hnd : NoDup ns).
  { apply NoDup_alt. intros i j a Hi%Hpid Hj%Hpid. rewrite Hi in Hj. injection Hj. lia. }
  assert (Hkc : Forall (known ids) (Client.inclusive_range 1 n)).
  { apply Forall_forall. intros p Hp%inclusive_range_elem. apply Hknown. lia. }
  destruct Hcf as [Hac En Ec Et [du Ed] Es Hlat Hes Hmp Hsd].
  pose proof (ac_scenario _ _ _ Hac) as (s & _ & Hs).
  unfold prepare_iteration. rewrite Es. cbn [num_nodes_needed set_iteration_id set_finished_latch].
  rewrite Hneed. cbn [mbind option_bind]. rewrite Hload. cbn [mbind option_bind]. rewrite Hns.
  cbn [mbind option_bind reconfig set_iteration_id set_finished_latch].
  destruct (reconfig m) as [[policy nw]|] eqn:Er.
  - unfold create_reconfig_client. cbn [num_nodes concurrent set_iteration_id set_finished_latch reconfig].
    rewrite En, Ec, Er. eexists _, _. split; [reflexivity|]. split; [by constructor; destruct Hac|].
    split; [by unfold the_client; simpl; rewrite Er|]. split; [done|]. constructor.
    + by exists needed, ns.
    + done.
    + exists n, (concurrent_proposals c), ids. simpl. rewrite Er. split_and!; try done.
      apply Forall_forall. intros p Hp. apply Hknown. by eapply Hnew.
  - unfold short_timeout_of, create_client.
    cbn [scenario set_iteration_id set_finished_latch election_timeout].
    rewrite Hs, Et. rewrite (proj2 (Z.eqb_neq _ 0)) by done.
    assert (Hst : exists st, (if bool_decide (Some s = Some FullyConnected)
      then Some (client_timeout cfg) else
        (election_timeout_ms ← Some (election_timeout_ms c);
         Some (if election_timeout_ms / client_timeout_factor cfg <? 25 then 25
               else election_timeout_ms / client_timeout_factor cfg))) = Some st)
      by (case_bool_decide; by eexists).
    destruct Hst as [st Hst]. simpl in Hst |- *. rewrite Hst. simpl. rewrite En, Ed, Ec. simpl.
    eexists _, _. split; [reflexivity|].
    split; [constructor; simpl; try done; destruct Hac; constructor; simpl; try done; by exists s|].
    split; [by unfold the_client; simpl; rewrite Er|]. split; [done|]. constructor.
    + by exists needed, ns.
    + done.
    + exists n, (concurrent_proposals c), ids. simpl. rewrite Er. split_and!; try done. by eexists.
Qed.

Lemma prepare_progress i m cfg here d m' it :
  prepare_iteration address m cfg here d = Some (m', it) -> Z.of_nat i + 1 < 2 ^ 32 ->
  progress i m -> progress (i + 1) m'.
Proof.
  intros Hp Hi [Hit Hc]. unfold prepare_iteration in Hp. destruct (system m); [|done].
  assert (Hadd : iteration_id m +u32 1 = Z.of_nat (i + 1)) by (rewrite u32_add_small; lia).
  assert (Hm : forall x y, progress (i + 1) (set_clients (set_iteration_id (set_finished_latch m true)
    (iteration_id m +u32 1)) x y)) by (intros x y; constructor; [exact Hadd|exact Hc]).
  simpl in Hp. handler_inv Hp.
  match goal with Hx : match reconfig m with _ => _ end = Some (?m1, _) |- _ =>
    assert (progress (i + 1) m1) as []; [handler_inv Hx; apply Hm|by constructor] end.
Qed.

(** A prepared iteration is run, and cleaned up to an experiment that can be prepared again. *)
Lemma run_configured c k m :
  configured_for (G := G) c k m -> the_client m = true -> finished_latch m = true ->
  exists m', run_iteration m = Some m' /\ configured_for (G := G) c k m' /\ the_client m' = true.
Proof.
  intros Hcf Hcl Hl. unfold run_iteration. rewrite Hcl, Hl. simpl. eexists. split; [done|].
  split; [|exact Hcl]. destruct Hcf as [[]]. by constructor.
Qed.

Context `{DateTimeText}.

Lemma persist_total c k m r :
  configured_for (G := G) c k m -> is_Some (persist_meta_results m r).
Proof.
  intros [Hac _ Ec _ _ _ Hlat [es Hes] [mp Hmp] [sd Hsd]]. pose proof (ac_scenario _ _ _ Hac) as (s & _ & Hs).
  unfold persist_meta_results, get_meta_results_dir. rewrite Hes, Hmp, Hsd, Hs, Ec. simpl.
  destruct (bool_decide (s = FullyConnected)), (bool_decide (is_Some (mr_reconfig_ts r)) || _); simpl;
    (case_bool_decide as Hc1; [injection Hc1 as Hc1; rewrite Hlat by done|]); simpl; by eexists.
Qed.

Lemma persist_summary_total c k i m :
  configured_for (G := G) c k m -> progress i m -> i <> 0%nat ->
  exists m' out, persist_meta_summary_results m = Some (m', out) /\ system m' = true.
Proof.
  intros [_ _ Ec _ _ Es Hlat [es Hes] [mp Hmp] [sd Hsd]] [Hit Hcounts] Hi.
  unfold persist_meta_summary_results, get_meta_results_dir. rewrite Hes, Hmp. cbn [mbind option_bind].
  destruct (Results.summary_total mp es (num_timed_out m) (num_retried m) (iteration_id m))
    as [out Hout]; [done|lia|].
  cbn [set_counts iteration_id meta_results_path meta_results_sub_dir concurrent]. rewrite Hout, Hmp, Hsd, Ec.
  simpl. case_bool_decide as Hc1; simpl; [injection Hc1 as Hc1; rewrite Hlat by done|]; by eexists _, _.
Qed.

Lemma cleanup_configured c k i m r :
  configured_for (G := G) c k m -> progress i m -> i <> 0%nat -> the_client m = true ->
  (exists m' out, cleanup_iteration m r false = Some (m', out) /\ configured_for (G := G) c k m' /\
     progress i m') /\
  exists m' out, cleanup_iteration m r true = Some (m', out) /\ system m' = false.
Proof.
  intros Hcf Hpr Hi Hcl. unfold cleanup_iteration. rewrite Hcl.
  set (m1 := set_counts m _ _).
  assert (Hcf1 : configured_for (G := G) c k m1) by (destruct Hcf as [[]]; by constructor).
  assert (Hpr1 : progress i m1)
    by (destruct Hpr; constructor; [done|]; simpl; rewrite !length_app; simpl; lia).
  destruct (persist_total _ _ _ r Hcf1) as [out Hout]. rewrite Hout. simpl.
  assert (Hcl1 : the_client m1 = true) by exact Hcl. clearbody m1.
  unfold kill_client, kill_partitioning_component. pose proof (cf_system _ _ _ Hcf1) as Hsys.
  rewrite Hsys, Hcl1. simpl.
  assert (Hgen : forall x y, configured_for (G := G) c k
      (set_partitioning_actor (Experiment.set_clients m1 x y) false) /\
      progress i (set_partitioning_actor (Experiment.set_clients m1 x y) false)).
  { intros x y. destruct Hcf1 as [[]], Hpr1. by split; constructor. }
  assert (Hlast : forall m2, configured_for (G := G) c k m2 /\ progress i m2 ->
    exists m' out', (x ← persist_meta_summary_results m2; let '(m, summary) := x in
       if system (clear_state m) then Some (set_system (clear_state m) false, (out ++ summary)%list)
       else None) = Some (m', out') /\ system m' = false).
  { intros m2 [Hc2 Hp2]. destruct (persist_summary_total _ _ _ _ Hc2 Hp2 Hi) as (m' & out' & -> & Hs).
    simpl. rewrite Hs. by eexists _, _. }
  destruct (reconfig m1) as [pn|] eqn:Er; simpl; rewrite Hsys; simpl; split;
    first [by eexists _, _|apply Hlast, Hgen].
Qed.
End iteration.

(** ** Examples *)

Module ExperimentExample.
Definition request : AtomicBroadcastRequest :=
  mkRequest "Paxos" 3 60 100 "Single" "replace-follower" "fully_connected" 1000.
Definition meta : DeploymentMetaData := mkDeploymentMetaData 4 "run-1".
Definition master : t :=
  default new (fst <$> setup (E := Empty_set) new request meta).
Definition params : string := "Paxos,3,100,Single,1000,run-1,fully_connected".

Definition node (i : Z) : Path := Named i ANode.
Definition client : Path := Named 0 AClient.
Definition address (p : Path) : string :=
  match p with Named i _ | Unique i _ => "host" ++ show i end.
(** Node 4 has pid 2 and node 2 pid 4. *)
Definition cfg : Config :=
  mkConfig 3000 1000 10
    ["host1 | node | 1"; "host4 | node | 2"; "host3 | node | 3"; "host2 | node | 4"].
Definition deployed : list Path := [node 1; node 2; node 3; node 4].
Definition pids : gmap Path Z :=
  <[node 1 := 1]> (<[node 2 := 4]> (<[node 3 := 3]> (<[node 4 := 2]> ∅))).
End ExperimentExample.
Import ExperimentExample.
#[local] Existing Instances PartitioningActor.counting_latch PartitioningActor.path_ser.

Lemma request_accepted : setup (E := Empty_set) new request meta = Some (master, inl params).
Proof. vm_compute. reflexivity. Qed.

Lemma client_params_agree_witness :
  exists cpd subdir,
    get_deser_clientparams_and_subdir params = Some (cpd, subdir) /\
    cp_algorithm cpd = "paxos" /\ cp_is_reconfig_exp cpd = true.
Proof.
  destruct (client_params_agree (G := Empty_set) request meta master params)
    as (cpd & sub & Hr & Ha & _ & _ & _ & Hre & _).
  - exact request_accepted.
  - split; vm_compute; congruence.
  - split; vm_compute; congruence.
  - split; vm_compute; congruence.
  - reflexivity.
  - exists cpd, sub. split; [exact Hr|]. split; [exact Ha|]. apply Hre. vm_compute. by eexists.
Defined.

Lemma validated_reconfiguration_applies_witness :
  exists nodes,
    get_new_configuration (mkReconfigurationProposal ReplaceFollower [4]) 2
      (Client.inclusive_range 1 3) [1%nat] = Some nodes /\
    length nodes = 3%nat /\ 2 ∈ nodes /\ 4 ∈ nodes.
Proof.
  destruct (validated_reconfiguration_applies (G := Empty_set) request meta master params
              ReplaceFollower [4] 2 [1%nat])
    as (needed & nodes & _ & _ & Hn & Hl & _ & Hnew & _ & Hlead).
  - exact request_accepted.
  - vm_compute. reflexivity.
  - vm_compute. congruence.
  - vm_compute. reflexivity.
  - vm_compute. split; congruence.
  - vm_compute. lia.
  - intros [|j] r Hj Hr; [|vm_compute in Hj; lia]. injection Hr as <-. vm_compute. reflexivity.
  - exists nodes. split; [exact Hn|]. split; [simpl in Hl; lia|]. split; [by apply Hlead|].
    apply Hnew. by left.
Defined.

Lemma pids_loaded : load_pid_map address (nodes_conf cfg) deployed = Some pids.
Proof. apply (bool_decide_unpack (load_pid_map address (nodes_conf cfg) deployed = Some pids)). vm_compute. exact I. Qed.

Lemma pids_cover : covers pids 4.
Proof.
  unfold pids. split.
  - intros i Hi. assert (i = 1 \/ i = 2 \/ i = 3 \/ i = 4) as Hc by lia.
    destruct Hc as [->|[->|[->| ->]]];
      [exists (node 1)|exists (node 4)|exists (node 3)|exists (node 2)]; by simplify_map_eq.
  - intros a b i _ Ha Hb. rewrite !lookup_insert_Some, lookup_empty in Ha, Hb. naive_solver.
Qed.

(** The scenario is validated in lower case, but a node looks for "chained" in the string
    as it was requested: this request runs the Multi-Paxos node itself in the chained
    scenario. *)
Example chained_upper_case :
  client_setup <$> (match setup (E := Empty_set) new (mkRequest "multi-paxos" 3 60 100 "off" "none" "Chained-10" 1000)
                            meta with
                    | Some (_, inl params) => Some params | _ => None end) =
    Some (Some KMultiPaxos) /\
  client_setup <$> (match setup (E := Empty_set) new (mkRequest "multi-paxos" 3 60 100 "off" "none" "chained-10" 1000)
                            meta with
                    | Some (_, inl params) => Some params | _ => None end) =
    Some (Some (KPaxos MultiPaxos)).
Proof. split; vm_compute; reflexivity. Qed.

(** With two nodes, replacing a majority asks for the removal of more followers than there
    are: the request is accepted, and the replica panics. *)
Example majority_of_two :
  (exists m params,
     setup (E := Empty_set) new
       (mkRequest "paxos" 2 60 100 "majority" "replace-follower" "fully_connected" 1000) meta = Some (m, inl params) /\ reconfig m = Some (ReplaceFollower, [3; 4])) /\
  forall rnds, get_new_configuration (mkReconfigurationProposal ReplaceFollower [3; 4]) 1 [1; 2] rnds
    = None.
Proof. split; [eexists _, _; split; vm_compute; reflexivity|by intros rnds]. Qed.

(** A comma in the run id: no node reads the string. *)
Example comma_in_run_id :
  client_setup <$> (match setup (E := Empty_set) new request (mkDeploymentMetaData 4 "run,1") with
                    | Some (_, inl params) => Some params | _ => None end) = Some None.
Proof. vm_compute. reflexivity. Qed.
