(* ===== verification/AtomicBroadcast.v ===== *)
(** The atomic broadcast benchmark in the suite ([benchmark.rs], [benchmark_client.rs]): its
    master is that of [Experiment], its client starts a replica of the requested algorithm.
    It keeps the protocol of the suite, so that an accepted experiment on deployed nodes is
    run to its end. *)

From Stdlib Require Import Strings.String Strings.Ascii.
From stdpp Require Import strings.
From S2P Require Import Prelude Wire Communicator MsgWire PaxosComp PartitioningActor.
From S2P Require Import Client ExpText ExpResults Suite SuiteThm Experiment ExperimentThm.

Import ExpText Suite Experiment.
Import Results(DateTimeText).

Open Scope string_scope.
Open Scope Z_scope.

(** [to_string] and [from_str] of the paths of the middleware, with the text of an error. *)
Class PathText := {
  path_to_string : Path -> string;
  path_from_str : string -> Path + string;
  path_from_to p : path_from_str (path_to_string p) = inl p }.

Module AtomicBroadcast.

(** ** The client *)

(** Of the system and the components only their presence matters. *)
Record AtomicBroadcastClient := mkClient {
  client_system : bool;
  paxos_comp : bool;
  raft_comp : bool;
  multipaxos_comp : bool }.

Definition new_client : AtomicBroadcastClient := mkClient false false false false.

(** [PAXOS_PATH], [MULTIPAXOS_PATH] and [RAFT_PATH]. *)
Definition replica_alias (r : ReplicaKind) : string :=
  match r with
  | KPaxos _ => "paxos_replica"
  | KMultiPaxos => "mp_replica"
  | KRaft _ => "raft_replica"
  end.

(** The configuration file of the node is read without an error.  [here] makes the path of an
    alias at the system of the node. *)
Definition setup_client (here : string -> Path) (ac : AtomicBroadcastClient) (params : string)
    : option (AtomicBroadcastClient * Path) :=
  r ← client_setup params;
  let ac := match r with
            | KPaxos _ => mkClient true true (raft_comp ac) (multipaxos_comp ac)
            | KMultiPaxos => mkClient true (paxos_comp ac) (raft_comp ac) true
            | KRaft _ => mkClient true (paxos_comp ac) true (multipaxos_comp ac)
            end in
  Some (ac, here (replica_alias r)).

(** The replicas are told to kill their components, and the result is not looked at. *)
Definition kill_child_components (ac : AtomicBroadcastClient) : AtomicBroadcastClient := ac.

Definition kill_parent_component_and_system (ac : AtomicBroadcastClient)
    : option AtomicBroadcastClient :=
  if client_system ac then Some (mkClient false false false false) else None.

Definition cleanup_client (ac : AtomicBroadcastClient) (last_iteration : bool)
    : option AtomicBroadcastClient :=
  let ac := kill_child_components ac in
  if last_iteration then kill_parent_component_and_system ac else Some ac.

(** ** The benchmark *)

Section benchmark.
Context {E F : Type} `{Latch} `{PathSer} `{PathText} `{DateTimeText}.

(** What is outside of the program: the addresses of paths, the configuration, and what the
    client answers when the master stops it. *)
Context (address : Path -> string) (cfg : Config) (results : Experiment.t -> MetaResults).

(** A protobuf message: a request, or the name of another one. *)
Definition Msg : Type := AtomicBroadcastRequest + string.

(** [downcast_msg!] *)
Definition msg_to_master_conf (msg : Msg) : AtomicBroadcastRequest + BenchmarkError E :=
  match msg with
  | inl c => inl c
  | inr name => inr (InvalidMessage ("Got " ++ name ++ ", but expected AtomicBroadcastRequest"))
  end.

Definition str_to_client_data (str : string) : Path + BenchmarkError E :=
  match path_from_str str with
  | inl p => inl p
  | inr e => inr (InvalidMessage ("Could not read client data: " ++ e))
  end.

Definition AtomicBroadcast (here : string -> Path) : DistributedBenchmark E F Msg :=
  mkDistributedBenchmark AtomicBroadcastRequest string Path Experiment.t AtomicBroadcastClient
    "AtomicBroadcast" Experiment.new msg_to_master_conf new_client
    (fun s => inl s) str_to_client_data (fun c => c) path_to_string
    (fun m c meta => Experiment.setup m c meta)
    (fun m d => fst <$> prepare_iteration address m cfg here d)
    Experiment.run_iteration
    (fun m last_iteration _ => fst <$> cleanup_iteration m (results m) last_iteration)
    (setup_client here) Some cleanup_client.

(** ** Its protocol *)

Definition bench (here : string -> Path) : AbstractDistributedBenchmark E F Msg :=
  DistributedBenchmarkObject (AtomicBroadcast here).

(** Requests whose numbers fit. *)
Definition valid (msg : Msg) : Prop :=
  match msg with
  | inl c =>
      1 <= number_of_nodes c /\ number_of_nodes c + (number_of_nodes c / 2 + 1) + 1 < 2 ^ 32 /\
      in_u64 (concurrent_proposals c) /\ in_u64 (election_timeout_ms c)
  | inr _ => True
  end.

(** The configurations that the master sends. *)
Definition conf (meta : DeploymentMetaData) (s : string) : Prop :=
  exists c m, Experiment.setup (E := E) Experiment.new c meta = Some (m, inl s) /\ valid (inl c).

(** The paths of nodes to which [nodes.conf] gives all pids. *)
Definition deployed (meta : DeploymentMetaData) (d : list Path) : Prop :=
  exists pm, load_pid_map address (nodes_conf cfg) d = Some pm /\
    covers pm (Suite.number_of_clients meta).

Definition good (meta : DeploymentMetaData) (ds : list string) : Prop :=
  exists d, ds = map path_to_string d /\ deployed meta d.

Lemma collect_paths d :
  collect (map str_to_client_data (map path_to_string d)) = inl d.
Proof.
  apply collect_inl. rewrite map_map. apply map_ext. intros p. unfold str_to_client_data.
  by rewrite path_from_to.
Qed.

#[export] Instance atomic_broadcast_master here meta (Hfac : client_timeout_factor cfg <> 0) :
  MasterProtocol (bench here) meta valid (conf meta) (good meta).
Proof.
  set (K := fun i m => (exists c, configured_for (G := E) c (Suite.number_of_clients meta) m /\ valid (inl c)) /\
    progress i m).
  refine {| configured := fun i (m : am_state (bench here)) => K i m;
            prepared := fun i (m : am_state (bench here)) =>
              K (i + 1)%nat m /\ the_client m = true /\ finished_latch m = true;
            ran := fun i (m : am_state (bench here)) => K i m /\ i <> O /\ the_client m = true |}.
  - intros [c|name] Hv; simpl; unfold master_object_setup; simpl.
    + destruct (setup_total (G := E) c meta) as (m & [params|e] & Hs); rewrite Hs; simpl;
        eexists _, _; (split; [done|]); intros s [= <-].
      split; [by exists c, m|]. split; [|by apply setup_progress in Hs].
      exists c. split; [|exact Hv]. by apply setup_accepted in Hs as [Hcf _].
    + eexists _, _. split; [done|]. by intros s.
  - intros i m ds Hi [(c & Hcf & Hv) Hpr] (d & -> & pm & Hpm & Hcov). simpl. unfold master_object_prepare.
    simpl. rewrite collect_paths. destruct Hv as (Hn & Hfit & Hc & Ht).
    destruct (prepare_configured address c _ m cfg here d pm Hcf Hn Hfit Hpm Hcov Hfac)
      as (m' & it & Hp & Hcf' & Hcl & Hl & _).
    rewrite Hp. simpl. exists m'. split; [done|]. split; [split; [by exists c|]|by split].
    eapply prepare_progress; [exact Hp|unfold MAX_RUNS in Hi; lia|done].
  - intros i m [[(c & Hcf & Hv) [Hi Hn]] [Hcl Hl]]. simpl.
    destruct (run_configured _ _ _ Hcf Hcl Hl) as (m' & Hr & Hcf' & Hcl').
    exists m'. split; [exact Hr|]. split; [|split; [lia|done]]. split; [by exists c|].
    unfold run_iteration in Hr. rewrite Hcl, Hl in Hr. injection Hr as <-. by constructor.
  - intros i m t [[(c & Hcf & Hv) Hpr] [Hi Hcl]]. simpl.
    destruct (cleanup_configured _ _ _ _ (results m) Hcf Hpr Hi Hcl) as [(m' & out & Hm & Hcf' & Hpr') _].
    rewrite Hm. simpl. exists m'. split; [done|]. split; [by exists c|done].
  - intros i m t [[(c & Hcf & Hv) Hpr] [Hi Hcl]]. simpl.
    destruct (cleanup_configured _ _ _ _ (results m) Hcf Hpr Hi Hcl) as [_ (m' & out & Hm & _)].
    rewrite Hm. by eexists.
Qed.

(** A node answers with the path of its replica. *)
Definition node_data (here : string -> Path) (s : string) : string :=
  match client_setup s with
  | Some r => path_to_string (here (replica_alias r))
  | None => ""
  end.

Lemma client_setup_total meta s :
  conf meta s -> free "," (Suite.run_id meta) = true -> is_Some (client_setup s).
Proof.
  intros (c & m & Hs & Hn & Hfit & Hc & Ht) Hrun.
  assert (in_u64 (number_of_nodes c)).
  { unfold in_u64. pose proof (Z.div_pos (number_of_nodes c) 2 ltac:(lia) ltac:(lia)). lia. }
  destruct (params_read c meta m s Hs) as (sub & Hread & Ha); [done..|].
  unfold client_setup. rewrite Hread. simpl. by apply choose_replica_total.
Qed.

#[export] Instance atomic_broadcast_client here meta (Hrun : free "," (Suite.run_id meta) = true) :
  ClientProtocol (bench here) (conf meta) (node_data here).
Proof.
  refine {| idle := fun ac : ac_state (bench here) => client_system ac = true;
            active := fun ac : ac_state (bench here) => client_system ac = true |}.
  - intros s Hs. simpl. unfold client_object_setup. simpl. unfold setup_client, node_data.
    destruct (client_setup_total meta s Hs Hrun) as [r ->]. simpl.
    eexists. split; [done|]. by destruct r.
  - intros ac Hac. by exists ac.
  - intros ac Hac. by exists ac.
  - intros ac Hac. simpl. unfold cleanup_client, kill_parent_component_and_system, kill_child_components.
    rewrite Hac. by eexists.
Qed.

End benchmark.

(** ** Examples *)

(** Paths as the text of their wire format. *)
#[export] Instance wire_path_text : PathText.
Proof.
  refine {| path_to_string := fun p => string_of_list_byte (PartitioningActor.write_positive (encode p));
            path_from_str := fun s =>
              match r ← PartitioningActor.read_positive (list_byte_of_string s); decode r.1 with
              | Some p => inl p
              | None => inr "not a path"
              end |}.
  intros p. rewrite list_byte_of_string_of_list_byte, <- (app_nil_r (PartitioningActor.write_positive _)).
  rewrite PartitioningActor.read_write_positive. simpl. by rewrite decode_encode.
Defined.

Module BenchExample.
#[local] Existing Instances PartitioningActor.counting_latch PartitioningActor.path_ser.
#[export] Instance seconds : DateTimeText := fun t => show t ++ "s".
Definition here (alias : string) : Path := Named 0 AClient.
Definition node (e : ClientEntry) (alias : string) : Path := Named (port e) ANode.
Definition results (m : Experiment.t) : MetaResults :=
  mkMetaResults 100 0 0 0 [] [] (mkWindowedResult 0 []) None 0.
Definition bench (h : string -> Path) : AbstractDistributedBenchmark string Z Msg :=
  bench ExperimentExample.address ExperimentExample.cfg results h.
Definition entries : list ClientEntry := map (mkClientEntry "host") [1; 2; 3; 4].
Definition master : BenchmarkMaster :=
  mkMaster 4 entries READY ExperimentExample.meta "run-1".
Definition process (e : ClientEntry) : Process string Z Msg :=
  mkProcess (MixedFactory (bench (node e))) Ready.
Definition net : gmap (string * Z) (Process string Z Msg) :=
  list_to_map (map (fun e => (addr e, process e)) entries).
Definition reliable : Oracle string Z := mkOracle Z.of_nat (fun _ _ => Delivered).
End BenchExample.

End AtomicBroadcast.
