(* ===== verification/Launch.v ===== *)
(** How a process of the benchmark is started: the arguments of [src/kompact/src/main.rs], the modes of
    [BenchmarkMain] ([src/shared_rust/src/lib.rs]), the systems of actors of
    [kompact_system_provider.rs], and the runners of the local mode
    ([src/kompact/src/benchmark_runner.rs]).

    A panic is [None].  Reading a socket address is an operation [parse_addr] on texts; systems of
    actors are described by the calls on the configuration of the middleware. *)

From Stdlib Require Import Strings.String.
From stdpp Require Import strings.
From S2P Require Import Prelude ExpText Suite.

Open Scope string_scope.
Open Scope Z_scope.

Module Launch.

(** ** Systems of actors *)

Section provider.
(** [IpAddr], and [127.0.0.1]. *)
Context {Ip : Type} (LOCALHOST : Ip).

Definition NUM_WORKERS_DEFAULT : Z := 4.
Definition NUM_WORKERS_MAX : Z := 64.

Record KompactSystemProvider := mkProvider { public_if : Ip }.

Definition GLOBAL : KompactSystemProvider := mkProvider LOCALHOST.

Definition set_public_if (p : KompactSystemProvider) (s : Ip) : KompactSystemProvider := mkProvider s.

(** [n]: the number of processors. *)
Definition get_num_workers (n : Z) : Z :=
  if (NUM_WORKERS_DEFAULT <=? n) && (n <=? NUM_WORKERS_MAX) then n
  else if NUM_WORKERS_DEFAULT <=? n then NUM_WORKERS_MAX
  else NUM_WORKERS_DEFAULT.

Inductive Executor := SmallPool | LargePool.

(** The calls on [KompactConfig] and [NetworkConfig]. *)
Inductive ConfigCall {Buf : Type} :=
| Label (s : string)
| Threads (n : Z)
| SetExecutor (e : Executor)
| Throughput (n : Z)
| Network (addr : Ip * Z)
| NetworkWith (addr : Ip * Z) (buf_conf : Buf) (tcp_no_delay : bool).
Arguments ConfigCall : clear implicits.

Definition set_executor_for_threads (threads : Z) : option Executor :=
  if threads <=? 32 then Some SmallPool
  else if threads <=? 64 then Some LargePool
  else None.

Context {Buf : Type}.

Definition new_system_with_threads (name : string) (threads : Z) : option (list (ConfigCall Buf)) :=
  e ← set_executor_for_threads threads;
  Some [Label name; Threads threads; SetExecutor e; Throughput 50].

Definition new_system (name : string) (cpus : Z) : option (list (ConfigCall Buf)) :=
  new_system_with_threads name (get_num_workers cpus).

Definition new_remote_system_with_threads (p : KompactSystemProvider) (name : string) (threads : Z)
    : option (list (ConfigCall Buf)) :=
  let addr := (public_if p, 0) in
  e ← set_executor_for_threads threads;
  Some [Label name; Threads threads; SetExecutor e; Throughput 50; Network addr].

Definition new_remote_system (p : KompactSystemProvider) (name : string) (cpus : Z)
    : option (list (ConfigCall Buf)) :=
  new_remote_system_with_threads p name (get_num_workers cpus).

(** [conf]: the calls that made the configuration it starts from. *)
Definition new_remote_system_with_threads_config (p : KompactSystemProvider) (name : string) (threads : Z)
    (conf : list (ConfigCall Buf)) (buf_conf : Buf) (tcp_no_delay : bool)
    : option (list (ConfigCall Buf)) :=
  let addr := (public_if p, 0) in
  e ← set_executor_for_threads threads;
  Some (conf ++ [Label name; Threads threads; SetExecutor e; Throughput 50;
                 NetworkWith addr buf_conf tcp_no_delay])%list.

Lemma num_workers_range n : NUM_WORKERS_DEFAULT <= get_num_workers n <= NUM_WORKERS_MAX.
Proof.
  unfold get_num_workers, NUM_WORKERS_DEFAULT, NUM_WORKERS_MAX.
  destruct (Z.leb_spec 4 n), (Z.leb_spec n 64); simpl; lia.
Qed.

(** Whatever the number of processors, a pool is found for the default number of threads. *)
Theorem default_systems_start (p : KompactSystemProvider) (name : string) (cpus : Z) :
  is_Some (new_system name cpus) /\ is_Some (new_remote_system p name cpus).
Proof.
  pose proof (num_workers_range cpus) as Hr. unfold NUM_WORKERS_MAX in Hr.
  unfold new_system, new_system_with_threads, new_remote_system, new_remote_system_with_threads,
    set_executor_for_threads.
  destruct (Z.leb_spec (get_num_workers cpus) 32), (Z.leb_spec (get_num_workers cpus) 64);
    simpl; try lia; split; eexists; reflexivity.
Qed.
End provider.
Arguments ConfigCall : clear implicits.

(** ** Modes of a process *)

Section main.
(** [str::parse::<SocketAddr>]. *)
Context {Ip : Type} (parse_addr : string -> option (Ip * Z)).

(** What [run_with] starts; [None] is no public interface set. *)
Inductive Launched :=
| RunServer (bench_runner_addr : string)
| RunClient (client_addr master_addr : Ip * Z)
| RunMaster (runner_port master_port num_clients : Z) (run_id : string).

Definition run_with (args : list string) : option (option Ip * Launched) :=
  if (length args <=? 3)%nat then
    Some (None, RunServer (default "127.0.0.1:45678" (args !! 1%nat)))
  else if (length args =? 4)%nat then
    a1 ← args !! 1%nat; master_addr ← parse_addr a1;
    a2 ← args !! 2%nat; client_addr ← parse_addr a2;
    Some (Some (client_addr.1), RunClient client_addr master_addr)
  else if (length args =? 5)%nat then
    a1 ← args !! 1%nat; bench_runner_addr ← parse_addr a1;
    a2 ← args !! 2%nat; master_addr ← parse_addr a2;
    a3 ← args !! 3%nat; num_clients ← ExpText.parse_u64 a3;
    run_id ← args !! 4%nat;
    Some (Some (master_addr.1), RunMaster (bench_runner_addr.2) (master_addr.2) num_clients run_id)
  else None.

Inductive BenchMode := ACTOR | COMPONENT | MIXED.

Definition bench_mode (s : string) : option BenchMode :=
  let lows := ExpText.to_lowercase s in
  if String.eqb lows "actor" then Some ACTOR
  else if String.eqb lows "component" then Some COMPONENT
  else if String.eqb lows "mixed" then Some MIXED
  else None.

(** The answers of the runners of the local mode; [None] is [unimplemented!]. *)
Record BenchmarkRunner := mkRunner {
  runner_ready : bool;
  runner_shutdown : option unit;
  runner_atomic_broadcast : forall F, Suite.TestResult F }.

Definition BenchmarkRunnerActorImpl : BenchmarkRunner :=
  mkRunner true None (fun F => Suite.TestNotImplemented).
Definition BenchmarkRunnerComponentImpl : BenchmarkRunner :=
  mkRunner true None (fun F => Suite.TestNotImplemented).
Definition BenchmarkRunnerMixedImpl : BenchmarkRunner :=
  mkRunner true None (fun F => Suite.TestNotImplemented).

Context {E F Msg : Type} (atomic_broadcast : Suite.AbstractDistributedBenchmark E F Msg).

Definition runner_of (mode : BenchMode) : BenchmarkRunner :=
  match mode with
  | ACTOR => BenchmarkRunnerActorImpl
  | COMPONENT => BenchmarkRunnerComponentImpl
  | MIXED => BenchmarkRunnerMixedImpl
  end.

Definition factory_of (mode : BenchMode) : Suite.BenchmarkFactory E F Msg :=
  match mode with
  | ACTOR => Suite.ActorFactory
  | COMPONENT => Suite.ComponentFactory
  | MIXED => Suite.MixedFactory atomic_broadcast
  end.

(** The runner, the benchmarks, the provider of systems and what is started. *)
Definition main (LOCALHOST : Ip) (args : list string)
    : option (BenchmarkRunner * Suite.BenchmarkFactory E F Msg * KompactSystemProvider * Launched) :=
  s ← args !! 1%nat;
  mode ← bench_mode s;
  '(public, l) ← run_with (delete 1%nat args);
  let provider := match public with
                  | Some ip => set_public_if (GLOBAL LOCALHOST) ip
                  | None => GLOBAL LOCALHOST
                  end in
  Some (runner_of mode, factory_of mode, provider, l).

(** The processes of an experiment.  A master and its clients bind the systems of their nodes to their
    own interface, a client is given the address the master listens on, and a process with neither
    serves its runner, which answers that nothing but [ready] is implemented, on the local one. *)
Theorem deployment_launches LOCALHOST prog mode runner master client n run_id b addr_r addr_m addr_c num :
  bench_mode mode = Some b ->
  parse_addr runner = Some addr_r -> parse_addr master = Some addr_m -> parse_addr client = Some addr_c ->
  ExpText.parse_u64 n = Some num ->
  main LOCALHOST [prog; mode; runner; master; n; run_id] =
    Some (runner_of b, factory_of b, mkProvider (addr_m.1), RunMaster (addr_r.2) (addr_m.2) num run_id) /\
  main LOCALHOST [prog; mode; master; client; run_id] =
    Some (runner_of b, factory_of b, mkProvider (addr_c.1), RunClient addr_c addr_m) /\
  main LOCALHOST [prog; mode; runner; run_id] =
    Some (runner_of b, factory_of b, mkProvider LOCALHOST, RunServer runner).
Proof.
  intros Hb Hr Hm Hc Hn. unfold main, run_with. simpl. rewrite Hb. cbn [mbind option_bind].
  rewrite Hr, Hm, Hc, Hn. split_and!; reflexivity.
Qed.

(** Nothing else starts: no mode, an unknown one, or more arguments than a master's. *)
Theorem launch_refused LOCALHOST args :
  args !! 1%nat = None \/ (exists s, args !! 1%nat = Some s /\ bench_mode s = None) \/ (6 < length args)%nat ->
  main LOCALHOST args = None.
Proof.
  unfold main. intros [->|[(s & -> & Hs)|Hlen]]; [reflexivity | simpl; now rewrite Hs |].
  destruct (args !! 1%nat) as [s|] eqn:Hs; [|reflexivity]. simpl.
  destruct (bench_mode s); [|reflexivity]. simpl.
  pose proof (length_delete args 1 (mk_is_Some _ _ Hs)) as Hd.
  unfold run_with. repeat case_match; try reflexivity;
    rewrite ?Nat.leb_le, ?Nat.eqb_eq in *; lia.
Qed.
End main.
End Launch.
