(* ===== verification/Helpers.v ===== *)
(** The helpers of the benchmark suite ([src/shared_rust/src/helpers]): the colours of the
    chameneos, and adjacency matrices with the Floyd-Warshall algorithm, on the whole matrix
    and on the blocks of a matrix.

    A panic (an index out of range, a failed assertion, a division by zero) is [None].  Sizes
    are natural numbers: they are those of matrices in memory. *)

From Stdlib Require Import Strings.String.
From S2P Require Import Prelude.

Open Scope nat_scope.

Module Chameneos.

Inductive ChameneosColour := Red | Yellow | Blue | Faded.

Definition for_id (i : nat) : ChameneosColour :=
  match i mod 3 with
  | 0 => Red
  | 1 => Yellow
  | _ => Blue
  end.

Definition complement (self other : ChameneosColour) : ChameneosColour :=
  match self with
  | Red => match other with Red => Red | Yellow => Blue | Blue => Yellow | Faded => Faded end
  | Yellow => match other with Red => Blue | Yellow => Yellow | Blue => Red | Faded => Faded end
  | Blue => match other with Red => Yellow | Yellow => Red | Blue => Blue | Faded => Faded end
  | Faded => Faded
  end.

(** Two creatures agree on their new colour, which is the third one if theirs differ. *)
Lemma complement_spec a b :
  complement a b = complement b a /\
  (a <> Faded -> b <> Faded -> a <> b ->
   complement a b <> a /\ complement a b <> b /\ complement a b <> Faded).
Proof. by destruct a, b. Qed.
End Chameneos.

Module Graphs.

(** [PartialOrd]'s [>] and [Add]. *)
Class Numeric (T : Type) := {
  gt : T -> T -> bool;
  add : T -> T -> T }.

(** [for i in 0..n] in a body that may panic. *)
Definition for_range {S} (n : nat) (body : nat -> S -> option S) (s : S) : option S :=
  foldl (fun acc i => s ← acc; body i s) (Some s) (seq 0 n).

Definition div (a b : nat) : option nat := if b =? 0 then None else Some (a / b).
Definition rem (a b : nat) : option nat := if b =? 0 then None else Some (a mod b).

Inductive Phase := Initial | Normal (k : nat).

Definition incremented (p : Phase) : Phase :=
  match p with Initial => Normal 0 | Normal k => Normal (k + 1) end.

Section graph.
Context {T : Type}.

Record Graph := mkGraph {
  data : list (list T);
  formatter : T -> string }.

Definition with_ (data : list (list T)) (formatter : T -> string) : option Graph :=
  row ← data !! 0;
  if length data =? length row then Some (mkGraph data formatter) else None.

Definition num_nodes (g : Graph) : nat := length (data g).

Definition get (g : Graph) (i j : nat) : option T := row ← data g !! i; row !! j.

(** It returns the old value. *)
Definition set (g : Graph) (i j : nat) (v : T) : option (Graph * T) :=
  row ← data g !! i;
  old ← row !! j;
  Some (mkGraph (<[i := <[j := v]> row]> (data g)) (formatter g), old).

Record Block := mkBlock {
  block_id : nat;
  num_blocks_per_dim : nat;
  row_offset : nat;
  col_offset : nat;
  block_size : nat;
  graph : Graph }.

Definition block_with (block_id num_blocks_per_dim row_offset col_offset : nat)
    (data : list (list T)) (formatter : T -> string) : option Block :=
  graph ← with_ data formatter;
  Some (mkBlock block_id num_blocks_per_dim row_offset col_offset (length data) graph).

Definition block_position (b : Block) : option (nat * nat) :=
  i ← div (block_id b) (num_blocks_per_dim b);
  j ← rem (block_id b) (num_blocks_per_dim b);
  Some (i, j).

(** *** Blocks of a graph *)

Definition get_block (g : Graph) (block_id block_size : nat) : option Block :=
  num_blocks_per_dim ← div (length (data g)) block_size;
  r ← div block_id num_blocks_per_dim;
  c ← rem block_id num_blocks_per_dim;
  let global_start_row := r * block_size in
  let global_start_col := c * block_size in
  block ← mapM (fun i => mapM (fun j => get g (global_start_row + i) (global_start_col + j))
                          (seq 0 block_size)) (seq 0 block_size);
  block_with block_id num_blocks_per_dim global_start_row global_start_col block (formatter g).

Definition break_into_blocks (g : Graph) (block_size : nat) : option (list (list Block)) :=
  r ← rem (length (data g)) block_size;
  if r =? 0 then
    num_blocks_per_dim ← div (length (data g)) block_size;
    mapM (fun i => mapM (fun j => get_block g (i * num_blocks_per_dim + j) block_size)
                     (seq 0 num_blocks_per_dim)) (seq 0 num_blocks_per_dim)
  else None.

Definition assemble_from_blocks (blocks : list (list Block)) : option Graph :=
  blocks0 ← blocks !! 0;
  if length blocks =? length blocks0 then
    block00 ← blocks0 !! 0;
    let block_size := block_size block00 in
    let total_size := length blocks * block_size in
    data ← mapM (fun i => mapM (fun j =>
        block_row ← div i block_size;
        block_col ← div j block_size;
        local_row ← rem i block_size;
        local_col ← rem j block_size;
        row ← blocks !! block_row;
        block ← row !! block_col;
        get (graph block) local_row local_col) (seq 0 total_size)) (seq 0 total_size);
    with_ data (formatter (graph block00))
  else None.

(** *** Floyd-Warshall *)

Context `{Numeric T}.

Definition fw_cell (k i j : nat) (g : Graph) : option Graph :=
  a ← get g i k;
  b ← get g k j;
  let new_value := add a b in
  c ← get g i j;
  if gt c new_value then '(g, _) ← set g i j new_value; Some g else Some g.

Definition compute_floyd_warshall (g : Graph) : option Graph :=
  for_range (length (data g)) (fun k g =>
    for_range (length (data g)) (fun i g =>
      for_range (length (data g)) (fun j g => fw_cell k i j g) g) g) g.

(** [neighbours] panics on the number of a block that does not exist. *)
Definition element_at (b : Block) (row col : nat) (neighbours : nat -> option Block) : option T :=
  r ← div row (block_size b);
  c ← div col (block_size b);
  let dest_block_id := r * num_blocks_per_dim b + c in
  local_row ← rem row (block_size b);
  local_col ← rem col (block_size b);
  if dest_block_id =? block_id b then get (graph b) local_row local_col
  else block ← neighbours dest_block_id; get (graph block) local_row local_col.

Definition set_graph (b : Block) (g : Graph) : Block :=
  mkBlock (block_id b) (num_blocks_per_dim b) (row_offset b) (col_offset b) (block_size b) g.

Definition fw_block_cell (neighbours : nat -> option Block) (k i j : nat) (b : Block)
    : option Block :=
  let global_i := row_offset b + i in
  let global_j := col_offset b + j in
  dist1 ← element_at b global_i k neighbours;
  dist2 ← element_at b k global_j neighbours;
  let new_value := add dist1 dist2 in
  c ← get (graph b) i j;
  if gt c new_value then
    '(g, _) ← set (graph b) i j new_value; Some (set_graph b g)
  else Some b.

Definition compute_floyd_warshall_inner (neighbours : nat -> option Block) (k : nat) (b : Block)
    : option Block :=
  for_range (length (data (graph b))) (fun i b =>
    for_range (length (data (graph b))) (fun j b => fw_block_cell neighbours k i j b) b) b.

(** The block with this number, as the test looks it up. *)
Definition lookup_fun (old_blocks : list (list Block)) (block_id : nat) : option Block :=
  i ← div block_id (length old_blocks);
  j ← rem block_id (length old_blocks);
  row ← old_blocks !! i;
  row !! j.

(** Every phase works on the blocks of the phase before. *)
Definition compute_blocks (n : nat) (blocks : list (list Block)) : option (list (list Block)) :=
  for_range n (fun k old_blocks =>
    mapM (mapM (compute_floyd_warshall_inner (lookup_fun old_blocks) k)) old_blocks) blocks.

(** Break, compute and assemble. *)
Definition blocked_floyd_warshall (g : Graph) (block_size : nat) : option Graph :=
  blocks ← break_into_blocks g block_size;
  blocks ← compute_blocks (num_nodes g) blocks;
  assemble_from_blocks blocks.
End graph.
Arguments Graph : clear implicits.
Arguments Block : clear implicits.

(** ** Matrices *)

(** What a graph holds: the matrix [f] of size [n]. *)
Record holds {T} (n : nat) (d : list (list T)) (f : nat -> nat -> T) : Prop := {
  holds_rows : length d = n;
  holds_cols : forall i row, d !! i = Some row -> length row = n;
  holds_at : forall i j, i < n -> j < n -> (row ← d !! i; row !! j) = Some (f i j) }.

Section matrices.
Context {T : Type}.
Implicit Types (d : list (list T)) (f : nat -> nat -> T).

Lemma holds_get n g f i j : holds n (data g) f -> i < n -> j < n -> get g i j = Some (f i j).
Proof. intros Hh Hi Hj. exact (holds_at _ _ _ Hh i j Hi Hj). Qed.

Lemma holds_ext n d f f' :
  (forall i j, i < n -> j < n -> f i j = f' i j) -> holds n d f -> holds n d f'.
Proof. intros Hf [Hr Hc Ha]. constructor; try done. intros i j Hi Hj. rewrite <- Hf by done. by apply Ha. Qed.

(** A matrix has one value. *)
Lemma holds_inj n d d' f : holds n d f -> holds n d' f -> d = d'.
Proof.
  intros [Hr Hc Ha] [Hr' Hc' Ha']. apply list_eq. intros i.
  destruct (Nat.lt_ge_cases i n) as [Hi|Hi].
  2:{ rewrite !lookup_ge_None_2 by lia. done. }
  destruct (lookup_lt_is_Some_2 d i) as [row Hrow]; [lia|].
  destruct (lookup_lt_is_Some_2 d' i) as [row' Hrow']; [lia|]. rewrite Hrow, Hrow'. f_equal.
  apply list_eq. intros j. destruct (Nat.lt_ge_cases j n) as [Hj|Hj].
  2:{ rewrite !lookup_ge_None_2; [done|rewrite (Hc' i row') by done; lia|rewrite (Hc i row) by done; lia]. }
  pose proof (Ha i j Hi Hj) as H1. rewrite Hrow in H1. pose proof (Ha' i j Hi Hj) as H2.
  rewrite Hrow' in H2. simpl in *. congruence.
Qed.

Definition update f (i j : nat) (v : T) : nat -> nat -> T :=
  fun i' j' => if (i' =? i) && (j' =? j) then v else f i' j'.

Lemma holds_set n g f i j v :
  holds n (data g) f -> i < n -> j < n ->
  exists g' old, set g i j v = Some (g', old) /\ formatter g' = formatter g /\
    holds n (data g') (update f i j v).
Proof.
  intros [Hr Hc Ha] Hi Hj. unfold set.
  destruct (lookup_lt_is_Some_2 (data g) i) as [row Hrow]; [lia|]. pose proof (Hc _ _ Hrow) as Hlen.
  destruct (lookup_lt_is_Some_2 row j) as [old Hold]; [lia|]. rewrite Hrow. simpl. rewrite Hold. simpl.
  eexists _, _. split; [done|]. split; [done|]. constructor; simpl.
  - by rewrite length_insert.
  - intros i' row' [(-> & <- & _)|[_ H']]%list_lookup_insert_Some; [by rewrite length_insert|by eapply Hc].
  - intros i' j' Hi' Hj'. unfold update. destruct (Nat.eqb_spec i' i) as [->|Hne]; simpl.
    + rewrite list_lookup_insert_eq by lia. simpl. destruct (Nat.eqb_spec j' j) as [->|Hne'].
      * by rewrite list_lookup_insert_eq by lia.
      * rewrite list_lookup_insert_ne by done. pose proof (Ha i j' Hi Hj') as H1. by rewrite Hrow in H1.
    + rewrite list_lookup_insert_ne by done. by apply Ha.
Qed.

(** A matrix built row by row. *)
Lemma mapM_seq {A} (h : nat -> option A) (v : nat -> A) n :
  (forall i, i < n -> h i = Some (v i)) -> mapM h (seq 0 n) = Some (map v (seq 0 n)).
Proof.
  intros Hh. apply mapM_Some_2. apply Forall2_fmap_r, Forall2_same_length_lookup.
  split; [done|]. intros i x y Hx Hy. assert (x = y) as <- by congruence.
  apply lookup_seq in Hx as [-> Hlt]. by apply Hh.
Qed.

Lemma mapM_matrix (h : nat -> nat -> option T) f n :
  (forall i j, i < n -> j < n -> h i j = Some (f i j)) ->
  exists d, mapM (fun i => mapM (h i) (seq 0 n)) (seq 0 n) = Some d /\ holds n d f.
Proof.
  intros Hh. exists (map (fun i => map (f i) (seq 0 n)) (seq 0 n)). split.
  - apply mapM_seq. intros i Hi. apply mapM_seq. auto.
  - constructor.
    + by rewrite length_map, length_seq.
    + intros i row Hrow. apply list_lookup_fmap_Some in Hrow as (x & -> & _). by rewrite length_map, length_seq.
    + intros i j Hi Hj. rewrite list_lookup_fmap, lookup_seq_lt by done. simpl.
      by rewrite list_lookup_fmap, lookup_seq_lt by done.
Qed.

Lemma with_holds n d f fmt : 0 < n -> holds n d f -> with_ d fmt = Some (mkGraph d fmt).
Proof.
  intros Hn [Hr Hc _]. unfold with_. destruct (lookup_lt_is_Some_2 d 0) as [row Hrow]; [lia|].
  rewrite Hrow. simpl. rewrite (Hc _ _ Hrow), Hr. by rewrite Nat.eqb_refl.
Qed.

(** A loop whose body keeps an invariant returns. *)
Lemma for_range_ind {S} (P : nat -> S -> Prop) n body (s : S) :
  P 0 s -> (forall i s, i < n -> P i s -> exists s', body i s = Some s' /\ P (i + 1) s') ->
  exists s', for_range n body s = Some s' /\ P n s'.
Proof.
  intros H0 Hstep. unfold for_range.
  assert (Hgen : forall m i s, m + i = n -> P i s ->
    exists s', foldl (fun acc i => s ← acc; body i s) (Some s) (seq i m) = Some s' /\ P n s').
  { induction m as [|m IH]; intros i t Hm Ht; simpl in *; [subst; by exists t|].
    destruct (Hstep i t ltac:(lia) Ht) as (t' & Hb & Ht'). simpl. rewrite Hb.
    apply (IH (Datatypes.S i)); [lia|]. by rewrite <- Nat.add_1_r. }
  by apply (Hgen n 0).
Qed.
End matrices.

(** ** A phase *)

(** The laws that a phase needs: sums of weights are weights, and not smaller than their
    parts.  Non-negative numbers of type [f64] have them, rounding included. *)
Class Extensive (T : Type) `{Numeric T} (weight : T -> Prop) := {
  weight_add a b : weight a -> weight b -> weight (add a b);
  add_extensive_l a b : weight a -> weight b -> gt a (add a b) = false;
  add_extensive_r a b : weight a -> weight b -> gt b (add a b) = false }.

Section phases.
Context {T : Type} `{Extensive T weight}.
Implicit Types (f : nat -> nat -> T).

Definition phase (k : nat) f (i j : nat) : T :=
  if gt (f i j) (add (f i k) (f k j)) then add (f i k) (f k j) else f i j.

(** The matrix after the phases below [k]. *)
Fixpoint phases (k : nat) f : nat -> nat -> T :=
  match k with O => f | S k => phase k (phases k f) end.

Definition weights (n : nat) f : Prop := forall i j, i < n -> j < n -> weight (f i j).

Lemma phase_row n f k j : weights n f -> k < n -> j < n -> phase k f k j = f k j.
Proof.
  intros Hw Hk Hj. unfold phase. rewrite add_extensive_r by (by apply Hw). done.
Qed.

Lemma phase_col n f k i : weights n f -> k < n -> i < n -> phase k f i k = f i k.
Proof.
  intros Hw Hk Hi. unfold phase. rewrite add_extensive_l by (by apply Hw). done.
Qed.

Lemma phase_weights n f k : weights n f -> k < n -> weights n (phase k f).
Proof.
  intros Hw Hk i j Hi Hj. unfold phase. destruct (gt _ _); [|by apply Hw].
  by apply weight_add; apply Hw.
Qed.

Lemma phases_weights n f k : weights n f -> k <= n -> weights n (phases k f).
Proof.
  intros Hw. induction k as [|k IH]; intros Hk; [done|]. simpl. apply phase_weights; [apply IH; lia|lia].
Qed.

(** A matrix in progress: the cells before [(i, j)] have the values [p], the others [f]. *)
Definition before (i j i' j' : nat) : bool := (i' <? i) || ((i' =? i) && (j' <? j)).
Definition mixed (p f : nat -> nat -> T) (i j : nat) : nat -> nat -> T :=
  fun i' j' => if before i j i' j' then p i' j' else f i' j'.

Lemma before_refl i j : before i j i j = false.
Proof. unfold before. rewrite Nat.ltb_irrefl, Nat.eqb_refl, Nat.ltb_irrefl. done. Qed.

Lemma mixed_same p f i j i' j' : p i' j' = f i' j' -> mixed p f i j i' j' = f i' j'.
Proof. unfold mixed. by destruct (before i j i' j'). Qed.

Lemma mixed_step p f i j i' j' :
  mixed p f i (j + 1) i' j' = update (mixed p f i j) i j (p i j) i' j'.
Proof.
  unfold mixed, update, before.
  destruct (Nat.eqb_spec i' i) as [->|]; destruct (Nat.eqb_spec j' j) as [->|]; simpl.
  - destruct (Nat.ltb_spec i i); [lia|]. destruct (Nat.ltb_spec j (j + 1)); [done|lia].
  - destruct (Nat.ltb_spec i i); [lia|]. simpl.
    destruct (Nat.ltb_spec j' (j + 1)), (Nat.ltb_spec j' j); done || lia.
  - done.
  - done.
Qed.

Lemma mixed_next p f n i i' j' : j' < n -> mixed p f i n i' j' = mixed p f (i + 1) 0 i' j'.
Proof.
  intros Hj. unfold mixed, before. destruct (Nat.ltb_spec i' i), (Nat.eqb_spec i' i),
    (Nat.ltb_spec i' (i + 1)), (Nat.ltb_spec j' n), (Nat.eqb_spec i' (i + 1)); simpl; done || lia.
Qed.

Lemma mixed_start p f i' j' : mixed p f 0 0 i' j' = f i' j'.
Proof. unfold mixed, before. destruct (Nat.eqb_spec i' 0); simpl; done. Qed.

Lemma mixed_end p f n i' j' : i' < n -> mixed p f n 0 i' j' = p i' j'.
Proof. intros Hi. unfold mixed, before. by rewrite (proj2 (Nat.ltb_lt _ _)). Qed.

(** One cell. *)
Lemma cell_update n p f i j g v :
  holds n (data g) (mixed p f i j) -> i < n -> j < n ->
  p i j = (if gt (f i j) v then v else f i j) ->
  exists g', (c ← get g i j; if gt c v then '(g, _) ← set g i j v; Some g else Some g) = Some g' /\
    formatter g' = formatter g /\ holds n (data g') (mixed p f i (j + 1)).
Proof.
  intros Hh Hi Hj Hp. rewrite (holds_get _ _ _ i j Hh Hi Hj). simpl.
  assert (E1 : mixed p f i j i j = f i j) by (unfold mixed; by rewrite before_refl). rewrite E1.
  destruct (gt (f i j) v) eqn:Hgt.
  - destruct (holds_set n g _ i j v Hh Hi Hj) as (g' & old & -> & Hf & Hh').
    exists g'. split; [done|]. split; [done|]. eapply holds_ext; [|exact Hh'].
    intros i' j' _ _. by rewrite mixed_step, Hp.
  - exists g. split; [done|]. split; [done|]. eapply holds_ext; [|exact Hh].
    intros i' j' _ _. rewrite mixed_step, Hp. unfold update.
    destruct (Nat.eqb_spec i' i) as [->|]; [|done]. destruct (Nat.eqb_spec j' j) as [->|]; [|done].
    by rewrite <- E1.
Qed.

(** The two inner loops, on any state that has a graph. *)
Lemma double_loop {S} (gr : S -> Graph T) (Q : S -> Prop) n p f (body : nat -> nat -> S -> option S) s :
  Q s -> holds n (data (gr s)) f ->
  (forall i j s, i < n -> j < n -> Q s -> holds n (data (gr s)) (mixed p f i j) ->
     exists s', body i j s = Some s' /\ Q s' /\ holds n (data (gr s')) (mixed p f i (j + 1))) ->
  exists s', for_range (length (data (gr s))) (fun i s =>
      for_range (length (data (gr s))) (fun j s => body i j s) s) s = Some s' /\
    Q s' /\ holds n (data (gr s')) p.
Proof.
  intros HQ Hh Hbody. rewrite (holds_rows _ _ _ Hh).
  destruct (for_range_ind (fun i s => Q s /\ holds n (data (gr s)) (mixed p f i 0)) n
    (fun i s => for_range (length (data (gr s))) (fun j s => body i j s) s) s) as (s' & Hs & HQ' & Hh').
  - split; [done|]. eapply holds_ext; [|exact Hh]. intros i j _ _. by rewrite mixed_start.
  - intros i t Hi [HQt Ht]. rewrite (holds_rows _ _ _ Ht).
    destruct (for_range_ind (fun j s => Q s /\ holds n (data (gr s)) (mixed p f i j)) n
      (fun j s => body i j s) t) as (t' & Ht' & HQt' & Hht'); [done| |].
    + intros j u Hj [HQu Hu]. destruct (Hbody i j u Hi Hj HQu Hu) as (u' & Hb & HQu' & Hu'). by exists u'.
    + exists t'. split; [done|]. split; [done|]. eapply holds_ext; [|exact Hht'].
      intros i' j' _ Hj'. by apply mixed_next.
  - exists s'. split; [done|]. split; [done|]. eapply holds_ext; [|exact Hh'].
    intros i' j' Hi' _. by apply mixed_end.
Qed.

Lemma graph_phase n k f g :
  holds n (data g) f -> weights n f -> k < n ->
  exists g', for_range (length (data g)) (fun i g =>
      for_range (length (data g)) (fun j g => fw_cell k i j g) g) g = Some g' /\
    formatter g' = formatter g /\ holds n (data g') (phase k f).
Proof.
  intros Hh Hw Hk.
  destruct (double_loop (fun g => g) (fun g' => formatter g' = formatter g) n (phase k f) f
    (fw_cell k) g) as (g' & Hg & Hf & Hh'); [done|done| |by exists g'].
  intros i j s Hi Hj Hf Hs. unfold fw_cell.
  rewrite (holds_get _ _ _ i k Hs Hi Hk), (holds_get _ _ _ k j Hs Hk Hj). simpl.
  rewrite (mixed_same _ _ _ _ i k) by (by eapply phase_col).
  rewrite (mixed_same _ _ _ _ k j) by (by eapply phase_row).
  destruct (cell_update n (phase k f) f i j s (add (f i k) (f k j)) Hs Hi Hj eq_refl)
    as (s' & Hc & Hf' & Hs'). exists s'. split; [exact Hc|]. split; [congruence|done].
Qed.

(** The loops over a matrix of weights compute the phases. *)
Lemma floyd_warshall_phases n f g :
  holds n (data g) f -> weights n f ->
  exists g', compute_floyd_warshall g = Some g' /\ formatter g' = formatter g /\
    holds n (data g') (phases n f).
Proof.
  intros Hh Hw. unfold compute_floyd_warshall. rewrite (holds_rows _ _ _ Hh).
  apply (for_range_ind (fun k g' => formatter g' = formatter g /\ holds n (data g') (phases k f)));
    [by split; [|exact Hh]|].
  intros k t Hk [Hf Ht].
  destruct (graph_phase n k _ t Ht (phases_weights n f k Hw ltac:(lia)) Hk) as (t' & Hl & Hf' & Ht').
  exists t'. split; [exact Hl|]. split; [congruence|]. rewrite Nat.add_1_r. exact Ht'.
Qed.

(** ** Blocks *)

Lemma div_small_add b q r : r < b -> (q * b + r) / b = q.
Proof. intros Hr. symmetry. apply (Nat.div_unique _ _ _ r); lia. Qed.

Lemma mod_small_add b q r : r < b -> (q * b + r) mod b = r.
Proof. intros Hr. symmetry. apply (Nat.mod_unique _ _ q); lia. Qed.

Lemma div_Some a b : 0 < b -> div a b = Some (a / b).
Proof. intros Hb. unfold div. by destruct (Nat.eqb_spec b 0); [lia|]. Qed.

Lemma rem_Some a b : 0 < b -> rem a b = Some (a mod b).
Proof. intros Hb. unfold rem. by destruct (Nat.eqb_spec b 0); [lia|]. Qed.

(** The position of an index in blocks of size [b]. *)
Lemma div_lt nb b i : 0 < b -> i < nb * b -> i / b < nb.
Proof. intros Hb Hi. apply Nat.Div0.div_lt_upper_bound. lia. Qed.

Lemma mapM_indexed {A B} (h : A -> option B) (P : nat -> B -> Prop) l :
  (forall i a, l !! i = Some a -> exists b, h a = Some b /\ P i b) ->
  exists l', mapM h l = Some l' /\ length l' = length l /\ forall i b, l' !! i = Some b -> P i b.
Proof.
  revert P. induction l as [|a l IH]; intros P Hh; simpl.
  - exists []. split; [done|]. split; [done|]. by intros i b.
  - destruct (Hh 0 a eq_refl) as (b & -> & Hb). simpl.
    destruct (IH (fun i => P (Datatypes.S i))) as (l' & -> & Hl & HP).
    { intros i x Hx. by apply (Hh (Datatypes.S i)). }
    simpl. exists (b :: l'). split; [done|]. split; [simpl; by rewrite Hl|].
    intros [|i] x Hx; simpl in Hx; [by injection Hx as <-|by apply HP].
Qed.

Lemma mapM_compose {A B C} (h : B -> option C) (g : A -> B) l :
  mapM h (map g l) = mapM (fun x => h (g x)) l.
Proof. induction l as [|a l IH]; [done|]. simpl. by rewrite IH. Qed.

(** The block at a position of the matrix [f]. *)
Record block_at (nb bs : nat) (fmt : T -> string) f (bi bj : nat) (b : Block T) : Prop := {
  ba_id : block_id b = bi * nb + bj;
  ba_num : num_blocks_per_dim b = nb;
  ba_row : row_offset b = bi * bs;
  ba_col : col_offset b = bj * bs;
  ba_size : block_size b = bs;
  ba_formatter : formatter (graph b) = fmt;
  ba_holds : holds bs (data (graph b)) (fun i j => f (bi * bs + i) (bj * bs + j)) }.

Record blocks_hold (nb bs : nat) (fmt : T -> string) (blocks : list (list (Block T))) f : Prop := {
  bh_rows : length blocks = nb;
  bh_cols : forall bi row, blocks !! bi = Some row -> length row = nb;
  bh_at : forall bi bj row b, blocks !! bi = Some row -> row !! bj = Some b ->
    block_at nb bs fmt f bi bj b }.

Lemma blocks_lookup nb bs fmt blocks f bi bj :
  blocks_hold nb bs fmt blocks f -> bi < nb -> bj < nb ->
  exists b, (row ← blocks !! bi; row !! bj) = Some b /\ block_at nb bs fmt f bi bj b.
Proof.
  intros [Hr Hc Ha] Hi Hj. destruct (lookup_lt_is_Some_2 blocks bi) as [row Hrow]; [lia|].
  destruct (lookup_lt_is_Some_2 row bj) as [b Hb]; [by rewrite (Hc _ _ Hrow)|].
  exists b. rewrite Hrow. split; [exact Hb|by eapply Ha].
Qed.

(** All blocks are made or changed one by one. *)
Lemma blocks_mapM {A} nb bs fmt f (h : nat -> nat -> A -> option (Block T)) (rows : list (list A)) :
  length rows = nb -> (forall i row, rows !! i = Some row -> length row = nb) ->
  (forall i j row a, rows !! i = Some row -> row !! j = Some a ->
     exists b, h i j a = Some b /\ block_at nb bs fmt f i j b) ->
  forall h', (forall i j row a, rows !! i = Some row -> row !! j = Some a -> h' a = h i j a) ->
  exists blocks, mapM (mapM h') rows = Some blocks /\ blocks_hold nb bs fmt blocks f.
Proof.
  intros Hr Hc Hh h' Heq.
  destruct (mapM_indexed (mapM h') (fun i row => length row = nb /\
    forall j b, row !! j = Some b -> block_at nb bs fmt f i j b) rows) as (blocks & Hm & Hl & Hat).
  - intros i row Hrow. destruct (mapM_indexed h' (block_at nb bs fmt f i) row) as (row' & Hm & Hl & Hat).
    { intros j a Ha. rewrite (Heq i j row a Hrow Ha). by eapply Hh. }
    exists row'. split; [exact Hm|]. split; [|exact Hat]. rewrite Hl. by eapply Hc.
  - exists blocks. split; [exact Hm|]. constructor.
    + by rewrite Hl.
    + intros bi row Hrow. by apply (Hat bi row Hrow).
    + intros bi bj row b Hrow. by apply (Hat bi row Hrow).
Qed.

Lemma get_block_at nb bs f g bi bj :
  0 < bs -> holds (nb * bs) (data g) f -> bi < nb -> bj < nb ->
  exists b, get_block g (bi * nb + bj) bs = Some b /\ block_at nb bs (formatter g) f bi bj b.
Proof.
  intros Hbs Hh Hi Hj. unfold get_block. rewrite (holds_rows _ _ _ Hh), div_Some by done. simpl.
  rewrite Nat.div_mul by lia. rewrite div_Some, rem_Some by lia. simpl.
  rewrite div_small_add, mod_small_add by done.
  destruct (mapM_matrix (fun i j => get g (bi * bs + i) (bj * bs + j))
    (fun i j => f (bi * bs + i) (bj * bs + j)) bs) as (d & Hd & Hdh).
  { intros i j Hi' Hj'. apply (holds_get _ _ _ _ _ Hh); nia. }
  rewrite Hd. simpl. unfold block_with. rewrite (with_holds bs d _ (formatter g) Hbs Hdh). simpl.
  eexists. split; [done|]. constructor; try done. simpl. apply Hdh.
Qed.

Lemma break_blocks nb bs f g :
  0 < bs -> holds (nb * bs) (data g) f ->
  exists blocks, break_into_blocks g bs = Some blocks /\ blocks_hold nb bs (formatter g) blocks f.
Proof.
  intros Hbs Hh. unfold break_into_blocks. rewrite (holds_rows _ _ _ Hh), rem_Some by done. simpl.
  rewrite Nat.Div0.mod_mul. simpl. rewrite div_Some by done. simpl. rewrite Nat.div_mul by lia.
  destruct (blocks_mapM nb bs (formatter g) f
    (fun _ _ (ij : nat * nat) => get_block g (ij.1 * nb + ij.2) bs)
    (map (fun i => map (pair i) (seq 0 nb)) (seq 0 nb))) with
    (h' := fun ij : nat * nat => get_block g (ij.1 * nb + ij.2) bs) as (blocks & Hm & Hbl).
  - by rewrite length_map, length_seq.
  - intros i row Hrow. apply list_lookup_fmap_Some in Hrow as (x & -> & _). by rewrite length_map, length_seq.
  - intros i j row a Hrow Ha. apply list_lookup_fmap_Some in Hrow as (x & -> & Hx).
    apply list_lookup_fmap_Some in Ha as (y & -> & Hy). apply lookup_seq in Hx as [-> Hx], Hy as [-> Hy].
    simpl. by apply get_block_at.
  - done.
  - exists blocks. split; [|exact Hbl]. rewrite <- Hm, mapM_compose. apply mapM_ext. intros i.
    by rewrite mapM_compose.
Qed.

Lemma assemble_blocks nb bs fmt blocks f :
  0 < nb -> 0 < bs -> blocks_hold nb bs fmt blocks f ->
  exists g, assemble_from_blocks blocks = Some g /\ formatter g = fmt /\ holds (nb * bs) (data g) f.
Proof.
  intros Hnb Hbs Hbl. unfold assemble_from_blocks.
  destruct (blocks_lookup _ _ _ _ _ 0 0 Hbl Hnb Hnb) as (b00 & H00 & Hb00).
  destruct (blocks !! 0) as [row0|] eqn:Hrow0; [|done]. simpl in H00 |- *.
  rewrite (bh_rows _ _ _ _ _ Hbl), (bh_cols _ _ _ _ _ Hbl _ _ Hrow0), Nat.eqb_refl, H00. simpl.
  rewrite (ba_size _ _ _ _ _ _ _ Hb00).
  destruct (mapM_matrix (fun i j =>
      block_row ← div i bs; block_col ← div j bs; local_row ← rem i bs; local_col ← rem j bs;
      row ← blocks !! block_row; block ← row !! block_col;
      get (graph block) local_row local_col) f (nb * bs)) as (d & Hd & Hdh).
  - intros i j Hi Hj. rewrite !div_Some, !rem_Some by done. simpl.
    destruct (blocks_lookup _ _ _ _ _ (i / bs) (j / bs) Hbl) as (b & Hb & Hba); [by apply div_lt..|].
    destruct (blocks !! (i / bs)) as [row|]; [|done]. simpl in Hb |- *. rewrite Hb. simpl.
    rewrite (holds_get _ _ _ (i mod bs) (j mod bs) (ba_holds _ _ _ _ _ _ _ Hba))
      by (apply Nat.mod_upper_bound; lia).
    f_equal. f_equal; symmetry; rewrite Nat.mul_comm; apply Nat.div_mod_eq.
  - rewrite Hd. simpl. rewrite (with_holds (nb * bs) d f) by (try done; nia).
    eexists. split; [done|]. split; [apply (ba_formatter _ _ _ _ _ _ _ Hb00)|done].
Qed.

(** An element is found in the block itself or in a neighbour. *)
Lemma element_at_spec nb bs fmt blocks f bi bj b m i j row col :
  0 < bs -> blocks_hold nb bs fmt blocks f -> bi < nb -> bj < nb ->
  row < nb * bs -> col < nb * bs ->
  block_id b = bi * nb + bj -> num_blocks_per_dim b = nb -> block_size b = bs ->
  holds bs (data (graph b)) (mixed m (fun i j => f (bi * bs + i) (bj * bs + j)) i j) ->
  (row / bs = bi -> col / bs = bj -> m (row mod bs) (col mod bs) = f row col) ->
  element_at b row col (lookup_fun blocks) = Some (f row col).
Proof.
  intros Hbs Hbl Hi Hj Hrow Hcol Hid Hnum Hsize Hh Hm. unfold element_at.
  rewrite Hsize, Hnum, Hid, !div_Some, !rem_Some by done. simpl.
  pose proof (div_lt nb bs row Hbs Hrow). pose proof (div_lt nb bs col Hbs Hcol).
  pose proof (Nat.mod_upper_bound row bs ltac:(lia)). pose proof (Nat.mod_upper_bound col bs ltac:(lia)).
  assert (Hr : row / bs * bs + row mod bs = row) by (rewrite Nat.mul_comm; symmetry; apply Nat.div_mod_eq).
  assert (Hc : col / bs * bs + col mod bs = col) by (rewrite Nat.mul_comm; symmetry; apply Nat.div_mod_eq).
  destruct (Nat.eqb_spec (row / bs * nb + col / bs) (bi * nb + bj)) as [Heq|Hne].
  - assert (E1 : row / bs = bi).
    { rewrite <- (div_small_add nb (row / bs) (col / bs)), <- (div_small_add nb bi bj) by done. by rewrite Heq. }
    assert (E2 : col / bs = bj) by (rewrite E1 in Heq; lia).
    rewrite (holds_get _ _ _ _ _ Hh) by done. f_equal. rewrite mixed_same.
    + by rewrite <- E1, <- E2, Hr, Hc.
    + rewrite Hm by done. by rewrite <- E1, <- E2, Hr, Hc.
  - unfold lookup_fun. rewrite (bh_rows _ _ _ _ _ Hbl), div_Some, rem_Some by lia. simpl.
    rewrite div_small_add, mod_small_add by done.
    destruct (blocks_lookup _ _ _ _ _ (row / bs) (col / bs) Hbl) as (b' & Hb' & Hba'); [done..|].
    destruct (blocks !! (row / bs)) as [r|]; [|done]. simpl in Hb' |- *. rewrite Hb'. simpl.
    rewrite (holds_get _ _ _ _ _ (ba_holds _ _ _ _ _ _ _ Hba')) by done. by rewrite Hr, Hc.
Qed.

(** A block in a phase. *)
Lemma block_phase nb bs fmt blocks f k bi bj b :
  0 < bs -> blocks_hold nb bs fmt blocks f -> weights (nb * bs) f -> k < nb * bs ->
  bi < nb -> bj < nb -> block_at nb bs fmt f bi bj b ->
  exists b', compute_floyd_warshall_inner (lookup_fun blocks) k b = Some b' /\
    block_at nb bs fmt (phase k f) bi bj b'.
Proof.
  intros Hbs Hbl Hw Hk Hi Hj [Hid Hnum Hro Hco Hsize Hfmt Hh].
  set (p := fun i j => phase k f (bi * bs + i) (bj * bs + j)).
  destruct (double_loop graph (fun b' => block_id b' = bi * nb + bj /\ num_blocks_per_dim b' = nb /\
      row_offset b' = bi * bs /\ col_offset b' = bj * bs /\ block_size b' = bs /\
      formatter (graph b') = fmt) bs p (fun i j => f (bi * bs + i) (bj * bs + j)) (fw_block_cell (lookup_fun blocks) k) b)
    as (b' & Hb' & (Hid' & Hnum' & Hro' & Hco' & Hsize' & Hfmt') & Hh'); [by split_and!|exact Hh| |].
  2:{ exists b'. split; [exact Hb'|]. by constructor. }
  intros i j s Hi' Hj' (Hid' & Hnum' & Hro' & Hco' & Hsize' & Hfmt') Hs. unfold fw_block_cell.
  rewrite Hro', Hco'.
  assert (Hri : bi * bs + i < nb * bs) by nia. assert (Hcj : bj * bs + j < nb * bs) by nia.
  rewrite (element_at_spec nb bs fmt blocks f bi bj s p i j (bi * bs + i) k); try done.
  2:{ rewrite div_small_add, mod_small_add by done. intros _ Ek. unfold p. rewrite <- Ek.
      replace (k / bs * bs + k mod bs) with k
        by (rewrite Nat.mul_comm; apply Nat.div_mod_eq). by eapply phase_col. }
  rewrite (element_at_spec nb bs fmt blocks f bi bj s p i j k (bj * bs + j)); try done.
  2:{ rewrite div_small_add, mod_small_add by done. intros Ek _. unfold p. rewrite <- Ek.
      replace (k / bs * bs + k mod bs) with k
        by (rewrite Nat.mul_comm; apply Nat.div_mod_eq). by eapply phase_row. }
  simpl. destruct (cell_update bs p (fun i j => f (bi * bs + i) (bj * bs + j)) i j (graph s)
    (add (f (bi * bs + i) k) (f k (bj * bs + j))) Hs Hi' Hj' eq_refl) as (g' & Hc & Hf' & Hg').
  destruct (get (graph s) i j) as [c|]; [|done]. simpl in Hc |- *.
  destruct (gt c _).
  - destruct (set (graph s) i j _) as [[g1 old]|]; [|done]. simpl in Hc |- *. injection Hc as ->.
    eexists. split; [done|]. simpl. split_and!; try done. congruence.
  - injection Hc as <-. exists s. by split_and!.
Qed.

(** All phases, on all blocks. *)
Lemma blocks_phases nb bs fmt blocks f :
  0 < bs -> blocks_hold nb bs fmt blocks f -> weights (nb * bs) f ->
  exists blocks', compute_blocks (nb * bs) blocks = Some blocks' /\
    blocks_hold nb bs fmt blocks' (phases (nb * bs) f).
Proof.
  intros Hbs Hbl Hw. unfold compute_blocks.
  apply (for_range_ind (fun k bl => blocks_hold nb bs fmt bl (phases k f))); [exact Hbl|].
  intros k bl Hk Hbk. rewrite Nat.add_1_r. simpl.
  apply (blocks_mapM nb bs fmt _ (fun _ _ => compute_floyd_warshall_inner (lookup_fun bl) k) bl); [apply Hbk..| |done].
  intros bi bj row b Hrow Hb.
  assert (Hbi : bi < nb) by (rewrite <- (bh_rows _ _ _ _ _ Hbk); by eapply lookup_lt_Some).
  assert (Hbj : bj < nb) by (rewrite <- (bh_cols _ _ _ _ _ Hbk _ _ Hrow); by eapply lookup_lt_Some).
  eapply block_phase; try done; [by apply phases_weights; [|lia]|by eapply bh_at].
Qed.

(** C27: the computation on blocks is the computation on the whole matrix: breaking a square
    matrix into blocks never panics if the size of a block divides that of the matrix, the
    blocks are assembled to the same graph, and all phases on the blocks, each with the
    neighbours of the phase before, give after assembly exactly what the three loops in place
    give.  Of the weights only closure and extensiveness are used, so this holds of
    non-negative [f64] weights. *)
Theorem blocked_floyd_warshall_equiv nb bs f (g : Graph T) :
  0 < nb -> 0 < bs -> holds (nb * bs) (data g) f -> weights (nb * bs) f ->
  (blocks ← break_into_blocks g bs; assemble_from_blocks blocks) = Some g /\
  exists g', compute_floyd_warshall g = Some g' /\ blocked_floyd_warshall g bs = Some g'.
Proof.
  intros Hnb Hbs Hh Hw. unfold blocked_floyd_warshall, num_nodes. rewrite (holds_rows _ _ _ Hh).
  destruct (break_blocks nb bs f g Hbs Hh) as (blocks & -> & Hbl). simpl. split.
  - destruct (assemble_blocks _ _ _ _ _ Hnb Hbs Hbl) as ([d fmt] & -> & Hfmt & Hd). simpl in *.
    destruct g as [d0 fmt0]. simpl in *. rewrite Hfmt. by rewrite (holds_inj _ _ _ _ Hd Hh).
  - destruct (floyd_warshall_phases _ f g Hh Hw) as ([d fmt] & -> & Hfmt & Hd).
    destruct (blocks_phases nb bs _ blocks f Hbs Hbl Hw) as (blocks' & -> & Hbl'). simpl.
    destruct (assemble_blocks _ _ _ _ _ Hnb Hbs Hbl') as ([d' fmt'] & -> & Hfmt' & Hd').
    eexists. split; [done|]. simpl in *. rewrite Hfmt, Hfmt'. by rewrite (holds_inj _ _ _ _ Hd Hd').
Qed.
End phases.

(** ** Shortest walks *)

(** Weights that are ordered and can be summed along a walk. *)
Class PathWeights (T : Type) `{Extensive T weight} := {
  gt_asym a b : weight a -> weight b -> gt a b = true -> gt b a = false;
  le_trans a b c : weight a -> weight b -> weight c ->
    gt a b = false -> gt b c = false -> gt a c = false;
  add_mono a b c d : weight a -> weight b -> weight c -> weight d ->
    gt a b = false -> gt c d = false -> gt (add a c) (add b d) = false;
  add_assoc a b c : weight a -> weight b -> weight c -> add a (add b c) = add (add a b) c }.

Section shortest.
Context {T : Type} `{PathWeights T}.
Implicit Types (f : nat -> nat -> T).

Notation weights := (weights (weight := weight)).

Definition below (n : nat) (l : list nat) : Prop := Forall (fun x => x < n) l.

(** The weight of the walk from [i] to [j] by the nodes [l]. *)
Fixpoint walk f (i : nat) (l : list nat) (j : nat) : T :=
  match l with
  | [] => f i j
  | x :: l => add (f i x) (walk f x l j)
  end.

Lemma walk_weight n f l i j :
  weights n f -> i < n -> j < n -> below n l -> weight (walk f i l j).
Proof.
  intros Hw Hi Hj Hl. revert i Hi. induction Hl as [|x l Hx Hl IH]; intros i Hi; simpl; [by apply Hw|].
  apply weight_add; [by apply Hw|by apply IH].
Qed.

Lemma walk_app n f l1 x l2 i j :
  weights n f -> i < n -> j < n -> x < n -> below n l1 -> below n l2 ->
  walk f i (l1 ++ x :: l2) j = add (walk f i l1 x) (walk f x l2 j).
Proof.
  intros Hw Hi Hj Hx Hl1 Hl2. revert i Hi. induction Hl1 as [|y l1 Hy Hl1 IH]; intros i Hi; simpl; [done|].
  rewrite IH by done. apply add_assoc; [by apply Hw|by eapply walk_weight..].
Qed.

Lemma gt_refl a : weight a -> gt a a = false.
Proof. intros Ha. destruct (gt a a) eqn:E1; [|done]. by pose proof (gt_asym a a Ha Ha E1); congruence. Qed.

(** A phase does not make a weight larger. *)
Lemma phase_le n f k i j :
  weights n f -> k < n -> i < n -> j < n ->
  gt (phase k f i j) (f i j) = false /\ gt (phase k f i j) (add (f i k) (f k j)) = false.
Proof.
  intros Hw Hk Hi Hj. unfold phase.
  assert (weight (add (f i k) (f k j))) by (by apply weight_add; apply Hw).
  assert (weight (f i j)) by (by apply Hw).
  destruct (gt (f i j) (add (f i k) (f k j))) eqn:E1.
  - split; [by apply gt_asym|by apply gt_refl].
  - split; [by apply gt_refl|done].
Qed.

(** After the phases below [k] every entry is the weight of a walk by nodes below [k]. *)
Lemma phases_walk n f k i j :
  weights n f -> k <= n -> i < n -> j < n -> exists l, below k l /\ phases k f i j = walk f i l j.
Proof.
  intros Hw. revert i j. induction k as [|k IH]; intros i j Hk Hi Hj; simpl; [exists []; by split; [constructor|]|].
  assert (Hup : forall l, below k l -> below (S k) l).
  { intros l Hl. eapply Forall_impl; [exact Hl|]. simpl. lia. }
  unfold phase. destruct (gt _ _).
  - destruct (IH i k ltac:(lia) Hi ltac:(lia)) as (l1 & Hl1 & ->).
    destruct (IH k j ltac:(lia) ltac:(lia) Hj) as (l2 & Hl2 & ->).
    exists (l1 ++ k :: l2). split.
    + apply Forall_app. split; [by apply Hup|]. constructor; [lia|by apply Hup].
    + symmetry. apply (walk_app n); try done; try lia; (eapply Forall_impl; [done|simpl; lia]).
  - destruct (IH i j ltac:(lia) Hi Hj) as (l & Hl & ->). exists l. by split; [apply Hup|].
Qed.

(** No walk by nodes below [k] is lighter. *)
Lemma phases_least n f : weights n f -> forall k, k <= n ->
  forall l i j, i < n -> j < n -> below k l -> gt (phases k f i j) (walk f i l j) = false.
Proof.
  intros Hw. induction k as [|k IHk]; intros Hk l i j Hi Hj Hl.
  - destruct Hl as [|x l Hx _]; [|lia]. simpl. apply gt_refl. by apply Hw.
  - assert (Hwk : weights n (phases k f)) by (apply phases_weights; [done|lia]).
    assert (Hws : weights n (phases (S k) f)) by (by apply phases_weights).
    assert (Hbn : forall m l, m <= n -> below m l -> below n l).
    { intros m l' Hm Hl'. eapply Forall_impl; [exact Hl'|]. simpl. lia. }
    revert i Hi. induction l as [l IHl] using (induction_ltof1 _ (@length nat)). unfold ltof in IHl.
    intros i Hi. destruct (decide (k ∈ l)) as [Hin|Hnin].
    + apply list_elem_of_split_l in Hin as (l1 & l2 & -> & Hk1).
      apply Forall_app in Hl as [Hl1 Hl2]. apply Forall_cons in Hl2 as [_ Hl2].
      assert (Hl1k : below k l1).
      { apply Forall_forall. intros x Hx. pose proof (proj1 (Forall_forall _ _) Hl1 x Hx) as Hlt. simpl in Hlt.
        assert (x <> k) by (by intros ->). lia. }
      rewrite (walk_app n) by (try done; try lia; by eapply (Hbn (S k))).
      eapply (le_trans _ (add (phases k f i k) (phases k f k j))).
      * by apply Hws.
      * apply weight_add; apply Hwk; lia.
      * apply weight_add; apply (walk_weight n); try done; try lia; by eapply (Hbn (S k)).
      * apply (phase_le n); try done; lia.
      * apply add_mono; try (apply Hwk; lia);
          try (apply (walk_weight n); try done; try lia; by eapply (Hbn (S k))).
        -- apply IHk; try done; lia.
        -- replace (phases k f k j) with (phases (S k) f k j) by (apply (phase_row n); try done; lia).
           apply (IHl l2); [rewrite length_app; simpl; lia|done|lia].
    + assert (Hlk : below k l).
      { apply Forall_forall. intros x Hx. pose proof (proj1 (Forall_forall _ _) Hl x Hx) as Hlt. simpl in Hlt.
        assert (x <> k) by (by intros ->). lia. }
      eapply (le_trans _ (phases k f i j)).
      * by apply Hws.
      * by apply Hwk.
      * apply (walk_weight n); try done. by eapply (Hbn (S k)).
      * apply (phase_le n); try done; lia.
      * apply IHk; try done; lia.
Qed.

(** The Floyd-Warshall computation is correct: on a square matrix of weights it never
    panics, and every entry of the result is the weight of some walk between its nodes, and no
    walk is lighter. *)
Theorem floyd_warshall_shortest n f (g : Graph T) :
  holds n (data g) f -> weights n f ->
  exists g', compute_floyd_warshall g = Some g' /\ num_nodes g' = n /\
    forall i j, i < n -> j < n -> exists v, get g' i j = Some v /\
      (exists l, below n l /\ v = walk f i l j) /\
      forall l, below n l -> gt v (walk f i l j) = false.
Proof.
  intros Hh Hw. destruct (floyd_warshall_phases n f g Hh Hw) as (g' & Hg & _ & Hd).
  exists g'. split; [exact Hg|]. split; [apply (holds_rows _ _ _ Hd)|].
  intros i j Hi Hj. exists (phases n f i j). split; [by apply (holds_get n)|]. split.
  - by apply (phases_walk n).
  - intros l Hl. by apply (phases_least n).
Qed.
End shortest.

(** ** Examples *)

(** Natural numbers and infinity. *)
Definition Distance : Type := option N.

#[export] Instance distance_numeric : Numeric Distance := {
  gt a b := match a, b with
            | None, Some _ => true
            | Some a, Some b => (b <? a)%N
            | _, None => false
            end;
  add a b := a ← a; b ← b; Some (a + b)%N }.

#[export] Instance distance_extensive : Extensive Distance (fun _ => True).
Proof.
  constructor; [done|..]; intros [a|] [b|] _ _; simpl; try done; apply N.ltb_ge; lia.
Qed.

#[export] Instance distance_paths : PathWeights Distance.
Proof.
  constructor.
  - intros [a|] [b|] _ _; simpl; try done. rewrite N.ltb_lt, N.ltb_ge. lia.
  - intros [a|] [b|] [c|] _ _ _; simpl; try done. rewrite !N.ltb_ge. lia.
  - intros [a|] [b|] [c|] [d|] _ _ _ _; simpl; try done. rewrite !N.ltb_ge. lia.
  - intros [a|] [b|] [c|] _ _ _; simpl; try done. by rewrite N.add_assoc.
Qed.

Module GraphsExample.
Definition entry (i j : nat) : Distance :=
  nth j (nth i [[Some 0; Some 5; None; None]; [None; Some 0; Some 2; None];
                [Some 1; None; Some 0; Some 7]; [None; Some 1; None; Some 0]]%N []) None.
Definition graph : Graph Distance :=
  mkGraph (map (fun i => map (entry i) (seq 0 4)) (seq 0 4)) (fun _ => ""%string).
End GraphsExample.

Lemma holds_rows_of {T} n (f : nat -> nat -> T) : holds n (map (fun i => map (f i) (seq 0 n)) (seq 0 n)) f.
Proof.
  destruct (mapM_matrix (fun i j => Some (f i j)) f n) as (d & Hd & Hh); [done|].
  rewrite (mapM_seq _ (fun i => map (f i) (seq 0 n))) in Hd by (intros i _; by apply mapM_seq).
  by injection Hd as <-.
Qed.

Lemma blocked_floyd_warshall_equiv_witness :
  exists g', compute_floyd_warshall GraphsExample.graph = Some g' /\
    blocked_floyd_warshall GraphsExample.graph 2 = Some g'.
Proof.
  apply (blocked_floyd_warshall_equiv 2 2 GraphsExample.entry GraphsExample.graph).
  - lia.
  - lia.
  - apply (holds_rows_of 4).
  - done.
Defined.

Lemma floyd_warshall_shortest_witness :
  exists g' v, compute_floyd_warshall GraphsExample.graph = Some g' /\ get g' 0 3 = Some v /\
    exists l, v = walk GraphsExample.entry 0 l 3.
Proof.
  destruct (floyd_warshall_shortest 4 GraphsExample.entry GraphsExample.graph) as (g' & Hg & _ & Hall).
  - apply (holds_rows_of 4).
  - done.
  - destruct (Hall 0 3) as (v & Hv & (l & _ & Hl) & _); [lia|lia|].
    exists g', v. split; [exact Hg|]. split; [exact Hv|]. by exists l.
Defined.

Example shortest_0_3 :
  (g ← compute_floyd_warshall GraphsExample.graph; get g 0 3) = Some (Some 14%N).
Proof. vm_compute. reflexivity. Qed.

(** An empty matrix has no row of which the length could be compared. *)
Example empty_graph_panics : with_ (T := Distance) [] (fun _ => ""%string) = None.
Proof. reflexivity. Qed.

End Graphs.
